(* ===== verification/_CoqProject ===== *)
-Q . S2P
Prelude.v
Status.v
Hoare.v
Crc32c.v
Layout.v
Format.v
FormatFacts.v
Codec.v
PackBitsFacts.v
Lz4.v
Lz4Facts.v
Storage.v
MemoryStorage.v
MemoryStorageFacts.v
FileStorage.v
RandomId.v
FileStorageFacts.v
FileNames.v
FileSample.v
DiskSample.v
RingTypes.v
RingWriter.v
RingReader.v
RingOpen.v
RingRules.v
RingHealth.v
RingGeometry.v
RingInv.v
RingWriterFacts.v
RingCalls.v
RingDisk.v
RingScan.v
RingLog.v
RingRefine.v
RingRead.v
RingCrash.v
RingStored.v
RingQuery.v
RingWhole.v
RingVolume.v
RingOpenFacts.v
RingFormatFacts.v
RingReopen.v
RingReadOnly.v
RingLife.v
RingSample.v
RecordProfile.v
RecordFacts.v
RingSession.v
Tools.v
ToolsFacts.v
Examples.v
ExamplesFacts.v
LoadGen.v
LoadGenFacts.v
LoadGenQuery.v
LoadGenReader.v
LoadSample.v
RingErrors.v
AsyncWriter.v
AsyncSystem.v
AsyncFacts.v
AsyncFlow.v
AsyncInv.v
ExamplesAsync.v
ExamplesAsyncFacts.v
ExamplesAsyncEnds.v
AsyncSample.v
PropsFormat.v
PropsStorage.v
PropsFile.v
PropsRing.v
PropsQuery.v
PropsReopen.v
PropsTools.v
PropsExamples.v
PropsLoad.v
PropsRecord.v
PropsAsync.v
