(* ===== verification/Prelude.v ===== *)
(** * TFDB verification library

    TFDB keeps an append-only telemetry log in a ring of fixed-size
    partitions on a block device, a file or memory. This library models the
    C++ implementation (src/, include/tfdb/, tools/ and examples/) as executable
    definitions and proves what makes it correct. Everything is proved without axioms.

    ** The program and its model

    - Status values (include/tfdb/status.hpp): [Status]. A function returning
      [Status] with an out-parameter is a [result]; a method that mutates its
      object is a [prog], which keeps the mutations made before an early
      return. [Hoare] has the weakest-precondition rules for it.
    - Media format (src/internal_format.cpp): [Crc32c] is the checksum and
      its bit-serial reference, [Layout] the little-endian field calculus,
      [Format] the five on-media structures with encoders and decoders,
      [FormatFacts] their round trips.
    - Codecs (src/codec.cpp): [Codec] (interface, none, PackBits) and [Lz4],
      every access of an untrusted buffer explicit; [PackBitsFacts] and
      [Lz4Facts] relate them to their token grammars.
    - Storage (include/tfdb/storage.hpp, src/storage_posix.cpp): [Storage] is
      the virtual interface as a type class, [StorageModel] the contract the
      store relies on, with [read_exact] and [write_exact]. [MemoryStorage]
      is the fault-injecting memory backend with its observation hook and the
      counting decorator, and [MemoryStorageFacts] shows that they meet the
      contract. [FileStorage] is
      the POSIX backend over parameters for the system calls, and
      [FileStorageFacts] shows that it meets the contract when they behave.
      [FileNames] follows a file by its name through close and reopen.
    - Ring store (src/ring_store.cpp, include/tfdb/ring_store.hpp): the state
      [Impl] with its options and geometry is [RingTypes]; append, publish,
      checkpoint, rotate and close are [RingWriter]; the scan, index loading,
      [read_block] and queries are [RingReader]; format and recovery are
      [RingOpen]; [RandomId] draws their identifiers from getrandom.
    - Record profiles (src/record_profile.cpp): [RecordProfile],
      [RecordFacts].
    - Asynchronous writer (src/async_writer.cpp): [AsyncWriter] has each
      critical section of the mutex, [AsyncSystem] their interleavings with
      any number of clients and one background thread over a store.
    - Command line tools (tools/common.hpp, tfdb_format, tfdb_inspect,
      tfdb_verify and tfdb_dump): [Tools], each [main] with its arguments, the
      kernel and the output streams; [ToolsFacts].
    - Load generator (tools/tfdb_loadgen.cpp): [LoadGen] has the options, the
      generated workload, the latency samples, the short-write decorator, the
      persistence oracle, the two query passes, the synchronous run and the
      concurrent reader; [LoadGenFacts], [LoadGenQuery], [LoadGenReader].
    - Example programs (examples/quickstart.cpp, examples/async_writer.cpp):
      [Examples] and [ExamplesAsync], each [main] over the system calls; the
      second with its two threads under an explicit schedule.

    A client calls the ring store directly or through the asynchronous
    writer; the store reads and writes through [Storage], encodes with the
    media format and compresses with a registered codec; record profiles sit
    on the store's checked append and block query. Client theorems are proved
    against the classes [Storage], [StorageModel], [ReliableReads] and
    [CodecLaws], and the backends and codecs are instances.

    ** What the theorems show

    - [RingHealth], [RingErrors]: on any backend, the lock-free mirrors equal
      the state, a fault is latched and an error is never [ok].
    - [RingGeometry], [RingInv], [RingWriterFacts], [RingCalls]: the writer
      invariant [winv], kept by every call on every path.
    - [RingDisk], [RingScan], [RingLog], [RingRead], [RingCrash]: the frames
      of a partition on the media, that the scan finds exactly the longest
      valid chain, that published blocks read back, and that a checkpoint
      makes them durable.
    - [RingStored], [RingQuery], [RingWhole], [RingVolume]: all partitions
      together. [ring] says that the whole catalog is on the media; [vstep]
      is the abstract volume; [run_call_vrefines] is the refinement, and
      queries show exactly the blocks of the ring.
    - [RingOpenFacts], [RingFormatFacts], [RingReopen], [RingReadOnly],
      [RingLife]: what [format] leaves, what [open] accepts, that a successful
      open establishes [winv] on any media, and that opening the media of a
      ring, for reading or for writing, finds the ring again. [RingSession]
      follows one writer from a blank volume through appends, checkpoints and
      close to the reader of its records.
    - [ToolsFacts], [LoadGenFacts], [LoadGenQuery], [LoadGenReader]: printed
      numbers are read back, the tools show the blocks of a checkpointed
      volume, the oracle of the load generator sees exact writes and expects
      what a query collects, the concurrent reader accepts the workload.
    - [AsyncFacts], [AsyncFlow], [AsyncInv]: in every interleaving accepted
      records flow in order, once, into the store; barriers, stop and wake-up.
    - [ExamplesFacts], [ExamplesAsyncFacts], [ExamplesAsyncEnds]: the example
      programs end to end, from the file they create to what they read back
      and print; the asynchronous one for every schedule of its threads, none
      of which gets stuck.
    - [RingSample], [FileSample], [DiskSample], [LoadSample], [AsyncSample]:
      concrete volumes, kernels and runs on which the theorems are
      instantiated.
    - [PropsFormat], [PropsStorage], [PropsFile], [PropsRing], [PropsQuery],
      [PropsReopen], [PropsTools], [PropsLoad], [PropsRecord], [PropsAsync],
      [PropsExamples]: the properties themselves.

    ** Bounds and fuel

    Machine integers are [Z] with wrap-around written out ([u8] .. [u64]);
    fields read from the media are in range by construction. Loops whose
    recursion is not structural take fuel: the scan one unit per remaining
    alignment quantum, the codecs and record decoder one per input byte plus
    one, the exact transfers one per byte plus the interrupt retries, the
    identifiers one per byte and per fruitless draw ([dry]). That the fuel is
    enough is proved for each, so exhausted fuel never hides a behaviour. The
    asynchronous example has no result while its schedule is too short, and
    every schedule has a continuation that is long enough. The writer theorems assume fewer than 2^64 records in a run
    (the sequence does not wrap) and a worst block that fits 32 bits; the
    properties [huge_payload_rejects_index] and [oversize_block_faults] say
    what happens beyond.

    Recovery theorems assume that no bytes behind the last frame of the
    active partition happen to be a valid next frame ([tail_clear]) and, for a
    formatted volume, that no slot claims to belong to it; a checksum cannot
    exclude either.

    The example programs are shown over kernels that keep the contracts of
    their calls: [PosixModel] and [PosixReliable] for an open file,
    [PosixFiles] for names (a file opened again by its name has the contents
    it was closed with, a new file is zero), [EntropyModel] for getrandom.
    [DiskSample] is a kernel that keeps them all.

    ** Not modelled

    The kernel behind the system calls (parameters of [FileStorage] and
    [RandomId]), a hook of the memory backend that installs a hook, empty
    [std::function] visitors and null output pointers, the timing of condition
    variables (any interleaving is allowed), exceptions other than those the
    background thread handles and those the example programs throw, and the
    version string; of the load generator its asynchronous mode, the threads
    around the concurrent reader, the timing and the report. A query runs outside the
    writer mutex in the code and is one call here; the asynchronous writer's
    thread is the only user of its store. *)

From stdpp Require Export base numbers list strings relations.
From Stdlib Require Export ZArith Lia.

#[global] Open Scope Z_scope.

(** ** Machine integers

    A [w]-bit unsigned integer is a [Z]; wrap-around is written out with
    [u8] .. [u64]. *)

Definition u8 (z : Z) : Z := z mod 2 ^ 8.
Definition u16 (z : Z) : Z := z mod 2 ^ 16.
Definition u32 (z : Z) : Z := z mod 2 ^ 32.
Definition u64 (z : Z) : Z := z mod 2 ^ 64.

Definition UINT16_MAX : Z := 2 ^ 16 - 1.
Definition UINT32_MAX : Z := 2 ^ 32 - 1.
Definition UINT64_MAX : Z := 2 ^ 64 - 1.
Definition INT64_MAX : Z := 2 ^ 63 - 1.
Definition INT64_MIN : Z := - 2 ^ 63.
Definition SIZE_MAX : Z := UINT64_MAX.

Definition is_u8 (z : Z) : Prop := 0 <= z < 2 ^ 8.
Definition is_u16 (z : Z) : Prop := 0 <= z < 2 ^ 16.
Definition is_u32 (z : Z) : Prop := 0 <= z < 2 ^ 32.
Definition is_u64 (z : Z) : Prop := 0 <= z < 2 ^ 64.
Definition is_i64 (z : Z) : Prop := - 2 ^ 63 <= z < 2 ^ 63.

#[export] Instance is_u8_dec z : Decision (is_u8 z).
Proof. unfold is_u8. apply _. Defined.
#[export] Instance is_u16_dec z : Decision (is_u16 z).
Proof. unfold is_u16. apply _. Defined.
#[export] Instance is_u32_dec z : Decision (is_u32 z).
Proof. unfold is_u32. apply _. Defined.
#[export] Instance is_u64_dec z : Decision (is_u64 z).
Proof. unfold is_u64. apply _. Defined.
#[export] Instance is_i64_dec z : Decision (is_i64 z).
Proof. unfold is_i64. apply _. Defined.

Create HintDb tfdb.

(** [zlia] is [lia] after the width predicates and constants are unfolded. *)
Ltac zunfold :=
  unfold is_u8, is_u16, is_u32, is_u64, is_i64, SIZE_MAX, UINT16_MAX,
    UINT32_MAX, UINT64_MAX, INT64_MAX, INT64_MIN in *.
Ltac zlits :=
  change (Z.of_nat 2) with 2 in *; change (Z.of_nat 4) with 4 in *;
  change (Z.of_nat 8) with 8 in *.
#[export] Ltac Zify.zify_pre_hook ::= zlits.
Ltac zlia := zunfold; lia.

Lemma u8_range z : is_u8 (u8 z).
Proof. apply Z.mod_pos_bound. lia. Qed.
Lemma u16_range z : is_u16 (u16 z).
Proof. apply Z.mod_pos_bound. lia. Qed.
Lemma u32_range z : is_u32 (u32 z).
Proof. apply Z.mod_pos_bound. lia. Qed.
Lemma u64_range z : is_u64 (u64 z).
Proof. apply Z.mod_pos_bound. lia. Qed.
Lemma u8_small z : is_u8 z -> u8 z = z.
Proof. apply Z.mod_small. Qed.
Lemma u16_small z : is_u16 z -> u16 z = z.
Proof. apply Z.mod_small. Qed.
Lemma u32_small z : is_u32 z -> u32 z = z.
Proof. apply Z.mod_small. Qed.
Lemma u64_small z : is_u64 z -> u64 z = z.
Proof. apply Z.mod_small. Qed.
#[export] Hint Resolve u8_range u16_range u32_range u64_range : tfdb.

(** Bitwise extensionality on nonnegative indices. *)
Lemma Z_bits_ext a b : (forall i, 0 <= i -> Z.testbit a i = Z.testbit b i) -> a = b.
Proof. intros H. apply Z.bits_inj_iff'. exact H. Qed.

Lemma testbit_high a n i : 0 <= n -> 0 <= a < 2 ^ n -> n <= i -> Z.testbit a i = false.
Proof.
  intros Hn Ha Hi. rewrite <- (Z.mod_small a (2 ^ n)) by lia.
  by apply Z.mod_pow2_bits_high.
Qed.

Lemma lxor_range a b n :
  0 <= n -> 0 <= a < 2 ^ n -> 0 <= b < 2 ^ n -> 0 <= Z.lxor a b < 2 ^ n.
Proof.
  intros Hn Ha Hb.
  assert (H : Z.lxor a b = Z.lxor a b mod 2 ^ n).
  { apply Z_bits_ext. intros i Hi. destruct (decide (i < n)).
    - by rewrite Z.mod_pow2_bits_low by lia.
    - rewrite Z.mod_pow2_bits_high by lia. rewrite Z.lxor_spec.
      by rewrite !(testbit_high _ n) by lia. }
  rewrite H. apply Z.mod_pos_bound. lia.
Qed.

Lemma lor_range a b n :
  0 <= n -> 0 <= a < 2 ^ n -> 0 <= b < 2 ^ n -> 0 <= Z.lor a b < 2 ^ n.
Proof.
  intros Hn Ha Hb.
  assert (H : Z.lor a b = Z.lor a b mod 2 ^ n).
  { apply Z_bits_ext. intros i Hi. destruct (decide (i < n)).
    - by rewrite Z.mod_pow2_bits_low by lia.
    - rewrite Z.mod_pow2_bits_high by lia. rewrite Z.lor_spec.
      by rewrite !(testbit_high _ n) by lia. }
  rewrite H. apply Z.mod_pos_bound. lia.
Qed.

Lemma land_range a b n : 0 <= n -> 0 <= b < 2 ^ n -> 0 <= Z.land a b < 2 ^ n.
Proof.
  intros Hn Hb.
  assert (H : Z.land a b = Z.land a b mod 2 ^ n).
  { apply Z_bits_ext. intros i Hi. destruct (decide (i < n)).
    - by rewrite Z.mod_pow2_bits_low by lia.
    - rewrite Z.mod_pow2_bits_high by lia. rewrite Z.land_spec.
      rewrite (testbit_high b n) by lia. apply andb_false_r. }
  rewrite H. apply Z.mod_pos_bound. lia.
Qed.

Lemma shiftr_range a n k :
  0 <= k -> 0 <= n -> 0 <= a < 2 ^ (n + k) -> 0 <= Z.shiftr a k < 2 ^ n.
Proof.
  intros Hk Hn Ha. rewrite Z.shiftr_div_pow2 by lia. split.
  - apply Z.div_pos; lia.
  - apply Z.div_lt_upper_bound; [lia|]. rewrite <- Z.pow_add_r by lia.
    rewrite (Z.add_comm k n). lia.
Qed.

(** ** Lists indexed by [Z]

    Buffers are lists; the code indexes them with unsigned 64-bit offsets. *)

Section ListZ.
Context {A : Type}.
Implicit Types (l d : list A) (i n off : Z).

Definition len (l : list A) : Z := Z.of_nat (length l).
Definition takeZ (n : Z) (l : list A) : list A := take (Z.to_nat n) l.
Definition dropZ (n : Z) (l : list A) : list A := drop (Z.to_nat n) l.

(** Bytes [off, off+n) of a buffer. *)
Definition slice (off n : Z) (l : list A) : list A := takeZ n (dropZ off l).

(** Copy [d] over the buffer at [off]. *)
Definition splice (off : Z) (d l : list A) : list A :=
  takeZ off l ++ d ++ dropZ (off + len d) l.

Lemma len_nonneg l : 0 <= len l.
Proof. unfold len. lia. Qed.
Lemma len_nil : len (@nil A) = 0.
Proof. reflexivity. Qed.
Lemma len_cons x l : len (x :: l) = 1 + len l.
Proof. unfold len. simpl. lia. Qed.
Lemma len_app l d : len (l ++ d) = len l + len d.
Proof. unfold len. rewrite length_app. lia. Qed.
Lemma len_takeZ n l : len (takeZ n l) = Z.min (Z.max 0 n) (len l).
Proof. unfold len, takeZ. rewrite length_take. lia. Qed.
Lemma len_dropZ n l : len (dropZ n l) = Z.max 0 (len l - Z.max 0 n).
Proof. unfold len, dropZ. rewrite length_drop. lia. Qed.
Lemma len_slice off n l :
  0 <= off -> 0 <= n -> off + n <= len l -> len (slice off n l) = n.
Proof. intros. unfold slice. rewrite len_takeZ, len_dropZ. lia. Qed.
Lemma len_splice off d l :
  0 <= off -> off + len d <= len l -> len (splice off d l) = len l.
Proof.
  intros. unfold splice. rewrite !len_app, len_takeZ, len_dropZ.
  pose proof (len_nonneg d). lia.
Qed.
Lemma len_replicate (k : nat) (x : A) : len (replicate k x) = Z.of_nat k.
Proof. unfold len. by rewrite length_replicate. Qed.
Lemma len_zero_nil l : len l = 0 -> l = [].
Proof. destruct l; [done|]. rewrite len_cons. pose proof (len_nonneg l). lia. Qed.

Lemma takeZ_all n l : len l <= n -> takeZ n l = l.
Proof. intros. apply take_ge. unfold len in *. lia. Qed.
Lemma takeZ_nonpos n l : n <= 0 -> takeZ n l = [].
Proof. intros. unfold takeZ. by replace (Z.to_nat n) with 0%nat by lia. Qed.
Lemma dropZ_nonpos n l : n <= 0 -> dropZ n l = l.
Proof. intros. unfold dropZ. by replace (Z.to_nat n) with 0%nat by lia. Qed.
Lemma dropZ_all n l : len l <= n -> dropZ n l = [].
Proof. intros. apply drop_ge. unfold len in *. lia. Qed.
Lemma takeZ_dropZ n l : takeZ n l ++ dropZ n l = l.
Proof. apply take_drop. Qed.
Lemma takeZ_app n l d :
  takeZ n (l ++ d) = takeZ n l ++ takeZ (n - len l) d.
Proof.
  unfold takeZ, len. rewrite take_app.
  f_equal. f_equal. lia.
Qed.
Lemma dropZ_app n l d :
  dropZ n (l ++ d) = dropZ n l ++ dropZ (n - len l) d.
Proof. unfold dropZ, len. rewrite drop_app. f_equal. f_equal. lia. Qed.
Lemma dropZ_dropZ a b l : 0 <= a -> 0 <= b -> dropZ a (dropZ b l) = dropZ (b + a) l.
Proof. intros. unfold dropZ. rewrite drop_drop. f_equal. lia. Qed.
Lemma takeZ_takeZ a b l : takeZ a (takeZ b l) = takeZ (Z.min a b) l.
Proof. unfold takeZ. rewrite take_take. f_equal. lia. Qed.
Lemma dropZ_takeZ a b l :
  0 <= a -> dropZ a (takeZ b l) = takeZ (b - a) (dropZ a l).
Proof.
  intros. unfold dropZ, takeZ. rewrite skipn_firstn_comm.
  f_equal. lia.
Qed.

Lemma slice_all l : slice 0 (len l) l = l.
Proof. unfold slice. rewrite dropZ_nonpos by lia. by apply takeZ_all. Qed.
Lemma slice_app_l off n l d :
  0 <= off -> off + n <= len l -> slice off n (l ++ d) = slice off n l.
Proof.
  intros. unfold slice. rewrite dropZ_app, takeZ_app.
  rewrite (takeZ_nonpos (n - _)); [by rewrite app_nil_r|].
  rewrite len_dropZ. lia.
Qed.
Lemma slice_app_r off n l d :
  len l <= off -> slice off n (l ++ d) = slice (off - len l) n d.
Proof.
  intros. unfold slice. rewrite dropZ_app, (dropZ_all off l) by done.
  done.
Qed.
Lemma slice_slice o1 n1 o2 n2 l :
  0 <= o1 -> 0 <= n1 -> 0 <= o2 -> o1 + n1 <= n2 ->
  slice o1 n1 (slice o2 n2 l) = slice (o2 + o1) n1 l.
Proof.
  intros. unfold slice. rewrite dropZ_takeZ by lia.
  rewrite takeZ_takeZ, dropZ_dropZ by lia. f_equal. lia.
Qed.
Lemma slice_add off a b l :
  0 <= off -> 0 <= a -> 0 <= b ->
  slice off (a + b) l = slice off a l ++ slice (off + a) b l.
Proof.
  intros. unfold slice.
  rewrite <- (takeZ_dropZ a (takeZ (a + b) (dropZ off l))).
  rewrite takeZ_takeZ, dropZ_takeZ, dropZ_dropZ by lia.
  f_equal; f_equal; lia.
Qed.
Lemma slice_splice_same off d l :
  0 <= off -> off + len d <= len l -> slice off (len d) (splice off d l) = d.
Proof.
  intros. unfold splice. pose proof (len_nonneg d).
  rewrite slice_app_r by (rewrite len_takeZ; lia).
  rewrite len_takeZ. replace (off - _) with 0 by lia.
  rewrite slice_app_l by lia. apply slice_all.
Qed.
Lemma slice_splice_before o n off d l :
  0 <= o -> 0 <= n -> o + n <= off -> off <= len l ->
  slice o n (splice off d l) = slice o n l.
Proof.
  intros. unfold splice.
  rewrite slice_app_l by (rewrite ?len_takeZ; lia).
  unfold slice. rewrite dropZ_takeZ, takeZ_takeZ by lia. f_equal. lia.
Qed.
Lemma slice_splice_after o n off d l :
  0 <= off -> off + len d <= o -> off + len d <= len l ->
  slice o n (splice off d l) = slice o n l.
Proof.
  intros. unfold splice. pose proof (len_nonneg d).
  rewrite slice_app_r by (rewrite len_takeZ; lia).
  rewrite len_takeZ. rewrite slice_app_r by lia.
  unfold slice. rewrite dropZ_dropZ by lia. f_equal. f_equal. lia.
Qed.
Lemma splice_app_l off d l r :
  0 <= off -> off + len d <= len l -> splice off d (l ++ r) = splice off d l ++ r.
Proof.
  intros. unfold splice. pose proof (len_nonneg d).
  rewrite takeZ_app, dropZ_app, (takeZ_nonpos (off - _)), (dropZ_nonpos (_ - len l)) by lia.
  by rewrite app_nil_r, <- !app_assoc.
Qed.
Lemma splice_app_r off d l r :
  len l <= off -> splice off d (l ++ r) = l ++ splice (off - len l) d r.
Proof.
  intros. unfold splice. pose proof (len_nonneg d).
  rewrite takeZ_app, dropZ_app, (takeZ_all off l), (dropZ_all _ l) by lia.
  rewrite <- app_assoc. simpl. replace (off + len d - len l) with (off - len l + len d) by lia.
  done.
Qed.
Lemma slice_to_end off n l :
  0 <= off -> off <= len l -> len l - off <= n -> slice off n l = dropZ off l.
Proof. intros. unfold slice. apply takeZ_all. rewrite len_dropZ. lia. Qed.
Lemma slice_0_takeZ n l : slice 0 n l = takeZ n l.
Proof. unfold slice. by rewrite dropZ_nonpos by lia. Qed.

Lemma Forall_takeZ (P : A -> Prop) n l : Forall P l -> Forall P (takeZ n l).
Proof. apply Forall_take. Qed.
Lemma Forall_dropZ (P : A -> Prop) n l : Forall P l -> Forall P (dropZ n l).
Proof. apply Forall_drop. Qed.
Lemma Forall_slice (P : A -> Prop) off n l : Forall P l -> Forall P (slice off n l).
Proof. intros. by apply Forall_takeZ, Forall_dropZ. Qed.
Lemma Forall_splice (P : A -> Prop) off d l :
  Forall P d -> Forall P l -> Forall P (splice off d l).
Proof.
  intros. apply Forall_app; split; [by apply Forall_takeZ|].
  apply Forall_app; split; [done|by apply Forall_dropZ].
Qed.
End ListZ.

Create Rewrite HintDb len.
#[export] Hint Rewrite @len_nil @len_cons @len_app @len_replicate : len.
#[export] Hint Resolve len_nonneg Forall_takeZ Forall_dropZ Forall_slice Forall_splice : tfdb.

(** [len_lia] normalises buffer lengths and closes the arithmetic. *)
Ltac len_lia :=
  autorewrite with len in *;
  repeat match goal with
  | |- context [len ?l] =>
      lazymatch goal with
      | _ : 0 <= len l |- _ => fail
      | _ => pose proof (len_nonneg l)
      end
  | _ : context [len ?l] |- _ =>
      lazymatch goal with
      | _ : 0 <= len l |- _ => fail
      | _ => pose proof (len_nonneg l)
      end
  end; zlia.

(** A byte buffer: every element is an 8-bit value. *)
Abbreviation bytes := (list Z).
Definition bytes_ok (l : bytes) : Prop := Forall is_u8 l.

Definition byte_at (l : bytes) (i : Z) : Z := nth (Z.to_nat i) l 0.

Lemma byte_at_ok l i : bytes_ok l -> is_u8 (byte_at l i).
Proof.
  intros H. unfold byte_at. destruct (nth_in_or_default (Z.to_nat i) l 0) as [Hi| ->].
  - unfold bytes_ok in H. rewrite Forall_forall in H. apply H. by apply list_elem_of_In.
  - zlia.
Qed.

Lemma byte_at_cons_0 x l : byte_at (x :: l) 0 = x.
Proof. reflexivity. Qed.

Lemma byte_at_slice l off n i :
  0 <= off -> 0 <= i < n -> byte_at (slice off n l) i = byte_at l (off + i).
Proof.
  intros. unfold byte_at, slice, takeZ, dropZ.
  rewrite !nth_lookup. rewrite lookup_take_lt by lia. rewrite lookup_drop.
  do 2 f_equal. lia.
Qed.

Lemma byte_at_app_l l d i : 0 <= i < len l -> byte_at (l ++ d) i = byte_at l i.
Proof. intros. unfold byte_at, len in *. rewrite app_nth1 by lia. done. Qed.

Lemma byte_at_app_r l d i :
  len l <= i -> byte_at (l ++ d) i = byte_at d (i - len l).
Proof.
  intros. unfold byte_at, len in *. rewrite app_nth2 by lia. f_equal. lia.
Qed.

Lemma byte_at_dropZ l off i :
  0 <= off -> 0 <= i -> byte_at (dropZ off l) i = byte_at l (off + i).
Proof.
  intros. unfold byte_at, dropZ. rewrite !nth_lookup, lookup_drop.
  do 2 f_equal. lia.
Qed.

Lemma byte_at_takeZ l n i : 0 <= i < n -> byte_at (takeZ n l) i = byte_at l i.
Proof.
  intros. unfold byte_at, takeZ. rewrite !nth_lookup. by rewrite lookup_take_lt by lia.
Qed.

Lemma dropZ_byte_at l off :
  0 <= off < len l -> dropZ off l = byte_at l off :: dropZ (off + 1) l.
Proof.
  intros. unfold dropZ, byte_at, len in *.
  destruct (drop (Z.to_nat off) l) as [|x r] eqn:E.
  { apply (f_equal length) in E. rewrite length_drop in E. simpl in E. lia. }
  rewrite nth_lookup. rewrite <- (Nat.add_0_r (Z.to_nat off)) at 1.
  rewrite <- lookup_drop, E. simpl. f_equal.
  replace (Z.to_nat (off + 1)) with (Z.to_nat off + 1)%nat by lia.
  rewrite <- drop_drop, E. reflexivity.
Qed.

Lemma byte_at_ext l d :
  len l = len d -> (forall i, 0 <= i < len l -> byte_at l i = byte_at d i) -> l = d.
Proof.
  revert d. induction l as [|x l IH]; intros [|y d] Hl H; autorewrite with len in Hl;
    try (len_lia); [done|].
  f_equal.
  - specialize (H 0). unfold byte_at in H. simpl in H. apply H. len_lia.
  - apply IH; [lia|]. intros i Hi. specialize (H (i + 1)).
    unfold byte_at in *. replace (Z.to_nat (i + 1)) with (S (Z.to_nat i)) in H by lia.
    simpl in H. apply H. len_lia.
Qed.

(** ** Record update

    [r <| f := v |>] and [r <| f ::= g |>] rebuild a record from its
    projections with one field replaced. A record type opts in by an [Eta]
    instance that lists its projections. *)

Class Eta (R : Type) := eta_of : R -> R.
Class Setter {R E : Type} (getter : R -> E) := setter_of : (E -> E) -> R -> R.

Ltac solve_setter :=
  match goal with
  | |- @Setter ?R ?E ?g =>
      let h := constr:(_ : Eta R) in
      let h' := eval hnf in h in
      let x := constr:(fun (f : E -> E) (r : R) => ltac:(
        let body := eval cbv beta in (h' r) in
        let gr := eval cbv beta in (g r) in
        match eval pattern gr in body with
        | ?F _ => let res := eval cbv beta in (F (f gr)) in exact res
        end)) in
      exact x
  end.
#[export] Hint Extern 1 (Setter _) => solve_setter : typeclass_instances.

Definition set {R E : Type} (getter : R -> E) {s : Setter getter} (f : E -> E) (r : R) : R := s f r.
Arguments set {R E} getter {s} f r /.

Notation "r <| f := v |>" := (set f (fun _ => v) r)
  (at level 1, f at level 0, left associativity, format "r  <| f  :=  v |>").
Notation "r <| f ::= g |>" := (set f g r)
  (at level 1, f at level 0, left associativity, format "r  <| f  ::=  g |>").
