(* ===== verification/Status.v ===== *)
(** * Status values and the error-and-state monad

    [StatusCode.t] and [Status] are the types of include/tfdb/status.hpp.
    A C++ function that returns a [Status] and fills an out-parameter is a
    Rocq function returning [result A]; a method that also mutates its object
    is a [prog S A]: the state is threaded through success and failure alike,
    since the code keeps every mutation made before an early return. *)

From S2P Require Import Prelude.

Module StatusCode.
Inductive t : Set :=
| ok
| invalid_argument
| out_of_range
| io_error
| interrupted
| no_space
| corrupt
| unsupported
| not_found
| busy
| overwritten
| generation_exhausted
| closed
| internal_error.
End StatusCode.

#[export] Instance StatusCode_eq_dec : EqDecision StatusCode.t.
Proof. solve_decision. Defined.

Definition code_eqb (a b : StatusCode.t) : bool := bool_decide (a = b).

Record Status := mkStatus { code : StatusCode.t; message : string }.

#[export] Instance Status_eq_dec : EqDecision Status.
Proof. solve_decision. Defined.

Definition Status_Ok : Status := mkStatus StatusCode.ok "".
Definition Status_Error (c : StatusCode.t) (m : string) : Status := mkStatus c m.
Definition status_ok (s : Status) : bool := code_eqb (code s) StatusCode.ok.

Definition status_code_name (c : StatusCode.t) : string :=
  match c with
  | StatusCode.ok => "ok"
  | StatusCode.invalid_argument => "invalid_argument"
  | StatusCode.out_of_range => "out_of_range"
  | StatusCode.io_error => "io_error"
  | StatusCode.interrupted => "interrupted"
  | StatusCode.no_space => "no_space"
  | StatusCode.corrupt => "corrupt"
  | StatusCode.unsupported => "unsupported"
  | StatusCode.not_found => "not_found"
  | StatusCode.busy => "busy"
  | StatusCode.overwritten => "overwritten"
  | StatusCode.generation_exhausted => "generation_exhausted"
  | StatusCode.closed => "closed"
  | StatusCode.internal_error => "internal_error"
  end.

(** A [Status] together with the value an out-parameter receives on success. *)
Inductive result (A : Type) : Type :=
| Ok (a : A)
| Err (s : Status).
Arguments Ok {A} a.
Arguments Err {A} s.

Definition is_ok {A} (r : result A) : bool :=
  match r with Ok _ => true | Err _ => false end.

Definition error {A} (c : StatusCode.t) (m : string) : result A := Err (Status_Error c m).

#[export] Instance result_ret : MRet result := fun A a => Ok a.
#[export] Instance result_bind : MBind result := fun A B k r =>
  match r with Ok a => k a | Err s => Err s end.

(** [check b c m k]: the early return [if (b) return Status::Error(c, m);]. *)
Definition check {A} (b : bool) (c : StatusCode.t) (m : string) (k : result A) : result A :=
  if b then error c m else k.

(** ** Programs with state and errors *)

Definition prog (S A : Type) : Type := S -> result A * S.

#[export] Instance prog_ret S : MRet (prog S) := fun A a s => (Ok a, s).
#[export] Instance prog_bind S : MBind (prog S) := fun A B k m s =>
  match m s with
  | (Ok a, s') => k a s'
  | (Err e, s') => (Err e, s')
  end.

Section Prog.
Context {S : Type}.
Definition throw {A} (st : Status) : prog S A := fun s => (Err st, s).
Definition throw_error {A} (c : StatusCode.t) (m : string) : prog S A :=
  throw (Status_Error c m).
Definition get : prog S S := fun s => (Ok s, s).
Definition modify (f : S -> S) : prog S unit := fun s => (Ok tt, f s).
Definition when (b : bool) (m : prog S unit) : prog S unit :=
  if b then m else mret tt.
(** The status is a value, as in [Status status = call();]. *)
Definition attempt {A} (m : prog S A) : prog S (result A) :=
  fun s => let '(r, s') := m s in (Ok r, s').
Definition lift_result {A} (r : result A) : prog S A := fun s => (r, s).
End Prog.

Lemma result_bind_Ok {A B} (k : A -> result B) r b :
  r ≫= k = Ok b <-> exists a, r = Ok a /\ k a = Ok b.
Proof. destruct r; naive_solver. Qed.

Lemma prog_bind_Ok {S A B} (k : A -> prog S B) (m : prog S A) s b s' :
  (m ≫= k) s = (Ok b, s') <-> exists a s1, m s = (Ok a, s1) /\ k a s1 = (Ok b, s').
Proof.
  unfold mbind, prog_bind. destruct (m s) as [[a|e] s1]; naive_solver.
Qed.

Lemma check_Ok {A} b c m (k : result A) a :
  check b c m k = Ok a <-> b = false /\ k = Ok a.
Proof. destruct b; unfold check, error; naive_solver. Qed.

(** Each status code prints as a different name. *)
Lemma status_code_name_inj c d : status_code_name c = status_code_name d -> c = d.
Proof. by destruct c, d. Qed.
