(* ===== verification/Hoare.v ===== *)
(** * Reasoning about [prog]

    [wp m Q E s]: running [m] from [s] ends in [Q] on success and in [E] on an
    early return. The rules below are used through [wp_step]/[wp_auto]. *)

From S2P Require Import Prelude Status.

Section Wp.
Context {S : Type}.

Definition wp {A} (m : prog S A) (Q : A -> S -> Prop) (E : Status -> S -> Prop) (s : S) : Prop :=
  match m s with
  | (Ok a, s') => Q a s'
  | (Err e, s') => E e s'
  end.

Lemma wp_conseq {A} (m : prog S A) (Q Q' : A -> S -> Prop) (E E' : Status -> S -> Prop) s :
  wp m Q E s -> (forall a s', Q a s' -> Q' a s') -> (forall e s', E e s' -> E' e s') ->
  wp m Q' E' s.
Proof. unfold wp. destruct (m s) as [[]]; auto. Qed.

Lemma wp_bind {A B} (m : prog S A) (k : A -> prog S B) Q E s :
  wp m (fun a => wp (k a) Q E) E s -> wp (m ≫= k) Q E s.
Proof. unfold wp, mbind, prog_bind. destruct (m s) as [[]]; auto. Qed.
Lemma wp_ret {A} (a : A) (Q : A -> S -> Prop) E s : Q a s -> wp (mret a) Q E s.
Proof. done. Qed.
Lemma wp_throw {A} st (Q : A -> S -> Prop) (E : Status -> S -> Prop) s :
  E st s -> wp (throw st) Q E s.
Proof. done. Qed.
Lemma wp_throw_error {A} c msg (Q : A -> S -> Prop) (E : Status -> S -> Prop) s :
  E (Status_Error c msg) s -> wp (throw_error c msg) Q E s.
Proof. done. Qed.
Lemma wp_get (Q : S -> S -> Prop) E s : Q s s -> wp get Q E s.
Proof. done. Qed.
Lemma wp_modify f (Q : unit -> S -> Prop) E s : Q tt (f s) -> wp (modify f) Q E s.
Proof. done. Qed.
Lemma wp_lift_result {A} (r : result A) (Q : A -> S -> Prop) (E : Status -> S -> Prop) s :
  (forall a, r = Ok a -> Q a s) -> (forall e, r = Err e -> E e s) -> wp (lift_result r) Q E s.
Proof. unfold wp, lift_result. destruct r; auto. Qed.
Lemma wp_attempt {A} (m : prog S A) (Q : result A -> S -> Prop) (E : Status -> S -> Prop) s :
  wp m (fun a => Q (Ok a)) (fun e => Q (Err e)) s -> wp (attempt m) Q E s.
Proof. unfold wp, attempt. by destruct (m s) as [[]]. Qed.
Lemma wp_when b (m : prog S unit) (Q : unit -> S -> Prop) (E : Status -> S -> Prop) s :
  (b = true -> wp m Q E s) -> (b = false -> Q tt s) -> wp (when b m) Q E s.
Proof. destruct b; intros H1 H2; [by apply H1|apply wp_ret; auto]. Qed.
Lemma wp_if {A} (b : bool) (m1 m2 : prog S A) Q E s :
  (b = true -> wp m1 Q E s) -> (b = false -> wp m2 Q E s) -> wp (if b then m1 else m2) Q E s.
Proof. destruct b; auto. Qed.

Lemma wp_and {A} (m : prog S A) (Q Q' : A -> S -> Prop) E E' s :
  wp m Q E s -> wp m Q' E' s -> wp m (fun a s' => Q a s' /\ Q' a s') (fun e s' => E e s' /\ E' e s') s.
Proof. unfold wp. destruct (m s) as [[]]; by split. Qed.
Lemma wp_implies {A} (m : prog S A) (P : Prop) (Q : A -> S -> Prop) (E : Status -> S -> Prop) s :
  (P -> wp m Q E s) -> wp m (fun a s' => P -> Q a s') (fun e s' => P -> E e s') s.
Proof. unfold wp. destruct (m s) as [[]]; auto. Qed.
Lemma wp_elim {A} (m : prog S A) Q E s r s' :
  wp m Q E s -> m s = (r, s') ->
  match r with Ok a => Q a s' | Err e => E e s' end.
Proof. unfold wp. intros H Hm. rewrite Hm in H. by destruct r. Qed.
End Wp.

(** One syntax-directed step. *)
Ltac wp_step :=
  lazymatch goal with
  | |- wp (mbind _ _) _ _ _ => apply wp_bind
  | |- wp (mret _) _ _ _ => apply wp_ret
  | |- wp (throw _) _ _ _ => apply wp_throw
  | |- wp (throw_error _ _) _ _ _ => apply wp_throw_error
  | |- wp get _ _ _ => apply wp_get
  | |- wp (modify _) _ _ _ => apply wp_modify
  | |- wp (lift_result _) _ _ _ => apply wp_lift_result; intros ? ?
  | |- wp (attempt _) _ _ _ => apply wp_attempt
  | |- wp (when _ _) _ _ _ => apply wp_when; intros ?
  | |- wp (if ?b then _ else _) _ _ _ => apply wp_if; intros ?
  | |- wp (match ?x with _ => _ end) _ _ _ => destruct x eqn:?
  | |- wp (let '(_, _) := ?x in _) _ _ _ => destruct x eqn:?
  end; cbv beta zeta.
Ltac wp_auto := repeat wp_step.
