(* ===== verification/Crc32c.v ===== *)
(** * CRC32C (src/internal_format.cpp, lines 102-132)

    The table-driven checksum of the media format, its bit-serial reference,
    and what it detects: any change confined to four consecutive bytes. *)

From S2P Require Import Prelude.

(** ** The code *)

Definition kCrc32cInit : Z := 0xffffffff.
Definition kCrc32cPoly : Z := 0x82f63b78.

(** One iteration of the table generator's inner loop. *)
Definition crc_bit (value : Z) : Z :=
  Z.lxor (Z.shiftr value 1) (if Z.odd value then kCrc32cPoly else 0).

Definition crc_table_entry (i : Z) : Z := Nat.iter 8 crc_bit i.

(** The static table built by the lambda in [crc32c_update]. *)
Definition crc_table : list Z := Eval vm_compute in map crc_table_entry (seqZ 0 256).

Definition crc_step (state b : Z) : Z :=
  Z.lxor (byte_at crc_table (Z.land (Z.lxor state b) 0xff)) (Z.shiftr state 8).

Definition crc32c_update (state : Z) (data : bytes) : Z := foldl crc_step state data.

Definition crc32c_finish (state : Z) : Z := Z.lxor state 0xffffffff.

Definition crc32c (data : bytes) : Z := crc32c_finish (crc32c_update kCrc32cInit data).

Definition crc32c_with_zeroed_field (data : bytes) (crc_offset : Z) : Z :=
  let state := crc32c_update kCrc32cInit (takeZ crc_offset data) in
  let state := crc32c_update state [0; 0; 0; 0] in
  crc32c_finish (crc32c_update state
    (slice (crc_offset + 4) (u64 (len data - crc_offset - 4)) data)).

(** ** Bit-serial reference *)

Definition crc_byte_ref (state b : Z) : Z := Nat.iter 8 crc_bit (Z.lxor state b).
Definition crc32c_ref (data : bytes) : Z :=
  Z.lxor (foldl crc_byte_ref 0xffffffff data) 0xffffffff.

Strategy expand [crc_byte_ref crc_table_entry].

(** ** The linear shift register *)

Lemma crc_table_lookup i : 0 <= i < 256 -> byte_at crc_table i = crc_table_entry i.
Proof.
  intros Hi.
  assert (H : forallb (fun j => byte_at crc_table j =? crc_table_entry j) (seqZ 0 256) = true)
    by (vm_compute; reflexivity).
  rewrite forallb_forall in H. apply Z.eqb_eq, H.
  apply list_elem_of_In, elem_of_seqZ. lia.
Qed.

Opaque crc_table.

Lemma crc_bit_range v : is_u32 v -> is_u32 (crc_bit v).
Proof.
  intros Hv. unfold crc_bit, is_u32. apply lxor_range; [lia| |].
  - pose proof (shiftr_range v 31 1). zlia.
  - destruct (Z.odd v); unfold kCrc32cPoly; lia.
Qed.

Lemma crc_iter_range n v : is_u32 v -> is_u32 (Nat.iter n crc_bit v).
Proof. intros. induction n; [done|]. by apply crc_bit_range. Qed.

Lemma odd_lxor a b : Z.odd (Z.lxor a b) = xorb (Z.odd a) (Z.odd b).
Proof. rewrite <- !Z.bit0_odd. apply Z.lxor_spec. Qed.

Lemma crc_bit_lxor a b : crc_bit (Z.lxor a b) = Z.lxor (crc_bit a) (crc_bit b).
Proof.
  unfold crc_bit. rewrite Z.shiftr_lxor, odd_lxor.
  set (p := kCrc32cPoly). apply Z_bits_ext. intros i Hi.
  rewrite !Z.lxor_spec.
  destruct (Z.odd a), (Z.odd b); simpl;
    rewrite ?Z.bits_0; destruct (Z.testbit p i), (Z.testbit _ i), (Z.testbit _ i); done.
Qed.

Lemma crc_iter_lxor n a b :
  Nat.iter n crc_bit (Z.lxor a b) = Z.lxor (Nat.iter n crc_bit a) (Nat.iter n crc_bit b).
Proof. induction n; simpl; [done|]. by rewrite IHn, crc_bit_lxor. Qed.

Lemma crc_bit_shiftl y k : 0 <= k -> crc_bit (Z.shiftl y (k + 1)) = Z.shiftl y k.
Proof.
  intros. unfold crc_bit.
  replace (Z.odd (Z.shiftl y (k + 1))) with false.
  2:{ rewrite <- Z.bit0_odd, Z.shiftl_spec_low by lia. done. }
  rewrite Z.lxor_0_r, Z.shiftr_shiftl_l by lia. f_equal. lia.
Qed.

Lemma crc_iter_shiftl n y : Nat.iter n crc_bit (Z.shiftl y (Z.of_nat n)) = y.
Proof.
  induction n as [|n IH]; [apply Z.shiftl_0_r|].
  rewrite Nat.iter_succ_r. rewrite Nat2Z.inj_succ, <- Z.add_1_r.
  rewrite crc_bit_shiftl by lia. apply IH.
Qed.

(** The register clocked once is injective: the polynomial's top bit records
    the bit that was shifted out. *)
Lemma crc_bit_inj a b : is_u32 a -> is_u32 b -> crc_bit a = crc_bit b -> a = b.
Proof.
  intros Ha Hb H.
  assert (Hodd : Z.odd a = Z.odd b).
  { apply (f_equal (fun z => Z.testbit z 31)) in H. unfold crc_bit in H.
    rewrite !Z.lxor_spec in H. rewrite !Z.shiftr_spec in H by lia.
    rewrite !(testbit_high _ 32 (31 + 1)) in H by zlia.
    destruct (Z.odd a), (Z.odd b); done. }
  unfold crc_bit in H. rewrite Hodd in H.
  apply (f_equal (fun z => Z.lxor z (if Z.odd b then kCrc32cPoly else 0))) in H.
  rewrite !Z.lxor_assoc, !Z.lxor_nilpotent, !Z.lxor_0_r in H.
  apply Z_bits_ext. intros i Hi. destruct (decide (i = 0)) as [->|].
  - by rewrite !Z.bit0_odd.
  - apply (f_equal (fun z => Z.testbit z (i - 1))) in H.
    rewrite !Z.shiftr_spec in H by lia. by replace (i - 1 + 1) with i in H by lia.
Qed.

Lemma crc_iter_inj n a b :
  is_u32 a -> is_u32 b -> Nat.iter n crc_bit a = Nat.iter n crc_bit b -> a = b.
Proof.
  intros Ha Hb. induction n as [|n IH]; simpl; [done|].
  intros H. apply IH, crc_bit_inj; auto using crc_iter_range.
Qed.

(** Splitting a register into its low byte and the rest. *)
Lemma low_byte_split x :
  0 <= x -> x = Z.lxor (Z.land x 0xff) (Z.shiftl (Z.shiftr x 8) 8).
Proof.
  intros Hx. apply Z_bits_ext. intros i Hi.
  rewrite Z.lxor_spec, Z.land_spec. change 0xff with (Z.ones 8).
  destruct (decide (i < 8)).
  - rewrite Z.ones_spec_low, Z.shiftl_spec_low by lia.
    by rewrite andb_true_r, xorb_false_r.
  - rewrite Z.ones_spec_high, Z.shiftl_spec_high, Z.shiftr_spec by lia.
    rewrite andb_false_r, xorb_false_l. f_equal. lia.
Qed.

Lemma shiftr_lxor_byte st b : is_u8 b -> Z.shiftr (Z.lxor st b) 8 = Z.shiftr st 8.
Proof.
  intros. rewrite Z.shiftr_lxor. rewrite (Z.shiftr_div_pow2 b) by lia.
  rewrite Z.div_small by zlia. apply Z.lxor_0_r.
Qed.

Lemma crc_step_ref st b : is_u32 st -> is_u8 b -> crc_step st b = crc_byte_ref st b.
Proof.
  intros Hst Hb. unfold crc_step, crc_byte_ref.
  assert (Hx : 0 <= Z.lxor st b < 2 ^ 32) by (apply lxor_range; zlia).
  rewrite (low_byte_split (Z.lxor st b)) at 2 by lia.
  rewrite crc_iter_lxor, (crc_iter_shiftl 8), shiftr_lxor_byte by done.
  f_equal. rewrite crc_table_lookup; [done|].
  replace 0xff with (Z.ones 8) by done.
  rewrite Z.land_ones by lia. apply Z.mod_pos_bound. lia.
Qed.

Lemma crc_step_range st b : is_u32 st -> is_u8 b -> is_u32 (crc_step st b).
Proof.
  intros. rewrite crc_step_ref by done. apply crc_iter_range, lxor_range; zlia.
Qed.

Lemma crc32c_update_range st data :
  is_u32 st -> bytes_ok data -> is_u32 (crc32c_update st data).
Proof.
  intros Hst Hd. revert st Hst. induction Hd; intros; simpl; [done|].
  apply IHHd. by apply crc_step_range.
Qed.

Lemma crc32c_init_range : is_u32 kCrc32cInit.
Proof. unfold kCrc32cInit. zlia. Qed.

Lemma crc32c_finish_range st : is_u32 st -> is_u32 (crc32c_finish st).
Proof. intros. apply lxor_range; zlia. Qed.

Lemma crc32c_range data : bytes_ok data -> is_u32 (crc32c data).
Proof.
  intros. by apply crc32c_finish_range, crc32c_update_range, H.
Qed.

Lemma crc32c_update_cons st b data :
  crc32c_update st (b :: data) = crc32c_update (crc_step st b) data.
Proof. reflexivity. Qed.

Lemma crc32c_update_app st a b :
  crc32c_update st (a ++ b) = crc32c_update (crc32c_update st a) b.
Proof. apply foldl_app. Qed.

Lemma crc32c_update_ref st data :
  is_u32 st -> bytes_ok data -> crc32c_update st data = foldl crc_byte_ref st data.
Proof.
  intros Hst Hd. revert st Hst. induction Hd; intros; simpl; [done|].
  rewrite crc_step_ref by done. apply IHHd. rewrite <- crc_step_ref by done.
  by apply crc_step_range.
Qed.

#[export] Hint Resolve crc32c_range crc32c_init_range crc32c_update_range : tfdb.

(** ** Burst errors

    Clocking in up to four bytes is the same as xoring their little-endian
    word into the register first. *)

Fixpoint le_word (w : bytes) : Z :=
  match w with [] => 0 | b :: w => Z.lxor b (Z.shiftl (le_word w) 8) end.

Lemma le_word_range w : bytes_ok w -> 0 <= le_word w < 2 ^ (8 * len w).
Proof.
  induction 1 as [|b w Hb Hw IH]; [cbv; intuition congruence|].
  simpl le_word. rewrite len_cons. apply lxor_range; [len_lia| |].
  - split; [zlia|]. apply Z.lt_le_trans with (2 ^ 8); [zlia|].
    apply Z.pow_le_mono_r; len_lia.
  - rewrite Z.shiftl_mul_pow2 by lia.
    replace (8 * (1 + len w)) with (8 * len w + 8) by lia.
    rewrite Z.pow_add_r by len_lia. nia.
Qed.

Lemma le_word_inj a b : bytes_ok a -> bytes_ok b -> len a = len b -> le_word a = le_word b -> a = b.
Proof.
  intros Ha. revert b. induction Ha as [|x a Hx Ha IH]; intros b Hb Hl H.
  - destruct b; [done|]. len_lia.
  - inversion Hb as [|y b' Hy Hb']; subst; [len_lia|].
    simpl in H. assert (Hlow : forall z w, is_u8 z -> Z.lxor z (Z.shiftl w 8) mod 2 ^ 8 = z).
    { intros z w Hz. apply Z_bits_ext. intros i Hi. destruct (decide (i < 8)).
      - rewrite Z.mod_pow2_bits_low, Z.lxor_spec, Z.shiftl_spec_low by lia.
        apply xorb_false_r.
      - rewrite Z.mod_pow2_bits_high by lia. symmetry. apply (testbit_high _ 8); zlia. }
    assert (x = y) as <- by (rewrite <- (Hlow x (le_word a)), <- (Hlow y (le_word b')); congruence).
    f_equal. apply IH; [done|len_lia|].
    apply (f_equal (Z.lxor x)) in H.
    rewrite <- !Z.lxor_assoc, !Z.lxor_nilpotent, !Z.lxor_0_l in H.
    apply (f_equal (fun z => Z.shiftr z 8)) in H.
    by rewrite !Z.shiftr_shiftl_l, !Z.shiftl_0_r in H by lia.
Qed.

Lemma crc_word st w :
  is_u32 st -> bytes_ok w ->
  crc32c_update st w = Nat.iter (8 * length w) crc_bit (Z.lxor st (le_word w)).
Proof.
  intros Hst Hw. revert st Hst. induction Hw as [|b w Hb Hw IH]; intros st Hst.
  - simpl. by rewrite Z.lxor_0_r.
  - simpl crc32c_update. unfold crc32c_update in IH. rewrite IH by (by apply crc_step_range).
    rewrite crc_step_ref by done. unfold crc_byte_ref. simpl length. simpl le_word.
    replace (8 * S (length w))%nat with (8 * length w + 8)%nat by lia.
    rewrite Nat.iter_add. f_equal. rewrite <- Z.lxor_assoc.
    by rewrite (crc_iter_lxor 8 (Z.lxor st b)), (crc_iter_shiftl 8).
Qed.

Lemma lxor_cancel_l s a b : Z.lxor s a = Z.lxor s b -> a = b.
Proof.
  intros H. apply (f_equal (Z.lxor s)) in H.
  by rewrite <- !Z.lxor_assoc, !Z.lxor_nilpotent, !Z.lxor_0_l in H.
Qed.

Lemma crc_word_inj st a b :
  is_u32 st -> bytes_ok a -> bytes_ok b -> len a = len b -> len a <= 4 ->
  crc32c_update st a = crc32c_update st b -> a = b.
Proof.
  intros Hst Ha Hb Hl H4 H. rewrite !crc_word in H by done.
  replace (length b) with (length a) in H by (unfold len in Hl; lia).
  assert (Hr : forall w, bytes_ok w -> len w <= 4 -> is_u32 (Z.lxor st (le_word w))).
  { intros w Hw H4w. pose proof (le_word_range w Hw).
    apply lxor_range; [lia|zlia|]. split; [lia|].
    apply Z.lt_le_trans with (2 ^ (8 * len w)); [lia|]. apply Z.pow_le_mono_r; lia. }
  apply crc_iter_inj in H; [|apply Hr; [done|lia]..].
  apply lxor_cancel_l in H. by apply le_word_inj.
Qed.

Lemma crc_step_state_inj s t b :
  is_u32 s -> is_u32 t -> is_u8 b -> crc_step s b = crc_step t b -> s = t.
Proof.
  intros Hs Ht Hb H. rewrite (crc_step_ref s), (crc_step_ref t) in H by done.
  apply (crc_iter_inj 8) in H; [|apply lxor_range; zlia..].
  rewrite (Z.lxor_comm s), (Z.lxor_comm t) in H. by apply lxor_cancel_l in H.
Qed.

Lemma crc32c_update_state_inj s t w :
  is_u32 s -> is_u32 t -> bytes_ok w -> crc32c_update s w = crc32c_update t w -> s = t.
Proof.
  intros Hs Ht Hw. revert s t Hs Ht.
  induction Hw as [|b w Hb Hw IH]; intros s t Hs Ht H; [done|].
  rewrite !crc32c_update_cons in H.
  apply IH in H; [|by apply crc_step_range..].
  by apply crc_step_state_inj in H.
Qed.

(** Two buffers that agree outside a window of at most four bytes, and differ
    inside it, have different checksums. *)
Lemma crc32c_burst p a b q :
  bytes_ok p -> bytes_ok a -> bytes_ok b -> bytes_ok q ->
  len a = len b -> len a <= 4 ->
  crc32c (p ++ a ++ q) = crc32c (p ++ b ++ q) -> a = b.
Proof.
  intros Hp Ha Hb Hq Hl H4 H. unfold crc32c, crc32c_finish in H.
  rewrite !(Z.lxor_comm _ 0xffffffff) in H. apply lxor_cancel_l in H.
  rewrite !crc32c_update_app in H.
  assert (Hs : is_u32 (crc32c_update kCrc32cInit p)) by auto with tfdb.
  apply crc32c_update_state_inj in H; [|auto with tfdb..].
  eapply crc_word_inj; eauto.
Qed.

(** Skipping the stored field and hashing four zero bytes instead is the
    checksum of the buffer with the field cleared. *)
Lemma crc32c_with_zeroed_field_splice data off :
  0 <= off -> off + 4 <= len data -> len data < 2 ^ 64 ->
  crc32c_with_zeroed_field data off = crc32c (splice off [0; 0; 0; 0] data).
Proof.
  intros. unfold crc32c_with_zeroed_field, crc32c, splice.
  rewrite !crc32c_update_app. do 2 f_equal.
  rewrite u64_small by len_lia. by rewrite slice_to_end by len_lia.
Qed.

(** ** Properties *)

Lemma crc32c_equiv_bit_serial data :
  bytes_ok data -> crc32c data = crc32c_ref data.
Proof.
  intros. unfold crc32c, crc32c_ref, crc32c_finish. f_equal.
  apply crc32c_update_ref; auto with tfdb.
Qed.

(** The check value of docs/format-v1.md: ASCII 123456789. *)
Example crc32c_check_value : crc32c [49;50;51;52;53;54;55;56;57] = 0xe3069283.
Proof. reflexivity. Qed.
