(* ===== verification/Layout.v ===== *)
(** * Little-endian fields in fixed-size buffers

    The [put]/[get] helpers of src/internal_format.cpp (lines 21-63) and
    src/record_profile.cpp (lines 15-37), and a small calculus for buffers
    that are filled field by field: [write_fields] is the sequence of stores,
    [read_field] finds the last store to a field, and their agreement is
    decided on the concrete offsets. *)

From S2P Require Import Prelude.

(** ** The code *)

(** [out[i] = static_cast<uint8_t>(value >> (i * 8))] for [i < n]. *)
Definition le_bytes (n : nat) (value : Z) : bytes :=
  map (fun i => u8 (Z.shiftr value (i * 8))) (seqZ 0 (Z.of_nat n)).

Definition put (n : nat) (out : bytes) (off value : Z) : bytes :=
  splice off (le_bytes n value) out.

Definition put16 : bytes -> Z -> Z -> bytes := put 2.
Definition put32 : bytes -> Z -> Z -> bytes := put 4.
Definition put64 : bytes -> Z -> Z -> bytes := put 8.
Definition puti64 (out : bytes) (off value : Z) : bytes := put64 out off (u64 value).

(** [value |= static_cast<uintW_t>(in[i]) << (i * 8)] for [i < n]. *)
Definition get_le (n : nat) (inp : bytes) (off : Z) : Z :=
  foldl (fun value i => Z.lor value (Z.shiftl (byte_at inp (off + i)) (i * 8)))
    0 (seqZ 0 (Z.of_nat n)).

Definition get16 : bytes -> Z -> Z := get_le 2.
Definition get32 : bytes -> Z -> Z := get_le 4.
Definition get64 : bytes -> Z -> Z := get_le 8.

Definition geti64 (inp : bytes) (off : Z) : Z :=
  let value := get64 inp off in
  if value <=? INT64_MAX then value else -1 - u64 (Z.lnot value).

Definition all_zero (inp : bytes) (off size : Z) : bool :=
  forallb (fun b => b =? 0) (slice off size inp).

Definition magic_is (inp magic : bytes) : bool :=
  (8 <=? len inp) && bool_decide (slice 0 8 inp = magic).

(** ** Splitting and combining *)

Fixpoint le_combine (l : bytes) : Z :=
  match l with [] => 0 | b :: l => b + 256 * le_combine l end.

Lemma len_le_bytes n v : len (le_bytes n v) = Z.of_nat n.
Proof. unfold len, le_bytes. rewrite length_map, length_seqZ. lia. Qed.
#[export] Hint Rewrite len_le_bytes : len.

Lemma le_bytes_ok n v : bytes_ok (le_bytes n v).
Proof.
  unfold bytes_ok, le_bytes. apply Forall_fmap, Forall_true. intros i. apply u8_range.
Qed.
#[export] Hint Resolve le_bytes_ok : tfdb.

Lemma le_bytes_0 v : le_bytes 0 v = [].
Proof. reflexivity. Qed.

Lemma le_bytes_S n v : le_bytes (S n) v = u8 v :: le_bytes n (Z.shiftr v 8).
Proof.
  unfold le_bytes. rewrite Nat2Z.inj_succ, seqZ_cons by lia.
  cbn [map]. f_equal.
  rewrite Z.pred_succ. change (Z.succ 0) with (1 + 0).
  rewrite <- (fmap_add_seqZ 1 0 (Z.of_nat n)).
  etransitivity; [apply map_map|]. apply map_ext_in. intros i Hi.
  apply list_elem_of_In, elem_of_seqZ in Hi.
  rewrite Z.shiftr_shiftr by lia. do 2 f_equal. lia.
Qed.

Lemma le_combine_range l : bytes_ok l -> 0 <= le_combine l < 2 ^ (8 * len l).
Proof.
  induction 1 as [|b l Hb Hl IH]; [split; [done|reflexivity]|].
  simpl. rewrite len_cons. replace (8 * (1 + len l)) with (8 + 8 * len l) by lia.
  rewrite Z.pow_add_r by len_lia. zlia.
Qed.

Lemma le_combine_le_bytes n v : le_combine (le_bytes n v) = v mod 2 ^ (8 * Z.of_nat n).
Proof.
  revert v. induction n as [|n IH]; intros v.
  - simpl. by rewrite Z.mod_1_r.
  - rewrite le_bytes_S. simpl le_combine. rewrite IH.
    replace (8 * Z.of_nat (S n)) with (8 + 8 * Z.of_nat n) by lia.
    rewrite Z.pow_add_r, Z.rem_mul_r by lia.
    rewrite Z.shiftr_div_pow2 by lia. done.
Qed.

Lemma le_bytes_le_combine l : bytes_ok l -> le_bytes (length l) (le_combine l) = l.
Proof.
  induction 1 as [|b l Hb Hl IH]; [done|].
  simpl length. rewrite le_bytes_S. simpl le_combine.
  assert (Hq : Z.shiftr (b + 256 * le_combine l) 8 = le_combine l).
  { rewrite Z.shiftr_div_pow2 by lia. change (2 ^ 8) with 256.
    rewrite Z.mul_comm, Z.div_add by lia. rewrite Z.div_small; zlia. }
  rewrite Hq, IH. f_equal. unfold u8. change (2 ^ 8) with 256.
  rewrite Z.mul_comm, Z.mod_add by lia. apply Z.mod_small. zlia.
Qed.

Lemma lor_shiftl_add a b n : 0 <= n -> 0 <= a < 2 ^ n -> Z.lor a (Z.shiftl b n) = a + 2 ^ n * b.
Proof.
  intros Hn Ha.
  assert (H0 : Z.land a (Z.shiftl b n) = 0).
  { apply Z_bits_ext. intros i Hi. rewrite Z.land_spec, Z.bits_0.
    destruct (decide (i < n)).
    - rewrite Z.shiftl_spec_low by lia. apply andb_false_r.
    - by rewrite (testbit_high a n) by lia. }
  rewrite <- Z.lxor_lor, <- Z.add_nocarry_lxor by done.
  rewrite Z.shiftl_mul_pow2 by lia. lia.
Qed.

Lemma le_combine_app a b : le_combine (a ++ b) = le_combine a + 2 ^ (8 * len a) * le_combine b.
Proof.
  induction a as [|x a IH]; simpl.
  - change (len (@nil Z)) with 0. lia.
  - rewrite IH, len_cons. replace (8 * (1 + len a)) with (8 + 8 * len a) by lia.
    rewrite Z.pow_add_r by len_lia. lia.
Qed.

(** The read loop computes the little-endian value of its slice. *)
Lemma get_le_combine n inp off :
  0 <= off -> off + Z.of_nat n <= len inp -> bytes_ok inp ->
  get_le n inp off = le_combine (slice off (Z.of_nat n) inp).
Proof.
  intros Hoff Hlen Hok. unfold get_le. induction n as [|n IH]; [done|].
  rewrite seqZ_S, foldl_app, IH by lia. simpl foldl.
  replace (Z.of_nat (S n)) with (Z.of_nat n + 1) by lia.
  rewrite slice_add by lia. rewrite le_combine_app, len_slice by lia.
  assert (Hr : 0 <= le_combine (slice off (Z.of_nat n) inp) < 2 ^ (Z.of_nat n * 8)).
  { rewrite Z.mul_comm. rewrite <- (len_slice off (Z.of_nat n) inp) at 3 by lia.
    apply le_combine_range. by apply Forall_slice. }
  rewrite Z.add_0_l, lor_shiftl_add by lia. f_equal.
  rewrite (Z.mul_comm (Z.of_nat n)). f_equal.
  unfold slice. rewrite (dropZ_byte_at inp) by lia. unfold takeZ. simpl. lia.
Qed.

Lemma get_le_range n inp off :
  0 <= off -> off + Z.of_nat n <= len inp -> bytes_ok inp ->
  0 <= get_le n inp off < 2 ^ (8 * Z.of_nat n).
Proof.
  intros. rewrite get_le_combine by done.
  rewrite <- (len_slice off (Z.of_nat n) inp) at 3 by lia.
  apply le_combine_range. by apply Forall_slice.
Qed.

Lemma slice_get_le n inp off :
  0 <= off -> off + Z.of_nat n <= len inp -> bytes_ok inp ->
  slice off (Z.of_nat n) inp = le_bytes n (get_le n inp off).
Proof.
  intros. rewrite get_le_combine by done.
  rewrite <- (le_bytes_le_combine (slice off (Z.of_nat n) inp)) at 1
    by (by apply Forall_slice).
  f_equal. pose proof (len_slice off (Z.of_nat n) inp ltac:(lia) ltac:(lia) ltac:(lia)) as Hl.
  unfold len in Hl. lia.
Qed.

Lemma geti64_u64 inp off v :
  is_i64 v -> get64 inp off = u64 v -> geti64 inp off = v.
Proof.
  intros Hv H. unfold geti64. rewrite H. unfold u64.
  destruct (decide (0 <= v)).
  - rewrite Z.mod_small by zlia. case_match; [done|]. zlia.
  - assert (E : v mod 2 ^ 64 = v + 2 ^ 64).
    { symmetry. apply Z.mod_unique with (-1); zlia. }
    rewrite E. case_match; [zlia|]. unfold Z.lnot, Z.pred.
    replace (- (v + 2 ^ 64) + -1) with (- v - 1 + (-1) * 2 ^ 64) by lia.
    rewrite Z.mod_add, Z.mod_small by zlia. lia.
Qed.

Lemma geti64_range inp off :
  0 <= off -> off + 8 <= len inp -> bytes_ok inp -> is_i64 (geti64 inp off).
Proof.
  intros. pose proof (get_le_range 8 inp off ltac:(lia) ltac:(lia) ltac:(done)) as Hr.
  fold get64 in Hr. unfold geti64. case_match; [zlia|].
  unfold Z.lnot, Z.pred, u64.
  replace (- get64 inp off + -1) with (2 ^ 64 - 1 - get64 inp off + (-1) * 2 ^ 64) by lia.
  rewrite Z.mod_add, Z.mod_small by zlia. zlia.
Qed.

Lemma u64_geti64 inp off :
  0 <= off -> off + 8 <= len inp -> bytes_ok inp -> u64 (geti64 inp off) = get64 inp off.
Proof.
  intros. pose proof (get_le_range 8 inp off ltac:(lia) ltac:(lia) ltac:(done)) as Hr.
  fold get64 in Hr. unfold geti64. case_match; [apply u64_small; zlia|].
  unfold Z.lnot, Z.pred, u64.
  replace (- get64 inp off + -1) with (2 ^ 64 - 1 - get64 inp off + (-1) * 2 ^ 64) by lia.
  rewrite Z.mod_add by lia.
  rewrite (Z.mod_small (2 ^ 64 - 1 - get64 inp off)) by zlia.
  replace (-1 - (2 ^ 64 - 1 - get64 inp off)) with (get64 inp off + (-1) * 2 ^ 64) by lia.
  rewrite Z.mod_add, Z.mod_small by zlia. done.
Qed.

(** ** Buffers written field by field *)

Record field := Field { f_off : Z; f_width : nat; f_value : Z }.

Definition write_field (out : bytes) (f : field) : bytes :=
  put (f_width f) out (f_off f) (f_value f).
Definition write_fields (out : bytes) (fs : list field) : bytes := foldl write_field out fs.

Definition f_end (f : field) : Z := f_off f + Z.of_nat (f_width f).

(** All fields lie inside a buffer of [size] bytes. *)
Definition fields_in (size : Z) (fs : list field) : bool :=
  forallb (fun f => (0 <=? f_off f) && (f_end f <=? size)) fs.

(** No field touches [o, o+n). *)
Definition untouched (o n : Z) (fs : list field) : bool :=
  forallb (fun f => (o + n <=? f_off f) || (f_end f <=? o)) fs.

(** The value last stored to exactly [o, o+n), if nothing overlapped it since. *)
Fixpoint read_field (o : Z) (n : nat) (fs : list field) : option Z :=
  match fs with
  | [] => None
  | f :: fs =>
      if untouched o (Z.of_nat n) fs then
        if (f_off f =? o) && (f_width f =? n)%nat then Some (f_value f)
        else read_field o n fs
      else read_field o n fs
  end.

Definition covered (i : Z) (fs : list field) : bool :=
  existsb (fun f => (f_off f <=? i) && (i <? f_end f)) fs.

Lemma write_field_ok out f : bytes_ok out -> bytes_ok (write_field out f).
Proof. intros. apply Forall_splice; auto with tfdb. apply le_bytes_ok. Qed.

Lemma write_fields_ok out fs : bytes_ok out -> bytes_ok (write_fields out fs).
Proof.
  revert out. induction fs; intros; simpl; [done|]. apply IHfs. by apply write_field_ok.
Qed.

Lemma write_field_len out f :
  0 <= f_off f -> f_end f <= len out -> len (write_field out f) = len out.
Proof. intros. apply len_splice; [done|]. unfold f_end in *. len_lia. Qed.

Lemma fields_in_cons size f fs :
  fields_in size (f :: fs) = true <->
  0 <= f_off f /\ f_end f <= size /\ fields_in size fs = true.
Proof. unfold fields_in. simpl. rewrite !andb_true_iff, !Z.leb_le. tauto. Qed.

Lemma write_fields_len out fs :
  fields_in (len out) fs = true -> len (write_fields out fs) = len out.
Proof.
  revert out. induction fs as [|f fs IH]; intros out H; [done|].
  apply fields_in_cons in H as (?&?&?). simpl.
  rewrite IH; rewrite write_field_len; done.
Qed.

Lemma slice_write_field_ne o n out f :
  0 <= o -> 0 <= n -> 0 <= f_off f -> f_end f <= len out ->
  o + n <= f_off f \/ f_end f <= o ->
  slice o n (write_field out f) = slice o n out.
Proof.
  intros Ho Hn Hf He [H|H]; unfold write_field, put, f_end in *.
  - apply slice_splice_before; lia.
  - apply slice_splice_after; len_lia.
Qed.

Lemma slice_untouched o n out fs :
  0 <= o -> 0 <= n -> fields_in (len out) fs = true -> untouched o n fs = true ->
  slice o n (write_fields out fs) = slice o n out.
Proof.
  intros Ho Hn. revert out. induction fs as [|f fs IH]; intros out Hin Hun; [done|].
  apply fields_in_cons in Hin as (?&?&?). unfold untouched in Hun. simpl in Hun.
  apply andb_true_iff in Hun as [Hf Hun]. simpl.
  rewrite IH by (rewrite ?write_field_len; done).
  apply slice_write_field_ne; try done. lia.
Qed.

(** Reading back a field returns the value last stored in it. *)
Lemma slice_read_field o n v out fs :
  0 <= o -> fields_in (len out) fs = true -> read_field o n fs = Some v ->
  slice o (Z.of_nat n) (write_fields out fs) = le_bytes n v.
Proof.
  intros Ho. revert out. induction fs as [|f fs IH]; intros out Hin Hr; [done|].
  apply fields_in_cons in Hin as (Hf&He&?). simpl in Hr. simpl.
  assert (Hl : len (write_field out f) = len out) by (by apply write_field_len).
  destruct (untouched o (Z.of_nat n) fs) eqn:Hun.
  2:{ apply IH; [by rewrite Hl|done]. }
  destruct ((f_off f =? o) && (f_width f =? n)%nat) eqn:E.
  2:{ apply IH; [by rewrite Hl|done]. }
  apply andb_true_iff in E as [E1%Z.eqb_eq E2%Nat.eqb_eq]. simplify_eq.
  rewrite slice_untouched by (rewrite ?Hl; done || lia).
  unfold write_field, put. rewrite <- (len_le_bytes (f_width f) (f_value f)) at 1.
  apply slice_splice_same; [done|]. unfold f_end in He. len_lia.
Qed.

Lemma get_read_field o n v out fs :
  0 <= o -> o + Z.of_nat n <= len out -> bytes_ok out ->
  fields_in (len out) fs = true -> read_field o n fs = Some v ->
  get_le n (write_fields out fs) o = v mod 2 ^ (8 * Z.of_nat n).
Proof.
  intros. rewrite get_le_combine.
  - erewrite slice_read_field by done. apply le_combine_le_bytes.
  - done.
  - by rewrite write_fields_len.
  - by apply write_fields_ok.
Qed.

(** A byte no field covers keeps its value; two buffers that agree on those
    bytes agree after the stores. *)
Lemma byte_at_write_field out f i :
  0 <= i -> 0 <= f_off f -> f_end f <= len out ->
  byte_at (write_field out f) i =
    if (f_off f <=? i) && (i <? f_end f)
    then byte_at (le_bytes (f_width f) (f_value f)) (i - f_off f) else byte_at out i.
Proof.
  intros Hi Hf He. unfold write_field, put, splice, f_end in *.
  destruct (Z.leb_spec (f_off f) i); simpl.
  - rewrite byte_at_app_r by (rewrite len_takeZ; lia).
    rewrite len_takeZ. rewrite Z.max_r, Z.min_l by lia.
    destruct (Z.ltb_spec i (f_off f + Z.of_nat (f_width f))).
    + apply byte_at_app_l. len_lia.
    + rewrite byte_at_app_r by len_lia. rewrite byte_at_dropZ by len_lia.
      f_equal. lia.
  - rewrite byte_at_app_l by (rewrite len_takeZ; lia). by apply byte_at_takeZ.
Qed.

Lemma byte_at_write_fields a b fs i :
  0 <= i -> len a = len b -> fields_in (len a) fs = true ->
  covered i fs = true \/ byte_at a i = byte_at b i ->
  byte_at (write_fields a fs) i = byte_at (write_fields b fs) i.
Proof.
  intros Hi. revert a b. induction fs as [|f fs IH]; intros a b Hl Hin Hc.
  { destruct Hc; done. }
  apply fields_in_cons in Hin as (?&?&?). simpl.
  apply IH; rewrite ?write_field_len; try done; try lia.
  unfold covered in Hc. simpl in Hc. rewrite orb_true_iff in Hc.
  rewrite !byte_at_write_field by lia.
  destruct ((f_off f <=? i) && (i <? f_end f)); [by right|]. naive_solver.
Qed.

(** Stores of what a buffer already holds change nothing. *)
Lemma write_fields_same out fs :
  fields_in (len out) fs = true ->
  Forall (fun f => slice (f_off f) (Z.of_nat (f_width f)) out = le_bytes (f_width f) (f_value f)) fs ->
  write_fields out fs = out.
Proof.
  intros Hin Hs. induction Hs as [|f fs Hf Hs IH]; [done|].
  apply fields_in_cons in Hin as (?&?&?). simpl.
  assert (E : write_field out f = out).
  { unfold write_field, put, splice. rewrite <- Hf.
    rewrite len_slice by (unfold f_end in *; lia). unfold slice.
    rewrite <- (takeZ_dropZ (f_off f) out) at 4.
    rewrite <- (takeZ_dropZ (Z.of_nat (f_width f)) (dropZ (f_off f) out)) at 2.
    by rewrite dropZ_dropZ by lia. }
  rewrite E. by apply IH.
Qed.
