(* ===== verification/Format.v ===== *)
(** * Media format v1 (src/internal_format.hpp, src/internal_format.cpp)

    The five on-media structures, their encoders and decoders. A decoder
    returns [Ok h] where the code fills [*h] and returns an ok status; no
    caller reads [*h] after an error, so an error carries the status only.
    The null-pointer arguments the decoders reject do not occur: every caller
    passes the address of a local. *)

From S2P Require Import Prelude Status Crc32c Layout.

(** ** Constants *)

Definition kFormatMajor : Z := 1.
Definition kFormatMinor : Z := 0.
Definition kVolumeHeaderCopySize : Z := 4096.
Definition kVolumeHeaderEncodedSize : Z := 256.
Definition kVolumePrefixSize : Z := 8192.
Definition kPartitionHeaderRegionSize : Z := 4096.
Definition kPartitionHeaderEncodedSize : Z := 1024.
Definition kPartitionFooterRegionSize : Z := 4096.
Definition kPartitionFooterEncodedSize : Z := 256.
Definition kBlockHeaderEncodedSize : Z := 128.
Definition kIndexEntryEncodedSize : Z := 48.
Definition kFeatureDescriptorSize : Z := 40.

Definition kFeatureRequired : Z := 1.
Definition kFeatureCompression : Z := 1.
Definition kFeatureTimeIndex : Z := 2.
Definition kFeatureRecordProfile : Z := 3.
Definition kFeatureIntegrity : Z := 4.
Definition kIntegrityCrc32c : Z := 1.
Definition kTimeIndexMinMax : Z := 1.

(** ASCII "TFDBVOL1", "TFDBPAR1", "TFDBBLK1", "TFDBFTR1". *)
Definition kVolumeMagic : bytes := [84; 70; 68; 66; 86; 79; 76; 49].
Definition kPartitionMagic : bytes := [84; 70; 68; 66; 80; 65; 82; 49].
Definition kBlockMagic : bytes := [84; 70; 68; 66; 66; 76; 75; 49].
Definition kFooterMagic : bytes := [84; 70; 68; 66; 70; 84; 82; 49].

(** ** Structures *)

(** [enum class CompressionId : uint16_t]; the decoders cast any 16-bit value
    to it, so it is a number with three named values. *)
Definition CompressionId : Set := Z.
Definition CompressionId_none : CompressionId := 0.
Definition CompressionId_packbits : CompressionId := 1.
Definition CompressionId_lz4_block : CompressionId := 2.

Record PartitionOptions := mkPartitionOptions {
  po_compression : CompressionId;
  po_compression_version : Z;
  po_record_format_id : Z;
  po_record_format_version : Z;
  po_time_domain_id : Z;
  po_allowed_backward_skew_ns : Z;
  po_allowed_forward_step_ns : Z }.

Definition default_PartitionOptions : PartitionOptions :=
  mkPartitionOptions CompressionId_none 1 0 0 1 (-1) (-1).

Record VolumeHeader := mkVolumeHeader {
  vh_volume_id_high : Z;
  vh_volume_id_low : Z;
  vh_volume_size : Z;
  vh_partition_size : Z;
  vh_partition_count : Z;
  vh_index_region_size : Z;
  vh_max_block_payload : Z;
  vh_persistence_quantum : Z;
  vh_created_time_ns : Z }.

Record FeatureDescriptor := mkFeatureDescriptor {
  fd_kind : Z;
  fd_flags : Z;
  fd_algorithm : Z;
  fd_version : Z;
  fd_config_offset : Z;
  fd_config_length : Z;
  fd_region_offset : Z;
  fd_region_length : Z }.

Record PartitionHeader := mkPartitionHeader {
  ph_volume_id_high : Z;
  ph_volume_id_low : Z;
  ph_generation : Z;
  ph_slot : Z;
  ph_created_time_ns : Z;
  ph_max_block_payload : Z;
  ph_persistence_quantum : Z;
  ph_options : PartitionOptions;
  ph_features : list FeatureDescriptor }.

Record BlockHeader := mkBlockHeader {
  bh_generation : Z;
  bh_slot : Z;
  bh_sequence : Z;
  bh_flags : Z;
  bh_record_count : Z;
  bh_stored_size : Z;
  bh_raw_size : Z;
  bh_frame_span : Z;
  bh_min_time_ns : Z;
  bh_max_time_ns : Z;
  bh_compression : CompressionId;
  bh_compression_version : Z;
  bh_payload_crc : Z;
  bh_volume_id_low : Z;
  bh_volume_id_high : Z;
  bh_writer_id_high : Z;
  bh_writer_id_low : Z;
  bh_previous_writer_id_high : Z;
  bh_previous_writer_id_low : Z }.

Record IndexEntry := mkIndexEntry {
  ie_offset : Z;
  ie_frame_size : Z;
  ie_frame_span : Z;
  ie_sequence : Z;
  ie_record_count : Z;
  ie_min_time_ns : Z;
  ie_max_time_ns : Z;
  ie_flags : Z;
  ie_raw_size : Z;
  ie_writer_id_high : Z;
  ie_writer_id_low : Z }.

Record PartitionFooter := mkPartitionFooter {
  pf_volume_id_high : Z;
  pf_volume_id_low : Z;
  pf_generation : Z;
  pf_slot : Z;
  pf_flags : Z;
  pf_block_count : Z;
  pf_index_offset : Z;
  pf_index_size : Z;
  pf_data_end : Z;
  pf_min_time_ns : Z;
  pf_max_time_ns : Z;
  pf_index_crc : Z }.

#[export] Instance PartitionOptions_eq_dec : EqDecision PartitionOptions.
Proof. solve_decision. Defined.
#[export] Instance VolumeHeader_eq_dec : EqDecision VolumeHeader.
Proof. solve_decision. Defined.
#[export] Instance IndexEntry_eq_dec : EqDecision IndexEntry.
Proof. solve_decision. Defined.

(** ** Shared checks *)

Definition common_check (data magic : bytes) (expected_size crc_offset : Z) : result unit :=
  if len data <? expected_size then error StatusCode.corrupt "truncated structure" else
  if negb (magic_is data magic) then error StatusCode.corrupt "structure magic mismatch" else
  if negb (get16 data 8 =? kFormatMajor)
  then error StatusCode.unsupported "unsupported format major" else
  if kFormatMinor <? get16 data 10
  then error StatusCode.unsupported "unsupported format minor" else
  let encoded_size := get32 data 12 in
  if negb (encoded_size =? expected_size) || (len data <? encoded_size)
  then error StatusCode.corrupt "structure size mismatch" else
  if encoded_size <? crc_offset + 4
  then error StatusCode.internal_error "structure CRC field outside its own encoding" else
  let expected_crc := get32 data crc_offset in
  if negb (crc32c_with_zeroed_field (takeZ encoded_size data) crc_offset =? expected_crc)
  then error StatusCode.corrupt "structure CRC mismatch" else
  Ok tt.

Definition finish_crc (data : bytes) (offset : Z) : bytes :=
  let data := put32 data offset 0 in
  put32 data offset (crc32c data).

(** [std::vector<uint8_t> out(n, 0)] with the magic copied to the front. *)
Definition zeroed (n : Z) : bytes := replicate (Z.to_nat n) 0.

Definition align_up (value quantum : Z) : option Z :=
  (* [None] is the overflow flag; the code then returns 0. *)
  if quantum =? 0 then None else
  let remainder := value mod quantum in
  if remainder =? 0 then Some value else
  let add := quantum - remainder in
  if UINT64_MAX - add <? value then None else Some (value + add).

(** ** Volume header *)

Definition encode_volume_header (h : VolumeHeader) : bytes :=
  let out := zeroed kVolumeHeaderEncodedSize in
  let out := splice 0 kVolumeMagic out in
  let out := put16 out 8 kFormatMajor in
  let out := put16 out 10 kFormatMinor in
  let out := put32 out 12 kVolumeHeaderEncodedSize in
  let out := put64 out 16 (vh_volume_id_high h) in
  let out := put64 out 24 (vh_volume_id_low h) in
  let out := put64 out 32 (vh_volume_size h) in
  let out := put64 out 40 (vh_partition_size h) in
  let out := put32 out 48 (vh_partition_count h) in
  let out := put32 out 52 (vh_index_region_size h) in
  let out := put32 out 56 (vh_max_block_payload h) in
  let out := put32 out 60 (vh_persistence_quantum h) in
  let out := puti64 out 64 (vh_created_time_ns h) in
  finish_crc out 72.

Definition decode_volume_header (data : bytes) : result VolumeHeader :=
  _ ← common_check data kVolumeMagic kVolumeHeaderEncodedSize 72;
  if negb (all_zero data 76 (kVolumeHeaderEncodedSize - 76))
  then error StatusCode.corrupt "volume header reserved bytes are nonzero" else
  let h := mkVolumeHeader (get64 data 16) (get64 data 24) (get64 data 32) (get64 data 40)
             (get32 data 48) (get32 data 52) (get32 data 56) (get32 data 60)
             (geti64 data 64) in
  if (vh_partition_count h <? 2) || (vh_partition_size h =? 0) ||
     (vh_max_block_payload h =? 0) || (vh_persistence_quantum h =? 0)
  then error StatusCode.corrupt "invalid volume geometry"
  else Ok h.

(** ** Block header *)

Definition encode_block_header (h : BlockHeader) : bytes :=
  let out := zeroed kBlockHeaderEncodedSize in
  let out := splice 0 kBlockMagic out in
  let out := put16 out 8 kFormatMajor in
  let out := put16 out 10 kFormatMinor in
  let out := put32 out 12 kBlockHeaderEncodedSize in
  let out := put64 out 16 (bh_generation h) in
  let out := put32 out 24 (bh_sequence h) in
  let out := put32 out 28 (bh_flags h) in
  let out := put32 out 32 (bh_record_count h) in
  let out := put32 out 36 (bh_stored_size h) in
  let out := put32 out 40 (bh_raw_size h) in
  let out := put32 out 44 (bh_frame_span h) in
  let out := puti64 out 48 (bh_min_time_ns h) in
  let out := puti64 out 56 (bh_max_time_ns h) in
  let out := put16 out 64 (bh_compression h) in
  let out := put16 out 66 (bh_compression_version h) in
  let out := put32 out 68 (bh_payload_crc h) in
  let out := put32 out 76 (bh_slot h) in
  let out := put64 out 80 (bh_volume_id_low h) in
  let out := put64 out 88 (bh_volume_id_high h) in
  let out := put64 out 96 (bh_writer_id_high h) in
  let out := put64 out 104 (bh_writer_id_low h) in
  let out := put64 out 112 (bh_previous_writer_id_high h) in
  let out := put64 out 120 (bh_previous_writer_id_low h) in
  finish_crc out 72.

Definition decode_block_header (data : bytes) : result BlockHeader :=
  _ ← common_check data kBlockMagic kBlockHeaderEncodedSize 72;
  let h := {|
    bh_generation := get64 data 16; bh_sequence := get32 data 24;
    bh_flags := get32 data 28; bh_record_count := get32 data 32;
    bh_stored_size := get32 data 36; bh_raw_size := get32 data 40;
    bh_frame_span := get32 data 44; bh_min_time_ns := geti64 data 48;
    bh_max_time_ns := geti64 data 56; bh_compression := get16 data 64;
    bh_compression_version := get16 data 66; bh_payload_crc := get32 data 68;
    bh_slot := get32 data 76; bh_volume_id_low := get64 data 80;
    bh_volume_id_high := get64 data 88; bh_writer_id_high := get64 data 96;
    bh_writer_id_low := get64 data 104;
    bh_previous_writer_id_high := get64 data 112;
    bh_previous_writer_id_low := get64 data 120 |} in
  if (bh_stored_size h =? 0) || (bh_raw_size h =? 0) || (bh_record_count h =? 0) ||
     ((bh_writer_id_high h =? 0) && (bh_writer_id_low h =? 0)) ||
     (bh_max_time_ns h <? bh_min_time_ns h) ||
     (bh_frame_span h <? u32 (kBlockHeaderEncodedSize + bh_stored_size h))
  then error StatusCode.corrupt "invalid block bounds"
  else Ok h.

(** ** Partition header *)

Definition put_descriptor (out : bytes) (d : Z) (f : FeatureDescriptor) : bytes :=
  let out := put16 out d (fd_kind f) in
  let out := put16 out (d + 2) (fd_flags f) in
  let out := put32 out (d + 4) (fd_algorithm f) in
  let out := put16 out (d + 8) (fd_version f) in
  let out := put32 out (d + 12) (fd_config_offset f) in
  let out := put32 out (d + 16) (fd_config_length f) in
  let out := put64 out (d + 24) (fd_region_offset f) in
  put64 out (d + 32) (fd_region_length f).

(** The four descriptors the writer emits. *)
Definition descriptors (o : PartitionOptions) (partition_size index_region_size : Z)
    : list FeatureDescriptor :=
  let index_offset := u64 (partition_size - kPartitionFooterRegionSize - index_region_size) in
  [ mkFeatureDescriptor kFeatureCompression kFeatureRequired (po_compression o)
      (po_compression_version o) 0 0 0 0;
    mkFeatureDescriptor kFeatureTimeIndex kFeatureRequired kTimeIndexMinMax 1 0 0
      index_offset index_region_size;
    mkFeatureDescriptor kFeatureRecordProfile 0 0 (po_record_format_version o) 512 8 0 0;
    mkFeatureDescriptor kFeatureIntegrity kFeatureRequired kIntegrityCrc32c 1 0 0 0 0 ].

Definition put_descriptors (out : bytes) (ds : list FeatureDescriptor) : bytes :=
  snd (foldl (fun '(i, out) f =>
    (i + 1, put_descriptor out (128 + i * kFeatureDescriptorSize) f)) (0, out) ds).

Definition encode_partition_header (h : PartitionHeader)
    (partition_size index_region_size : Z) : bytes :=
  let o := ph_options h in
  let out := zeroed kPartitionHeaderEncodedSize in
  let out := splice 0 kPartitionMagic out in
  let out := put16 out 8 kFormatMajor in
  let out := put16 out 10 kFormatMinor in
  let out := put32 out 12 kPartitionHeaderEncodedSize in
  let out := put64 out 16 (ph_volume_id_high h) in
  let out := put64 out 24 (ph_volume_id_low h) in
  let out := put64 out 32 (ph_generation h) in
  let out := put32 out 40 (ph_slot h) in
  let out := puti64 out 48 (ph_created_time_ns h) in
  let out := put32 out 56 (ph_max_block_payload h) in
  let out := put32 out 60 (ph_persistence_quantum h) in
  let out := puti64 out 64 (po_allowed_backward_skew_ns o) in
  let out := puti64 out 72 (po_allowed_forward_step_ns o) in
  let out := put64 out 80 (po_time_domain_id o) in
  let out := put16 out 88 4 in
  let out := put16 out 90 kFeatureDescriptorSize in
  let out := put32 out 92 128 in
  let out := put32 out 96 512 in
  let out := put32 out 100 16 in
  let out := put_descriptors out (descriptors o partition_size index_region_size) in
  let out := put64 out 512 (po_record_format_id o) in
  finish_crc out 104.

(** The loop variables of the feature-directory scan. *)
Record FeatureScan := mkFeatureScan {
  fs_compression : bool;
  fs_time_index : bool;
  fs_integrity : bool;
  fs_record_profile : bool;
  fs_config_ranges : list (Z * Z);
  fs_options : PartitionOptions;
  fs_features : list FeatureDescriptor }.

Definition get_descriptor (data : bytes) (d : Z) : FeatureDescriptor :=
  mkFeatureDescriptor (get16 data d) (get16 data (d + 2)) (get32 data (d + 4))
    (get16 data (d + 8)) (get32 data (d + 12)) (get32 data (d + 16))
    (get64 data (d + 24)) (get64 data (d + 32)).

(** The configuration-slice checks; returns the extended range list. *)
Definition check_config (f : FeatureDescriptor) (config_area_offset config_area_length : Z)
    (ranges : list (Z * Z)) : result (list (Z * Z)) :=
  if fd_config_length f =? 0 then
    if negb (fd_config_offset f =? 0)
    then error StatusCode.corrupt "empty feature config has nonzero offset"
    else Ok ranges
  else
    let config_area_end := u32 (config_area_offset + config_area_length) in
    if (fd_config_offset f <? config_area_offset) ||
       (config_area_end <? fd_config_offset f) ||
       (u32 (config_area_end - fd_config_offset f) <? fd_config_length f)
    then error StatusCode.corrupt "feature config outside configuration area" else
    let feature_end := u32 (fd_config_offset f + fd_config_length f) in
    if existsb (fun '(first, second) =>
         (fd_config_offset f <? second) && (first <? feature_end)) ranges
    then error StatusCode.corrupt "overlapping feature configurations"
    else Ok (ranges ++ [(fd_config_offset f, feature_end)]).

Definition required (f : FeatureDescriptor) : bool :=
  negb (Z.land (fd_flags f) kFeatureRequired =? 0).

Definition has_config (f : FeatureDescriptor) : bool :=
  negb (fd_config_offset f =? 0) || negb (fd_config_length f =? 0).
Definition has_region (f : FeatureDescriptor) : bool :=
  negb (fd_region_offset f =? 0) || negb (fd_region_length f =? 0).

(** The four-way dispatch on the feature kind. *)
Definition check_kind (data : bytes) (f : FeatureDescriptor) (st : FeatureScan)
    : result FeatureScan :=
  let o := fs_options st in
  if fd_kind f =? kFeatureCompression then
    if fs_compression st then error StatusCode.corrupt "duplicate compression feature" else
    if negb (required f) || (fd_version f =? 0) || (UINT16_MAX <? fd_algorithm f) ||
       has_config f || has_region f
    then error StatusCode.corrupt "invalid compression feature descriptor" else
    Ok (mkFeatureScan true (fs_time_index st) (fs_integrity st) (fs_record_profile st)
          (fs_config_ranges st)
          (mkPartitionOptions (u16 (fd_algorithm f)) (fd_version f) (po_record_format_id o)
             (po_record_format_version o) (po_time_domain_id o)
             (po_allowed_backward_skew_ns o) (po_allowed_forward_step_ns o))
          (fs_features st))
  else if fd_kind f =? kFeatureTimeIndex then
    if fs_time_index st then error StatusCode.corrupt "duplicate time-index feature" else
    if negb (required f) || has_config f || (fd_region_length f =? 0)
    then error StatusCode.corrupt "invalid time-index feature descriptor" else
    if negb (fd_algorithm f =? kTimeIndexMinMax) || negb (fd_version f =? 1)
    then error StatusCode.unsupported "unsupported time index" else
    Ok (mkFeatureScan (fs_compression st) true (fs_integrity st) (fs_record_profile st)
          (fs_config_ranges st) o (fs_features st))
  else if fd_kind f =? kFeatureRecordProfile then
    if fs_record_profile st then error StatusCode.corrupt "duplicate record-profile feature" else
    if negb (fd_flags f =? 0) || negb (fd_algorithm f =? 0) ||
       negb (fd_config_offset f =? 512) || negb (fd_config_length f =? 8) || has_region f
    then error StatusCode.corrupt "invalid record-profile feature descriptor" else
    Ok (mkFeatureScan (fs_compression st) (fs_time_index st) (fs_integrity st) true
          (fs_config_ranges st)
          (mkPartitionOptions (po_compression o) (po_compression_version o)
             (get64 data (fd_config_offset f)) (fd_version f) (po_time_domain_id o)
             (po_allowed_backward_skew_ns o) (po_allowed_forward_step_ns o))
          (fs_features st))
  else if fd_kind f =? kFeatureIntegrity then
    if fs_integrity st then error StatusCode.corrupt "duplicate integrity feature" else
    if negb (required f) || has_config f || has_region f
    then error StatusCode.corrupt "invalid integrity feature descriptor" else
    if negb (fd_algorithm f =? kIntegrityCrc32c) || negb (fd_version f =? 1)
    then error StatusCode.unsupported "unsupported integrity feature" else
    Ok (mkFeatureScan (fs_compression st) (fs_time_index st) true (fs_record_profile st)
          (fs_config_ranges st) o (fs_features st))
  else if required f then error StatusCode.unsupported "unknown required feature"
  else Ok st.

(** One iteration of the descriptor loop, at offset [d]. *)
Definition decode_feature (data : bytes) (config_area_offset config_area_length d : Z)
    (st : FeatureScan) : result FeatureScan :=
  let f := get_descriptor data d in
  if negb (Z.land (fd_flags f) (Z.lnot kFeatureRequired) =? 0) ||
     negb (all_zero data (d + 10) 2) || negb (all_zero data (d + 20) 4)
  then error StatusCode.corrupt "feature descriptor reserved fields are nonzero" else
  ranges ← check_config f config_area_offset config_area_length (fs_config_ranges st);
  st ← check_kind data f
         (mkFeatureScan (fs_compression st) (fs_time_index st) (fs_integrity st)
            (fs_record_profile st) ranges (fs_options st) (fs_features st));
  Ok (mkFeatureScan (fs_compression st) (fs_time_index st) (fs_integrity st)
        (fs_record_profile st) (fs_config_ranges st) (fs_options st)
        (fs_features st ++ [f])).

Fixpoint decode_features (data : bytes) (descriptor_offset descriptor_size
    config_area_offset config_area_length : Z) (i : Z) (count : nat) (st : FeatureScan)
    : result FeatureScan :=
  match count with
  | O => Ok st
  | S count =>
      st ← decode_feature data config_area_offset config_area_length
             (descriptor_offset + i * descriptor_size) st;
      decode_features data descriptor_offset descriptor_size config_area_offset
        config_area_length (i + 1) count st
  end.

Definition decode_partition_header (data : bytes) : result PartitionHeader :=
  _ ← common_check data kPartitionMagic kPartitionHeaderEncodedSize 104;
  if negb (all_zero data 44 4) || negb (all_zero data 108 20)
  then error StatusCode.corrupt "partition header reserved bytes are nonzero" else
  let options := mkPartitionOptions CompressionId_none 1 0 0 (get64 data 80)
                   (geti64 data 64) (geti64 data 72) in
  let count := get16 data 88 in
  let descriptor_size := get16 data 90 in
  let descriptor_offset := get32 data 92 in
  let config_area_offset := get32 data 96 in
  let config_area_length := get32 data 100 in
  if (8 <? count) || negb (descriptor_size =? kFeatureDescriptorSize) ||
     negb (descriptor_offset =? 128) || negb (config_area_offset =? 512) ||
     negb (config_area_length =? 16) ||
     (u32 (kPartitionHeaderEncodedSize - descriptor_offset) <? count * descriptor_size)
  then error StatusCode.corrupt "invalid feature directory" else
  st ← decode_features data descriptor_offset descriptor_size config_area_offset
         config_area_length 0 (Z.to_nat count)
         (mkFeatureScan false false false false [] options []);
  if negb (fs_compression st) || negb (fs_time_index st) || negb (fs_integrity st) ||
     negb (fs_record_profile st)
  then error StatusCode.corrupt "missing core feature" else
  let o := fs_options st in
  if negb (Bool.eqb (po_record_format_id o =? 0) (po_record_format_version o =? 0))
  then error StatusCode.corrupt "record profile ID/version mismatch" else
  Ok (mkPartitionHeader (get64 data 16) (get64 data 24) (get64 data 32) (get32 data 40)
        (geti64 data 48) (get32 data 56) (get32 data 60) o (fs_features st)).

(** ** Time index *)

Definition encode_index_entry (e : IndexEntry) (out : bytes) (o : Z) : bytes :=
  let out := put64 out o (ie_offset e) in
  let out := put32 out (o + 8) (ie_frame_size e) in
  let out := put32 out (o + 12) (ie_frame_span e) in
  let out := put32 out (o + 16) (ie_sequence e) in
  let out := put32 out (o + 20) (ie_record_count e) in
  let out := puti64 out (o + 24) (ie_min_time_ns e) in
  let out := puti64 out (o + 32) (ie_max_time_ns e) in
  let out := put32 out (o + 40) (ie_flags e) in
  put32 out (o + 44) (ie_raw_size e).

Definition decode_index_entry (data : bytes) : result IndexEntry :=
  if len data <? kIndexEntryEncodedSize
  then error StatusCode.corrupt "truncated index entry" else
  let e := mkIndexEntry (get64 data 0) (get32 data 8) (get32 data 12) (get32 data 16)
             (get32 data 20) (geti64 data 24) (geti64 data 32) (get32 data 40)
             (get32 data 44) 0 0 in
  if (ie_frame_size e <? kBlockHeaderEncodedSize) || (ie_frame_span e <? ie_frame_size e) ||
     (ie_record_count e =? 0) || (ie_max_time_ns e <? ie_min_time_ns e)
  then error StatusCode.corrupt "invalid index entry"
  else Ok e.

Definition encode_index (entries : list IndexEntry) : bytes :=
  let out := zeroed (len entries * kIndexEntryEncodedSize) in
  snd (foldl (fun '(i, out) e =>
    (i + 1, encode_index_entry e out (i * kIndexEntryEncodedSize))) (0, out) entries).

(** The loop over [n] remaining entries, at [offset]. *)
Fixpoint decode_index_loop (data : bytes) (offset : Z) (n : nat) : result (list IndexEntry) :=
  match n with
  | O => Ok []
  | S n =>
      e ← decode_index_entry (slice offset kIndexEntryEncodedSize data);
      es ← decode_index_loop data (offset + kIndexEntryEncodedSize) n;
      Ok (e :: es)
  end.

Definition decode_index (data : bytes) : result (list IndexEntry) :=
  if negb (len data mod kIndexEntryEncodedSize =? 0)
  then error StatusCode.corrupt "invalid index length" else
  decode_index_loop data 0 (Z.to_nat (len data / kIndexEntryEncodedSize)).

(** ** Partition footer *)

Definition encode_partition_footer (f : PartitionFooter) : bytes :=
  let out := zeroed kPartitionFooterEncodedSize in
  let out := splice 0 kFooterMagic out in
  let out := put16 out 8 kFormatMajor in
  let out := put16 out 10 kFormatMinor in
  let out := put32 out 12 kPartitionFooterEncodedSize in
  let out := put64 out 16 (pf_volume_id_high f) in
  let out := put64 out 24 (pf_volume_id_low f) in
  let out := put64 out 32 (pf_generation f) in
  let out := put32 out 40 (pf_slot f) in
  let out := put32 out 44 (pf_flags f) in
  let out := put32 out 48 (pf_block_count f) in
  let out := put32 out 52 kIndexEntryEncodedSize in
  let out := put64 out 56 (pf_index_offset f) in
  let out := put32 out 64 (pf_index_size f) in
  let out := put64 out 72 (pf_data_end f) in
  let out := puti64 out 80 (pf_min_time_ns f) in
  let out := puti64 out 88 (pf_max_time_ns f) in
  let out := put32 out 96 (pf_index_crc f) in
  finish_crc out 100.

Definition decode_partition_footer (data : bytes) : result PartitionFooter :=
  _ ← common_check data kFooterMagic kPartitionFooterEncodedSize 100;
  if negb (all_zero data 68 4) ||
     negb (all_zero data 104 (kPartitionFooterEncodedSize - 104))
  then error StatusCode.corrupt "footer reserved bytes are nonzero" else
  if negb (get32 data 52 =? kIndexEntryEncodedSize)
  then error StatusCode.unsupported "unsupported index entry size" else
  let f := mkPartitionFooter (get64 data 16) (get64 data 24) (get64 data 32) (get32 data 40)
             (get32 data 44) (get32 data 48) (get64 data 56) (get32 data 64) (get64 data 72)
             (geti64 data 80) (geti64 data 88) (get32 data 96) in
  if negb (pf_index_size f =? pf_block_count f * kIndexEntryEncodedSize) ||
     (negb (pf_block_count f =? 0) && (pf_max_time_ns f <? pf_min_time_ns f))
  then error StatusCode.corrupt "invalid footer bounds"
  else Ok f.
