(* ===== verification/FormatFacts.v ===== *)
(** * Correctness of the media structures

    Each fixed-size structure is shown to be the byte image of a field list
    ([Layout]); decoding an encoding returns the structure, and, for the
    volume header, the block header and the footer, a decoder accepts nothing
    but encodings. *)

From S2P Require Import Prelude Status Crc32c Layout Format.

(** ** Structures as field lists *)

Definition base (magic : bytes) (n : Z) : bytes := splice 0 magic (zeroed n).

(** The stores of an encoder, its CRC stores included. *)
Definition sealed_fields (magic : bytes) (n : Z) (fs : list field) (off : Z) : list field :=
  fs ++ [Field off 4 0; Field off 4 (crc32c (write_fields (base magic n) (fs ++ [Field off 4 0])))].

Definition sealed_image (magic : bytes) (n : Z) (fs : list field) (off : Z) : bytes :=
  write_fields (base magic n) (sealed_fields magic n fs off).

(** What the encoder of a sealed structure has to satisfy; every conjunct is
    decided on the concrete offsets of the layout. *)
Definition layout_ok (n : Z) (fs : list field) (off : Z) : bool :=
  (16 <=? n) && (n <? 2 ^ 32) && (16 <=? off) && (off + 4 <=? n) &&
  fields_in n fs && untouched 0 8 fs && untouched off 4 fs &&
  bool_decide (read_field 8 2 fs = Some kFormatMajor) &&
  bool_decide (read_field 10 2 fs = Some kFormatMinor) &&
  bool_decide (read_field 12 4 fs = Some n).

Lemma zeroed_ok n : bytes_ok (zeroed n).
Proof. apply Forall_replicate. zlia. Qed.
Lemma len_zeroed n : 0 <= n -> len (zeroed n) = n.
Proof. intros. unfold zeroed. rewrite len_replicate. lia. Qed.

Lemma slice_zeroed o n m : 0 <= o -> 0 <= n -> o + n <= m ->
  slice o n (zeroed m) = zeroed n.
Proof.
  intros. unfold slice, takeZ, dropZ, zeroed. rewrite drop_replicate, take_replicate.
  f_equal. lia.
Qed.

Section Base.
Context (magic : bytes) (n : Z).
Hypothesis Hmagic : bytes_ok magic.
Hypothesis Hlen : len magic = 8.
Hypothesis Hn : 8 <= n.

Lemma len_base : len (base magic n) = n.
Proof. unfold base. rewrite len_splice; rewrite ?len_zeroed; lia. Qed.
Lemma base_ok : bytes_ok (base magic n).
Proof. apply Forall_splice; [done|apply zeroed_ok]. Qed.
Lemma base_magic : slice 0 8 (base magic n) = magic.
Proof.
  unfold base. rewrite <- Hlen at 1. apply slice_splice_same; rewrite ?len_zeroed; lia.
Qed.
Lemma base_zero o m : 8 <= o -> 0 <= m -> o + m <= n ->
  slice o m (base magic n) = zeroed m.
Proof.
  intros. unfold base. rewrite slice_splice_after by (rewrite ?len_zeroed; lia).
  apply slice_zeroed; lia.
Qed.
End Base.

Lemma fields_in_app size a b :
  fields_in size (a ++ b) = fields_in size a && fields_in size b.
Proof. apply forallb_app. Qed.
Lemma untouched_app o n a b : untouched o n (a ++ b) = untouched o n a && untouched o n b.
Proof. apply forallb_app. Qed.

Lemma read_field_app_ne o n a b :
  untouched o (Z.of_nat n) b = true -> 0 < Z.of_nat n ->
  read_field o n (a ++ b) = read_field o n a.
Proof.
  intros Hb Hn. induction a as [|f a IH]; simpl.
  - induction b as [|g b IHb]; [done|]. unfold untouched in Hb. simpl in Hb.
    apply andb_true_iff in Hb as [Hg Hb]. simpl. fold (untouched o (Z.of_nat n) b) in Hb.
    rewrite Hb, IHb by done.
    destruct ((f_off g =? o) && (f_width g =? n)%nat) eqn:E; [|done].
    apply andb_true_iff in E as [E1%Z.eqb_eq E2%Nat.eqb_eq]. subst.
    unfold f_end in Hg. lia.
  - rewrite untouched_app, Hb, andb_true_r. by rewrite IH.
Qed.

Lemma write_fields_app out a b :
  write_fields out (a ++ b) = write_fields (write_fields out a) b.
Proof. apply foldl_app. Qed.

Lemma write_fields_snoc2 out fs a b :
  write_fields out (fs ++ [a; b]) = write_field (write_fields out (fs ++ [a])) b.
Proof. by rewrite !write_fields_app. Qed.

Lemma finish_crc_sealed magic n fs off :
  finish_crc (write_fields (base magic n) fs) off = sealed_image magic n fs off.
Proof.
  unfold sealed_image, sealed_fields, finish_crc. rewrite !write_fields_app. done.
Qed.

Section Sealed.
Context (magic : bytes) (n : Z) (fs : list field) (off : Z).
Hypothesis Hmagic : bytes_ok magic.
Hypothesis Hlen : len magic = 8.
Hypothesis Hlay : layout_ok n fs off = true.
Local Abbreviation img := (sealed_image magic n fs off).
Local Abbreviation crc := (crc32c (write_fields (base magic n) (fs ++ [Field off 4 0]))).

Lemma layout_facts :
  16 <= n < 2 ^ 32 /\ 16 <= off /\ off + 4 <= n /\ fields_in n fs = true /\
  untouched 0 8 fs = true /\ untouched off 4 fs = true /\
  read_field 8 2 fs = Some kFormatMajor /\ read_field 10 2 fs = Some kFormatMinor /\
  read_field 12 4 fs = Some n.
Proof.
  unfold layout_ok in Hlay. rewrite !andb_true_iff, !bool_decide_eq_true in Hlay.
  naive_solver lia.
Qed.

Lemma sealed_in : fields_in n (sealed_fields magic n fs off) = true.
Proof.
  pose proof layout_facts as (?&?&?&Hin&_). unfold sealed_fields.
  rewrite fields_in_app, Hin. unfold fields_in, f_end. simpl. zlia.
Qed.

Lemma len_sealed : len img = n.
Proof.
  pose proof layout_facts. unfold sealed_image.
  rewrite write_fields_len; rewrite len_base by (done || lia); [done|apply sealed_in].
Qed.

Lemma sealed_ok : bytes_ok img.
Proof. apply write_fields_ok. by apply base_ok. Qed.

(** Reading a field of the sealed image. *)
Lemma sealed_get o w v :
  0 <= o -> o + Z.of_nat w <= n -> 0 < Z.of_nat w ->
  o + Z.of_nat w <= off \/ off + 4 <= o ->
  read_field o w fs = Some v -> get_le w img o = v mod 2 ^ (8 * Z.of_nat w).
Proof.
  pose proof layout_facts as (?&_). intros Ho Hw Hw0 Hd Hr. unfold sealed_image.
  apply get_read_field; rewrite ?len_base by (done || lia); try done.
  - by apply base_ok.
  - apply sealed_in.
  - unfold sealed_fields. rewrite read_field_app_ne; [done| |lia].
    unfold untouched, f_end. simpl. zlia.
Qed.

Lemma sealed_slice o m :
  0 <= o -> 0 <= m -> o + m <= off \/ off + 4 <= o -> untouched o m fs = true ->
  slice o m img = slice o m (base magic n).
Proof.
  pose proof layout_facts as (?&_). intros Ho Hm Hd Hu. unfold sealed_image.
  apply slice_untouched; try done.
  - rewrite len_base by (done || lia). apply sealed_in.
  - unfold sealed_fields. rewrite untouched_app, Hu. unfold untouched, f_end. simpl. zlia.
Qed.

Lemma sealed_zero o m :
  8 <= o -> 0 <= m -> o + m <= n -> o + m <= off \/ off + 4 <= o ->
  untouched o m fs = true -> all_zero img o m = true.
Proof.
  pose proof layout_facts as (?&_). intros Ho Hm Hn Hd Hu. unfold all_zero.
  rewrite sealed_slice, base_zero by (done || lia).
  apply forallb_forall. intros x Hx%list_elem_of_In.
  apply elem_of_replicate in Hx as [-> _]. done.
Qed.

Lemma crc_field_range : is_u32 crc.
Proof. apply crc32c_range, write_fields_ok. by apply base_ok. Qed.

Lemma sealed_crc_field : get32 img off = crc.
Proof.
  pose proof layout_facts as (?&?&?&Hin&_).
  unfold sealed_image, get32.
  erewrite get_read_field with (v := crc).
  - apply Z.mod_small. apply crc_field_range.
  - lia.
  - rewrite len_base by (done || lia). simpl. zlia.
  - by apply base_ok.
  - rewrite len_base by (done || lia). apply sealed_in.
  - unfold sealed_fields. generalize crc. clear. intros c.
    induction fs as [|f fs' IH]; simpl.
    + unfold untouched, f_end. simpl. rewrite Z.eqb_refl.
      destruct (_ || _) eqn:E; [|done]. lia.
    + rewrite IH. destruct (untouched off _ (fs' ++ _)) eqn:Hu; [|done].
      rewrite untouched_app in Hu. apply andb_true_iff in Hu as [_ Hu].
      unfold untouched, f_end in Hu. simpl in Hu. lia.
Qed.

Lemma sealed_crc : crc32c_with_zeroed_field img off = crc.
Proof.
  pose proof layout_facts as (?&?&?&Hin&_).
  rewrite crc32c_with_zeroed_field_splice by (rewrite ?len_sealed; lia).
  f_equal. unfold sealed_image, sealed_fields. rewrite write_fields_snoc2.
  set (z := write_fields (base magic n) (fs ++ [Field off 4 0])).
  assert (Hz : len z = n).
  { unfold z. rewrite write_fields_len; rewrite len_base by (done || lia); [done|].
    rewrite fields_in_app, Hin. unfold fields_in, f_end. simpl. lia. }
  generalize (crc32c z). intros c.
  change (splice off [0; 0; 0; 0] ?x) with (write_field x (Field off 4 0)).
  assert (Hc : len (write_field z (Field off 4 c)) = n)
    by (rewrite write_field_len; unfold f_end; simpl; lia).
  apply byte_at_ext; [rewrite write_field_len; unfold f_end; simpl; lia|].
  rewrite write_field_len by (unfold f_end; simpl; lia). intros i Hi.
  rewrite !byte_at_write_field by (unfold f_end; simpl; lia).
  unfold f_end. simpl f_off. simpl f_width. simpl f_value.
  destruct ((off <=? i) && (i <? off + Z.of_nat 4)) eqn:E; [|done].
  unfold z. rewrite write_fields_app. simpl write_fields.
  rewrite byte_at_write_field; unfold f_end; simpl; [by rewrite E|lia..|].
  rewrite write_fields_len; rewrite len_base by (done || lia); [lia|done].
Qed.

(** The common checks accept every sealed image. *)
Lemma common_check_sealed : common_check img magic n off = Ok tt.
Proof.
  pose proof layout_facts as (?&?&?&Hin&Hm&Hc&H8&H10&H12).
  unfold common_check. rewrite len_sealed, Z.ltb_irrefl.
  assert (Hmi : magic_is img magic = true).
  { unfold magic_is. rewrite len_sealed. rewrite sealed_slice, base_magic by (done || lia).
    rewrite bool_decide_true by done. lia. }
  rewrite Hmi. cbn [negb].
  assert (E8 : get16 img 8 = kFormatMajor) by (apply (sealed_get 8 2) in H8; [done|simpl; zlia..]).
  assert (E10 : get16 img 10 = kFormatMinor) by (apply (sealed_get 10 2) in H10; [done|simpl; zlia..]).
  assert (E12 : get32 img 12 = n).
  { apply (sealed_get 12 4) in H12; [|simpl; zlia..]. unfold get32. rewrite H12.
    apply Z.mod_small. simpl. zlia. }
  rewrite E8, E10, E12. simpl. rewrite Z.eqb_refl, Z.ltb_irrefl. simpl.
  rewrite (proj2 (Z.ltb_ge _ _)) by lia.
  rewrite takeZ_all by (rewrite len_sealed; lia).
  rewrite sealed_crc, sealed_crc_field, Z.eqb_refl. done.
Qed.
(** Field reads at the widths the decoders use. [o] is checked against the
    CRC field and the size by computation. *)
Definition clear_of_crc (o w : Z) : bool :=
  (0 <=? o) && (o + w <=? n) && ((o + w <=? off) || (off + 4 <=? o)).

Lemma sealed_get16 o v :
  clear_of_crc o 2 = true -> read_field o 2 fs = Some v -> is_u16 v -> get16 img o = v.
Proof.
  unfold clear_of_crc, get16. intros Hc Hr Hv.
  rewrite (sealed_get _ _ v) by (done || lia). by apply Z.mod_small.
Qed.
Lemma sealed_get32 o v :
  clear_of_crc o 4 = true -> read_field o 4 fs = Some v -> is_u32 v -> get32 img o = v.
Proof.
  unfold clear_of_crc, get32. intros Hc Hr Hv.
  rewrite (sealed_get _ _ v) by (done || lia). by apply Z.mod_small.
Qed.
Lemma sealed_get64 o v :
  clear_of_crc o 8 = true -> read_field o 8 fs = Some v -> is_u64 v -> get64 img o = v.
Proof.
  unfold clear_of_crc, get64. intros Hc Hr Hv.
  rewrite (sealed_get _ _ v) by (done || lia). by apply Z.mod_small.
Qed.
Lemma sealed_geti64 o v :
  clear_of_crc o 8 = true -> read_field o 8 fs = Some (u64 v) -> is_i64 v ->
  geti64 img o = v.
Proof.
  intros Hc Hr Hv. apply geti64_u64; [done|]. apply sealed_get64; auto with tfdb.
Qed.
Lemma sealed_all_zero o m :
  clear_of_crc o m = true -> (8 <=? o) && (0 <=? m) = true -> untouched o m fs = true ->
  all_zero img o m = true.
Proof. unfold clear_of_crc. intros. apply sealed_zero; try done; lia. Qed.
End Sealed.

(** ** Decoders accept only encodings

    [data] passed the common checks and holds the value of every field; every
    other byte is in the magic, in the CRC field or in one of the zero ranges
    [zs]. Then [data] is the sealed image of those fields. *)

Definition in_ranges (i : Z) (zs : list (Z * Z)) : bool :=
  existsb (fun '(o, m) => (o <=? i) && (i <? o + m)) zs.

Definition fully_covered (n : Z) (fs : list field) (off : Z) (zs : list (Z * Z)) : bool :=
  forallb (fun i => covered i fs || (i <? 8) || ((off <=? i) && (i <? off + 4)) ||
                    in_ranges i zs) (seqZ 0 n).

Definition zero_ranges (data : bytes) (zs : list (Z * Z)) : Prop :=
  Forall (fun '(o, m) => 0 <= o /\ all_zero data o m = true) zs.

Definition field_holds (data : bytes) (f : field) : Prop :=
  slice (f_off f) (Z.of_nat (f_width f)) data = le_bytes (f_width f) (f_value f).

Lemma all_zero_byte data o m i :
  0 <= o -> all_zero data o m = true -> o <= i < o + m -> byte_at data i = 0.
Proof.
  intros Ho Hz Hi. unfold all_zero in Hz. rewrite forallb_forall in Hz.
  replace (byte_at data i) with (byte_at (slice o m data) (i - o))
    by (rewrite byte_at_slice by lia; f_equal; lia).
  unfold byte_at. destruct (nth_in_or_default (Z.to_nat (i - o)) (slice o m data) 0) as [H|H].
  - apply Hz in H. lia.
  - done.
Qed.

Lemma in_ranges_zero data zs i :
  zero_ranges data zs -> in_ranges i zs = true -> byte_at data i = 0.
Proof.
  intros Hz Hr. unfold in_ranges in Hr. apply existsb_exists in Hr as ([o m]&Hin&Hr).
  unfold zero_ranges in Hz. rewrite Forall_forall in Hz.
  destruct (Hz (o, m)) as [Ho Ha]; [by apply list_elem_of_In|].
  eapply all_zero_byte; [done|done|lia].
Qed.

Lemma byte_at_base magic n i :
  len magic = 8 -> 8 <= n -> 0 <= i < n ->
  byte_at (base magic n) i = if i <? 8 then byte_at magic i else 0.
Proof.
  intros Hl Hn Hi. destruct (Z.ltb_spec i 8).
  - rewrite <- (base_magic magic n) at 2 by done. by rewrite byte_at_slice by lia.
  - apply (all_zero_byte _ 8 (n - 8)); [lia| |lia]. unfold all_zero.
    rewrite base_zero by lia. apply forallb_forall. intros x Hx%list_elem_of_In.
    by apply elem_of_replicate in Hx as [-> _].
Qed.

Lemma common_check_facts data magic n off :
  common_check data magic n off = Ok tt ->
  n <= len data /\ slice 0 8 data = magic /\ get16 data 8 = kFormatMajor /\
  get16 data 10 <= kFormatMinor /\ get32 data 12 = n /\ off + 4 <= n /\
  crc32c_with_zeroed_field (takeZ n data) off = get32 data off.
Proof.
  unfold common_check, magic_is. intros H.
  repeat (case_match; [discriminate H|]).
  repeat match goal with H : negb _ = false |- _ => apply negb_false_iff in H end.
  repeat match goal with H : _ || _ = false |- _ => apply orb_false_iff in H as [??] end.
  repeat match goal with H : _ && _ = true |- _ => apply andb_true_iff in H as [??] end.
  repeat match goal with H : negb _ = false |- _ => apply negb_false_iff in H end.
  repeat match goal with H : bool_decide _ = true |- _ => apply bool_decide_eq_true in H end.
  rewrite !Z.ltb_ge, ?Z.eqb_eq in *. subst n. repeat split; try lia; done.
Qed.

Section Canonical.
Context (magic : bytes) (n : Z) (fs : list field) (off : Z) (zs : list (Z * Z)).
Hypothesis Hmagic : bytes_ok magic.
Hypothesis Hlen : len magic = 8.
Hypothesis Hlay : layout_ok n fs off = true.
Hypothesis Hcov : fully_covered n fs off zs = true.
Context (data : bytes).
Hypothesis Hdata : bytes_ok data.
Hypothesis Hdlen : len data = n.
Hypothesis Hcheck : common_check data magic n off = Ok tt.
Hypothesis Hfs : Forall (field_holds data) fs.
Hypothesis Hzs : zero_ranges data zs.

Lemma fields_agree i :
  0 <= i < n -> ~ (off <= i < off + 4) ->
  byte_at (write_fields (base magic n) fs) i = byte_at data i.
Proof.
  pose proof (layout_facts n fs off Hlay) as (?&?&?&Hin&_).
  pose proof (common_check_facts _ _ _ _ Hcheck) as (_&Hmag&_).
  intros Hi Hni. rewrite <- (write_fields_same data fs) by (rewrite ?Hdlen; done).
  apply byte_at_write_fields; rewrite ?len_base by (done || lia); try done; try lia.
  unfold fully_covered in Hcov. rewrite forallb_forall in Hcov.
  assert (Hc := Hcov i). rewrite <- list_elem_of_In, elem_of_seqZ in Hc.
  specialize (Hc ltac:(lia)). rewrite !orb_true_iff in Hc.
  rewrite byte_at_base by (done || lia).
  destruct Hc as [[[Hc|Hc]|Hc]|Hc]; [by left|right..].
  - rewrite Hc, <- Hmag, byte_at_slice by lia. done.
  - lia.
  - rewrite (in_ranges_zero data zs) by done. destruct (Z.ltb_spec i 8); [|done].
    rewrite <- Hmag, byte_at_slice by lia. by apply (in_ranges_zero data zs).
Qed.

Lemma zeroed_agree :
  write_fields (base magic n) (fs ++ [Field off 4 0]) = splice off [0; 0; 0; 0] data.
Proof.
  pose proof (layout_facts n fs off Hlay) as (?&?&?&Hin&_).
  change (splice off [0; 0; 0; 0] data) with (write_field data (Field off 4 0)).
  rewrite write_fields_app. simpl write_fields.
  assert (Hw : len (write_fields (base magic n) fs) = n)
    by (rewrite write_fields_len; rewrite len_base by (done || lia); done).
  apply byte_at_ext; rewrite write_field_len by (unfold f_end; simpl; lia).
  - rewrite write_field_len by (unfold f_end; simpl; lia). lia.
  - intros i Hi. rewrite !byte_at_write_field by (unfold f_end; simpl; lia).
    unfold f_end. simpl f_off. simpl f_width. simpl f_value.
    destruct ((off <=? i) && (i <? off + Z.of_nat 4)) eqn:E; [done|].
    apply fields_agree; lia.
Qed.

Lemma sealed_canonical : sealed_image magic n fs off = data.
Proof.
  pose proof (layout_facts n fs off Hlay) as (?&?&?&Hin&_).
  pose proof (common_check_facts _ _ _ _ Hcheck) as (_&_&_&_&_&_&Hcrc).
  rewrite takeZ_all in Hcrc by lia.
  rewrite crc32c_with_zeroed_field_splice in Hcrc by lia.
  unfold sealed_image, sealed_fields. rewrite write_fields_snoc2, zeroed_agree, Hcrc.
  change (splice off [0; 0; 0; 0] data) with (write_field data (Field off 4 0)).
  assert (Hw : len (write_field data (Field off 4 0)) = n)
    by (rewrite write_field_len; unfold f_end; simpl; lia).
  apply byte_at_ext; rewrite write_field_len by (unfold f_end; simpl; lia); [lia|].
  intros i Hi. rewrite !byte_at_write_field by (unfold f_end; simpl; lia).
  unfold f_end. simpl f_off. simpl f_width. simpl f_value.
  destruct ((off <=? i) && (i <? off + Z.of_nat 4)) eqn:E; [|done].
  unfold get32. rewrite <- slice_get_le by (done || lia).
  rewrite byte_at_slice by lia. f_equal. lia.
Qed.
End Canonical.

(** An encoder's nested stores are its field list, syntactically. *)
Ltac stores encode fields :=
  unfold encode, fields;
  cbv [write_fields foldl write_field f_off f_width f_value base
       puti64 put64 put32 put16];
  reflexivity.

(** [decode_fields Hm Hl Hlay] evaluates a decoder on a sealed image: every
    read is replaced by the value stored, the layout conditions being decided
    by computation and the width conditions by assumption. *)
Ltac side := cbn [f_value]; 
  solve [ assumption | reflexivity | auto with tfdb | zlia
        | vm_compute; split; [discriminate|reflexivity] ].
Ltac decode_fields Hm Hl Hlay :=
  repeat (cbn [mbind result_bind negb orb andb f_value];
  match goal with
  | |- context [common_check (sealed_image ?m ?n ?fs ?c) _ _ _] =>
      rewrite (common_check_sealed m n fs c Hm Hl Hlay)
  | |- context [get16 (sealed_image ?m ?n ?fs ?c) ?o] =>
      erewrite (sealed_get16 m n fs c Hm Hl Hlay o) by side
  | |- context [get32 (sealed_image ?m ?n ?fs ?c) ?o] =>
      erewrite (sealed_get32 m n fs c Hm Hl Hlay o) by side
  | |- context [geti64 (sealed_image ?m ?n ?fs ?c) ?o] =>
      erewrite (sealed_geti64 m n fs c Hm Hl Hlay o) by side
  | |- context [get64 (sealed_image ?m ?n ?fs ?c) ?o] =>
      erewrite (sealed_get64 m n fs c Hm Hl Hlay o) by side
  | |- context [all_zero (sealed_image ?m ?n ?fs ?c) ?o ?l] =>
      rewrite (sealed_all_zero m n fs c Hl Hlay o l) by side
  end).

Lemma volume_magic_ok : bytes_ok kVolumeMagic.
Proof. repeat constructor; done. Qed.
Lemma partition_magic_ok : bytes_ok kPartitionMagic.
Proof. repeat constructor; done. Qed.
Lemma block_magic_ok : bytes_ok kBlockMagic.
Proof. repeat constructor; done. Qed.
Lemma footer_magic_ok : bytes_ok kFooterMagic.
Proof. repeat constructor; done. Qed.

Lemma get16_range data o :
  0 <= o -> o + 2 <= len data -> bytes_ok data -> is_u16 (get16 data o).
Proof. intros. by apply (get_le_range 2). Qed.
Lemma get32_range data o :
  0 <= o -> o + 4 <= len data -> bytes_ok data -> is_u32 (get32 data o).
Proof. intros. by apply (get_le_range 4). Qed.
Lemma get64_range data o :
  0 <= o -> o + 8 <= len data -> bytes_ok data -> is_u64 (get64 data o).
Proof. intros. by apply (get_le_range 8). Qed.

Lemma holds_get data w o v :
  0 <= o -> o + Z.of_nat w <= len data -> bytes_ok data -> v = get_le w data o ->
  field_holds data (Field o w v).
Proof. intros. subst. by apply slice_get_le. Qed.

Lemma holds_geti64 data o :
  0 <= o -> o + 8 <= len data -> bytes_ok data ->
  field_holds data (Field o 8 (u64 (geti64 data o))).
Proof. intros. apply holds_get; [done..|]. by apply u64_geti64. Qed.

(** Inverts an accepting run of a decoder. *)
Ltac decode_inv H :=
  repeat match type of H with
  | (_ ≫= _) = Ok _ => apply result_bind_Ok in H as ([]&?&H)
  | (if ?b then _ else _) = Ok _ =>
      let E := fresh "E" in destruct b eqn:E; [discriminate H|]
  end.

Ltac bool_facts :=
  repeat match goal with
  | H : negb _ = false |- _ => apply negb_false_iff in H
  | H : _ || _ = false |- _ => apply orb_false_iff in H as [??]
  | H : _ && _ = true |- _ => apply andb_true_iff in H as [??]
  | H : bool_decide _ = true |- _ => apply bool_decide_eq_true in H
  | H : (_ <? _) = false |- _ => apply Z.ltb_ge in H
  | H : (_ =? _) = false |- _ => apply Z.eqb_neq in H
  | H : (_ =? _) = true |- _ => apply Z.eqb_eq in H
  end.

Ltac ranges :=
  first [ apply get16_range | apply get32_range | apply get64_range | apply geti64_range ];
  (lia || assumption).

(** The decoded field list is held by the buffer it was decoded from. *)
Ltac holds :=
  repeat (apply Forall_cons; split; [first [
    apply holds_geti64; (lia || assumption)
  | apply holds_get; [lia|zlits; lia|assumption|first [reflexivity|symmetry; assumption|
      unfold get16, get32, get64, kFormatMinor in *; zlia]] ]|]);
  apply Forall_nil; exact I.

(** ** Volume header *)

Record VolumeHeader_wf (h : VolumeHeader) : Prop := {
  vh_wf_id_high : is_u64 (vh_volume_id_high h);
  vh_wf_id_low : is_u64 (vh_volume_id_low h);
  vh_wf_volume_size : is_u64 (vh_volume_size h);
  vh_wf_partition_size : is_u64 (vh_partition_size h);
  vh_wf_partition_count : is_u32 (vh_partition_count h);
  vh_wf_index_region_size : is_u32 (vh_index_region_size h);
  vh_wf_max_block_payload : is_u32 (vh_max_block_payload h);
  vh_wf_persistence_quantum : is_u32 (vh_persistence_quantum h);
  vh_wf_created_time_ns : is_i64 (vh_created_time_ns h) }.

(** The geometry facts [decode_volume_header] insists on. *)
Definition volume_header_valid (h : VolumeHeader) : Prop :=
  2 <= vh_partition_count h /\ 0 < vh_partition_size h /\
  0 < vh_max_block_payload h /\ 0 < vh_persistence_quantum h.

Definition volume_fields (h : VolumeHeader) : list field :=
  [ Field 8 2 kFormatMajor; Field 10 2 kFormatMinor; Field 12 4 kVolumeHeaderEncodedSize;
    Field 16 8 (vh_volume_id_high h); Field 24 8 (vh_volume_id_low h);
    Field 32 8 (vh_volume_size h); Field 40 8 (vh_partition_size h);
    Field 48 4 (vh_partition_count h); Field 52 4 (vh_index_region_size h);
    Field 56 4 (vh_max_block_payload h); Field 60 4 (vh_persistence_quantum h);
    Field 64 8 (u64 (vh_created_time_ns h)) ].

Lemma encode_volume_image h :
  encode_volume_header h =
    sealed_image kVolumeMagic kVolumeHeaderEncodedSize (volume_fields h) 72.
Proof. rewrite <- finish_crc_sealed. stores encode_volume_header volume_fields. Qed.

Lemma volume_layout h : layout_ok kVolumeHeaderEncodedSize (volume_fields h) 72 = true.
Proof. reflexivity. Qed.

Lemma decode_encode_volume h :
  VolumeHeader_wf h -> volume_header_valid h ->
  decode_volume_header (encode_volume_header h) = Ok h.
Proof.
  intros [] (?&?&?&?). rewrite encode_volume_image. unfold decode_volume_header.
  decode_fields volume_magic_ok (eq_refl (len kVolumeMagic)) (volume_layout h).
  simpl. repeat (case_match; [zlia|]). by destruct h.
Qed.

Lemma decode_volume_inv data h :
  bytes_ok data -> len data = kVolumeHeaderEncodedSize ->
  decode_volume_header data = Ok h ->
  VolumeHeader_wf h /\ volume_header_valid h /\ encode_volume_header h = data.
Proof.
  intros Hok Hl H. unfold decode_volume_header in H. decode_inv H.
  injection H as <-. cbn in *. unfold kVolumeHeaderEncodedSize in *.
  pose proof (common_check_facts _ _ _ _ H0) as (_&_&?&?&?&_).
  pose proof (get16_range data 10 ltac:(lia) ltac:(lia) Hok).
  assert (Hwf : VolumeHeader_wf (mkVolumeHeader (get64 data 16) (get64 data 24)
    (get64 data 32) (get64 data 40) (get32 data 48) (get32 data 52) (get32 data 56)
    (get32 data 60) (geti64 data 64))) by (split; cbn; ranges).
  split; [done|]. destruct Hwf. cbn in *. bool_facts. split.
  { unfold volume_header_valid. cbn. zlia. }
  rewrite encode_volume_image.
  apply (sealed_canonical _ _ _ _ [(76, 180)]); try done.
  - unfold volume_fields. cbn. holds.
  - repeat constructor; done.
Qed.

(** ** Block header *)

Record BlockHeader_wf (h : BlockHeader) : Prop := {
  bh_wf_generation : is_u64 (bh_generation h);
  bh_wf_slot : is_u32 (bh_slot h);
  bh_wf_sequence : is_u32 (bh_sequence h);
  bh_wf_flags : is_u32 (bh_flags h);
  bh_wf_record_count : is_u32 (bh_record_count h);
  bh_wf_stored_size : is_u32 (bh_stored_size h);
  bh_wf_raw_size : is_u32 (bh_raw_size h);
  bh_wf_frame_span : is_u32 (bh_frame_span h);
  bh_wf_min_time : is_i64 (bh_min_time_ns h);
  bh_wf_max_time : is_i64 (bh_max_time_ns h);
  bh_wf_compression : is_u16 (bh_compression h);
  bh_wf_compression_version : is_u16 (bh_compression_version h);
  bh_wf_payload_crc : is_u32 (bh_payload_crc h);
  bh_wf_volume_id_low : is_u64 (bh_volume_id_low h);
  bh_wf_volume_id_high : is_u64 (bh_volume_id_high h);
  bh_wf_writer_id_high : is_u64 (bh_writer_id_high h);
  bh_wf_writer_id_low : is_u64 (bh_writer_id_low h);
  bh_wf_previous_writer_id_high : is_u64 (bh_previous_writer_id_high h);
  bh_wf_previous_writer_id_low : is_u64 (bh_previous_writer_id_low h) }.

(** What [decode_block_header] insists on; the 32-bit sum is kept. *)
Definition block_header_valid (h : BlockHeader) : Prop :=
  0 < bh_stored_size h /\ 0 < bh_raw_size h /\ 0 < bh_record_count h /\
  ~ (bh_writer_id_high h = 0 /\ bh_writer_id_low h = 0) /\
  bh_min_time_ns h <= bh_max_time_ns h /\
  u32 (kBlockHeaderEncodedSize + bh_stored_size h) <= bh_frame_span h.

Definition block_fields (h : BlockHeader) : list field :=
  [ Field 8 2 kFormatMajor; Field 10 2 kFormatMinor; Field 12 4 kBlockHeaderEncodedSize;
    Field 16 8 (bh_generation h); Field 24 4 (bh_sequence h); Field 28 4 (bh_flags h);
    Field 32 4 (bh_record_count h); Field 36 4 (bh_stored_size h);
    Field 40 4 (bh_raw_size h); Field 44 4 (bh_frame_span h);
    Field 48 8 (u64 (bh_min_time_ns h)); Field 56 8 (u64 (bh_max_time_ns h));
    Field 64 2 (bh_compression h); Field 66 2 (bh_compression_version h);
    Field 68 4 (bh_payload_crc h); Field 76 4 (bh_slot h);
    Field 80 8 (bh_volume_id_low h); Field 88 8 (bh_volume_id_high h);
    Field 96 8 (bh_writer_id_high h); Field 104 8 (bh_writer_id_low h);
    Field 112 8 (bh_previous_writer_id_high h); Field 120 8 (bh_previous_writer_id_low h) ].

Lemma encode_block_image h :
  encode_block_header h = sealed_image kBlockMagic kBlockHeaderEncodedSize (block_fields h) 72.
Proof. rewrite <- finish_crc_sealed. stores encode_block_header block_fields. Qed.

Lemma block_layout h : layout_ok kBlockHeaderEncodedSize (block_fields h) 72 = true.
Proof. reflexivity. Qed.

Lemma decode_encode_block h :
  BlockHeader_wf h -> block_header_valid h -> decode_block_header (encode_block_header h) = Ok h.
Proof.
  intros [] (?&?&?&?&?&?). rewrite encode_block_image. unfold decode_block_header.
  decode_fields block_magic_ok (eq_refl (len kBlockMagic)) (block_layout h).
  simpl. case_match; [zlia|]. by destruct h.
Qed.

Lemma decode_block_inv data h :
  bytes_ok data -> len data = kBlockHeaderEncodedSize -> decode_block_header data = Ok h ->
  BlockHeader_wf h /\ block_header_valid h /\ encode_block_header h = data.
Proof.
  intros Hok Hl H. unfold decode_block_header in H. decode_inv H.
  injection H as <-. cbn in *. unfold kBlockHeaderEncodedSize in *.
  pose proof (common_check_facts _ _ _ _ H0) as (_&_&?&?&?&_).
  pose proof (get16_range data 10 ltac:(lia) ltac:(lia) Hok).
  match goal with |- BlockHeader_wf ?h /\ _ => assert (Hwf : BlockHeader_wf h) end.
  { split; cbn; ranges. }
  split; [done|]. destruct Hwf. cbn in *. bool_facts. split.
  { unfold block_header_valid, kBlockHeaderEncodedSize. cbn. zlia. }
  rewrite encode_block_image.
  apply (sealed_canonical _ _ _ _ []); try done.
  - unfold block_fields. cbn. holds.
  - constructor.
Qed.

(** ** Partition footer *)

Record PartitionFooter_wf (f : PartitionFooter) : Prop := {
  pf_wf_volume_id_high : is_u64 (pf_volume_id_high f);
  pf_wf_volume_id_low : is_u64 (pf_volume_id_low f);
  pf_wf_generation : is_u64 (pf_generation f);
  pf_wf_slot : is_u32 (pf_slot f);
  pf_wf_flags : is_u32 (pf_flags f);
  pf_wf_block_count : is_u32 (pf_block_count f);
  pf_wf_index_offset : is_u64 (pf_index_offset f);
  pf_wf_index_size : is_u32 (pf_index_size f);
  pf_wf_data_end : is_u64 (pf_data_end f);
  pf_wf_min_time : is_i64 (pf_min_time_ns f);
  pf_wf_max_time : is_i64 (pf_max_time_ns f);
  pf_wf_index_crc : is_u32 (pf_index_crc f) }.

Definition footer_valid (f : PartitionFooter) : Prop :=
  pf_index_size f = pf_block_count f * kIndexEntryEncodedSize /\
  (pf_block_count f <> 0 -> pf_min_time_ns f <= pf_max_time_ns f).

Definition footer_fields (f : PartitionFooter) : list field :=
  [ Field 8 2 kFormatMajor; Field 10 2 kFormatMinor; Field 12 4 kPartitionFooterEncodedSize;
    Field 16 8 (pf_volume_id_high f); Field 24 8 (pf_volume_id_low f);
    Field 32 8 (pf_generation f); Field 40 4 (pf_slot f); Field 44 4 (pf_flags f);
    Field 48 4 (pf_block_count f); Field 52 4 kIndexEntryEncodedSize;
    Field 56 8 (pf_index_offset f); Field 64 4 (pf_index_size f);
    Field 72 8 (pf_data_end f); Field 80 8 (u64 (pf_min_time_ns f));
    Field 88 8 (u64 (pf_max_time_ns f)); Field 96 4 (pf_index_crc f) ].

Lemma encode_footer_image f :
  encode_partition_footer f =
    sealed_image kFooterMagic kPartitionFooterEncodedSize (footer_fields f) 100.
Proof. rewrite <- finish_crc_sealed. stores encode_partition_footer footer_fields. Qed.

Lemma footer_layout f : layout_ok kPartitionFooterEncodedSize (footer_fields f) 100 = true.
Proof. reflexivity. Qed.

Lemma decode_encode_footer f :
  PartitionFooter_wf f -> footer_valid f ->
  decode_partition_footer (encode_partition_footer f) = Ok f.
Proof.
  intros [] (?&?). rewrite encode_footer_image. unfold decode_partition_footer.
  decode_fields footer_magic_ok (eq_refl (len kFooterMagic)) (footer_layout f).
  simpl. case_match; [zlia|]. by destruct f.
Qed.

Lemma decode_footer_inv data f :
  bytes_ok data -> len data = kPartitionFooterEncodedSize ->
  decode_partition_footer data = Ok f ->
  PartitionFooter_wf f /\ footer_valid f /\ encode_partition_footer f = data.
Proof.
  intros Hok Hl H. unfold decode_partition_footer in H. decode_inv H.
  injection H as <-. cbn in *. unfold kPartitionFooterEncodedSize in *.
  pose proof (common_check_facts _ _ _ _ H0) as (_&_&?&?&?&_).
  pose proof (get16_range data 10 ltac:(lia) ltac:(lia) Hok).
  match goal with |- PartitionFooter_wf ?h /\ _ => assert (Hwf : PartitionFooter_wf h) end.
  { split; cbn; ranges. }
  split; [done|]. destruct Hwf. cbn in *. bool_facts. split.
  { unfold footer_valid. cbn. split; [done|]. intros. bool_facts. zlia. }
  rewrite encode_footer_image.
  apply (sealed_canonical _ _ _ _ [(68, 4); (104, 152)]); try done.
  - unfold footer_fields. cbn. holds.
  - repeat constructor; done.
Qed.

(** ** Partition header *)

Record PartitionOptions_wf (o : PartitionOptions) : Prop := {
  po_wf_compression : is_u16 (po_compression o);
  po_wf_compression_version : is_u16 (po_compression_version o);
  po_wf_record_format_id : is_u64 (po_record_format_id o);
  po_wf_record_format_version : is_u16 (po_record_format_version o);
  po_wf_time_domain_id : is_u64 (po_time_domain_id o);
  po_wf_backward : is_i64 (po_allowed_backward_skew_ns o);
  po_wf_forward : is_i64 (po_allowed_forward_step_ns o) }.

Record PartitionHeader_wf (h : PartitionHeader) : Prop := {
  ph_wf_volume_id_high : is_u64 (ph_volume_id_high h);
  ph_wf_volume_id_low : is_u64 (ph_volume_id_low h);
  ph_wf_generation : is_u64 (ph_generation h);
  ph_wf_slot : is_u32 (ph_slot h);
  ph_wf_created_time_ns : is_i64 (ph_created_time_ns h);
  ph_wf_max_block_payload : is_u32 (ph_max_block_payload h);
  ph_wf_persistence_quantum : is_u32 (ph_persistence_quantum h);
  ph_wf_options : PartitionOptions_wf (ph_options h) }.

(** The options [decode_partition_header] accepts. *)
Definition options_valid (o : PartitionOptions) : Prop :=
  po_compression_version o <> 0 /\
  (po_record_format_id o = 0 <-> po_record_format_version o = 0).

Definition descriptor_fields (d : Z) (f : FeatureDescriptor) : list field :=
  [ Field d 2 (fd_kind f); Field (d + 2) 2 (fd_flags f); Field (d + 4) 4 (fd_algorithm f);
    Field (d + 8) 2 (fd_version f); Field (d + 12) 4 (fd_config_offset f);
    Field (d + 16) 4 (fd_config_length f); Field (d + 24) 8 (fd_region_offset f);
    Field (d + 32) 8 (fd_region_length f) ].

Definition partition_fields (h : PartitionHeader) (ps irs : Z) : list field :=
  let o := ph_options h in
  [ Field 8 2 kFormatMajor; Field 10 2 kFormatMinor; Field 12 4 kPartitionHeaderEncodedSize;
    Field 16 8 (ph_volume_id_high h); Field 24 8 (ph_volume_id_low h);
    Field 32 8 (ph_generation h); Field 40 4 (ph_slot h);
    Field 48 8 (u64 (ph_created_time_ns h)); Field 56 4 (ph_max_block_payload h);
    Field 60 4 (ph_persistence_quantum h); Field 64 8 (u64 (po_allowed_backward_skew_ns o));
    Field 72 8 (u64 (po_allowed_forward_step_ns o)); Field 80 8 (po_time_domain_id o);
    Field 88 2 4; Field 90 2 kFeatureDescriptorSize; Field 92 4 128; Field 96 4 512;
    Field 100 4 16 ] ++
  concat (imap (fun i f => descriptor_fields (128 + Z.of_nat i * 40) f) (descriptors o ps irs)) ++
  [ Field 512 8 (po_record_format_id o) ].

Lemma encode_partition_image h ps irs :
  encode_partition_header h ps irs =
    sealed_image kPartitionMagic kPartitionHeaderEncodedSize (partition_fields h ps irs) 104.
Proof.
  rewrite <- finish_crc_sealed.
  cbv [encode_partition_header partition_fields put_descriptors put_descriptor descriptors
       imap concat app descriptor_fields compose snd write_fields foldl write_field f_off
       f_width f_value base puti64 put64 put32 put16 fd_kind fd_flags fd_algorithm fd_version
       fd_config_offset fd_config_length fd_region_offset fd_region_length].
  reflexivity.
Qed.

Lemma partition_layout h ps irs :
  layout_ok kPartitionHeaderEncodedSize (partition_fields h ps irs) 104 = true.
Proof. reflexivity. Qed.

Section PartitionRoundtrip.
Context (h : PartitionHeader) (ps irs : Z).
Hypothesis Hwf : PartitionHeader_wf h.
Hypothesis Hirs : is_u32 irs.
Local Abbreviation o := (ph_options h).
Local Abbreviation img :=
  (sealed_image kPartitionMagic kPartitionHeaderEncodedSize (partition_fields h ps irs) 104).

Ltac partition_reads :=
  decode_fields partition_magic_ok (eq_refl (len kPartitionMagic)) (partition_layout h ps irs).

(** The descriptor at index [i] is read back. *)
Lemma partition_descriptor i f :
  descriptors o ps irs !! i = Some f ->
  get_descriptor img (128 + Z.of_nat i * kFeatureDescriptorSize) = f /\
  all_zero img (128 + Z.of_nat i * kFeatureDescriptorSize + 10) 2 = true /\
  all_zero img (128 + Z.of_nat i * kFeatureDescriptorSize + 20) 4 = true.
Proof.
  destruct Hwf as [? ? ? ? ? ? ? []].
  pose proof (u64_range (ps - kPartitionFooterRegionSize - irs)).
  assert (is_u64 irs) by zlia.
  assert (is_u16 1 /\ is_u16 2 /\ is_u16 3 /\ is_u16 4 /\ is_u16 0 /\ is_u32 0 /\ is_u32 1 /\
          is_u32 512 /\ is_u32 8 /\ is_u64 0) as (?&?&?&?&?&?&?&?&?&?) by zlia.
  assert (is_u32 (po_compression o)) by zlia.
  unfold get_descriptor.
  destruct i as [|[|[|[|i]]]]; intros E; simplify_eq/=;
    (split; [partition_reads; reflexivity|split; partition_reads; reflexivity]).
Qed.
Hypothesis Hvalid : options_valid o.
Hypothesis Hirs0 : irs <> 0.

(** The directory loop accepts the writer's four descriptors. *)
Lemma decode_features_descriptors data opts :
  (forall i f, descriptors o ps irs !! i = Some f ->
    get_descriptor data (128 + Z.of_nat i * kFeatureDescriptorSize) = f /\
    all_zero data (128 + Z.of_nat i * kFeatureDescriptorSize + 10) 2 = true /\
    all_zero data (128 + Z.of_nat i * kFeatureDescriptorSize + 20) 4 = true) ->
  get64 data 512 = po_record_format_id o ->
  po_time_domain_id opts = po_time_domain_id o ->
  po_allowed_backward_skew_ns opts = po_allowed_backward_skew_ns o ->
  po_allowed_forward_step_ns opts = po_allowed_forward_step_ns o ->
  exists ranges, decode_features data 128 kFeatureDescriptorSize 512 16 0 4
    (mkFeatureScan false false false false [] opts []) =
  Ok (mkFeatureScan true true true true ranges o (descriptors o ps irs)).
Proof.
  intros HD H512 Ht Hb Hf. destruct Hvalid as [Hcv Hrf].
  destruct Hwf as [? ? ? ? ? ? ? []]. eexists.
  assert (Hlk : forall i f d, descriptors o ps irs !! i = Some f ->
    d = 128 + Z.of_nat i * kFeatureDescriptorSize ->
    get_descriptor data d = f /\ all_zero data (d + 10) 2 = true /\
    all_zero data (d + 20) 4 = true) by (intros; subst; by apply HD).
  destruct (Hlk 0%nat _ (128 + 0 * kFeatureDescriptorSize) eq_refl eq_refl) as (G0&Z0&Y0).
  destruct (Hlk 1%nat _ (128 + (0 + 1) * kFeatureDescriptorSize) eq_refl eq_refl) as (G1&Z1&Y1).
  destruct (Hlk 2%nat _ (128 + (0 + 1 + 1) * kFeatureDescriptorSize) eq_refl eq_refl) as (G2&Z2&Y2).
  destruct (Hlk 3%nat _ (128 + (0 + 1 + 1 + 1) * kFeatureDescriptorSize) eq_refl eq_refl) as (G3&Z3&Y3).
  cbn [decode_features]. unfold decode_feature.
  rewrite G0, Z0, Y0, G1, Z1, Y1, G2, Z2, Y2, G3, Z3, Y3. clear HD Hlk G0 G1 G2 G3.
  unfold check_config, check_kind, has_config, has_region, required. simpl.
  rewrite (proj2 (Z.eqb_neq _ _) Hcv).
  rewrite (proj2 (Z.ltb_ge _ _)) by zlia. simpl.
  rewrite (proj2 (Z.eqb_neq _ _) Hirs0). simpl. rewrite H512. simpl.
  rewrite Ht, Hb, Hf, u16_small by done. by destruct o.
Qed.

Lemma decode_encode_partition :
  decode_partition_header (encode_partition_header h ps irs) =
  Ok (mkPartitionHeader (ph_volume_id_high h) (ph_volume_id_low h) (ph_generation h)
        (ph_slot h) (ph_created_time_ns h) (ph_max_block_payload h)
        (ph_persistence_quantum h) o (descriptors o ps irs)).
Proof.
  rewrite encode_partition_image. unfold decode_partition_header.
  destruct (decode_features_descriptors img
    (mkPartitionOptions CompressionId_none 1 0 0 (po_time_domain_id o)
       (po_allowed_backward_skew_ns o) (po_allowed_forward_step_ns o)))
    as [ranges HF]; [apply partition_descriptor| |reflexivity..|].
  { destruct Hwf as [? ? ? ? ? ? ? []]. partition_reads. reflexivity. }
  destruct Hwf as [? ? ? ? ? ? ? []]. destruct Hvalid as [Hcv Hrf].
  partition_reads. change (Z.to_nat 4) with 4%nat.
  set (b := _ || _ : bool). assert (b = false) as -> by reflexivity.
  cbn [f_value]. unfold mbind, result_bind. rewrite HF. simpl.
  destruct (Z.eqb_spec (po_record_format_id o) 0), (Z.eqb_spec (po_record_format_version o) 0);
    simpl; tauto || reflexivity.
Qed.
End PartitionRoundtrip.

(** ** Time index *)

Definition shift_field (d : Z) (f : field) : field :=
  Field (d + f_off f) (f_width f) (f_value f).

Lemma write_field_mid a b c f :
  0 <= f_off f -> f_end f <= len b ->
  write_field (a ++ b ++ c) (shift_field (len a) f) = a ++ write_field b f ++ c.
Proof.
  intros Hf He. unfold write_field, put, splice, f_end in *. simpl.
  rewrite takeZ_app, (takeZ_all _ a) by len_lia.
  rewrite takeZ_app. replace (len a + f_off f - len a) with (f_off f) by lia.
  rewrite (takeZ_nonpos (_ - len b)) by len_lia. rewrite app_nil_r.
  rewrite dropZ_app, (dropZ_all _ a) by len_lia.
  rewrite dropZ_app.
  replace (len a + f_off f + len (le_bytes (f_width f) (f_value f)) - len a)
    with (f_off f + len (le_bytes (f_width f) (f_value f))) by lia.
  rewrite (dropZ_nonpos (_ - len b)) by len_lia.
  by rewrite <- !app_assoc.
Qed.

Lemma write_fields_mid a b c fs :
  fields_in (len b) fs = true ->
  write_fields (a ++ b ++ c) (map (shift_field (len a)) fs) = a ++ write_fields b fs ++ c.
Proof.
  revert b. induction fs as [|f fs IH]; intros b Hin; [done|].
  apply fields_in_cons in Hin as (?&?&?). simpl.
  rewrite write_field_mid by done. rewrite IH; [done|]. by rewrite write_field_len.
Qed.

Record IndexEntry_wf (e : IndexEntry) : Prop := {
  ie_wf_offset : is_u64 (ie_offset e);
  ie_wf_frame_size : is_u32 (ie_frame_size e);
  ie_wf_frame_span : is_u32 (ie_frame_span e);
  ie_wf_sequence : is_u32 (ie_sequence e);
  ie_wf_record_count : is_u32 (ie_record_count e);
  ie_wf_min_time : is_i64 (ie_min_time_ns e);
  ie_wf_max_time : is_i64 (ie_max_time_ns e);
  ie_wf_flags : is_u32 (ie_flags e);
  ie_wf_raw_size : is_u32 (ie_raw_size e) }.

Definition index_entry_valid (e : IndexEntry) : Prop :=
  kBlockHeaderEncodedSize <= ie_frame_size e <= ie_frame_span e /\
  0 < ie_record_count e /\ ie_min_time_ns e <= ie_max_time_ns e.

(** What the index stores of an entry: the writer identity is not on media. *)
Definition strip_writer (e : IndexEntry) : IndexEntry :=
  mkIndexEntry (ie_offset e) (ie_frame_size e) (ie_frame_span e) (ie_sequence e)
    (ie_record_count e) (ie_min_time_ns e) (ie_max_time_ns e) (ie_flags e) (ie_raw_size e) 0 0.

Definition entry_fields (e : IndexEntry) : list field :=
  [ Field 0 8 (ie_offset e); Field 8 4 (ie_frame_size e); Field 12 4 (ie_frame_span e);
    Field 16 4 (ie_sequence e); Field 20 4 (ie_record_count e);
    Field 24 8 (u64 (ie_min_time_ns e)); Field 32 8 (u64 (ie_max_time_ns e));
    Field 40 4 (ie_flags e); Field 44 4 (ie_raw_size e) ].

Definition entry_bytes (e : IndexEntry) : bytes := write_fields (zeroed 48) (entry_fields e).

Lemma entry_bytes_len e : len (entry_bytes e) = 48.
Proof. unfold entry_bytes. by rewrite write_fields_len by reflexivity. Qed.
Lemma entry_bytes_ok e : bytes_ok (entry_bytes e).
Proof. apply write_fields_ok, zeroed_ok. Qed.

Lemma encode_index_entry_mid e a c :
  encode_index_entry e (a ++ zeroed 48 ++ c) (len a) = a ++ entry_bytes e ++ c.
Proof.
  unfold entry_bytes. rewrite <- write_fields_mid by reflexivity.
  generalize (a ++ zeroed 48 ++ c). intros out.
  cbv [encode_index_entry entry_fields map write_fields foldl write_field shift_field f_off
       f_width f_value puti64 put64 put32].
  by rewrite Z.add_0_r.
Qed.

Lemma zeroed_add a b : 0 <= a -> 0 <= b -> zeroed (a + b) = zeroed a ++ zeroed b.
Proof. intros. unfold zeroed. rewrite Z2Nat.inj_add by lia. apply replicate_add. Qed.

Lemma encode_index_loop es i p :
  len p = i * 48 ->
  snd (foldl (fun '(i, out) e => (i + 1, encode_index_entry e out (i * kIndexEntryEncodedSize)))
         (i, p ++ zeroed (len es * 48)) es) = p ++ concat (map entry_bytes es).
Proof.
  revert i p. induction es as [|e es IH]; intros i p Hp; [done|].
  cbn [foldl map concat]. rewrite len_cons.
  replace ((1 + len es) * 48) with (48 + len es * 48) by lia.
  rewrite zeroed_add by len_lia. unfold kIndexEntryEncodedSize at 2.
  rewrite <- Hp, encode_index_entry_mid, app_assoc.
  rewrite IH by (rewrite len_app, entry_bytes_len; lia). by rewrite <- app_assoc.
Qed.

Lemma encode_index_concat es : encode_index es = concat (map entry_bytes es).
Proof. apply (encode_index_loop es 0 []). done. Qed.

Lemma len_concat_entries es : len (concat (map entry_bytes es)) = len es * 48.
Proof.
  induction es; [done|]. cbn [map concat]. rewrite len_app, len_cons, entry_bytes_len, IHes. lia.
Qed.

Lemma encode_index_len es : len (encode_index es) = len es * kIndexEntryEncodedSize.
Proof. rewrite encode_index_concat. apply len_concat_entries. Qed.

Lemma encode_index_ok es : bytes_ok (encode_index es).
Proof.
  rewrite encode_index_concat. induction es; [constructor|].
  apply Forall_app. split; [apply entry_bytes_ok|done].
Qed.

Lemma entry_get w o v e :
  (0 <=? o) && (o + Z.of_nat w <=? 48) = true -> read_field o w (entry_fields e) = Some v ->
  get_le w (entry_bytes e) o = v mod 2 ^ (8 * Z.of_nat w).
Proof.
  intros Ho Hr. apply get_read_field; try done; try apply zeroed_ok;
    change (len (zeroed 48)) with 48; lia.
Qed.

Lemma decode_entry_bytes e :
  IndexEntry_wf e -> index_entry_valid e -> decode_index_entry (entry_bytes e) = Ok (strip_writer e).
Proof.
  intros [] (?&?&?). unfold decode_index_entry. rewrite entry_bytes_len.
  assert (G32 : forall o v, (0 <=? o) && (o + 4 <=? 48) = true ->
    read_field o 4 (entry_fields e) = Some v -> is_u32 v -> get32 (entry_bytes e) o = v).
  { intros. unfold get32. erewrite entry_get by done. by apply Z.mod_small. }
  assert (G64 : forall o v, (0 <=? o) && (o + 8 <=? 48) = true ->
    read_field o 8 (entry_fields e) = Some v -> is_u64 v -> get64 (entry_bytes e) o = v).
  { intros. unfold get64. erewrite entry_get by done. by apply Z.mod_small. }
  rewrite (G64 0 (ie_offset e)), (G32 8 (ie_frame_size e)), (G32 12 (ie_frame_span e)),
    (G32 16 (ie_sequence e)), (G32 20 (ie_record_count e)), (G32 40 (ie_flags e)),
    (G32 44 (ie_raw_size e)) by (reflexivity || assumption).
  rewrite (geti64_u64 _ 24 (ie_min_time_ns e)), (geti64_u64 _ 32 (ie_max_time_ns e))
    by first [assumption | apply G64; [reflexivity|reflexivity|apply u64_range]].
  cbn. case_match; [unfold kBlockHeaderEncodedSize in *; zlia|done].
Qed.

Lemma decode_index_loop_concat es p :
  Forall (fun e => IndexEntry_wf e /\ index_entry_valid e) es ->
  decode_index_loop (p ++ concat (map entry_bytes es)) (len p) (length es) =
    Ok (map strip_writer es).
Proof.
  intros H. revert p. induction H as [|e es [Hw Hv] H IH]; intros p; [done|].
  cbn [length decode_index_loop map concat].
  rewrite slice_app_r, Z.sub_diag by lia.
  rewrite slice_app_l by (rewrite ?entry_bytes_len; unfold kIndexEntryEncodedSize; lia).
  replace (slice 0 kIndexEntryEncodedSize (entry_bytes e)) with (entry_bytes e)
    by (rewrite <- (slice_all (entry_bytes e)) at 1; by rewrite entry_bytes_len).
  rewrite decode_entry_bytes by done. cbn [mbind result_bind].
  rewrite app_assoc. replace (len p + kIndexEntryEncodedSize) with (len (p ++ entry_bytes e))
    by (by rewrite len_app, entry_bytes_len).
  by rewrite IH.
Qed.

Lemma decode_encode_index es :
  Forall (fun e => IndexEntry_wf e /\ index_entry_valid e) es ->
  decode_index (encode_index es) = Ok (map strip_writer es).
Proof.
  intros H. unfold decode_index. rewrite encode_index_len, encode_index_concat.
  rewrite Z.mod_mul, Z.div_mul by done. cbn [Z.eqb negb].
  unfold len. rewrite Nat2Z.id. by apply (decode_index_loop_concat es []).
Qed.

(** ** Alignment *)

Lemma align_up_Some v q r :
  is_u64 v -> 0 < q -> align_up v q = Some r ->
  v <= r < v + q /\ r mod q = 0 /\ is_u64 r.
Proof.
  intros Hv Hq H. unfold align_up in H.
  pose proof (Z.mod_pos_bound v q Hq). pose proof (Z.div_mod v q ltac:(lia)).
  case_match; [lia|]. case_match; [simplify_eq; split_and!; zlia|].
  case_match; [done|]. simplify_eq. split_and!; try zlia.
  replace (v + (q - v mod q)) with ((v / q + 1) * q) by lia. apply Z.mod_mul. lia.
Qed.

Lemma align_up_None v q m :
  is_u64 v -> 0 < q -> align_up v q = None -> v <= m -> m mod q = 0 -> 2 ^ 64 <= m.
Proof.
  intros Hv Hq H Hm Hmod. unfold align_up in H.
  pose proof (Z.mod_pos_bound v q Hq). pose proof (Z.div_mod v q ltac:(lia)) as Hdv.
  pose proof (Z.div_mod m q ltac:(lia)) as Hdm.
  do 2 (case_match; [lia || done|]). case_match; [|done].
  assert (v / q < m / q) by nia. assert (v + (q - v mod q) <= m) by nia. zlia.
Qed.

Lemma align_up_exact v q : 0 < q -> v mod q = 0 -> align_up v q = Some v.
Proof. intros. unfold align_up. by repeat case_match; try lia. Qed.

Lemma align_up_least v q r m :
  is_u64 v -> 0 < q -> align_up v q = Some r -> v <= m -> m mod q = 0 -> r <= m.
Proof.
  intros Hv Hq H Hm Hmod. apply align_up_Some in H as (?&Hr&?); [|done..].
  pose proof (Z.div_mod r q ltac:(lia)). pose proof (Z.div_mod m q ltac:(lia)).
  assert (Hlt : q * (r / q) < q * (m / q + 1)) by lia.
  apply Z.mul_lt_mono_pos_l in Hlt; [|done].
  assert (q * (r / q) <= q * (m / q)) by (apply Z.mul_le_mono_nonneg_l; lia). lia.
Qed.

(** ** Corruption detection *)

(** Two buffers that both pass the common checks and differ only inside a
    window of at most four bytes, where the window lies inside the CRC field
    or is disjoint from it, are equal. *)
Lemma common_check_burst magic n off p w w' q :
  bytes_ok (p ++ w ++ q) -> bytes_ok w' -> len (p ++ w ++ q) = n -> n < 2 ^ 32 -> 0 <= off ->
  len w = len w' -> len w <= 4 ->
  (off <= len p /\ len p + len w <= off + 4) \/ len p + len w <= off \/ off + 4 <= len p ->
  common_check (p ++ w ++ q) magic n off = Ok tt ->
  common_check (p ++ w' ++ q) magic n off = Ok tt -> w = w'.
Proof.
  intros Hok Hw' Hn Hn32 Hoff Hl H4 Hpos H1 H2.
  apply Forall_app in Hok as [Hp Hok]. apply Forall_app in Hok as [Hw Hq].
  apply common_check_facts in H1 as (_&_&_&_&_&Hcf&H1).
  apply common_check_facts in H2 as (_&_&_&_&_&_&H2).
  assert (Hn' : len (p ++ w' ++ q) = n) by len_lia.
  rewrite takeZ_all in H1 by lia. rewrite takeZ_all in H2 by lia.
  rewrite crc32c_with_zeroed_field_splice in H1 by lia.
  rewrite crc32c_with_zeroed_field_splice in H2 by lia.
  assert (Hok1 : bytes_ok (p ++ w ++ q)) by (unfold bytes_ok; rewrite !Forall_app; done).
  assert (Hok2 : bytes_ok (p ++ w' ++ q)) by (unfold bytes_ok; rewrite !Forall_app; done).
  assert (HS : slice off 4 (p ++ w ++ q) = slice off 4 (p ++ w' ++ q) ->
               get32 (p ++ w ++ q) off = get32 (p ++ w' ++ q) off).
  { intros HS. unfold get32. rewrite !get_le_combine by (done || lia). f_equal. exact HS. }
  assert (Hz : bytes_ok [0; 0; 0; 0]) by (repeat constructor; done).
  destruct Hpos as [Hin|[Hout|Hout]].
  - assert (HZ : splice off [0; 0; 0; 0] (p ++ w ++ q) = splice off [0; 0; 0; 0] (p ++ w' ++ q)).
    { unfold splice. change (len [0; 0; 0; 0]) with 4. f_equal; [|f_equal].
      - rewrite !(takeZ_app off p), !(takeZ_nonpos (off - len p)) by lia. done.
      - rewrite !(app_assoc p), !(dropZ_app _ (p ++ _)), !(dropZ_all _ (p ++ _)) by len_lia.
        do 2 f_equal. len_lia. }
    rewrite HZ in H1. rewrite H1 in H2. unfold get32 in H2.
    apply (f_equal (le_bytes 4)) in H2.
    rewrite <- !slice_get_le in H2 by (done || lia).
    apply (f_equal (slice (len p - off) (len w))) in H2.
    rewrite !slice_slice in H2 by len_lia. replace (off + (len p - off)) with (len p) in H2 by lia.
    rewrite !(slice_app_r (len p)), Z.sub_diag in H2 by lia.
    rewrite (slice_app_l _ _ w), (slice_app_l _ _ w'), slice_all in H2 by lia.
    rewrite Hl, slice_all in H2. done.
  - rewrite !(app_assoc p), !splice_app_r, <- !app_assoc in H1, H2 by len_lia.
    rewrite HS in H1.
    2:{ rewrite !(app_assoc p), !slice_app_r by len_lia. f_equal. len_lia. }
    rewrite <- H2 in H1. replace (len (p ++ w')) with (len (p ++ w)) in H1 by len_lia.
    eapply crc32c_burst; [..|exact H1]; try done. by apply Forall_splice.
  - rewrite !splice_app_l in H1, H2 by (done || lia).
    rewrite HS in H1 by (rewrite !slice_app_l by lia; done).
    rewrite <- H2 in H1.
    eapply crc32c_burst; [..|exact H1]; try done. by apply Forall_splice.
Qed.

(** ** Sizes of the encoded structures *)

Lemma encode_volume_len h : len (encode_volume_header h) = kVolumeHeaderEncodedSize.
Proof. rewrite encode_volume_image. by apply len_sealed; [|apply volume_layout]. Qed.
Lemma encode_volume_ok h : bytes_ok (encode_volume_header h).
Proof. rewrite encode_volume_image. apply sealed_ok, volume_magic_ok. Qed.
Lemma encode_block_len h : len (encode_block_header h) = kBlockHeaderEncodedSize.
Proof. rewrite encode_block_image. by apply len_sealed; [|apply block_layout]. Qed.
Lemma encode_block_ok h : bytes_ok (encode_block_header h).
Proof. rewrite encode_block_image. apply sealed_ok, block_magic_ok. Qed.
Lemma encode_footer_len f : len (encode_partition_footer f) = kPartitionFooterEncodedSize.
Proof. rewrite encode_footer_image. by apply len_sealed; [|apply footer_layout]. Qed.
Lemma encode_footer_ok f : bytes_ok (encode_partition_footer f).
Proof. rewrite encode_footer_image. apply sealed_ok, footer_magic_ok. Qed.
Lemma encode_partition_len h ps irs :
  len (encode_partition_header h ps irs) = kPartitionHeaderEncodedSize.
Proof. rewrite encode_partition_image. by apply len_sealed; [|apply partition_layout]. Qed.
Lemma encode_partition_ok h ps irs : bytes_ok (encode_partition_header h ps irs).
Proof. rewrite encode_partition_image. apply sealed_ok, partition_magic_ok. Qed.
