(* ===== verification/Codec.v ===== *)
(** * Compression codecs: interface, [NoneCodec] and [PackBitsCodec]

    include/tfdb/codec.hpp and src/codec.cpp lines 12-138. The decoders read
    untrusted bytes, so their model makes every buffer access explicit: an
    access outside the buffer ends in [OutOfBounds]. Loops take fuel, and
    exhausting it is [OutOfFuel]; both outcomes are proved unreachable. *)

From S2P Require Import Prelude Status Format.

(** ** Views and outcomes *)

(** [ByteView]: a pointer to [size] bytes, or a null pointer with a size. *)
Inductive ByteView : Type :=
| View (data : bytes)
| NullView (size : Z).

Definition view_size (v : ByteView) : Z :=
  match v with View d => len d | NullView n => n end.
Definition view_data (v : ByteView) : bytes :=
  match v with View d => d | NullView _ => [] end.
Definition view_empty (v : ByteView) : bool := view_size v =? 0.
Definition view_valid (v : ByteView) : bool :=
  (view_size v =? 0) || match v with View _ => true | NullView _ => false end.

Inductive outcome (A : Type) : Type :=
| Done (r : result A)
| OutOfBounds
| OutOfFuel.
Arguments Done {A} r.
Arguments OutOfBounds {A}.
Arguments OutOfFuel {A}.

(** [data[i]] and [data[off .. off+n)] with their bounds. *)
Definition rd (data : bytes) (i : Z) : option Z :=
  if (0 <=? i) && (i <? len data) then Some (byte_at data i) else None.
Definition rd_range (data : bytes) (off n : Z) : option bytes :=
  if (0 <=? off) && (0 <=? n) && (off + n <=? len data) then Some (slice off n data) else None.

(** [*output] changes only on success. *)
Definition of_outcome (old : bytes) (run : outcome bytes) : Status * option bytes :=
  match run with
  | Done (Ok new) => (Status_Ok, Some new)
  | Done (Err s) => (s, Some old)
  | OutOfBounds => (Status_Error StatusCode.internal_error "out of bounds", Some old)
  | OutOfFuel => (Status_Error StatusCode.internal_error "out of fuel", Some old)
  end.

(** The out-parameter protocol shared by the codecs: null pointers are
    refused before the work starts. *)
Definition with_output (output : option bytes) (input : ByteView) (invalid : string)
    (run : outcome bytes) : Status * option bytes :=
  match output with
  | None => (Status_Error StatusCode.invalid_argument "null output", None)
  | Some old =>
      if negb (view_valid input)
      then (Status_Error StatusCode.invalid_argument invalid, Some old)
      else of_outcome old run
  end.

Lemma with_output_View old data invalid run :
  with_output (Some old) (View data) invalid run = of_outcome old run.
Proof. unfold with_output, view_valid. by rewrite orb_true_r. Qed.

(** ** The codec interface *)

Record CompressionCodec := mkCodec {
  codec_id : CompressionId;
  codec_version : Z;
  max_compressed_size : Z -> Z;
  compress : ByteView -> option bytes -> Status * option bytes;
  decompress : ByteView -> Z -> option bytes -> Status * option bytes }.

Definition compress_invalid : string := "null non-empty compression input".
Definition decompress_invalid : string := "null non-empty decompression input".

(** What a client of a codec relies on. *)
Class CodecLaws (c : CompressionCodec) : Prop := {
  (** compression never fails on a buffer, respects the declared bound, and
      decompression inverts it *)
  codec_roundtrip data old old' :
    bytes_ok data -> len data < 2 ^ 32 ->
    exists enc, compress c (View data) (Some old) = (Status_Ok, Some enc) /\
      bytes_ok enc /\ len enc <= max_compressed_size c (len data) /\
      (data <> [] -> enc <> []) /\
      decompress c (View enc) (len data) (Some old') = (Status_Ok, Some data);
  (** accepted streams decode to exactly the announced size *)
  codec_exact stored expected old s out :
    bytes_ok stored -> len stored < 2 ^ 32 -> is_u32 expected ->
    decompress c (View stored) expected (Some old) = (s, out) -> status_ok s = true ->
    exists raw, out = Some raw /\ len raw = expected /\ bytes_ok raw }.

(** ** NoneCodec *)

Module NoneCodec.
Definition run_decompress (input : bytes) (expected_size : Z) : outcome bytes :=
  if negb (len input =? expected_size)
  then Done (error StatusCode.corrupt "raw block size mismatch")
  else Done (Ok input).

Definition codec : CompressionCodec := {|
  codec_id := CompressionId_none;
  codec_version := 1;
  max_compressed_size := fun n => n;
  compress := fun input output =>
    with_output output input compress_invalid (Done (Ok (view_data input)));
  decompress := fun input expected_size output =>
    with_output output input decompress_invalid
      (run_decompress (view_data input) expected_size) |}.
End NoneCodec.

(** ** PackBitsCodec *)

Module PackBits.
Definition max_compressed_size (input_size : Z) : Z :=
  let overhead := input_size / 128 + (if input_size mod 128 =? 0 then 0 else 1) in
  if SIZE_MAX - overhead <? input_size then SIZE_MAX else input_size + overhead.

(** [repeated]: the loop starts at [count = 1]. *)
Fixpoint repeated_loop (fuel : nat) (input : bytes) (position count : Z) : Z :=
  match fuel with
  | O => count
  | S fuel =>
      if (position + count <? len input) && (count <? 130) &&
         (byte_at input (position + count) =? byte_at input position)
      then repeated_loop fuel input position (count + 1)
      else count
  end.
Definition repeated (input : bytes) (position : Z) : Z :=
  repeated_loop 130 input position 1.

(** The inner literal loop; returns the position where it stops. *)
Fixpoint literal_loop (fuel : nat) (input : bytes) (literal_begin position : Z) : Z :=
  match fuel with
  | O => position
  | S fuel =>
      if (position <? len input) && (position - literal_begin <? 128) then
        let run := repeated input position in
        if 3 <=? run then position
        else literal_loop fuel input literal_begin
               (position + Z.min run (128 - (position - literal_begin)))
      else position
  end.

Fixpoint compress_loop (fuel : nat) (input : bytes) (position : Z) (encoded : bytes) : bytes :=
  match fuel with
  | O => encoded
  | S fuel =>
      if position <? len input then
        let run := repeated input position in
        if 3 <=? run then
          let run := Z.min run 130 in
          compress_loop fuel input (position + run)
            (encoded ++ [u8 (Z.lor 0x80 (run - 3)); byte_at input position])
        else
          let literal_begin := position in
          let position := literal_loop 129 input literal_begin (position + run) in
          let count := position - literal_begin in
          compress_loop fuel input position
            (encoded ++ [u8 (count - 1)] ++ slice literal_begin count input)
      else encoded
  end.

(** Every iteration consumes at least one input byte. *)
Definition run_compress (input : bytes) : bytes :=
  compress_loop (S (length input)) input 0 [].

Fixpoint decompress_loop (fuel : nat) (input : bytes) (expected_size position : Z)
    (decoded : bytes) : outcome bytes :=
  match fuel with
  | O => OutOfFuel
  | S fuel =>
      if position <? len input then
        match rd input position with
        | None => OutOfBounds
        | Some token =>
            let position := position + 1 in
            if Z.land token 0x80 =? 0 then
              let count := token + 1 in
              if (u64 (len input - position) <? count) ||
                 (u64 (expected_size - len decoded) <? count)
              then Done (error StatusCode.corrupt "invalid PackBits literal")
              else match rd_range input position count with
                   | None => OutOfBounds
                   | Some literal =>
                       decompress_loop fuel input expected_size (position + count)
                         (decoded ++ literal)
                   end
            else
              let count := Z.land token 0x7f + 3 in
              if (position =? len input) || (u64 (expected_size - len decoded) <? count)
              then Done (error StatusCode.corrupt "invalid PackBits run")
              else match rd input position with
                   | None => OutOfBounds
                   | Some b =>
                       decompress_loop fuel input expected_size (position + 1)
                         (decoded ++ replicate (Z.to_nat count) b)
                   end
        end
      else if negb (len decoded =? expected_size)
      then Done (error StatusCode.corrupt "PackBits output size mismatch")
      else Done (Ok decoded)
  end.

Definition run_decompress (input : bytes) (expected_size : Z) : outcome bytes :=
  decompress_loop (S (length input)) input expected_size 0 [].

Definition codec : CompressionCodec := {|
  codec_id := CompressionId_packbits;
  codec_version := 1;
  Codec.max_compressed_size := max_compressed_size;
  compress := fun input output =>
    with_output output input compress_invalid (Done (Ok (run_compress (view_data input))));
  decompress := fun input expected_size output =>
    with_output output input decompress_invalid
      (run_decompress (view_data input) expected_size) |}.
End PackBits.
