(* ===== verification/PackBitsFacts.v ===== *)
(** * PackBits: grammar, decoder, encoder

    [stream raw enc] is the token grammar of docs/format-v1.md section 6. The
    decoder accepts exactly the streams of the grammar, never leaves its
    buffers, and terminates; the encoder emits a stream of its input within
    the declared size bound. *)

From S2P Require Import Prelude Status Format Codec.
Import PackBits.

(** ** The token grammar *)

Inductive stream : bytes -> bytes -> Prop :=
| stream_nil : stream [] []
| stream_run n b raw enc :
    3 <= n <= 130 -> stream raw enc ->
    stream (replicate (Z.to_nat n) b ++ raw) (128 + (n - 3) :: b :: enc)
| stream_literal lit raw enc :
    1 <= len lit <= 128 -> stream raw enc ->
    stream (lit ++ raw) (len lit - 1 :: lit ++ enc).

Lemma stream_ok_raw raw enc : stream raw enc -> bytes_ok enc -> bytes_ok raw.
Proof.
  induction 1 as [|n b raw enc Hn H IH|lit raw enc Hl H IH]; intros Hok; [done|..].
  - inversion_clear Hok as [|? ? _ Hok']. inversion_clear Hok' as [|? ? Hb Hok''].
    apply Forall_app; split; [|by apply IH]. by apply Forall_replicate.
  - inversion_clear Hok as [|? ? _ Hok']. apply Forall_app in Hok' as [Hlit Henc].
    apply Forall_app; split; [done|by apply IH].
Qed.

Lemma stream_ok raw enc : stream raw enc -> bytes_ok raw -> bytes_ok enc.
Proof.
  induction 1 as [|n b raw enc Hn H IH|lit raw enc Hl H IH]; intros Hok; [done|..];
    apply Forall_app in Hok as [Hr Hok]; specialize (IH Hok).
  - constructor; [zlia|]. constructor; [|done].
    replace (Z.to_nat n) with (S (Z.to_nat (n - 1))) in Hr by lia.
    by inversion Hr.
  - constructor; [zlia|]. by apply Forall_app.
Qed.

(** The two token classes. *)
Lemma token_class t :
  is_u8 t ->
  if t <? 128 then Z.land t 0x80 = 0
  else Z.land t 0x80 <> 0 /\ Z.land t 0x7f = t - 128.
Proof.
  intros Ht.
  assert (H : forallb (fun t => if t <? 128 then Z.land t 0x80 =? 0
    else negb (Z.land t 0x80 =? 0) && (Z.land t 0x7f =? t - 128)) (seqZ 0 256) = true)
    by (vm_compute; reflexivity).
  rewrite forallb_forall in H. specialize (H t).
  rewrite <- list_elem_of_In, elem_of_seqZ in H. specialize (H ltac:(zlia)).
  destruct (t <? 128); [lia|]. apply andb_true_iff in H as [H1 H2].
  apply negb_true_iff in H1. lia.
Qed.

Lemma rd_Some data i b : rd data i = Some b -> 0 <= i < len data /\ b = byte_at data i.
Proof. unfold rd. case_match; intros; simplify_eq. split; [lia|done]. Qed.
Lemma rd_in data i : 0 <= i < len data -> rd data i = Some (byte_at data i).
Proof. intros. unfold rd. by rewrite (proj2 (andb_true_iff _ _)) by lia. Qed.
Lemma rd_range_in data off n :
  0 <= off -> 0 <= n -> off + n <= len data -> rd_range data off n = Some (slice off n data).
Proof.
  intros. unfold rd_range. case_match; [done|]. lia.
Qed.

(** ** Decoder *)

(** The decoder runs through every stream of the grammar. *)
Lemma decompress_stream raw enc : stream raw enc -> bytes_ok enc ->
  forall fuel pre d,
    len (pre ++ enc) < 2 ^ 64 -> len d + len raw < 2 ^ 64 -> (length enc < fuel)%nat ->
    decompress_loop fuel (pre ++ enc) (len d + len raw) (len pre) d = Done (Ok (d ++ raw)).
Proof.
  induction 1 as [|n b raw enc Hn H IH|lit raw enc Hl H IH]; intros Hok [|fuel] pre d Hp Hd Hf;
    try (simpl in Hf; lia); cbn [decompress_loop].
  - rewrite app_nil_r, Z.ltb_irrefl, !app_nil_r, len_nil, Z.add_0_r, Z.eqb_refl. done.
  - inversion Hok as [|? ? Ht Hok']; subst. inversion Hok' as [|? ? Hb Hok'']; subst.
    pose proof (token_class _ Ht) as Hc. rewrite (proj2 (Z.ltb_ge _ _)) in Hc by lia.
    destruct Hc as [Hc1 Hc2].
    rewrite (proj2 (Z.ltb_lt _ _)) by len_lia.
    rewrite rd_in by len_lia. rewrite byte_at_app_r, Z.sub_diag, byte_at_cons_0 by lia.
    rewrite (proj2 (Z.eqb_neq _ _)) by done. rewrite Hc2.
    replace (128 + (n - 3) - 128 + 3) with n by lia.
    rewrite u64_small by len_lia.
    rewrite (len_app (replicate _ _) raw), len_replicate in Hd |- *.
    rewrite (proj2 (Z.eqb_neq _ _)) by len_lia. rewrite (proj2 (Z.ltb_ge _ _)) by len_lia.
    cbn [orb]. rewrite rd_in by len_lia. rewrite byte_at_app_r by len_lia.
    replace (len pre + 1 - len pre) with 1 by lia. unfold byte_at at 1. simpl nth.
    replace (pre ++ 128 + (n - 3) :: b :: enc) with ((pre ++ [128 + (n - 3); b]) ++ enc)
      by (by rewrite <- app_assoc).
    replace (len pre + 1 + 1) with (len (pre ++ [128 + (n - 3); b])) by len_lia.
    replace (len d + (Z.of_nat (Z.to_nat n) + len raw))
      with (len (d ++ replicate (Z.to_nat n) b) + len raw) by len_lia.
    rewrite IH; [by rewrite <- app_assoc|done| | |].
    + rewrite <- app_assoc. done.
    + len_lia.
    + simpl in Hf. lia.
  - inversion Hok as [|? ? Ht Hok']; subst. apply Forall_app in Hok' as [Hlit Henc].
    pose proof (token_class _ Ht) as Hc. rewrite (proj2 (Z.ltb_lt _ _)) in Hc by lia.
    rewrite (proj2 (Z.ltb_lt _ _)) by len_lia.
    rewrite rd_in by len_lia. rewrite byte_at_app_r, Z.sub_diag, byte_at_cons_0 by lia.
    rewrite Hc, Z.eqb_refl. replace (len lit - 1 + 1) with (len lit) by lia.
    rewrite !u64_small by len_lia. rewrite !(proj2 (Z.ltb_ge _ _)) by len_lia.
    cbn [orb]. rewrite rd_range_in by len_lia.
    rewrite slice_app_r by lia. replace (len pre + 1 - len pre) with 1 by lia.
    change (len lit - 1 :: lit ++ enc) with ([len lit - 1] ++ lit ++ enc).
    rewrite slice_app_r by len_lia. rewrite slice_app_l by len_lia.
    change (1 - len [len lit - 1]) with 0. rewrite slice_all.
    replace (pre ++ [len lit - 1] ++ lit ++ enc) with ((pre ++ [len lit - 1] ++ lit) ++ enc)
      by (by rewrite <- !app_assoc).
    replace (len pre + 1 + len lit) with (len (pre ++ [len lit - 1] ++ lit)) by len_lia.
    rewrite len_app, Z.add_assoc, <- len_app.
    rewrite IH; [by rewrite <- app_assoc|done| | |].
    + rewrite <- !app_assoc. done.
    + len_lia.
    + simpl in Hf. rewrite length_app in Hf. lia.
Qed.

(** Whatever the input, the decoder ends, stays inside its buffers, and what
    it accepts is a stream of its output. *)
Lemma decompress_sound input expected : bytes_ok input -> len input < 2 ^ 64 ->
  forall fuel position d,
    0 <= position <= len input -> len d <= expected < 2 ^ 64 ->
    len input - position < Z.of_nat fuel ->
    exists r, decompress_loop fuel input expected position d = Done r /\
      match r with
      | Ok out => exists raw,
          out = d ++ raw /\ len out = expected /\ stream raw (dropZ position input)
      | Err s => code s = StatusCode.corrupt
      end.
Proof.
  intros Hok Hlen. induction fuel as [|fuel IH]; intros position d Hp Hd Hf; [lia|].
  cbn [decompress_loop]. destruct (Z.ltb_spec position (len input)) as [Hlt|Hge].
  2:{ rewrite dropZ_all by lia.
      destruct (Z.eqb_spec (len d) expected); simpl; eexists; (split; [reflexivity|]).
      - exists []. rewrite app_nil_r. split_and!; [done..|constructor].
      - done. }
  rewrite rd_in by lia. pose proof (byte_at_ok input position Hok) as Ht.
  pose proof (token_class _ Ht) as Hc. rewrite (dropZ_byte_at input position) by lia.
  set (t := byte_at input position) in *.
  destruct (Z.ltb_spec t 128).
  - rewrite Hc, Z.eqb_refl. rewrite !u64_small by len_lia.
    case_match; [eexists; split; [reflexivity|done]|].
    rewrite rd_range_in by zlia.
    set (lit := slice (position + 1) (t + 1) input).
    assert (Hll : len lit = t + 1) by (apply len_slice; zlia).
    destruct (IH (position + 1 + (t + 1)) (d ++ lit)) as (r&->&Hr); [zlia|len_lia|zlia|].
    eexists; split; [reflexivity|]. destruct r as [out|e]; [|done].
    destruct Hr as (raw&->&?&Hs).
    exists (lit ++ raw). rewrite <- app_assoc. split_and!; [done..|by rewrite <- app_assoc in *|].
    replace t with (len lit - 1) by lia.
    replace (dropZ (position + 1) input) with (lit ++ dropZ (position + 1 + (t + 1)) input).
    + constructor; [zlia|done].
    + unfold lit, slice. rewrite <- (takeZ_dropZ (t + 1) (dropZ (position + 1) input)) at 2.
      by rewrite dropZ_dropZ by zlia.
  - destruct Hc as [Hc1 Hc2]. rewrite (proj2 (Z.eqb_neq _ _)) by done. rewrite Hc2.
    rewrite !u64_small by len_lia.
    case_match; [eexists; split; [reflexivity|done]|].
    rewrite rd_in by zlia. set (b := byte_at input (position + 1)).
    destruct (IH (position + 1 + 1) (d ++ replicate (Z.to_nat (t - 128 + 3)) b))
      as (r&->&Hr); [zlia|len_lia|zlia|].
    eexists; split; [reflexivity|]. destruct r as [out|e]; [|done].
    destruct Hr as (raw&->&?&Hs).
    exists (replicate (Z.to_nat (t - 128 + 3)) b ++ raw). rewrite <- app_assoc.
    split_and!; [done..|by rewrite <- app_assoc in *|].
    rewrite (dropZ_byte_at input (position + 1)) by zlia.
    replace t with (128 + ((t - 128 + 3) - 3)) at 2 by lia.
    constructor; [zlia|done].
Qed.

(** ** Encoder *)

Lemma repeated_loop_spec input position fuel count :
  0 <= position -> position + count <= len input -> 1 <= count <= 130 ->
  (forall i, 0 <= i < count -> byte_at input (position + i) = byte_at input position) ->
  let r := repeated_loop fuel input position count in
  count <= r <= 130 /\ position + r <= len input /\
  forall i, 0 <= i < r -> byte_at input (position + i) = byte_at input position.
Proof.
  intros Hp. revert count. induction fuel as [|fuel IH]; intros count Hl Hc Hall; simpl.
  { split_and!; [lia..|done]. }
  destruct (_ && _) eqn:E; [|split_and!; [lia..|done]].
  rewrite !andb_true_iff in E. destruct E as [[E1 E2] E3].
  destruct (IH (count + 1)) as (?&?&?); [lia..| |split_and!; [lia..|done]].
  intros i Hi. destruct (decide (i = count)) as [->|]; [lia|]. apply Hall. lia.
Qed.

Lemma repeated_spec input position :
  0 <= position < len input ->
  1 <= repeated input position <= 130 /\ position + repeated input position <= len input /\
  slice position (repeated input position) input =
    replicate (Z.to_nat (repeated input position)) (byte_at input position).
Proof.
  intros Hp. destruct (repeated_loop_spec input position 130 1) as (H1&H2&H3); try lia.
  { intros i Hi. f_equal. lia. }
  fold (repeated input position) in *. split_and!; [lia..|].
  apply byte_at_ext; rewrite ?len_replicate, len_slice by lia; [lia|].
  intros i Hi. rewrite byte_at_slice, H3 by lia. unfold byte_at at 2.
  rewrite nth_lookup, lookup_replicate_2 by lia. done.
Qed.

Lemma literal_loop_spec input literal_begin fuel position :
  0 <= literal_begin < position -> position <= len input -> position - literal_begin <= 128 ->
  128 - (position - literal_begin) < Z.of_nat fuel ->
  let p := literal_loop fuel input literal_begin position in
  position <= p <= len input /\ p - literal_begin <= 128 /\
  (p = len input \/ p - literal_begin = 128 \/ 3 <= repeated input p).
Proof.
  revert position. induction fuel as [|fuel IH]; intros position Hb Hp Hc Hf; [lia|].
  cbn [literal_loop]. destruct (_ && _) eqn:E; [|simpl; lia].
  apply andb_true_iff in E as [E1 E2].
  destruct (repeated_spec input position) as (?&?&_); [lia|].
  destruct (Z.leb_spec 3 (repeated input position)); [simpl; lia|].
  destruct (IH (position + Z.min (repeated input position)
    (128 - (position - literal_begin)))) as (?&?&?); simpl; lia.
Qed.

(** Input size plus one byte per started group of 128. *)
Definition bound (n : Z) : Z := n + (n + 127) / 128.

Lemma bound_mono_add a b : 0 <= a -> 0 <= b -> a + bound b <= bound (a + b).
Proof.
  intros. unfold bound. assert ((b + 127) / 128 <= (a + b + 127) / 128)
    by (apply Z.div_le_mono; lia). lia.
Qed.
Lemma bound_128 b : bound (128 + b) = 129 + bound b.
Proof.
  unfold bound. replace (128 + b + 127) with (b + 127 + 1 * 128) by lia.
  rewrite Z.div_add by lia. lia.
Qed.
Lemma bound_last a : 1 <= a -> a + 1 <= bound a.
Proof.
  intros. unfold bound. assert (1 <= (a + 127) / 128) by (apply Z.div_le_lower_bound; lia). lia.
Qed.

Lemma run_token n : 3 <= n <= 130 -> u8 (Z.lor 0x80 (n - 3)) = 128 + (n - 3).
Proof.
  intros. assert (H0 : forallb (fun k => u8 (Z.lor 0x80 k) =? 128 + k) (seqZ 0 128) = true)
    by (vm_compute; reflexivity).
  rewrite forallb_forall in H0. apply Z.eqb_eq, H0.
  apply list_elem_of_In, elem_of_seqZ. lia.
Qed.

Lemma dropZ_split (input : bytes) position n :
  0 <= position -> 0 <= n -> dropZ position input = slice position n input ++ dropZ (position + n) input.
Proof.
  intros. unfold slice. rewrite <- (takeZ_dropZ n (dropZ position input)) at 1.
  by rewrite dropZ_dropZ by lia.
Qed.

Lemma compress_loop_spec input : forall fuel position encoded,
  0 <= position <= len input -> len input - position < Z.of_nat fuel ->
  exists enc, compress_loop fuel input position encoded = encoded ++ enc /\
    stream (dropZ position input) enc /\ len enc <= bound (len input - position) /\
    (position < len input -> 3 <= repeated input position ->
     len enc + 1 <= bound (len input - position)).
Proof.
  induction fuel as [|fuel IH]; intros position encoded Hp Hf; [lia|].
  cbn [compress_loop]. destruct (Z.ltb_spec position (len input)) as [Hlt|Hge].
  2:{ exists []. rewrite dropZ_all, app_nil_r by lia. split_and!; [done|constructor| |lia].
      replace (len input - position) with 0 by lia. done. }
  destruct (repeated_spec input position) as (Hr&Hrl&Hrs); [lia|].
  destruct (Z.leb_spec 3 (repeated input position)) as [H3|H3].
  - rewrite Z.min_l by lia. set (n := repeated input position) in *.
    destruct (IH (position + n) (encoded ++ [u8 (Z.lor 0x80 (n - 3)); byte_at input position]))
      as (enc&->&Hs&Hb&_); [lia..|].
    exists ([u8 (Z.lor 0x80 (n - 3)); byte_at input position] ++ enc).
    rewrite <- app_assoc. rewrite run_token by lia.
    assert (len enc + 3 <= bound (len input - position)).
    { pose proof (bound_mono_add n (len input - position - n)).
      replace (n + (len input - position - n)) with (len input - position) in * by lia.
      replace (len input - (position + n)) with (len input - position - n) in * by lia. lia. }
    split_and!; [done| |len_lia|len_lia].
    rewrite (dropZ_split input position n), Hrs by lia. cbn [app].
    apply stream_run; [lia|done].
  - destruct (literal_loop_spec input position 129 (position + repeated input position))
      as (Hq&Hq128&Hend); [lia..|].
    set (q := literal_loop 129 input position (position + repeated input position)) in *. clearbody q.
    destruct (IH q (encoded ++ [u8 (q - position - 1)] ++ slice position (q - position) input))
      as (enc&->&Hs&Hb&Hb3); [lia..|].
    assert (Hll : len (slice position (q - position) input) = q - position)
      by (apply len_slice; lia).
    exists ([u8 (q - position - 1)] ++ slice position (q - position) input ++ enc).
    split_and!.
    + by rewrite <- !app_assoc.
    + rewrite (dropZ_split input position (q - position)) by lia.
      replace (position + (q - position)) with q by lia.
      rewrite u8_small by zlia. cbn [app].
      replace (q - position - 1) with (len (slice position (q - position) input) - 1) by lia.
      apply stream_literal; [lia|done].
    + rewrite !len_app, Hll. change (len [u8 (q - position - 1)]) with 1.
      set (k := q - position) in *.
      replace (len input - position) with (k + (len input - q)) by lia.
      assert (Hlast : q = len input -> 1 + (k + len enc) <= bound (k + (len input - q))).
      { intros Hqe. replace (len input - q) with 0 in * by lia.
        pose proof (bound_last k). change (bound 0) with 0 in Hb.
        replace (k + 0) with k by lia. lia. }
      destruct Hend as [Hqe|[Hk|Hrep]].
      * auto.
      * rewrite Hk, bound_128. lia.
      * destruct (decide (q < len input)).
        -- pose proof (bound_mono_add k (len input - q)). lia.
        -- apply Hlast. lia.
    + lia.
Qed.

Lemma run_compress_spec input :
  stream input (run_compress input) /\ len (run_compress input) <= bound (len input).
Proof.
  destruct (compress_loop_spec input (S (length input)) 0 []) as (enc&He&Hs&Hb&_).
  - pose proof (len_nonneg input). lia.
  - unfold len. lia.
  - unfold run_compress. rewrite He. simpl. rewrite dropZ_nonpos in Hs by lia.
    by rewrite Z.sub_0_r in Hb.
Qed.

Lemma max_compressed_size_bound n :
  0 <= n < 2 ^ 63 -> PackBits.max_compressed_size n = bound n.
Proof.
  intros. unfold PackBits.max_compressed_size, bound.
  assert (E : n / 128 + (if n mod 128 =? 0 then 0 else 1) = (n + 127) / 128).
  { pose proof (Z.div_mod n 128 ltac:(lia)). pose proof (Z.mod_pos_bound n 128 ltac:(lia)).
    case_match.
    - apply Z.div_unique with 127; lia.
    - apply Z.div_unique with (n mod 128 - 1); lia. }
  rewrite E. assert ((n + 127) / 128 <= 2 ^ 60) by (apply Z.div_le_upper_bound; lia).
  rewrite (proj2 (Z.ltb_ge _ _)) by zlia. done.
Qed.

(** ** Laws *)

Lemma stream_nonempty raw enc : stream raw enc -> raw <> [] -> enc <> [].
Proof. by destruct 1. Qed.

#[export] Instance NoneCodec_laws : CodecLaws NoneCodec.codec.
Proof.
  split; unfold compress, decompress, NoneCodec.codec; cbn [view_data].
  - intros data old old' Hok Hlen. exists data. rewrite !with_output_View.
    unfold NoneCodec.run_decompress. rewrite Z.eqb_refl.
    split_and!; [reflexivity|done|simpl; lia|done|reflexivity].
  - intros stored expected old s out Hok Hlen Hex. rewrite with_output_View.
    unfold NoneCodec.run_decompress.
    destruct (Z.eqb_spec (len stored) expected); simpl; intros; simplify_eq; eauto.
Qed.

#[export] Instance PackBits_laws : CodecLaws PackBits.codec.
Proof.
  split; unfold compress, decompress, codec; cbn [view_data].
  - intros data old old' Hok Hlen. exists (run_compress data). rewrite !with_output_View.
    destruct (run_compress_spec data) as [Hs Hb]. pose proof (len_nonneg data).
    assert (bytes_ok (run_compress data)) by (by eapply stream_ok).
    split_and!; [done|done| | |].
    + cbn [Codec.max_compressed_size]. rewrite max_compressed_size_bound by zlia. done.
    + by eapply stream_nonempty.
    + unfold run_decompress.
      assert (len (run_compress data) < 2 ^ 64).
      { unfold bound in Hb. assert ((len data + 127) / 128 <= len data + 127)
          by (apply Z.div_le_upper_bound; lia). lia. }
      pose proof (decompress_stream _ _ Hs ltac:(done) (S (length (run_compress data))) [] [])
        as Hd. rewrite !app_nil_l in Hd. change (len []) with 0 in Hd.
      rewrite !Z.add_0_l in Hd. rewrite Hd by lia. done.
  - intros stored expected old s out Hok Hlen Hex. rewrite with_output_View.
    destruct (decompress_sound stored expected Hok ltac:(lia) (S (length stored)) 0 [])
      as (r&Hr&Hall).
    + pose proof (len_nonneg stored). lia.
    + rewrite len_nil. zlia.
    + unfold len. lia.
    + unfold run_decompress. rewrite Hr.
      destruct r as [raw|[c m]]; simpl in Hall |- *; intros ? Hok'; simplify_eq.
      destruct Hall as (raw'&->&?&Hst). exists raw'. split_and!; [done..|].
      by apply (stream_ok_raw _ _ Hst).
Qed.
