(* ===== verification/Lz4.v ===== *)
(** * LZ4 block codec

    src/codec.cpp lines 140-439: the TFDB encoder and decoder of LZ4 raw
    blocks and the codec registry. [data] and [stored] are the buffers the
    C++ pointers address. *)

From S2P Require Import Prelude Status Layout Format Codec.

Module Lz4.
Definition kLz4MinMatch : Z := 4.
Definition kLz4LastLiterals : Z := 5.
Definition kLz4MatchFindLimit : Z := 12.
Definition kLz4MaxDistance : Z := 65535.
Definition kLz4HashLog : Z := 12.
Definition kLz4MaxExpansion : Z := 255.

Definition lz4_load32 (data : bytes) (position : Z) : Z :=
  Z.lor (Z.lor (Z.lor (byte_at data position)
    (Z.shiftl (byte_at data (position + 1)) 8))
    (Z.shiftl (byte_at data (position + 2)) 16))
    (Z.shiftl (byte_at data (position + 3)) 24).

Definition lz4_hash (sequence : Z) : Z :=
  let scattered := u32 (sequence * 2654435761) in
  Z.shiftr scattered (32 - kLz4HashLog).

(** Each iteration takes 255 off [remaining]. *)
Fixpoint lz4_write_length_loop (fuel : nat) (remaining : Z) (out : bytes) : bytes :=
  match fuel with
  | O => out
  | S fuel =>
      if 255 <=? remaining then lz4_write_length_loop fuel (remaining - 255) (out ++ [255])
      else out ++ [u8 remaining]
  end.
Definition lz4_write_length (remaining : Z) (out : bytes) : bytes :=
  lz4_write_length_loop (S (Z.to_nat (remaining / 255))) remaining out.

Definition lz4_append_literals (data : bytes) (begin count : Z) (out : bytes) : bytes :=
  if negb (count =? 0) then out ++ slice begin count data else out.

(** Assignment to an element of the output vector. *)
Definition set_byte (out : bytes) (index token : Z) : bytes := <[Z.to_nat index := token]> out.

Definition lz4_emit_sequence (data : bytes)
    (literal_begin literal_count distance match_length : Z) (out : bytes) : bytes :=
  let token_index := len out in
  let out := out ++ [0] in
  let '(token, out) :=
    if 15 <=? literal_count then (0xf0, lz4_write_length (literal_count - 15) out)
    else (u8 (Z.shiftl literal_count 4), out) in
  let out := lz4_append_literals data literal_begin literal_count out in
  let out := out ++ [u8 (Z.land distance 0xff)] in
  let out := out ++ [u8 (Z.land (Z.shiftr distance 8) 0xff)] in
  let encoded_match := u64 (match_length - kLz4MinMatch) in
  let '(token, out) :=
    if 15 <=? encoded_match then (u8 (Z.lor token 0x0f), lz4_write_length (encoded_match - 15) out)
    else (u8 (Z.lor token encoded_match), out) in
  set_byte out token_index token.

Definition lz4_emit_last_literals (data : bytes) (literal_begin literal_count : Z)
    (out : bytes) : bytes :=
  let token_index := len out in
  let out := out ++ [0] in
  let out :=
    if 15 <=? literal_count
    then lz4_write_length (literal_count - 15) (set_byte out token_index 0xf0)
    else set_byte out token_index (u8 (Z.shiftl literal_count 4)) in
  lz4_append_literals data literal_begin literal_count out.

(** The boolean result with the in-out parameters on success. *)
Inductive read_length_outcome :=
| RlOk (position length : Z)
| RlFalse
| RlOutOfBounds
| RlOutOfFuel.

Fixpoint lz4_read_length_loop (fuel : nat) (stored : bytes) (limit position length : Z)
    : read_length_outcome :=
  match fuel with
  | O => RlOutOfFuel
  | S fuel =>
      if position =? len stored then RlFalse
      else match rd stored position with
           | None => RlOutOfBounds
           | Some extra =>
               let position := position + 1 in
               if (limit <? length) || (u64 (limit - length) <? extra) then RlFalse
               else let length := length + extra in
                    if negb (extra =? 255) then RlOk position length
                    else lz4_read_length_loop fuel stored limit position length
           end
  end.
Definition lz4_read_length (stored : bytes) (limit position length : Z)
    : read_length_outcome :=
  lz4_read_length_loop (S (Z.to_nat (len stored - position))) stored limit position length.

Definition lz4_output_reserve (stored_size expected_size : Z) : Z :=
  if (SIZE_MAX - 32) / kLz4MaxExpansion <? stored_size then expected_size
  else let reachable := u64 (stored_size * kLz4MaxExpansion + 32) in
       if reachable <? expected_size then reachable else expected_size.

Definition max_compressed_size (input_size : Z) : Z :=
  let overhead := input_size / 255 + 16 in
  if SIZE_MAX - overhead <? input_size then SIZE_MAX else input_size + overhead.

(** ** Encoder *)

(** [while (position + length < match_limit && data[match + length] ==
    data[position + length]) ++length;] *)
Fixpoint match_length_loop (fuel : nat) (data : bytes) (match_limit matched position length : Z)
    : Z :=
  match fuel with
  | O => length
  | S fuel =>
      if (position + length <? match_limit) &&
         (byte_at data (matched + length) =? byte_at data (position + length))
      then match_length_loop fuel data match_limit matched position (length + 1)
      else length
  end.

(** The search loop; [table] holds positions biased by one. *)
Fixpoint compress_loop (fuel : nat) (data : bytes) (table : list Z)
    (position anchor : Z) (encoded : bytes) : Z * bytes :=
  match fuel with
  | O => (anchor, encoded)
  | S fuel =>
      let match_find_limit := len data - kLz4MatchFindLimit in
      let match_limit := len data - kLz4LastLiterals in
      if position <? match_find_limit then
        let slot := lz4_hash (lz4_load32 data position) in
        let candidate := nth (Z.to_nat slot) table 0 in
        let table := <[Z.to_nat slot := position + 1]> table in
        if candidate =? 0 then compress_loop fuel data table (position + 1) anchor encoded
        else
          let matched := candidate - 1 in
          let distance := u64 (position - matched) in
          if (kLz4MaxDistance <? distance) ||
             negb (lz4_load32 data matched =? lz4_load32 data position)
          then compress_loop fuel data table (position + 1) anchor encoded
          else
            let length :=
              match_length_loop (List.length data) data match_limit matched position kLz4MinMatch in
            let encoded :=
              lz4_emit_sequence data anchor (position - anchor) distance length encoded in
            compress_loop fuel data table (position + length) (position + length) encoded
      else (anchor, encoded)
  end.

Definition run_compress (data : bytes) : bytes :=
  let '(anchor, encoded) :=
    if kLz4MatchFindLimit <? len data
    then compress_loop (S (length data)) data
           (replicate (Z.to_nat (Z.shiftl 1 kLz4HashLog)) 0) 0 0 []
    else (0, []) in
  lz4_emit_last_literals data anchor (len data - anchor) encoded.

(** ** Decoder *)

(** [decoded.resize(begin + match)] followed by the byte-wise copy; a source
    or target index outside the resized buffer is [None]. *)
Fixpoint copy_loop (fuel : nat) (decoded : bytes) (begin distance i : Z) : option bytes :=
  match fuel with
  | O => Some decoded
  | S fuel =>
      match rd decoded (begin - distance + i), rd decoded (begin + i) with
      | Some b, Some _ => copy_loop fuel (set_byte decoded (begin + i) b) begin distance (i + 1)
      | _, _ => None
      end
  end.
Definition copy_match (decoded : bytes) (distance matchlen : Z) : option bytes :=
  copy_loop (Z.to_nat matchlen) (decoded ++ replicate (Z.to_nat matchlen) 0)
    (len decoded) distance 0.

Definition decode_tail (expected_size : Z) (decoded : bytes) (matched : bool)
    (last_match_begin last_match_end : Z) : outcome bytes :=
  if negb (len decoded =? expected_size)
  then Done (error StatusCode.corrupt "LZ4 output size mismatch")
  else if matched && ((u64 (expected_size - last_match_end) <? kLz4LastLiterals) ||
                      (u64 (expected_size - last_match_begin) <? kLz4MatchFindLimit))
  then Done (error StatusCode.corrupt "LZ4 last match breaks the parsing restrictions")
  else Done (Ok decoded).

(** A nibble and its continuation bytes. *)
Definition nibble_length (stored : bytes) (expected_size position nibble : Z)
    : read_length_outcome :=
  if nibble =? 15 then lz4_read_length stored expected_size position nibble
  else RlOk position nibble.

Fixpoint decompress_loop (fuel : nat) (stored : bytes) (expected_size position : Z)
    (decoded : bytes) (matched : bool) (last_match_begin last_match_end : Z)
    : outcome bytes :=
  match fuel with
  | O => OutOfFuel
  | S fuel =>
    if position <? len stored then
    match rd stored position with
    | None => OutOfBounds
    | Some token =>
    match nibble_length stored expected_size (position + 1) (Z.shiftr token 4) with
    | RlFalse => Done (error StatusCode.corrupt "invalid LZ4 literal length")
    | RlOutOfBounds => OutOfBounds
    | RlOutOfFuel => OutOfFuel
    | RlOk position literals =>
    if (u64 (len stored - position) <? literals) ||
       (u64 (expected_size - len decoded) <? literals)
    then Done (error StatusCode.corrupt "LZ4 literals exceed input or raw size")
    else
    match rd_range stored position literals with
    | None => OutOfBounds
    | Some lit =>
    let decoded := decoded ++ lit in
    let position := position + literals in
    if position =? len stored then
      if negb (Z.land token 0x0f =? 0)
      then Done (error StatusCode.corrupt "LZ4 final sequence announces a match")
      else decode_tail expected_size decoded matched last_match_begin last_match_end
    else if u64 (len stored - position) <? 2
    then Done (error StatusCode.corrupt "truncated LZ4 match offset")
    else
    match rd stored position, rd stored (position + 1) with
    | Some lo, Some hi =>
    let distance := Z.lor lo (Z.shiftl hi 8) in
    let position := position + 2 in
    if (distance =? 0) || (len decoded <? distance)
    then Done (error StatusCode.corrupt "LZ4 match offset outside decoded output")
    else
    match nibble_length stored expected_size position (Z.land token 0x0f) with
    | RlFalse => Done (error StatusCode.corrupt "invalid LZ4 match length")
    | RlOutOfBounds => OutOfBounds
    | RlOutOfFuel => OutOfFuel
    | RlOk position matchlen =>
    if SIZE_MAX - kLz4MinMatch <? matchlen
    then Done (error StatusCode.corrupt "LZ4 match length overflow")
    else
    let matchlen := matchlen + kLz4MinMatch in
    if u64 (expected_size - len decoded) <? matchlen
    then Done (error StatusCode.corrupt "LZ4 match exceeds raw size")
    else
    match copy_match decoded distance matchlen with
    | None => OutOfBounds
    | Some decoded' =>
      decompress_loop fuel stored expected_size position decoded' true
        (len decoded) (len decoded')
    end end
    | _, _ => OutOfBounds
    end end end end
    else decode_tail expected_size decoded matched last_match_begin last_match_end
  end.

Definition run_decompress (stored : bytes) (expected_size : Z) : outcome bytes :=
  decompress_loop (S (length stored)) stored expected_size 0 [] false 0 0.

Definition codec : CompressionCodec := {|
  codec_id := CompressionId_lz4_block;
  codec_version := 1;
  Codec.max_compressed_size := max_compressed_size;
  compress := fun input output =>
    with_output output input compress_invalid (Done (Ok (run_compress (view_data input))));
  decompress := fun input expected_size output =>
    with_output output input decompress_invalid
      (run_decompress (view_data input) expected_size) |}.
End Lz4.

(** [built_in_codec]; the shared-pointer singletons are values. *)
Definition built_in_codec (id : CompressionId) : option CompressionCodec :=
  if id =? CompressionId_none then Some NoneCodec.codec
  else if id =? CompressionId_packbits then Some PackBits.codec
  else if id =? CompressionId_lz4_block then Some Lz4.codec
  else None.
