(* ===== verification/Lz4Facts.v ===== *)
(** * LZ4 block: grammar, decoder, encoder

    [stream d lm enc out lm'] is the raw-block grammar of docs/format-v1.md
    section 6, relative to the output [d] produced so far: decoding [enc]
    after [d] yields [out], and the last match moves from [lm] to [lm'].
    The decoder accepts exactly this grammar (plus the end-of-block
    restrictions), never reads or writes outside its buffers and terminates;
    the encoder emits a stream of its input within the declared bound. *)

From S2P Require Import Prelude Status Layout Format Codec PackBitsFacts Lz4.
Import Lz4.

(** ** Length bytes *)

Definition ext_len (n : Z) : bytes := replicate (Z.to_nat (n / 255)) 255 ++ [n mod 255].

Lemma ext_len_ge n : 255 <= n -> ext_len n = 255 :: ext_len (n - 255).
Proof.
  intros. unfold ext_len. replace n with (n - 255 + 1 * 255) at 1 2 by lia.
  rewrite Z.div_add, Z.mod_add by lia.
  assert (0 <= (n - 255) / 255) by (apply Z.div_pos; lia).
  replace (Z.to_nat ((n - 255) / 255 + 1)) with (S (Z.to_nat ((n - 255) / 255))) by lia.
  done.
Qed.
Lemma ext_len_lt n : 0 <= n < 255 -> ext_len n = [n].
Proof. intros. unfold ext_len. by rewrite Z.div_small, Z.mod_small by lia. Qed.
Lemma len_ext_len n : 0 <= n -> len (ext_len n) = n / 255 + 1.
Proof.
  intros. unfold ext_len. assert (0 <= n / 255) by (apply Z.div_pos; lia). len_lia.
Qed.
Lemma ext_len_ok n : bytes_ok (ext_len n).
Proof.
  unfold ext_len. apply Forall_app; split; [apply Forall_replicate; zlia|].
  apply Forall_singleton. pose proof (Z.mod_pos_bound n 255). zlia.
Qed.

Lemma write_length_loop_spec fuel n out :
  0 <= n -> n / 255 < Z.of_nat fuel -> lz4_write_length_loop fuel n out = out ++ ext_len n.
Proof.
  revert n out. induction fuel as [|fuel IH]; intros n out Hn Hf.
  { assert (0 <= n / 255) by (apply Z.div_pos; lia). lia. }
  cbn [lz4_write_length_loop]. destruct (Z.leb_spec 255 n).
  - rewrite (ext_len_ge n) by lia. rewrite IH; [by rewrite <- app_assoc|lia|].
    replace n with (n - 255 + 1 * 255) in Hf by lia. rewrite Z.div_add in Hf by lia. lia.
  - rewrite ext_len_lt, u8_small by zlia. done.
Qed.
Lemma lz4_write_length_spec n out : 0 <= n -> lz4_write_length n out = out ++ ext_len n.
Proof.
  intros. apply write_length_loop_spec; [done|].
  assert (0 <= n / 255) by (apply Z.div_pos; lia). lia.
Qed.

Lemma len_pos_ext n : 0 <= n -> 1 <= len (ext_len n).
Proof.
  intros. rewrite len_ext_len by done. assert (0 <= n / 255) by (apply Z.div_pos; lia). lia.
Qed.

(** Reading back what [lz4_write_length] wrote. *)
Lemma read_length_loop_ext fuel n l pre post limit :
  0 <= n -> 0 <= l -> l + n <= limit < 2 ^ 64 -> len (ext_len n) <= Z.of_nat fuel ->
  lz4_read_length_loop fuel (pre ++ ext_len n ++ post) limit (len pre) l =
    RlOk (len pre + len (ext_len n)) (l + n).
Proof.
  revert n l pre. induction fuel as [|fuel IH]; intros n l pre Hn Hl Hlim Hf.
  { pose proof (len_pos_ext n). lia. }
  pose proof (len_pos_ext n Hn). cbn [lz4_read_length_loop].
  rewrite (proj2 (Z.eqb_neq _ _)) by len_lia. rewrite rd_in by len_lia.
  rewrite byte_at_app_r, Z.sub_diag, byte_at_app_l by len_lia.
  destruct (decide (255 <= n)).
  - rewrite (ext_len_ge n) in * by lia. rewrite byte_at_cons_0.
    rewrite u64_small by zlia. rewrite !(proj2 (Z.ltb_ge _ _)) by lia. cbn [orb].
    rewrite Z.eqb_refl. cbn [negb].
    replace (pre ++ (255 :: ext_len (n - 255)) ++ post)
      with ((pre ++ [255]) ++ ext_len (n - 255) ++ post) by (by rewrite <- app_assoc).
    replace (len pre + 1) with (len (pre ++ [255])) by len_lia.
    rewrite IH by len_lia. f_equal; len_lia.
  - rewrite ext_len_lt in * by lia. rewrite byte_at_cons_0.
    rewrite u64_small by zlia. rewrite !(proj2 (Z.ltb_ge _ _)) by lia. cbn [orb].
    rewrite (proj2 (Z.eqb_neq _ _)) by lia. cbn [negb]. f_equal; len_lia.
Qed.

(** Whatever is stored, the length reader ends inside the buffer, and what it
    accepts is a canonical length. *)
Lemma read_length_loop_sound stored limit : bytes_ok stored -> 0 <= limit < 2 ^ 64 ->
  forall fuel position l,
    0 <= position <= len stored -> 0 <= l -> len stored - position < Z.of_nat fuel ->
    match lz4_read_length_loop fuel stored limit position l with
    | RlOk p l' => exists n, 0 <= n /\ l' = l + n /\ l' <= limit /\
        position < p <= len stored /\ dropZ position stored = ext_len n ++ dropZ p stored
    | RlFalse => True
    | RlOutOfBounds | RlOutOfFuel => False
    end.
Proof.
  intros Hok Hlim. induction fuel as [|fuel IH]; intros position l Hp Hl Hf; [lia|].
  cbn [lz4_read_length_loop]. destruct (Z.eqb_spec position (len stored)); [done|].
  rewrite rd_in by lia. pose proof (byte_at_ok stored position Hok) as Hb.
  rewrite (dropZ_byte_at stored position) by lia. set (b := byte_at stored position) in *.
  destruct (Z.ltb_spec limit l); [done|]. rewrite u64_small by zlia.
  destruct (Z.ltb_spec (limit - l) b); [done|]. cbn [orb].
  destruct (Z.eqb_spec b 255) as [->|]; cbn [negb].
  - specialize (IH (position + 1) (l + 255)). destruct (lz4_read_length_loop _ _ _ _ _);
      try (apply IH; lia).
    destruct IH as (n'&?&->&?&?&Hd); [lia..|]. exists (255 + n').
    split_and!; try lia. rewrite (ext_len_ge (255 + n')) by lia.
    replace (255 + n' - 255) with n' by lia. rewrite Hd. done.
  - exists b. rewrite ext_len_lt by zlia. split_and!; try zlia. done.
Qed.

(** ** Sequences *)

(** The bytes a length adds after its nibble. *)
Definition ext (n : Z) : bytes := if n <? 15 then [] else ext_len (n - 15).
Definition token (ll ml : Z) : Z := 16 * Z.min ll 15 + Z.min ml 15.

Lemma len_ext n : 0 <= n -> len (ext n) = (n + 240) / 255.
Proof.
  intros. unfold ext. destruct (Z.ltb_spec n 15).
  - by rewrite Z.div_small by lia.
  - rewrite len_ext_len by lia. replace (n + 240) with (n - 15 + 1 * 255) by lia.
    by rewrite Z.div_add by lia.
Qed.
Lemma ext_ok n : bytes_ok (ext n).
Proof. unfold ext. case_match; [constructor|apply ext_len_ok]. Qed.

Lemma token_ok ll ml : 0 <= ll -> 0 <= ml -> is_u8 (token ll ml).
Proof. unfold token. zlia. Qed.
Lemma token_hi ll ml : 0 <= ll -> 0 <= ml -> Z.shiftr (token ll ml) 4 = Z.min ll 15.
Proof.
  intros. rewrite Z.shiftr_div_pow2 by lia. unfold token. change (2 ^ 4) with 16.
  symmetry. apply (Z.div_unique _ 16 _ (Z.min ml 15)); lia.
Qed.
Lemma token_lo ll ml : 0 <= ll -> 0 <= ml -> Z.land (token ll ml) 0x0f = Z.min ml 15.
Proof.
  intros. change (Z.land ?t 0x0f) with (Z.land t (Z.ones 4)).
  rewrite Z.land_ones by lia. unfold token.
  change (2 ^ 4) with 16. symmetry. apply (Z.mod_unique _ 16 (Z.min ll 15)); lia.
Qed.
Lemma token_split t : is_u8 t -> t = 16 * Z.shiftr t 4 + Z.land t 0x0f /\
  0 <= Z.shiftr t 4 < 16 /\ 0 <= Z.land t 0x0f < 16.
Proof.
  intros. change 0x0f with (Z.ones 4). rewrite Z.land_ones, Z.shiftr_div_pow2 by lia.
  pose proof (Z.div_mod t 16). pose proof (Z.mod_pos_bound t 16).
  change (2 ^ 4) with 16. split_and!; try zlia; apply Z.div_pos || apply Z.div_lt_upper_bound; zlia.
Qed.

Definition offset_bytes (distance : Z) : bytes := [distance mod 256; distance / 256].

Definition seq_bytes (lit : bytes) (distance k : Z) : bytes :=
  token (len lit) k :: ext (len lit) ++ lit ++ offset_bytes distance ++ ext k.
Definition last_bytes (lit : bytes) : bytes := token (len lit) 0 :: ext (len lit) ++ lit.

(** [k] more bytes, each a copy of the byte [distance] before it. *)
Fixpoint extend (d : bytes) (distance : Z) (k : nat) : bytes :=
  match k with
  | O => d
  | S k => extend (d ++ [byte_at d (len d - distance)]) distance k
  end.

Lemma len_extend d distance k : len (extend d distance k) = len d + Z.of_nat k.
Proof. revert d. induction k as [|k IH]; intros d; cbn [extend]; [lia|]. rewrite IH. len_lia. Qed.
Lemma extend_ok d distance k : bytes_ok d -> bytes_ok (extend d distance k).
Proof.
  revert d. induction k as [|k IH]; intros d Hd; cbn [extend]; [done|].
  apply IH, Forall_app; split; [done|]. apply Forall_singleton. by apply byte_at_ok.
Qed.

Definition last_match : Type := option (Z * Z).

Inductive stream : bytes -> last_match -> bytes -> bytes -> last_match -> Prop :=
| stream_end d lm : stream d lm [] d lm
| stream_last d lm lit : stream d lm (last_bytes lit) (d ++ lit) lm
| stream_seq d lm lit distance k enc out lm' :
    1 <= distance <= 65535 -> distance <= len (d ++ lit) -> 0 <= k ->
    stream (extend (d ++ lit) distance (Z.to_nat (k + 4)))
      (Some (len (d ++ lit), len (d ++ lit) + (k + 4))) enc out lm' ->
    stream d lm (seq_bytes lit distance k ++ enc) out lm'.

(** The parsing restrictions on the last match. *)
Definition restrictions (size : Z) (lm : last_match) : Prop :=
  match lm with
  | None => True
  | Some (b, e) => kLz4LastLiterals <= size - e /\ kLz4MatchFindLimit <= size - b
  end.
Definition lm_in (lm : last_match) (n : Z) : Prop :=
  match lm with None => True | Some (b, e) => 0 <= b <= e /\ e <= n end.

(** ** Decoder *)

Lemma nibble_ext n pre post expected :
  0 <= n <= expected -> expected < 2 ^ 64 ->
  nibble_length (pre ++ ext n ++ post) expected (len pre) (Z.min n 15) =
    RlOk (len pre + len (ext n)) n.
Proof.
  intros Hn He. unfold nibble_length, ext. destruct (Z.ltb_spec n 15).
  - rewrite (proj2 (Z.eqb_neq _ _)) by lia. rewrite Z.min_l by lia. f_equal. len_lia.
  - rewrite Z.min_r, Z.eqb_refl by lia. unfold lz4_read_length.
    rewrite read_length_loop_ext; [f_equal; lia|lia..|]. len_lia.
Qed.

Lemma nibble_sound stored expected position nib :
  bytes_ok stored -> 0 <= expected < 2 ^ 64 -> 0 <= position <= len stored -> 0 <= nib < 16 ->
  match nibble_length stored expected position nib with
  | RlOk p n => 0 <= n < 2 ^ 64 /\ Z.min n 15 = nib /\ position <= p <= len stored /\
      dropZ position stored = ext n ++ dropZ p stored
  | RlFalse => True
  | RlOutOfBounds | RlOutOfFuel => False
  end.
Proof.
  intros Hok He Hp Hn. unfold nibble_length. destruct (Z.eqb_spec nib 15) as [->|].
  - pose proof (read_length_loop_sound stored expected Hok He
      (S (Z.to_nat (len stored - position))) position 15 ltac:(lia) ltac:(lia) ltac:(lia)) as H.
    unfold lz4_read_length. destruct (lz4_read_length_loop _ _ _ _ _); try done.
    destruct H as (n&?&->&?&?&Hd). split_and!; try lia. unfold ext.
    rewrite (proj2 (Z.ltb_ge _ _)) by lia. by replace (15 + n - 15) with n by lia.
  - split_and!; try zlia. unfold ext. by rewrite (proj2 (Z.ltb_lt _ _)) by lia.
Qed.

Lemma set_byte_app_r l b r i x :
  i = len l -> set_byte (l ++ b :: r) i x = (l ++ [x]) ++ r.
Proof.
  intros ->. unfold set_byte, len. rewrite Nat2Z.id, insert_app_r_alt, Nat.sub_diag by lia.
  simpl. by rewrite <- app_assoc.
Qed.

Lemma copy_loop_spec distance begin : forall k d i,
  1 <= distance -> distance <= begin -> 0 <= i -> len d = begin + i ->
  copy_loop k (d ++ replicate k 0) begin distance i = Some (extend d distance k).
Proof.
  induction k as [|k IH]; intros d i H1 Hb Hi Hd; cbn [copy_loop extend replicate].
  { by rewrite app_nil_r. }
  rewrite !rd_in by len_lia. rewrite byte_at_app_l by len_lia.
  rewrite set_byte_app_r by lia. replace (begin - distance + i) with (len d - distance) by lia.
  apply IH; len_lia.
Qed.

Lemma copy_match_spec d distance m :
  1 <= distance <= len d -> 0 <= m ->
  copy_match d distance m = Some (extend d distance (Z.to_nat m)).
Proof. intros. unfold copy_match. apply copy_loop_spec; lia. Qed.

Definition tail_of (expected : Z) (out : bytes) (lm : last_match) : outcome bytes :=
  match lm with
  | None => decode_tail expected out false 0 0
  | Some (b, e) => decode_tail expected out true b e
  end.

Definition loop_from (fuel : nat) (stored : bytes) (expected position : Z) (d : bytes)
    (lm : last_match) : outcome bytes :=
  match lm with
  | None => decompress_loop fuel stored expected position d false 0 0
  | Some (b, e) => decompress_loop fuel stored expected position d true b e
  end.

Lemma offset_read d : 0 <= d <= 65535 ->
  Z.lor (d mod 256) (Z.shiftl (d / 256) 8) = d.
Proof.
  intros. pose proof (Z.mod_pos_bound d 256). rewrite lor_shiftl_add by (simpl; lia).
  pose proof (Z.div_mod d 256). change (2 ^ 8) with 256. lia.
Qed.

Lemma stream_len d lm enc out lm' : stream d lm enc out lm' -> len d <= len out.
Proof. induction 1; [lia|len_lia|]. rewrite len_extend in *. len_lia. Qed.

Lemma byte_at_app_mid pre x post : byte_at (pre ++ x :: post) (len pre) = x.
Proof. rewrite byte_at_app_r, Z.sub_diag by lia. done. Qed.
Lemma rd_app_mid pre x post i : i = len pre -> rd (pre ++ x :: post) i = Some x.
Proof. intros ->. rewrite rd_in by len_lia. by rewrite byte_at_app_mid. Qed.
Lemma slice_app_mid (pre x post : bytes) i n :
  i = len pre -> n = len x -> slice i n (pre ++ x ++ post) = x.
Proof.
  intros -> ->. rewrite slice_app_r, Z.sub_diag by lia. rewrite slice_app_l by lia.
  apply slice_all.
Qed.

(** One loop iteration over a well-formed literal run. *)
Lemma literal_step fuel pre lit ml post expected d lm :
  let stored := pre ++ token (len lit) ml :: ext (len lit) ++ lit ++ post in
  0 <= ml -> len stored < 2 ^ 64 -> len (d ++ lit) <= expected < 2 ^ 64 ->
  loop_from (S fuel) stored expected (len pre) d lm =
    let position := len stored - len post in
    if position =? len stored then
      if negb (Z.land (token (len lit) ml) 0x0f =? 0)
      then Done (error StatusCode.corrupt "LZ4 final sequence announces a match")
      else tail_of expected (d ++ lit) lm
    else if u64 (len stored - position) <? 2
    then Done (error StatusCode.corrupt "truncated LZ4 match offset")
    else match rd stored position, rd stored (position + 1) with
    | Some lo, Some hi =>
      let distance := Z.lor lo (Z.shiftl hi 8) in
      if (distance =? 0) || (len (d ++ lit) <? distance)
      then Done (error StatusCode.corrupt "LZ4 match offset outside decoded output")
      else match nibble_length stored expected (position + 2) (Z.min ml 15) with
      | RlFalse => Done (error StatusCode.corrupt "invalid LZ4 match length")
      | RlOutOfBounds => OutOfBounds
      | RlOutOfFuel => OutOfFuel
      | RlOk position matchlen =>
        if SIZE_MAX - kLz4MinMatch <? matchlen
        then Done (error StatusCode.corrupt "LZ4 match length overflow")
        else if u64 (expected - len (d ++ lit)) <? matchlen + kLz4MinMatch
        then Done (error StatusCode.corrupt "LZ4 match exceeds raw size")
        else match copy_match (d ++ lit) distance (matchlen + kLz4MinMatch) with
        | None => OutOfBounds
        | Some d' => loop_from fuel stored expected position d' (Some (len (d ++ lit), len d'))
        end
      end
    | _, _ => OutOfBounds
    end.
Proof.
  intros stored Hml Hs Hd.
  assert (Hstored : stored = pre ++ token (len lit) ml :: ext (len lit) ++ lit ++ post) by done.
  pose proof (len_nonneg lit).
  assert (Hn : nibble_length stored expected (len pre + 1) (Z.shiftr (token (len lit) ml) 4) =
    RlOk (len pre + 1 + len (ext (len lit))) (len lit)).
  { rewrite token_hi by lia. rewrite Hstored.
    replace (pre ++ token (len lit) ml :: ext (len lit) ++ lit ++ post)
      with ((pre ++ [token (len lit) ml]) ++ ext (len lit) ++ lit ++ post)
      by (by rewrite <- app_assoc).
    replace (len pre + 1) with (len (pre ++ [token (len lit) ml])) by len_lia.
    apply nibble_ext; len_lia. }
  assert (Hr : rd_range stored (len pre + 1 + len (ext (len lit))) (len lit) = Some lit).
  { rewrite rd_range_in; [|len_lia| lia|rewrite Hstored; len_lia]. f_equal. rewrite Hstored.
    replace (pre ++ token (len lit) ml :: ext (len lit) ++ lit ++ post)
      with ((pre ++ token (len lit) ml :: ext (len lit)) ++ lit ++ post)
      by (by rewrite <- app_assoc).
    apply slice_app_mid; len_lia. }
  assert (Ht : rd stored (len pre) = Some (token (len lit) ml))
    by (rewrite Hstored; by apply rd_app_mid).
  assert (Hl : len stored = len pre + 1 + len (ext (len lit)) + len lit + len post)
    by (rewrite Hstored; len_lia).
  assert (Hlo := token_lo (len lit) ml ltac:(lia) ltac:(lia)).
  clearbody stored. replace (len stored - len post)
    with (len pre + 1 + len (ext (len lit)) + len lit) by lia.
  unfold loop_from, tail_of. destruct lm as [[b e]|]; cbn [decompress_loop];
  (rewrite (proj2 (Z.ltb_lt (len pre) (len stored))) by len_lia;
  rewrite Ht, Hn; rewrite (u64_small (len stored - _)) by len_lia;
  rewrite (u64_small (expected - len d)) by len_lia;
  rewrite (proj2 (Z.ltb_ge _ (len lit))) by len_lia;
  rewrite (proj2 (Z.ltb_ge _ (len lit))) by len_lia; cbn [orb]; rewrite Hr, Hlo; reflexivity).
Qed.

(** The decoder runs through every stream of the grammar. *)
Lemma lz4_decompress_stream d lm enc out lm' : stream d lm enc out lm' ->
  forall fuel pre,
    len (pre ++ enc) < 2 ^ 64 -> len out < 2 ^ 64 -> (length enc < fuel)%nat ->
    loop_from fuel (pre ++ enc) (len out) (len pre) d lm = tail_of (len out) out lm'.
Proof.
  induction 1 as [d lm|d lm lit|d lm lit distance k enc out lm' Hd1 Hd2 Hk H IH];
    intros [|fuel] pre Hp Ho Hf; try (simpl in Hf; lia).
  - rewrite app_nil_r. unfold loop_from, tail_of.
    destruct lm as [[b e]|]; cbn [decompress_loop]; by rewrite Z.ltb_irrefl.
  - pose proof (literal_step fuel pre lit 0 [] (len (d ++ lit)) d lm) as Hstep.
    cbv zeta in Hstep. rewrite !app_nil_r in Hstep. unfold last_bytes in *.
    rewrite Hstep by (done || lia). change (len (@nil Z)) with 0.
    rewrite Z.sub_0_r, Z.eqb_refl.
    rewrite token_lo by len_lia. reflexivity.
  - pose proof (stream_len _ _ _ _ _ H) as Hout. rewrite len_extend in Hout.
    pose proof (literal_step fuel pre lit k (offset_bytes distance ++ ext k ++ enc) (len out) d lm)
      as Hstep. cbv zeta in Hstep.
    assert (Hs : pre ++ seq_bytes lit distance k ++ enc =
      pre ++ token (len lit) k :: ext (len lit) ++ lit ++ offset_bytes distance ++ ext k ++ enc)
      by (unfold seq_bytes; cbn [app]; by rewrite <- !app_assoc).
    rewrite Hs in Hp |- *. rewrite Hstep by len_lia. clear Hstep.
    set (stored := pre ++ token (len lit) k :: _) in *.
    assert (Hpos : len stored - len (offset_bytes distance ++ ext k ++ enc) =
      len (pre ++ token (len lit) k :: ext (len lit) ++ lit)) by (unfold stored; len_lia).
    assert (Hst2 : stored = (pre ++ token (len lit) k :: ext (len lit) ++ lit) ++
      offset_bytes distance ++ ext k ++ enc)
      by (unfold stored; cbn [app]; rewrite <- !app_assoc; cbn [app]; by rewrite <- !app_assoc).
    assert (Hlen2 : len (offset_bytes distance) = 2) by done.
    clearbody stored. rewrite Hpos. set (pre2 := pre ++ token (len lit) k :: _) in *.
    rewrite (proj2 (Z.eqb_neq _ _)) by (rewrite Hst2; len_lia).
    rewrite u64_small by (rewrite Hst2 in *; len_lia).
    rewrite (proj2 (Z.ltb_ge _ 2)) by (rewrite Hst2; len_lia).
    replace (rd stored (len pre2)) with (Some (distance mod 256))
      by (rewrite Hst2; symmetry; by apply rd_app_mid).
    replace (rd stored (len pre2 + 1)) with (Some (distance / 256)).
    2:{ rewrite Hst2. unfold offset_bytes. cbn [app].
        replace (pre2 ++ distance mod 256 :: distance / 256 :: ext k ++ enc)
          with ((pre2 ++ [distance mod 256]) ++ distance / 256 :: ext k ++ enc)
          by (by rewrite <- app_assoc).
        symmetry. apply rd_app_mid. len_lia. }
    rewrite offset_read by lia. rewrite (proj2 (Z.eqb_neq distance 0)) by lia.
    rewrite (proj2 (Z.ltb_ge _ distance)) by lia. cbn [orb].
    replace (nibble_length stored (len out) (len pre2 + 2) (Z.min k 15))
      with (RlOk (len (pre2 ++ offset_bytes distance) + len (ext k)) k).
    2:{ symmetry. rewrite Hst2, app_assoc.
        replace (len pre2 + 2) with (len (pre2 ++ offset_bytes distance)) by len_lia.
        apply nibble_ext; len_lia. }
    rewrite (proj2 (Z.ltb_ge _ k)) by (unfold kLz4MinMatch; len_lia).
    rewrite u64_small by len_lia. unfold kLz4MinMatch.
    rewrite (proj2 (Z.ltb_ge _ (k + 4))) by len_lia.
    rewrite copy_match_spec by len_lia. rewrite len_extend.
    rewrite Z2Nat.id by lia.
    replace stored with ((pre2 ++ offset_bytes distance ++ ext k) ++ enc)
      by (rewrite Hst2; by rewrite <- !app_assoc).
    replace (len (pre2 ++ offset_bytes distance) + len (ext k))
      with (len (pre2 ++ offset_bytes distance ++ ext k)) by len_lia.
    apply IH; [|done|].
    + rewrite Hst2 in Hp. rewrite <- !app_assoc. done.
    + unfold seq_bytes in Hf. rewrite !length_app in Hf. simpl in Hf. lia.
Qed.

Lemma dropZ_take_app (stored a : bytes) position r :
  0 <= position <= len stored -> dropZ position stored = a ++ r ->
  stored = takeZ position stored ++ a ++ r.
Proof. intros ? <-. by rewrite takeZ_dropZ. Qed.

Definition lm_flag (lm : last_match) : bool := match lm with Some _ => true | None => false end.
Definition lm_begin (lm : last_match) : Z := match lm with Some (b, _) => b | None => 0 end.
Definition lm_end (lm : last_match) : Z := match lm with Some (_, e) => e | None => 0 end.

Lemma lm_in_mono lm m n : lm_in lm m -> m <= n -> lm_in lm n.
Proof. destruct lm as [[]|]; unfold lm_in; [lia|done]. Qed.

Lemma tail_spec expected out lm :
  0 <= expected < 2 ^ 64 -> lm_in lm (len out) -> len out <= expected ->
  exists r, decode_tail expected out (lm_flag lm) (lm_begin lm) (lm_end lm) = Done r /\
    match r with
    | Ok x => x = out /\ len out = expected /\ restrictions expected lm
    | Err s => code s = StatusCode.corrupt
    end.
Proof.
  intros He Hin Ho. unfold decode_tail. destruct (Z.eqb_spec (len out) expected); cbn [negb];
    [|by eexists].
  destruct lm as [[b e']|]; cbn [lm_flag lm_begin lm_end lm_in] in *; cbn [andb].
  - rewrite !u64_small by zlia. case_match; eexists; (split; [reflexivity|]); [done|].
    unfold restrictions. split_and!; [done..| |]; lia.
  - by eexists.
Qed.

Lemma offset_bytes_read lo hi :
  is_u8 lo -> is_u8 hi -> offset_bytes (Z.lor lo (Z.shiftl hi 8)) = [lo; hi] /\
    0 <= Z.lor lo (Z.shiftl hi 8) <= 65535.
Proof.
  intros. rewrite lor_shiftl_add by zlia. change (2 ^ 8) with 256.
  split; [|zlia]. unfold offset_bytes. f_equal; [|f_equal].
  - symmetry. apply (Z.mod_unique _ 256 hi); zlia.
  - symmetry. apply (Z.div_unique _ 256 _ lo); zlia.
Qed.

(** Whatever the input, the decoder ends, stays inside its buffers, and what
    it accepts is a stream of its output that obeys the restrictions. *)
Lemma lz4_decompress_sound stored expected :
  bytes_ok stored -> len stored < 2 ^ 64 -> 0 <= expected < 2 ^ 64 ->
  forall fuel position d lm,
    0 <= position <= len stored -> len d <= expected -> lm_in lm (len d) ->
    len stored - position < Z.of_nat fuel ->
    exists r, decompress_loop fuel stored expected position d (lm_flag lm) (lm_begin lm) (lm_end lm)
        = Done r /\
      match r with
      | Ok out => len out = expected /\ exists lm',
          stream d lm (dropZ position stored) out lm' /\ restrictions expected lm'
      | Err s => code s = StatusCode.corrupt
      end.
Proof.
  intros Hok Hlen He. induction fuel as [|fuel IH]; intros position d lm Hp Hd Hlm Hf; [lia|].
  cbn [decompress_loop]. destruct (Z.ltb_spec position (len stored)) as [Hlt|Hge]; cycle 1.
  { destruct (tail_spec expected d lm He Hlm Hd) as ([x|s]&->&Hr); eexists; (split; [reflexivity|]);
      [|done]. destruct Hr as (->&?&?). rewrite dropZ_all by lia.
    split; [done|]. exists lm. split; [constructor|done]. }
  rewrite rd_in by lia. pose proof (byte_at_ok stored position Hok) as Ht.
  rewrite (dropZ_byte_at stored position) by lia. set (t := byte_at stored position) in *.
  destruct (token_split t Ht) as (Htok&Hhi&Hlo).
  pose proof (nibble_sound stored expected (position + 1) _ Hok He ltac:(lia) Hhi) as Hn.
  destruct (nibble_length _ _ _ (Z.shiftr t 4)) as [p n| | |]; [|by eexists|done|done].
  destruct Hn as (Hn&Hmin&Hp2&Hdrop). pose proof (len_nonneg d).
  rewrite (u64_small (len stored - p)), (u64_small (expected - len d)) by zlia.
  destruct (_ || _) eqn:Echk; [by eexists|]. apply orb_false_iff in Echk as [Ec1 Ec2].
  rewrite rd_range_in by lia. set (lit := slice p n stored).
  assert (Hll : len lit = n) by (apply len_slice; lia).
  assert (Hrest : dropZ p stored = lit ++ dropZ (p + n) stored) by (apply dropZ_split; lia).
  assert (Hdl : len (d ++ lit) = len d + n) by len_lia.
  assert (Htoken : t = token (len lit) (Z.land t 0x0f)) by (unfold token; rewrite Hll; lia).
  rewrite Hdrop, Hrest. replace (ext n) with (ext (len lit)) by (by rewrite Hll).
  destruct (Z.eqb_spec (p + n) (len stored)) as [Hend|Hend].
  { destruct (Z.eqb_spec (Z.land t 0x0f) 0) as [H0|]; cbn [negb]; [|by eexists].
    destruct (tail_spec expected (d ++ lit) lm He) as ([x|s]&->&Hr);
      [by apply (lm_in_mono lm (len d)); [|lia]|lia|..]; eexists; (split; [reflexivity|]); [|done].
    destruct Hr as (->&?&?). rewrite (dropZ_all (p + n)) by lia. rewrite app_nil_r.
    split; [done|]. exists lm. split; [|done]. rewrite Htoken, H0. apply stream_last. }
  rewrite (u64_small (len stored - (p + n))) by zlia.
  destruct (Z.ltb_spec (len stored - (p + n)) 2); [by eexists|].
  rewrite !rd_in by lia.
  pose proof (byte_at_ok stored (p + n) Hok) as Hlob.
  pose proof (byte_at_ok stored (p + n + 1) Hok) as Hhib.
  rewrite (dropZ_byte_at stored (p + n)), (dropZ_byte_at stored (p + n + 1)) by lia.
  set (lo := byte_at stored (p + n)) in *. set (hi := byte_at stored (p + n + 1)) in *.
  destruct (offset_bytes_read lo hi Hlob Hhib) as [Hoff Hdr].
  set (distance := Z.lor lo (Z.shiftl hi 8)) in *.
  destruct (Z.eqb_spec distance 0); [by eexists|].
  destruct (Z.ltb_spec (len (d ++ lit)) distance); [by eexists|]. cbn [orb].
  pose proof (nibble_sound stored expected (p + n + 2) _ Hok He ltac:(lia) Hlo) as Hm.
  destruct (nibble_length _ _ _ (Z.land t 0x0f)) as [q k| | |]; [|by eexists|done|done].
  destruct Hm as (Hk&Hkmin&Hq&Hdropq). replace (p + n + 1 + 1) with (p + n + 2) by lia.
  rewrite Hdropq. unfold kLz4MinMatch.
  destruct (Z.ltb_spec (SIZE_MAX - 4) k); [by eexists|].
  rewrite u64_small by zlia. destruct (Z.ltb_spec (expected - len (d ++ lit)) (k + 4)); [by eexists|].
  rewrite copy_match_spec by lia.
  set (d' := extend (d ++ lit) distance (Z.to_nat (k + 4))).
  assert (Hd' : len d' = len (d ++ lit) + (k + 4)) by (unfold d'; rewrite len_extend; lia).
  destruct (IH q d' (Some (len (d ++ lit), len d'))) as (r&Hr&Hres);
    [lia|lia|simpl; len_lia|lia|]. cbn [lm_flag lm_begin lm_end] in Hr. rewrite Hr.
  eexists; split; [reflexivity|]. destruct r as [out|s]; [|done].
  destruct Hres as (Ho&lm'&Hst&Hres). split; [done|]. exists lm'. split; [|done].
  replace (t :: ext (len lit) ++ lit ++ lo :: hi :: ext k ++ dropZ q stored)
    with (seq_bytes lit distance k ++ dropZ q stored).
  - apply stream_seq; [lia|lia|lia|]. rewrite <- Hd'. exact Hst.
  - unfold seq_bytes. rewrite Hoff. cbn [app]. rewrite <- !app_assoc. cbn [app].
    f_equal. unfold token. rewrite Hll. lia.
Qed.

(** ** Encoder *)

Lemma append_literals_spec data b n out :
  0 <= b -> 0 <= n -> lz4_append_literals data b n out = out ++ slice b n data.
Proof.
  intros. unfold lz4_append_literals. destruct (Z.eqb_spec n 0) as [->|]; [|done].
  simpl. unfold slice. by rewrite takeZ_nonpos, app_nil_r by lia.
Qed.

Lemma nibble_hi n : 0 <= n < 15 -> u8 (Z.shiftl n 4) = 16 * n.
Proof. intros. rewrite Z.shiftl_mul_pow2, u8_small by zlia. lia. Qed.
Lemma nibble_or h l : 0 <= h <= 15 -> 0 <= l <= 15 -> u8 (Z.lor (16 * h) l) = 16 * h + l.
Proof.
  intros. rewrite Z.lor_comm. replace (16 * h) with (Z.shiftl h 4) at 1
    by (rewrite Z.shiftl_mul_pow2 by lia; lia).
  rewrite lor_shiftl_add by lia. rewrite u8_small by zlia. lia.
Qed.

Lemma emit_sequence_spec data lb lc distance ml out :
  0 <= lb -> 0 <= lc -> lb + lc <= len data -> 0 <= distance <= 65535 -> 4 <= ml < 2 ^ 64 ->
  lz4_emit_sequence data lb lc distance ml out =
    out ++ seq_bytes (slice lb lc data) distance (ml - 4).
Proof.
  intros. unfold lz4_emit_sequence, kLz4MinMatch. cbv zeta. rewrite (u64_small (ml - 4)) by zlia.
  assert (Hoff : [u8 (Z.land distance 255)] ++ [u8 (Z.land (Z.shiftr distance 8) 255)] =
    offset_bytes distance).
  { change 255 with (Z.ones 8). rewrite !Z.land_ones by lia.
    rewrite Z.shiftr_div_pow2 by lia. change (2 ^ 8) with 256.
    pose proof (Z.mod_pos_bound distance 256).
    assert (0 <= distance / 256 < 256)
      by (split; [apply Z.div_pos|apply Z.div_lt_upper_bound]; lia).
    rewrite (Z.mod_small (distance / 256)) by lia. by rewrite !u8_small by zlia. }
  unfold seq_bytes. rewrite len_slice by lia. rewrite <- Hoff. unfold ext, token.
  set (lit := slice lb lc data).
  destruct (Z.leb_spec 15 lc), (Z.leb_spec 15 (ml - 4));
    rewrite ?(proj2 (Z.ltb_ge lc 15)), ?(proj2 (Z.ltb_lt lc 15)) by lia;
    rewrite ?(proj2 (Z.ltb_ge (ml - 4) 15)), ?(proj2 (Z.ltb_lt (ml - 4) 15)) by lia;
    rewrite ?lz4_write_length_spec by lia; rewrite append_literals_spec by lia; fold lit;
    rewrite ?lz4_write_length_spec by lia; rewrite <- !app_assoc; cbn [app];
    rewrite set_byte_app_r by done; rewrite <- app_assoc; cbn [app];
    rewrite ?(Z.min_r lc 15), ?(Z.min_l lc 15) by lia;
    rewrite ?(Z.min_r (ml - 4) 15), ?(Z.min_l (ml - 4) 15) by lia;
    rewrite ?nibble_hi by lia; try (change 0xf0 with (16 * 15)); rewrite nibble_or by lia;
    cbn [app]; rewrite ?app_nil_r; done.
Qed.

Lemma emit_last_spec data lb lc out :
  0 <= lb -> 0 <= lc -> lb + lc <= len data ->
  lz4_emit_last_literals data lb lc out = out ++ last_bytes (slice lb lc data).
Proof.
  intros. unfold lz4_emit_last_literals, last_bytes, ext, token. cbv zeta.
  rewrite len_slice, append_literals_spec by lia. rewrite !set_byte_app_r by done.
  destruct (Z.leb_spec 15 lc).
  - rewrite (proj2 (Z.ltb_ge lc 15)), lz4_write_length_spec, Z.min_r by lia.
    rewrite <- !app_assoc. done.
  - rewrite (proj2 (Z.ltb_lt lc 15)), nibble_hi, Z.min_l by lia.
    rewrite <- !app_assoc. cbn [app]. by replace (16 * lc + Z.min 0 15) with (16 * lc) by lia.
Qed.

Lemma hash_range s : is_u32 s -> 0 <= lz4_hash s < 4096.
Proof.
  intros. unfold lz4_hash, kLz4HashLog. apply (shiftr_range _ 12 20); [lia..|].
  apply u32_range.
Qed.

Lemma load32_get32 data p : 0 <= p -> lz4_load32 data p = get32 data p.
Proof.
  intros. unfold lz4_load32, get32, get_le. change (seqZ 0 (Z.of_nat 4)) with [0; 1; 2; 3].
  cbn [foldl]. rewrite Z.add_0_r, Z.lor_0_l, Z.shiftl_0_r. done.
Qed.

Lemma load32_eq data a b i :
  bytes_ok data -> 0 <= a -> 0 <= b -> a + 4 <= len data -> b + 4 <= len data ->
  lz4_load32 data a = lz4_load32 data b -> 0 <= i < 4 ->
  byte_at data (a + i) = byte_at data (b + i).
Proof.
  intros Hok Ha Hb Hal Hbl Heq Hi. rewrite !load32_get32 in Heq by done.
  rewrite <- (byte_at_slice data a 4), <- (byte_at_slice data b 4) by lia.
  change 4 with (Z.of_nat 4). rewrite !slice_get_le by (done || lia).
  unfold get32 in Heq. by rewrite Heq.
Qed.

Lemma match_length_spec data ml m p : forall fuel l,
  4 <= l -> p + l <= ml ->
  (forall i, 0 <= i < l -> byte_at data (m + i) = byte_at data (p + i)) ->
  let r := match_length_loop fuel data ml m p l in
  l <= r /\ p + r <= ml /\
  forall i, 0 <= i < r -> byte_at data (m + i) = byte_at data (p + i).
Proof.
  induction fuel as [|fuel IH]; intros l Hl Hml Hall; simpl; [split_and!; [lia..|done]|].
  destruct (_ && _) eqn:E; [|split_and!; [lia..|done]].
  apply andb_true_iff in E as [E1 E2].
  destruct (IH (l + 1)) as (?&?&?); [lia..| |split_and!; [lia..|done]].
  intros i Hi. destruct (decide (i = l)) as [->|]; [lia|]. apply Hall. lia.
Qed.

Lemma takeZ_snoc data p : 0 <= p < len data -> takeZ (p + 1) data = takeZ p data ++ [byte_at data p].
Proof.
  intros. rewrite <- !slice_0_takeZ, slice_add by lia. f_equal. rewrite Z.add_0_l.
  unfold slice. rewrite dropZ_byte_at by lia. done.
Qed.

Lemma extend_takeZ data distance : forall k p,
  1 <= distance <= p -> p + Z.of_nat k <= len data ->
  (forall i, 0 <= i < Z.of_nat k -> byte_at data (p - distance + i) = byte_at data (p + i)) ->
  extend (takeZ p data) distance k = takeZ (p + Z.of_nat k) data.
Proof.
  induction k as [|k IH]; intros p Hp Hl Hall; cbn [extend].
  { f_equal. lia. }
  replace (len (takeZ p data)) with p by (rewrite len_takeZ; lia).
  rewrite byte_at_takeZ by lia.
  replace (byte_at data (p - distance)) with (byte_at data p).
  2:{ specialize (Hall 0 ltac:(lia)). rewrite !Z.add_0_r in Hall. done. }
  rewrite <- takeZ_snoc by lia. rewrite IH; [f_equal; lia|lia..|].
  intros i Hi. specialize (Hall (i + 1) ltac:(lia)).
  replace (p + 1 - distance + i) with (p - distance + (i + 1)) by lia. rewrite Hall. f_equal. lia.
Qed.

(** Table entries are biased positions behind the cursor. *)
Definition table_ok (table : list Z) (position : Z) : Prop :=
  Forall (fun e => 0 <= e <= position) table.

Lemma table_ok_insert table position p' i :
  0 <= position -> table_ok table position -> position + 1 <= p' ->
  table_ok (<[i := position + 1]> table) p'.
Proof.
  intros Hp Ht Hp'. unfold table_ok. apply Forall_insert; [|lia].
  eapply Forall_impl; [done|]. simpl. lia.
Qed.
Lemma table_ok_nth table position i : 0 <= position -> table_ok table position ->
  0 <= nth i table 0 <= position.
Proof.
  intros Hp Ht. destruct (nth_in_or_default i table 0) as [Hi| ->]; [|lia].
  unfold table_ok in Ht. rewrite Forall_forall in Ht. apply Ht. by apply list_elem_of_In.
Qed.

(** Size of a stream for [n] more input bytes. *)
Definition cbound (n : Z) : Z := n + n / 255 + 2.

Lemma len_last_bytes lit : len (last_bytes lit) <= cbound (len lit).
Proof.
  unfold last_bytes, cbound. pose proof (len_nonneg lit).
  rewrite len_cons, len_app, len_ext by lia.
  Z.to_euclidean_division_equations. lia.
Qed.
Lemma len_seq_bytes lit distance k n :
  0 <= k -> 0 <= n ->
  len (seq_bytes lit distance k) + cbound n <= cbound (len lit + (k + 4) + n).
Proof.
  intros. unfold seq_bytes, cbound. pose proof (len_nonneg lit).
  rewrite len_cons, !len_app, !len_ext by lia. change (len (offset_bytes distance)) with 2.
  Z.to_euclidean_division_equations. lia.
Qed.

Lemma restrictions_ok b e n : 0 <= b -> b < n - 12 -> e <= n - 5 -> restrictions n (Some (b, e)).
Proof. unfold restrictions, kLz4LastLiterals, kLz4MatchFindLimit. lia. Qed.

Lemma lz4_compress_loop_spec data : bytes_ok data -> len data < 2 ^ 64 ->
  forall fuel table position anchor encoded lm,
    0 <= anchor <= position -> anchor <= len data -> table_ok table position ->
    restrictions (len data) lm ->
    exists a e lm', compress_loop fuel data table position anchor encoded = (a, encoded ++ e) /\
      0 <= a <= len data /\ restrictions (len data) lm' /\
      stream (takeZ anchor data) lm (e ++ last_bytes (dropZ a data)) data lm' /\
      len (e ++ last_bytes (dropZ a data)) <= cbound (len data - anchor).
Proof.
  intros Hok Hlen. induction fuel as [|fuel IH];
    intros table position anchor encoded lm Ha Hal Ht Hr.
  - exists anchor, [], lm. cbn [compress_loop]. rewrite app_nil_r. split_and!; [done|lia|lia|done|..].
    + rewrite <- (takeZ_dropZ anchor data) at 3. apply stream_last.
    + etrans; [apply len_last_bytes|]. rewrite len_dropZ. by rewrite !Z.max_r by lia.
  - cbn [compress_loop]. unfold kLz4MatchFindLimit, kLz4LastLiterals, kLz4MaxDistance, kLz4MinMatch.
    destruct (Z.ltb_spec position (len data - 12)) as [Hlt|]; cycle 1.
    { exists anchor, [], lm. rewrite app_nil_r. split_and!; [done|lia|lia|done|..].
      + rewrite <- (takeZ_dropZ anchor data) at 3. apply stream_last.
      + etrans; [apply len_last_bytes|]. rewrite len_dropZ. by rewrite !Z.max_r by lia. }
    set (slot := Z.to_nat (lz4_hash _)).
    pose proof (table_ok_nth table position slot ltac:(lia) Ht) as Hc.
    assert (Ht' : forall p', position + 1 <= p' -> table_ok (<[slot := position + 1]> table) p')
      by (intros; apply table_ok_insert; [lia|done|done]).
    destruct (Z.eqb_spec (nth slot table 0) 0); [apply IH; [lia|lia|apply Ht'; lia|done]|].
    set (m := nth slot table 0 - 1) in *. rewrite u64_small by zlia.
    destruct (_ || _) eqn:Echk; [apply IH; [lia|lia|apply Ht'; lia|done]|].
    apply orb_false_iff in Echk as [Hdist Hload]. apply negb_false_iff, Z.eqb_eq in Hload.
    destruct (match_length_spec data (len data - 5) m position (List.length data) 4)
      as (Hl1&Hl2&Hl3); [lia|lia|intros; apply load32_eq; (done || lia)|].
    set (l := match_length_loop _ _ _ _ _ _) in *. clearbody l.
    rewrite emit_sequence_spec by lia.
    destruct (IH (<[slot := position + 1]> table) (position + l) (position + l)
      (encoded ++ seq_bytes (slice anchor (position - anchor) data) (position - m) (l - 4))
      (Some (position, position + l))) as (a&e&lm'&->&Haa&Hres&Hst&Hsz);
      [lia|lia|apply Ht'; lia|apply restrictions_ok; lia|].
    exists a, (seq_bytes (slice anchor (position - anchor) data) (position - m) (l - 4) ++ e), lm'.
    assert (Hll : len (slice anchor (position - anchor) data) = position - anchor)
      by (apply len_slice; lia).
    assert (Hdl : takeZ anchor data ++ slice anchor (position - anchor) data = takeZ position data).
    { rewrite <- (slice_0_takeZ anchor), <- (slice_0_takeZ position).
      rewrite <- (slice_add 0 anchor) by lia. f_equal. lia. }
    split_and!; [by rewrite app_assoc|lia|lia|done|..].
    + rewrite <- app_assoc. apply stream_seq; rewrite ?Hdl; [lia|rewrite len_takeZ; lia|lia|].
      replace (len (takeZ position data)) with position by (rewrite len_takeZ; lia).
      replace (l - 4 + 4) with l by lia. rewrite extend_takeZ; [|lia..|].
      * by rewrite Z2Nat.id by lia.
      * intros i Hi. rewrite <- Hl3 by lia. f_equal. lia.
    + rewrite <- app_assoc, len_app.
      pose proof (len_seq_bytes (slice anchor (position - anchor) data) (position - m) (l - 4)
        (len data - (position + l))) as Hb. rewrite Hll in Hb.
      replace (position - anchor + (l - 4 + 4) + (len data - (position + l)))
        with (len data - anchor) in Hb by lia. lia.
Qed.

Lemma lz4_run_compress_spec data : bytes_ok data -> len data < 2 ^ 64 ->
  exists lm, stream [] None (run_compress data) data lm /\ restrictions (len data) lm /\
    len (run_compress data) <= cbound (len data).
Proof.
  intros Hok Hlen. unfold run_compress. pose proof (len_nonneg data).
  destruct (Z.ltb_spec kLz4MatchFindLimit (len data)).
  - destruct (lz4_compress_loop_spec data Hok Hlen (S (length data))
      (replicate (Z.to_nat (Z.shiftl 1 kLz4HashLog)) 0) 0 0 [] None)
      as (a&e&lm&->&Ha&Hr&Hst&Hsz); [lia|lia|apply Forall_replicate; lia|done|].
    rewrite emit_last_spec by lia. rewrite slice_to_end by lia.
    rewrite takeZ_nonpos in Hst by lia. rewrite Z.sub_0_r in Hsz. eauto.
  - rewrite emit_last_spec, Z.sub_0_r, slice_all by lia. exists None.
    split_and!; [apply (stream_last [] None)|done|apply len_last_bytes].
Qed.

Lemma lz4_stream_ok d lm enc out lm' : stream d lm enc out lm' ->
  bytes_ok out -> bytes_ok d /\ bytes_ok enc.
Proof.
  assert (Hp : forall d dist k, bytes_ok (extend d dist k) -> bytes_ok d).
  { intros d0 dist k. revert d0. induction k as [|k IH]; intros d0 H; [done|].
    apply IH in H. by apply Forall_app in H as [??]. }
  induction 1 as [d lm|d lm lit|d lm lit distance k enc out lm' Hd1 Hd2 Hk H IH]; intros Hok.
  - split; [done|constructor].
  - apply Forall_app in Hok as [? Hl]. split; [done|]. constructor; [apply token_ok; len_lia|].
    apply Forall_app; split; [apply ext_ok|done].
  - apply IH in Hok as [Hd He]. apply Hp, Forall_app in Hd as [Hd Hl]. split; [done|].
    pose proof (len_nonneg lit). apply Forall_app; split; [|done].
    constructor; [by apply token_ok|]. apply Forall_app; split; [apply ext_ok|].
    apply Forall_app; split; [done|]. apply Forall_app; split; [|apply ext_ok].
    pose proof (Z.mod_pos_bound distance 256).
    assert (0 <= distance / 256 < 256)
      by (split; [apply Z.div_pos|apply Z.div_lt_upper_bound]; lia).
    repeat constructor; zlia.
Qed.

Lemma lz4_stream_ok_raw d lm enc out lm' : stream d lm enc out lm' ->
  bytes_ok d -> bytes_ok enc -> bytes_ok out.
Proof.
  induction 1 as [d lm|d lm lit|d lm lit distance k enc out lm' Hd1 Hd2 Hk H IH]; intros Hd Henc.
  - done.
  - apply Forall_app; split; [done|]. inversion_clear Henc as [|? ? _ Hr].
    by apply Forall_app in Hr as [_ ?].
  - apply Forall_app in Henc as [Hs He]. apply IH; [|done]. apply extend_ok.
    inversion_clear Hs as [|? ? _ Hr]. apply Forall_app in Hr as [_ Hr].
    apply Forall_app in Hr as [Hl _]. by apply Forall_app.
Qed.

Lemma run_decompress_stream enc data lm :
  stream [] None enc data lm -> restrictions (len data) lm ->
  len enc < 2 ^ 64 -> len data < 2 ^ 64 -> lm_in lm (len data) ->
  run_decompress enc (len data) = Done (Ok data).
Proof.
  intros Hs Hr He Hd Hin. unfold run_decompress.
  pose proof (lz4_decompress_stream [] None enc data lm Hs (S (length enc)) []) as H.
  cbn [app] in H. change (len (@nil Z)) with 0 in H. cbn [loop_from] in H.
  rewrite H by (done || lia). clear H. pose proof (len_nonneg data).
  unfold tail_of, decode_tail. rewrite Z.eqb_refl. cbn [negb].
  destruct lm as [[b e]|]; cbn [andb]; [|done]. unfold restrictions, lm_in in *.
  unfold kLz4LastLiterals, kLz4MatchFindLimit in *. rewrite !u64_small by zlia.
  by rewrite !(proj2 (Z.ltb_ge _ _)) by lia.
Qed.

Lemma stream_lm_in d lm enc out lm' :
  stream d lm enc out lm' -> lm_in lm (len d) -> lm_in lm' (len out).
Proof.
  induction 1 as [| |d lm lit distance k enc out lm' Hd1 Hd2 Hk H IH]; intros Hin; [done|..].
  - eapply lm_in_mono; [done|]. len_lia.
  - apply IH. rewrite len_extend. unfold lm_in. len_lia.
Qed.

#[export] Instance Lz4_laws : CodecLaws Lz4.codec.
Proof.
  split; unfold compress, decompress, Lz4.codec; cbn [view_data].
  - intros data old old' Hok Hlen. exists (run_compress data). rewrite !with_output_View.
    destruct (lz4_run_compress_spec data Hok ltac:(lia)) as (lm&Hs&Hr&Hb). pose proof (len_nonneg data).
    destruct (lz4_stream_ok _ _ _ _ _ Hs Hok) as [_ Henc].
    assert (cbound (len data) <= len data + len data / 255 + 16) by (unfold cbound; lia).
    assert (len data / 255 <= len data) by (apply Z.div_le_upper_bound; lia).
    split_and!; [done|done| | |].
    + cbn [Codec.max_compressed_size]. unfold Lz4.max_compressed_size.
      rewrite (proj2 (Z.ltb_ge _ _)) by zlia. lia.
    + intros Hne He. rewrite He in Hs. inversion Hs; subst; [done|..];
        match goal with H : _ = [] |- _ => by apply (f_equal len) in H; unfold seq_bytes in H end.
    + by rewrite (run_decompress_stream _ data lm)
        by (done || lia || by eapply stream_lm_in; [eassumption|]).
  - intros stored expected old s out Hok Hlen Hex. rewrite with_output_View.
    destruct (lz4_decompress_sound stored expected Hok ltac:(lia) ltac:(zlia) (S (length stored))
      0 [] None) as (r&Hr&Hall).
    + pose proof (len_nonneg stored). lia.
    + rewrite len_nil. zlia.
    + done.
    + unfold len. lia.
    + unfold run_decompress. cbn [lm_flag lm_begin lm_end] in Hr. rewrite Hr.
      destruct r as [raw|[c m]]; simpl in Hall |- *; intros ? Hok'; simplify_eq.
      destruct Hall as (?&lm'&Hst&_). exists raw. split_and!; [done..|].
      rewrite dropZ_nonpos in Hst by lia. eapply lz4_stream_ok_raw; [done|constructor|done].
Qed.
