(* ===== verification/Storage.v ===== *)
(** * Storage backends

    include/tfdb/storage.hpp and the exact-transfer loops of
    src/storage_posix.cpp. [Storage] is the virtual interface as a type
    class; [StorageModel] states what the ring store relies on. *)

From S2P Require Import Prelude Status Codec.

Record IoResult := mkIoResult { transferred : Z; io_status : Status }.

(** [read_at offset n] returns the bytes put at the front of the [n]-byte
    output buffer. [interrupts] bounds how often the backend will still answer
    "interrupted, nothing transferred": the retry loops run as long as the
    backend keeps saying so. *)
Class Storage (T : Type) := {
  st_size : T -> Z;
  st_writable : T -> bool;
  read_at : Z -> Z -> T -> (bytes * IoResult) * T;
  write_at : Z -> bytes -> T -> IoResult * T;
  flush : T -> Status * T;
  interrupts : T -> nat }.

Section Exact.
Context {T : Type} `{!Storage T}.

(** Unreachable: the loops are given enough iterations. *)
Definition retry_exhausted : Status :=
  Status_Error StatusCode.internal_error "retry bound exhausted".

(** The loops; [None] when the iterations run out. *)
Fixpoint read_loop (fuel : nat) (offset done : Z) (output : bytes) (st : T)
    : option ((Status * bytes) * T) :=
  match fuel with
  | O => None
  | S fuel =>
      if done <? len output then
        let '((data, result), st) := read_at (u64 (offset + done)) (len output - done) st in
        let output := splice done (takeZ (len output - done) data) output in
        if negb (status_ok (io_status result)) then
          if code_eqb (code (io_status result)) StatusCode.interrupted &&
             (transferred result =? 0)
          then read_loop fuel offset done output st
          else Some ((io_status result, output), st)
        else if transferred result =? 0 then
          Some ((Status_Error StatusCode.io_error
                   "read made no progress before requested length", output), st)
        else if len output - done <? transferred result then
          Some ((Status_Error StatusCode.internal_error "backend over-reported read length",
                 output), st)
        else read_loop fuel offset (done + transferred result) output st
      else Some ((Status_Ok, output), st)
  end.

(** [output] is the buffer behind the [MutableByteView]. *)
Definition read_exact (offset : Z) (output : ByteView) (st : T) : (Status * bytes) * T :=
  if negb (view_valid output)
  then ((Status_Error StatusCode.invalid_argument "null non-empty exact-read buffer", []), st)
  else default ((retry_exhausted, view_data output), st)
         (read_loop (S (length (view_data output) + interrupts st)) offset 0
            (view_data output) st).

Fixpoint write_loop (fuel : nat) (offset done : Z) (input : bytes) (st : T)
    : option (Status * T) :=
  match fuel with
  | O => None
  | S fuel =>
      if done <? len input then
        let '(result, st) := write_at (u64 (offset + done)) (dropZ done input) st in
        if negb (status_ok (io_status result)) then
          if code_eqb (code (io_status result)) StatusCode.interrupted &&
             (transferred result =? 0)
          then write_loop fuel offset done input st
          else Some (io_status result, st)
        else if transferred result =? 0 then
          Some (Status_Error StatusCode.io_error "write made no progress", st)
        else if len input - done <? transferred result then
          Some (Status_Error StatusCode.internal_error "backend over-reported write length", st)
        else write_loop fuel offset (done + transferred result) input st
      else Some (Status_Ok, st)
  end.

Definition write_exact (offset : Z) (input : ByteView) (st : T) : Status * T :=
  if negb (view_valid input)
  then (Status_Error StatusCode.invalid_argument "null non-empty exact-write buffer", st)
  else default (retry_exhausted, st)
         (write_loop (S (length (view_data input) + interrupts st)) offset 0
            (view_data input) st).
End Exact.

(** ** What a backend promises

    [contents] is what reads return, [durable] what survives a power cut. *)
Class StorageModel (T : Type) `{!Storage T} := {
  st_wf : T -> Prop;
  contents : T -> bytes;
  durable : T -> bytes;
  st_size_contents t : st_wf t -> st_size t = len (contents t);
  st_size_bound t : st_wf t -> st_size t < 2 ^ 63;
  st_bytes_ok t : st_wf t -> bytes_ok (contents t);
  read_at_spec t off n data r t' :
    st_wf t -> is_u64 off -> 0 < n -> read_at off n t = ((data, r), t') ->
    st_wf t' /\ contents t' = contents t /\ durable t' = durable t /\
    st_writable t' = st_writable t /\ len data = transferred r /\
    (interrupts t' <= interrupts t)%nat /\
    if status_ok (io_status r)
    then transferred r <= n /\ off + n <= len (contents t) /\
         data = slice off (transferred r) (contents t)
    else (code (io_status r) = StatusCode.interrupted -> (interrupts t' < interrupts t)%nat);
  write_at_spec t off d r t' :
    st_wf t -> is_u64 off -> bytes_ok d -> d <> [] -> write_at off d t = (r, t') ->
    st_wf t' /\ durable t' = durable t /\ st_writable t' = st_writable t /\
    (interrupts t' <= interrupts t)%nat /\ 0 <= transferred r <= len d /\
    (off + transferred r <= len (contents t) \/ transferred r = 0) /\
    contents t' = splice off (takeZ (transferred r) d) (contents t) /\
    if status_ok (io_status r) then True
    else transferred r = 0 /\
         (code (io_status r) = StatusCode.interrupted -> (interrupts t' < interrupts t)%nat);
  flush_spec t s t' :
    st_wf t -> flush t = (s, t') ->
    st_wf t' /\ contents t' = contents t /\ st_writable t' = st_writable t /\
    (interrupts t' <= interrupts t)%nat /\
    durable t' = if status_ok s then contents t else durable t }.

Lemma status_ok_Ok s : status_ok s = true <-> code s = StatusCode.ok.
Proof. unfold status_ok, code_eqb. by rewrite bool_decide_eq_true. Qed.

Lemma splice_nil {A} off (l : list A) : 0 <= off -> splice off [] l = l.
Proof. intros. unfold splice. rewrite len_nil, Z.add_0_r. apply takeZ_dropZ. Qed.

Lemma splice_splice {A} off (a b l : list A) :
  0 <= off -> off + len a + len b <= len l ->
  splice (off + len a) b (splice off a l) = splice off (a ++ b) l.
Proof.
  intros. pose proof (len_nonneg a). pose proof (len_nonneg b).
  assert (Ht : len (takeZ off l) = off) by (rewrite len_takeZ; lia).
  unfold splice at 2. rewrite !splice_app_r by lia.
  replace (off + len a - len (takeZ off l) - len a) with 0 by lia.
  unfold splice. rewrite (takeZ_nonpos 0) by lia. rewrite Z.add_0_l, dropZ_dropZ by lia.
  rewrite len_app, <- app_assoc, Z.add_assoc. done.
Qed.

Section ExactFacts.
Context {T : Type} `{!Storage T, !StorageModel T}.

(** What a backend call may change while the contents stay put. *)
Definition same_media (t t' : T) : Prop :=
  st_wf t' /\ contents t' = contents t /\ durable t' = durable t /\
  st_writable t' = st_writable t /\ (interrupts t' <= interrupts t)%nat.

Lemma same_media_trans a b c : same_media a b -> same_media b c -> same_media a c.
Proof. intros (?&?&?&?&?) (?&?&?&?&?). repeat split; try congruence. lia. Qed.

Lemma read_loop_spec off n : forall fuel done t cur,
  st_wf t -> 0 <= off -> off + n < 2 ^ 64 -> 0 <= done <= n ->
  n - done + Z.of_nat (interrupts t) < Z.of_nat fuel ->
  len cur = n -> slice 0 done cur = slice off done (contents t) ->
  exists s buf t', read_loop fuel off done cur t = Some ((s, buf), t') /\
    same_media t t' /\ len buf = n /\
    (status_ok s = true ->
      (done < n -> off + n <= len (contents t)) /\ buf = slice off n (contents t)).
Proof.
  induction fuel as [|fuel IH]; intros done t cur Hwf Hoff Hov Hd Hf Hc Hpre; [lia|].
  cbn [read_loop]. rewrite Hc. destruct (Z.ltb_spec done n) as [Hlt|Hge]; cycle 1.
  { exists Status_Ok, cur, t. split_and!; [done|by repeat split|done|].
    intros _. split; [lia|]. replace done with n in Hpre by lia.
    by rewrite <- Hpre, <- Hc, slice_all. }
  destruct (read_at _ _ t) as [[data r] t1] eqn:Er.
  destruct (read_at_spec t (u64 (off + done)) (n - done) _ _ _ Hwf ltac:(apply u64_range) ltac:(lia) Er)
    as (Hwf1&Hc1&Hdur1&Hw1&Hdl&Hi1&Hr). rewrite u64_small in Hr by zlia.
  set (cur' := splice done (takeZ (n - done) data) cur). pose proof (len_nonneg data).
  assert (Hcl : len cur' = n)
    by (unfold cur'; rewrite len_splice; [lia..|]; rewrite len_takeZ; lia).
  assert (Hpre' : slice 0 done cur' = slice off done (contents t))
    by (unfold cur'; rewrite slice_splice_before by lia; done).
  assert (Hm1 : same_media t t1) by (by repeat split).
  destruct (status_ok (io_status r)) eqn:Eok; cbn [negb].
  - destruct Hr as (Htr&Hinr&Hdata).
    destruct (Z.eqb_spec (transferred r) 0).
    { eexists _, _, _. split_and!; [reflexivity|done|done|]. intros Hx. vm_compute in Hx. done. }
    rewrite Hcl, (proj2 (Z.ltb_ge _ _)) by lia.
    destruct (IH (done + transferred r) t1 cur') as (s&buf&t'&->&Hm&Hl&Hs); try done; try lia.
    + rewrite Hc1, slice_add, Hpre', slice_add by lia. f_equal.
      rewrite Z.add_0_l. unfold cur'. rewrite takeZ_all by lia.
      rewrite <- Hdl, slice_splice_same by lia. rewrite Hdata at 1. by rewrite Hdl.
    + exists s, buf, t'. split_and!; [done|by eapply same_media_trans|done|].
      rewrite Hc1 in Hs. intros Hok. split; [lia|]. by apply Hs.
  - destruct (_ && _) eqn:Eint; cycle 1.
    { eexists _, _, _. split_and!; [reflexivity|done|done|congruence]. }
    apply andb_true_iff in Eint as [Eint _]. apply bool_decide_eq_true in Eint.
    destruct (IH done t1 cur') as (s&buf&t'&->&Hm&Hl&Hs); try done; try lia.
    + specialize (Hr Eint). lia.
    + by rewrite Hc1.
    + exists s, buf, t'. split_and!; [done|by eapply same_media_trans|done|].
      by rewrite Hc1 in Hs.
Qed.

Lemma read_exact_spec off buf t :
  st_wf t -> 0 <= off -> off + len buf < 2 ^ 64 ->
  exists s buf' t', read_exact off (View buf) t = ((s, buf'), t') /\
    same_media t t' /\ len buf' = len buf /\
    (status_ok s = true ->
      (0 < len buf -> off + len buf <= len (contents t)) /\
      buf' = slice off (len buf) (contents t)).
Proof.
  intros Hwf Hoff Hov. unfold read_exact, view_valid. rewrite orb_true_r. cbn [negb view_data].
  destruct (read_loop_spec off (len buf) (S (length buf + interrupts t)) 0 t buf)
    as (s&buf'&t'&->&Hm&Hl&Hs); try done; try (unfold len; lia).
  by exists s, buf', t'.
Qed.

(** [d] was written at [off]. *)
Definition wrote (off : Z) (d : bytes) (t t' : T) : Prop :=
  st_wf t' /\ durable t' = durable t /\ st_writable t' = st_writable t /\
  (interrupts t' <= interrupts t)%nat /\
  (d = [] \/ off + len d <= len (contents t)) /\
  contents t' = splice off d (contents t).

Lemma wrote_nil off t t' : st_wf t' -> 0 <= off -> durable t' = durable t ->
  st_writable t' = st_writable t -> (interrupts t' <= interrupts t)%nat ->
  contents t' = contents t -> wrote off [] t t'.
Proof. intros. repeat split; auto. by rewrite splice_nil. Qed.

Lemma wrote_app off a b t0 t1 t2 :
  0 <= off -> wrote off a t0 t1 -> wrote (off + len a) b t1 t2 -> wrote off (a ++ b) t0 t2.
Proof.
  intros Hoff (?&?&?&?&Ha&Hc1) (?&?&?&?&Hb&Hc2). repeat split; try congruence; [lia|..].
  - destruct Ha as [-> | Ha]; destruct Hb as [-> | Hb]; [by left|right..].
    + rewrite Hc1, splice_nil in Hb by done. rewrite app_nil_l. rewrite len_nil in Hb. lia.
    + by rewrite app_nil_r.
    + rewrite Hc1, len_splice in Hb by lia. len_lia.
  - destruct Ha as [-> | Ha].
    { rewrite Hc2, Hc1, splice_nil, app_nil_l, len_nil, Z.add_0_r by done. done. }
    destruct Hb as [-> | Hb].
    { rewrite Hc2, splice_nil, app_nil_r by len_lia. done. }
    rewrite Hc1, len_splice in Hb by lia.
    rewrite Hc2, Hc1, splice_splice by lia. done.
Qed.

Lemma write_loop_spec off input : bytes_ok input -> 0 <= off -> off + len input < 2 ^ 64 ->
  forall fuel done t, st_wf t -> 0 <= done <= len input ->
  len input - done + Z.of_nat (interrupts t) < Z.of_nat fuel ->
  exists s t' k, write_loop fuel off done input t = Some (s, t') /\
    done <= k <= len input /\ wrote (off + done) (slice done (k - done) input) t t' /\
    (status_ok s = true -> k = len input).
Proof.
  intros Hbo Hoff Hov. induction fuel as [|fuel IH]; intros done t Hwf Hd Hf; [lia|].
  cbn [write_loop]. destruct (Z.ltb_spec done (len input)) as [Hlt|Hge]; cycle 1.
  { exists Status_Ok, t, done. split_and!; [done|lia|lia| |lia].
    rewrite Z.sub_diag. unfold slice. rewrite takeZ_nonpos by lia. apply wrote_nil; (done || lia). }
  destruct (write_at _ _ t) as [r t1] eqn:Er.
  assert (Hdl : len (dropZ done input) = len input - done) by (rewrite len_dropZ; lia).
  destruct (write_at_spec t (u64 (off + done)) (dropZ done input) _ _ Hwf (u64_range _)
    ltac:(by apply Forall_dropZ) ltac:(intros E; rewrite E, len_nil in Hdl; lia) Er)
    as (Hwf1&Hdur1&Hw1&Hi1&Htr&Hin&Hc1&Hr). rewrite u64_small in * by zlia.
  rewrite Hdl in *.
  assert (Hwr : wrote (off + done) (slice done (transferred r) input) t t1).
  { repeat split; try done. destruct Hin as [|Hz]; [right|left].
    - rewrite len_slice by lia. lia.
    - unfold slice. by rewrite takeZ_nonpos by lia. }
  assert (Hstop : forall s, status_ok s = false \/ done + transferred r = len input ->
    exists s' t' k, Some (s, t1) = Some (s', t') /\ done <= k <= len input /\
    wrote (off + done) (slice done (k - done) input) t t' /\
    (status_ok s' = true -> k = len input)).
  { intros s Hs. exists s, t1, (done + transferred r).
    replace (done + transferred r - done) with (transferred r) by lia.
    split_and!; [done|lia|lia|done|]. intros Hok. destruct Hs; [congruence|done]. }
  assert (Hgo : forall fuel', (fuel' = fuel) ->
    (transferred r <> 0 \/ (interrupts t1 < interrupts t)%nat) ->
    exists s' t' k, write_loop fuel' off (done + transferred r) input t1 = Some (s', t') /\
    done <= k <= len input /\ wrote (off + done) (slice done (k - done) input) t t' /\
    (status_ok s' = true -> k = len input)).
  { intros ? -> Hprog. destruct (IH (done + transferred r) t1) as (s&t'&k&->&Hk&Hw&Hok);
      [done|lia|lia|]. exists s, t', k. split_and!; [done|lia|lia| |done].
    replace (k - done) with (transferred r + (k - (done + transferred r))) by lia.
    rewrite slice_add by lia. apply (wrote_app _ _ _ _ t1); [lia|done|].
    rewrite len_slice by lia. by rewrite <- Z.add_assoc. }
  destruct (status_ok (io_status r)) eqn:Eok; cbn [negb].
  - destruct (Z.eqb_spec (transferred r) 0); [by apply Hstop; left|].
    rewrite (proj2 (Z.ltb_ge _ _)) by lia. apply Hgo; auto.
  - destruct Hr as [Hz Hint]. destruct (_ && _) eqn:Eint; [|by apply Hstop; left].
    apply andb_true_iff in Eint as [Eint _]. apply bool_decide_eq_true in Eint.
    specialize (Hgo fuel eq_refl). rewrite Hz, Z.add_0_r in Hgo. apply Hgo. right. auto.
Qed.

(** A successful exact write puts all of the input on the media; a failed
    one puts a prefix of it there. *)
Lemma write_exact_spec off input t :
  st_wf t -> bytes_ok input -> 0 <= off -> off + len input < 2 ^ 64 ->
  exists s t' k, write_exact off (View input) t = (s, t') /\
    0 <= k <= len input /\ wrote off (takeZ k input) t t' /\
    (status_ok s = true -> k = len input).
Proof.
  intros Hwf Hbo Hoff Hov. unfold write_exact, view_valid. rewrite orb_true_r.
  cbn [negb view_data].
  destruct (write_loop_spec off input Hbo Hoff Hov (S (length input + interrupts t)) 0 t)
    as (s&t'&k&->&Hk&Hw&Hok); [done|len_lia|unfold len; lia|].
  exists s, t', k. rewrite Z.add_0_r, Z.sub_0_r, slice_0_takeZ in Hw. done.
Qed.
End ExactFacts.

(** Backends in a state that answers every read inside the image. *)
Class ReliableReads (T : Type) `{!Storage T, !StorageModel T} := {
  rr_ok : T -> Prop;
  rr_read_at t off n data r t' :
    st_wf t -> rr_ok t -> is_u64 off -> 0 < n -> read_at off n t = ((data, r), t') ->
    rr_ok t' /\
    (off + n <= len (contents t) -> status_ok (io_status r) = true /\ 0 < transferred r) }.

Section Reliable.
Context {T : Type} `{!Storage T, !StorageModel T, !ReliableReads T}.

Lemma read_loop_reliable off n : forall fuel done t cur,
  st_wf t -> rr_ok t -> 0 <= off -> off + n <= len (contents t) -> 0 <= done <= n ->
  n - done < Z.of_nat fuel -> len cur = n ->
  exists s buf t', read_loop fuel off done cur t = Some ((s, buf), t') /\
    status_ok s = true /\ rr_ok t'.
Proof.
  induction fuel as [|fuel IH]; intros done t cur Hwf Hrr Hoff Hin Hd Hf Hc; [lia|].
  cbn [read_loop]. rewrite Hc. destruct (Z.ltb_spec done n) as [Hlt|Hge]; [|by eexists _, _, _].
  pose proof (st_size_contents t Hwf). pose proof (st_size_bound t Hwf).
  destruct (read_at _ _ t) as [[data r] t1] eqn:Er. rewrite u64_small in Er by zlia.
  destruct (read_at_spec t (off + done) (n - done) _ _ _ Hwf ltac:(zlia) ltac:(lia) Er)
    as (Hwf1&Hc1&_&_&Hdl&_&Hr).
  destruct (rr_read_at t (off + done) (n - done) _ _ _ Hwf Hrr ltac:(zlia) ltac:(lia) Er)
    as (Hrr1&Hin1). destruct (Hin1 ltac:(lia)) as [Hok Hpos]. rewrite Hok in Hr |- *. cbn [negb]. destruct Hr as (Htr&_&_).
  assert (Hcl : len (splice done (takeZ (n - done) data) cur) = n)
    by (rewrite len_splice; [lia..|]; rewrite len_takeZ; lia).
  rewrite (proj2 (Z.eqb_neq (transferred r) 0)) by lia.
  rewrite Hcl, (proj2 (Z.ltb_ge _ _)) by lia. apply IH; (done || congruence || lia).
Qed.

(** Any read, in range or not, leaves the media alone. *)
Lemma read_loop_same off : forall fuel pos cur t r t',
  st_wf t -> read_loop fuel off pos cur t = Some (r, t') ->
  same_media t t' /\ (rr_ok t -> rr_ok t').
Proof.
  induction fuel as [|fuel IH]; intros pos cur t r t' Hwf H; [done|]. cbn [read_loop] in H.
  destruct (Z.ltb_spec pos (len cur)); [|injection H as _ <-; split; [by repeat split|done]].
  destruct (read_at _ _ t) as [[data x] t1] eqn:Er.
  destruct (read_at_spec t (u64 (off + pos)) (len cur - pos) _ _ _ Hwf (u64_range _) ltac:(lia) Er)
    as (Hwf1&?&?&?&_&?&_).
  assert (Hm : same_media t t1) by (by repeat split).
  assert (Hr : rr_ok t -> rr_ok t1) by (intros; by eapply rr_read_at; [| |apply u64_range| |exact Er];
    try done; lia).
  assert (Hgo : forall d c, read_loop fuel off d c t1 = Some (r, t') ->
    same_media t t' /\ (rr_ok t -> rr_ok t')).
  { intros d c Hc. apply IH in Hc as [? ?]; [|done]. split; [by eapply same_media_trans|auto]. }
  repeat case_match; simplify_eq; by eauto.
Qed.

Lemma read_exact_same off v t r t' :
  st_wf t -> read_exact off v t = (r, t') -> same_media t t' /\ (rr_ok t -> rr_ok t').
Proof.
  intros Hwf H. unfold read_exact in H.
  assert (same_media t t) by (by repeat split).
  case_match; [injection H as <- <-; done|].
  destruct (read_loop _ _ _ _ t) as [[x t1]|] eqn:E; simpl in H; simplify_eq; [|done].
  by eapply read_loop_same.
Qed.

Lemma read_exact_reliable off buf t :
  st_wf t -> rr_ok t -> 0 <= off -> off + len buf <= len (contents t) ->
  exists buf' t' s, read_exact off (View buf) t = ((s, buf'), t') /\
    status_ok s = true /\ rr_ok t'.
Proof.
  intros Hwf Hrr Hoff Hin. unfold read_exact, view_valid. rewrite orb_true_r. cbn [negb view_data].
  destruct (read_loop_reliable off (len buf) (S (length buf + interrupts t)) 0 t buf)
    as (s&buf'&t'&->&?&?); try done; try (unfold len; lia). by exists buf', t', s.
Qed.
End Reliable.
