(* ===== verification/MemoryStorage.v ===== *)
(** * The in-memory backend and the counting decorator

    src/memory_storage.cpp and src/counting_storage.cpp: a volatile and a
    durable image, scripted faults, an event log and crash injection. The
    call counters are 64-bit in the code; they are kept unbounded here, since
    fault rules and crash fragments name calls by number. [t] is the backend
    without a hook; [Hooked] adds the observation hook of [set_hook], a user
    callback that runs between the critical sections of a call and may itself
    call the backend. *)

From S2P Require Import Prelude Status Codec Storage.

Inductive StorageOperation : Set := op_read | op_write | op_flush.
#[export] Instance StorageOperation_eq_dec : EqDecision StorageOperation.
Proof. solve_decision. Defined.

Record StorageCounters := mkStorageCounters {
  read_calls : Z; write_calls : Z; flush_calls : Z; read_bytes : Z; write_bytes : Z }.
#[export] Instance StorageCounters_eta : Eta StorageCounters := fun c =>
  mkStorageCounters (read_calls c) (write_calls c) (flush_calls c) (read_bytes c) (write_bytes c).
Definition StorageCounters_zero : StorageCounters := mkStorageCounters 0 0 0 0 0.

Record FaultRule := mkFaultRule {
  fr_operation : StorageOperation;
  fr_call : Z;
  fr_transfer_before_error : Z;
  fr_result : StatusCode.t }.

Record StorageEvent := mkStorageEvent {
  ev_operation : StorageOperation;
  ev_call : Z;
  ev_offset : Z;
  ev_requested : Z;
  ev_transferred : Z;
  ev_result : StatusCode.t }.

Record WriteFragment := mkWriteFragment {
  wf_write_call : Z; wf_offset_in_write : Z; wf_length : Z }.

Record DirtyWrite := mkDirtyWrite { dw_call : Z; dw_offset : Z; dw_bytes : bytes }.

Module MemoryStorage.
Record t := mk {
  volatile_ : bytes;
  durable_ : bytes;
  writable_ : bool;
  faults_ : list FaultRule;
  dirty_writes_ : list DirtyWrite;
  events_ : list StorageEvent;
  counters_ : StorageCounters }.
#[global] Instance t_eta : Eta t := fun m =>
  mk (volatile_ m) (durable_ m) (writable_ m) (faults_ m) (dirty_writes_ m) (events_ m)
    (counters_ m).

(** The constructor. *)
Definition make (size : Z) (writable : bool) : t :=
  mk (replicate (Z.to_nat size) 0) (replicate (Z.to_nat size) 0) writable [] [] []
    StorageCounters_zero.

Definition size (m : t) : Z := len (volatile_ m).
Definition writable (m : t) : bool := writable_ m.

Definition matching_fault (operation : StorageOperation) (call : Z) (m : t) : option FaultRule :=
  List.find (fun rule => bool_decide (fr_operation rule = operation) && (fr_call rule =? call))
    (faults_ m).

(** What a matching rule makes of a transfer of [n] bytes. *)
Definition faulted_transfer (fault : option FaultRule) (n : Z) (msg : string) : Z * Status :=
  match fault with
  | None => (n, Status_Ok)
  | Some rule =>
      if code_eqb (fr_result rule) StatusCode.ok
      then (Z.min (fr_transfer_before_error rule) n, Status_Ok)
      else (0, Status_Error (fr_result rule) msg)
  end.

Definition log (operation : StorageOperation) (call offset requested : Z) (r : IoResult) (m : t)
    : t :=
  m <| events_ ::= fun l => l ++ [mkStorageEvent operation call offset requested
                                   (transferred r) (code (io_status r))] |>.

(** Each call takes its number in one critical section and works in a
    second one. *)
Definition count_read (m : t) : t := m <| counters_ ::= set read_calls (Z.add 1) |>.
Definition count_write (m : t) : t := m <| counters_ ::= set write_calls (Z.add 1) |>.
Definition count_flush (m : t) : t := m <| counters_ ::= set flush_calls (Z.add 1) |>.

Definition read_locked (call offset n : Z) (m : t) : (bytes * IoResult) * t :=
  if (len (volatile_ m) <? offset) || (u64 (len (volatile_ m) - offset) <? n) then
    let result := mkIoResult 0 (Status_Error StatusCode.out_of_range
                                  "memory read outside image") in
    (([], result), log op_read call offset n result m)
  else
    let fault := matching_fault op_read call m in
    let '(transfer, status) := faulted_transfer fault n "injected read fault" in
    let data := if negb (transfer =? 0) then slice offset transfer (volatile_ m) else [] in
    let m := m <| counters_ ::= set read_bytes (Z.add transfer) |> in
    let result := mkIoResult transfer status in
    ((data, result), log op_read call offset n result m).
Definition null_read : IoResult :=
  mkIoResult 0 (Status_Error StatusCode.invalid_argument "null non-empty memory read buffer").
Definition read_at (offset : Z) (output : ByteView) (m : t) : (bytes * IoResult) * t :=
  if negb (view_valid output) then (([], null_read), m) else
  let m := count_read m in
  read_locked (read_calls (counters_ m)) offset (view_size output) m.

Definition write_locked (call offset : Z) (input : ByteView) (m : t) : IoResult * t :=
  let n := view_size input in
  if negb (writable_ m) then
    let result := mkIoResult 0 (Status_Error StatusCode.io_error
                                  "memory storage is read-only") in
    (result, log op_write call offset n result m)
  else if (len (volatile_ m) <? offset) || (u64 (len (volatile_ m) - offset) <? n) then
    let result := mkIoResult 0 (Status_Error StatusCode.no_space
                                  "memory write outside image") in
    (result, log op_write call offset n result m)
  else
    let fault := matching_fault op_write call m in
    let '(transfer, status) := faulted_transfer fault n "injected write fault" in
    let m :=
      if negb (transfer =? 0) then
        let d := takeZ transfer (view_data input) in
        m <| volatile_ ::= splice offset d |>
          <| dirty_writes_ ::= fun l => l ++ [mkDirtyWrite call offset d] |>
      else m in
    let m := m <| counters_ ::= set write_bytes (Z.add transfer) |> in
    let result := mkIoResult transfer status in
    (result, log op_write call offset n result m).
Definition null_write : IoResult :=
  mkIoResult 0 (Status_Error StatusCode.invalid_argument "null non-empty memory write buffer").
Definition write_at (offset : Z) (input : ByteView) (m : t) : IoResult * t :=
  if negb (view_valid input) then (null_write, m) else
  let m := count_write m in write_locked (write_calls (counters_ m)) offset input m.

Definition flush_locked (call : Z) (m : t) : Status * t :=
  match matching_fault op_flush call m with
  | Some fault =>
      if negb (code_eqb (fr_result fault) StatusCode.ok) then
        let status := Status_Error (fr_result fault) "injected flush fault" in
        (status, log op_flush call 0 0 (mkIoResult 0 status) m)
      else
        (Status_Ok, log op_flush call 0 0 (mkIoResult 0 Status_Ok)
           (m <| durable_ := volatile_ m |> <| dirty_writes_ := [] |>))
  | None =>
      (Status_Ok, log op_flush call 0 0 (mkIoResult 0 Status_Ok)
         (m <| durable_ := volatile_ m |> <| dirty_writes_ := [] |>))
  end.
Definition flush (m : t) : Status * t :=
  let m := count_flush m in flush_locked (flush_calls (counters_ m)) m.

Definition add_fault (rule : FaultRule) (m : t) : t := m <| faults_ ::= fun l => l ++ [rule] |>.
Definition clear_faults (m : t) : t := m <| faults_ := [] |>.

Definition crash_discard_volatile (m : t) : t :=
  m <| volatile_ := durable_ m |> <| dirty_writes_ := [] |>.

Definition apply_write (image : bytes) (w : DirtyWrite) : bytes :=
  splice (dw_offset w) (dw_bytes w) image.
Definition replay (image : bytes) (ws : list DirtyWrite) : bytes := foldl apply_write image ws.

Definition crash_persist_all_dirty (m : t) : t :=
  let durable := replay (durable_ m) (dirty_writes_ m) in
  m <| durable_ := durable |> <| volatile_ := durable |> <| dirty_writes_ := [] |>.

(** The validation pass over the requested fragments, then the copies. *)
Fixpoint select_writes (dirty : list DirtyWrite) (durable_size : Z)
    (fragments : list WriteFragment) : result (list DirtyWrite) :=
  match fragments with
  | [] => Ok []
  | f :: rest =>
      match List.find (fun w => dw_call w =? wf_write_call f) dirty with
      | None => error StatusCode.invalid_argument "invalid dirty write fragment"
      | Some selected =>
          if (len (dw_bytes selected) <? wf_offset_in_write f) ||
             (u64 (len (dw_bytes selected) - wf_offset_in_write f) <? wf_length f)
          then error StatusCode.invalid_argument "invalid dirty write fragment"
          else
            let destination := u64 (dw_offset selected + wf_offset_in_write f) in
            if (durable_size <? destination) || (u64 (durable_size - destination) <? wf_length f)
            then error StatusCode.out_of_range "dirty fragment outside image"
            else
              match select_writes dirty durable_size rest with
              | Ok ws => Ok (selected :: ws)
              | Err s => Err s
              end
      end
  end.

Definition apply_fragment (image : bytes) (x : WriteFragment * DirtyWrite) : bytes :=
  let '(f, w) := x in
  splice (u64 (dw_offset w + wf_offset_in_write f))
    (slice (wf_offset_in_write f) (wf_length f) (dw_bytes w)) image.

Definition crash_materialize (fragments : list WriteFragment) (m : t) : Status * t :=
  match select_writes (dirty_writes_ m) (len (durable_ m)) fragments with
  | Err s => (s, m)
  | Ok selected =>
      let materialized := foldl apply_fragment (durable_ m) (combine fragments selected) in
      (Status_Ok, m <| durable_ := materialized |> <| volatile_ := materialized |>
                    <| dirty_writes_ := [] |>)
  end.

Definition xor_byte (offset xor_mask : Z) (image : bytes) : bytes :=
  <[Z.to_nat offset := Z.lxor (byte_at image offset) xor_mask]> image.
Definition corrupt_durable (offset xor_mask : Z) (m : t) : Status * t :=
  if len (durable_ m) <=? offset
  then (Status_Error StatusCode.out_of_range "durable corruption outside image", m)
  else (Status_Ok, m <| durable_ ::= xor_byte offset xor_mask |>).
Definition corrupt_volatile (offset xor_mask : Z) (m : t) : Status * t :=
  if len (volatile_ m) <=? offset
  then (Status_Error StatusCode.out_of_range "volatile corruption outside image", m)
  else (Status_Ok, m <| volatile_ ::= xor_byte offset xor_mask |>).

Definition counters (m : t) : StorageCounters := counters_ m.
Definition reset_counters (m : t) : t :=
  m <| counters_ := StorageCounters_zero |> <| events_ := [] |> <| dirty_writes_ := [] |>.
Definition events (m : t) : list StorageEvent := events_ m.
Definition durable_image (m : t) : bytes := durable_ m.
Definition volatile_image (m : t) : bytes := volatile_ m.

(** Rules that can still answer "interrupted". *)
Definition pending_interrupt (c : StorageCounters) (rule : FaultRule) : bool :=
  code_eqb (fr_result rule) StatusCode.interrupted &&
  match fr_operation rule with
  | op_read => read_calls c <? fr_call rule
  | op_write => write_calls c <? fr_call rule
  | op_flush => false
  end.
Definition pending_interrupts (m : t) : nat :=
  length (List.filter (pending_interrupt (counters_ m)) (faults_ m)).

#[global] Instance storage : Storage t := {|
  st_size := size;
  st_writable := writable;
  Storage.read_at := fun off n m => read_at off (View (replicate (Z.to_nat n) 0)) m;
  Storage.write_at := fun off d m => write_at off (View d) m;
  Storage.flush := flush;
  interrupts := pending_interrupts |}.
End MemoryStorage.

(** ** The observation hook *)

Inductive HookPoint : Set := before | after.

Module Hooked.
(** What a hook gets, and what it may do: change the backend and a state [U]
    of its own. A hook that installs another one is not a value of the
    model. *)
Definition hook (U : Type) : Type :=
  StorageOperation -> HookPoint -> Z -> Z -> Z -> MemoryStorage.t * U -> MemoryStorage.t * U.
Record t (U : Type) := mk { memory : MemoryStorage.t; hook_ : option (hook U); user : U }.
Arguments mk {U}.
Arguments memory {U}.
Arguments hook_ {U}.
Arguments user {U}.
#[global] Instance t_eta U : Eta (t U) := fun h => mk (memory h) (hook_ h) (user h).

Section Calls.
Context {U : Type}.

Definition set_hook (f : option (hook U)) (h : t U) : t U := h <| hook_ := f |>.

(** [if (hook) hook(...)], with the copy of the hook taken at the start. *)
Definition run_hook (f : option (hook U)) (op : StorageOperation) (point : HookPoint)
    (call offset n : Z) (h : t U) : t U :=
  match f with
  | None => h
  | Some f =>
      let '(m, u) := f op point call offset n (memory h, user h) in mk m (hook_ h) u
  end.

(** The part of a call behind the argument check: number, hook, work, hook. *)
Definition around {A} (op : StorageOperation) (count : MemoryStorage.t -> MemoryStorage.t)
    (calls : StorageCounters -> Z) (offset n : Z)
    (work : Z -> MemoryStorage.t -> A * MemoryStorage.t) (h : t U) : A * t U :=
  let h := h <| memory ::= count |> in
  let call := calls (MemoryStorage.counters_ (memory h)) in
  let f := hook_ h in
  let h := run_hook f op before call offset n h in
  let '(result, m) := work call (memory h) in
  let h := h <| memory := m |> in
  (result, run_hook f op after call offset n h).

Definition read_at (offset : Z) (output : ByteView) (h : t U) : (bytes * IoResult) * t U :=
  if negb (view_valid output) then (([], MemoryStorage.null_read), h) else
  around op_read MemoryStorage.count_read read_calls offset (view_size output)
    (fun call => MemoryStorage.read_locked call offset (view_size output)) h.
Definition write_at (offset : Z) (input : ByteView) (h : t U) : IoResult * t U :=
  if negb (view_valid input) then (MemoryStorage.null_write, h) else
  around op_write MemoryStorage.count_write write_calls offset (view_size input)
    (fun call => MemoryStorage.write_locked call offset input) h.
Definition flush (h : t U) : Status * t U :=
  around op_flush MemoryStorage.count_flush flush_calls 0 0 MemoryStorage.flush_locked h.
End Calls.
End Hooked.

(** ** CountingStorage *)

Module CountingStorage.
Record t (D : Type) := mk { delegate_ : D; counters_ : StorageCounters }.
Arguments mk {D}.
Arguments delegate_ {D}.
Arguments counters_ {D}.
#[global] Instance t_eta D : Eta (t D) := fun c => mk (delegate_ c) (counters_ c).

Section Counting.
Context {D : Type} `{!Storage D}.

Definition read_at (offset n : Z) (c : t D) : (bytes * IoResult) * t D :=
  let '((data, result), d) := Storage.read_at offset n (delegate_ c) in
  ((data, result),
   c <| delegate_ := d |> <| counters_ ::= set read_calls (Z.add 1) |>
     <| counters_ ::= set read_bytes (Z.add (transferred result)) |>).
Definition write_at (offset : Z) (input : bytes) (c : t D) : IoResult * t D :=
  let '(result, d) := Storage.write_at offset input (delegate_ c) in
  (result,
   c <| delegate_ := d |> <| counters_ ::= set write_calls (Z.add 1) |>
     <| counters_ ::= set write_bytes (Z.add (transferred result)) |>).
Definition flush (c : t D) : Status * t D :=
  let '(status, d) := Storage.flush (delegate_ c) in
  (status, c <| delegate_ := d |> <| counters_ ::= set flush_calls (Z.add 1) |>).
Definition counters (c : t D) : StorageCounters := counters_ c.
Definition reset_counters (c : t D) : t D := c <| counters_ := StorageCounters_zero |>.

#[global] Instance storage : Storage (t D) := {|
  st_size := fun c => st_size (delegate_ c);
  st_writable := fun c => st_writable (delegate_ c);
  Storage.read_at := read_at;
  Storage.write_at := write_at;
  Storage.flush := flush;
  interrupts := fun c => interrupts (delegate_ c) |}.
End Counting.
End CountingStorage.
