(* ===== verification/MemoryStorageFacts.v ===== *)
(** * MemoryStorage and CountingStorage meet the storage contract

    Instances of [StorageModel], the crash-injection invariant (replaying the
    dirty writes over the durable image gives the volatile image) and what the
    crash operations leave behind. *)

From S2P Require Import Prelude Status Codec Storage MemoryStorage.

Lemma filter_length_mono {A} (f g : A -> bool) l :
  (forall x, f x = true -> g x = true) ->
  (length (List.filter f l) <= length (List.filter g l))%nat.
Proof.
  intros H. induction l as [|x l IH]; simpl; [lia|].
  destruct (f x) eqn:Ef; [rewrite (H x Ef); simpl; lia|]. destruct (g x); simpl; lia.
Qed.
Lemma filter_length_strict {A} (f g : A -> bool) l x :
  (forall x, f x = true -> g x = true) -> In x l -> g x = true -> f x = false ->
  (length (List.filter f l) < length (List.filter g l))%nat.
Proof.
  intros H. induction l as [|y l IH]; simpl; [done|]. intros [->|Hin] Hg Hf.
  - rewrite Hg, Hf. pose proof (filter_length_mono f g l H). simpl. lia.
  - specialize (IH Hin Hg Hf). destruct (f y) eqn:Ef; [rewrite (H y Ef); simpl; lia|].
    destruct (g y); simpl; lia.
Qed.

Module MemoryFacts.
Import MemoryStorage.

Record mem_wf (m : t) : Prop := {
  wf_len : len (durable_ m) = len (volatile_ m);
  wf_size : len (volatile_ m) < 2 ^ 63;
  wf_volatile : bytes_ok (volatile_ m);
  wf_durable : bytes_ok (durable_ m);
  wf_faults : Forall (fun r => 0 <= fr_transfer_before_error r) (faults_ m) }.

Lemma matching_fault_Some op call m rule :
  matching_fault op call m = Some rule ->
  In rule (faults_ m) /\ fr_operation rule = op /\ fr_call rule = call.
Proof.
  unfold matching_fault. intros H. apply find_some in H as [Hin H].
  apply andb_true_iff in H as [H1 H2]. apply bool_decide_eq_true in H1. split_and!; [done|done|lia].
Qed.

Lemma faulted_transfer_spec m op call n msg tr s :
  mem_wf m -> 0 <= n -> faulted_transfer (matching_fault op call m) n msg = (tr, s) ->
  0 <= tr <= n /\
  if status_ok s then True
  else tr = 0 /\ exists rule, In rule (faults_ m) /\ fr_operation rule = op /\
                   fr_call rule = call /\ fr_result rule = code s.
Proof.
  intros Hwf Hn H. unfold faulted_transfer in H.
  destruct (matching_fault op call m) as [rule|] eqn:E; [|by injection H as <- <-; simpl; lia].
  apply matching_fault_Some in E as (Hin&Hop&Hcall).
  pose proof (wf_faults m Hwf) as Hf. rewrite Forall_forall in Hf.
  specialize (Hf rule ltac:(by apply list_elem_of_In)).
  destruct (code_eqb (fr_result rule) StatusCode.ok) eqn:Ec; injection H as <- <-.
  - simpl. lia.
  - split; [lia|]. unfold status_ok. cbn [code Status_Error]. rewrite Ec. eauto 10.
Qed.

(** Advancing a call counter retires the rules it passes. *)
Lemma interrupts_advance m m' :
  faults_ m' = faults_ m ->
  read_calls (counters_ m) <= read_calls (counters_ m') ->
  write_calls (counters_ m) <= write_calls (counters_ m') ->
  (pending_interrupts m' <= pending_interrupts m)%nat /\
  forall rule, In rule (faults_ m) -> fr_result rule = StatusCode.interrupted ->
    match fr_operation rule with
    | op_read => read_calls (counters_ m) < fr_call rule <= read_calls (counters_ m')
    | op_write => write_calls (counters_ m) < fr_call rule <= write_calls (counters_ m')
    | op_flush => False
    end -> (pending_interrupts m' < pending_interrupts m)%nat.
Proof.
  intros Hf Hr Hw. unfold pending_interrupts. rewrite Hf.
  assert (Hmono : forall x, pending_interrupt (counters_ m') x = true ->
    pending_interrupt (counters_ m) x = true).
  { intros x. unfold pending_interrupt. rewrite !andb_true_iff. intros [? ?].
    split; [done|]. destruct (fr_operation x); [lia|lia|done]. }
  split; [by apply filter_length_mono|]. intros rule Hin Hres Hcall.
  apply (filter_length_strict _ _ _ rule); [done|done|..]; unfold pending_interrupt;
    rewrite Hres; cbn [andb code_eqb]; destruct (fr_operation rule); try done; simpl; lia.
Qed.

Lemma in_range (volume off n : Z) :
  0 <= volume < 2 ^ 63 -> 0 <= off -> 0 < n ->
  (volume <? off) || (u64 (volume - off) <? n) = false -> off + n <= volume.
Proof.
  intros Hv Ho Hn H. apply orb_false_iff in H as [H1 H2].
  rewrite u64_small in H2 by zlia. lia.
Qed.

Lemma memory_read_spec m off n data r m' :
  mem_wf m -> is_u64 off -> 0 < n ->
  read_at off (View (replicate (Z.to_nat n) 0)) m = ((data, r), m') ->
  mem_wf m' /\ volatile_ m' = volatile_ m /\ durable_ m' = durable_ m /\
  writable_ m' = writable_ m /\ dirty_writes_ m' = dirty_writes_ m /\
  write_calls (counters_ m') = write_calls (counters_ m) /\
  len data = transferred r /\ (pending_interrupts m' <= pending_interrupts m)%nat /\
  if status_ok (io_status r)
  then transferred r <= n /\ off + n <= len (volatile_ m) /\
       data = slice off (transferred r) (volatile_ m)
  else (code (io_status r) = StatusCode.interrupted ->
        (pending_interrupts m' < pending_interrupts m)%nat).
Proof.
  intros Hwf Hoff Hn. unfold read_at, read_locked, count_read. unfold view_valid. rewrite orb_true_r. cbn [negb].
  cbn [view_size]. rewrite len_replicate, Z2Nat.id by lia.
  set (m1 := m <| counters_ ::= _ |>). cbn zeta.
  change (volatile_ m1) with (volatile_ m).
  assert (Hwf1 : mem_wf m1) by (by destruct Hwf; split).
  destruct (_ || _) eqn:Erange.
  { intros [= <- <- <-]. split_and!; try done; [by destruct Hwf; split|].
    apply (interrupts_advance m); simpl; (done || lia). }
  apply in_range in Erange; [|split; [apply len_nonneg|apply wf_size; done]|zlia|done].
  destruct (faulted_transfer _ _ _) as [tr s] eqn:Ef.
  apply faulted_transfer_spec in Ef as [Htr Hs]; [|done|lia].
  intros [= <- <- <-]. cbn [transferred io_status].
  assert (Hdata : (if negb (tr =? 0) then slice off tr (volatile_ m) else []) =
    slice off tr (volatile_ m)).
  { destruct (Z.eqb_spec tr 0) as [->|]; [|done]. unfold slice. by rewrite takeZ_nonpos by lia. }
  change (volatile_ m1) with (volatile_ m).
  rewrite Hdata. split_and!; try done.
  - by destruct Hwf; split.
  - apply len_slice; zlia.
  - apply (interrupts_advance m); simpl; (done || lia).
  - destruct (status_ok s); [split_and!; [lia|lia|done]|].
    intros Hc. destruct Hs as (_&rule&Hin&Hop&Hcall&Hres).
    eapply (interrupts_advance m); [done|simpl; lia|simpl; lia|exact Hin|congruence|].
    rewrite Hop, Hcall. simpl. lia.
Qed.

Lemma memory_write_spec m off d r m' :
  mem_wf m -> is_u64 off -> bytes_ok d -> d <> [] -> write_at off (View d) m = (r, m') ->
  mem_wf m' /\ durable_ m' = durable_ m /\ writable_ m' = writable_ m /\
  (pending_interrupts m' <= pending_interrupts m)%nat /\ 0 <= transferred r <= len d /\
  (off + len d <= len (volatile_ m) \/ transferred r = 0) /\
  volatile_ m' = splice off (takeZ (transferred r) d) (volatile_ m) /\
  dirty_writes_ m' = dirty_writes_ m ++
    (if transferred r =? 0 then []
     else [mkDirtyWrite (1 + write_calls (counters_ m)) off (takeZ (transferred r) d)]) /\
  write_calls (counters_ m') = 1 + write_calls (counters_ m) /\
  if status_ok (io_status r) then off + len d <= len (volatile_ m)
  else transferred r = 0 /\
       (code (io_status r) = StatusCode.interrupted ->
        (pending_interrupts m' < pending_interrupts m)%nat).
Proof.
  intros Hwf Hoff Hd Hne. unfold write_at, write_locked, count_write, view_valid. rewrite orb_true_r.
  cbn [negb view_size view_data]. set (m1 := m <| counters_ ::= _ |>). cbn zeta.
  change (volatile_ m1) with (volatile_ m). change (writable_ m1) with (writable_ m).
  assert (Hwf1 : mem_wf m1) by (by destruct Hwf; split).
  assert (Hpos : 0 < len d) by (destruct d; [done|len_lia]).
  assert (Hadv : forall m2, faults_ m2 = faults_ m -> counters_ m2 = counters_ m1 ->
    (pending_interrupts m2 <= pending_interrupts m)%nat).
  { intros m2 Hf Hc. apply (interrupts_advance m); [done|rewrite Hc; simpl; lia..]. }
  assert (Hfail : forall s m2, m2 = log op_write (write_calls (counters_ m1)) off (len d)
      (mkIoResult 0 s) m1 -> code s <> StatusCode.ok -> code s <> StatusCode.interrupted ->
    (mkIoResult 0 s, m2) = (r, m') -> mem_wf m' /\ durable_ m' = durable_ m /\
    writable_ m' = writable_ m /\ (pending_interrupts m' <= pending_interrupts m)%nat /\
    0 <= transferred r <= len d /\ (off + len d <= len (volatile_ m) \/ transferred r = 0) /\
    volatile_ m' = splice off (takeZ (transferred r) d) (volatile_ m) /\
    dirty_writes_ m' = dirty_writes_ m ++
      (if transferred r =? 0 then []
       else [mkDirtyWrite (1 + write_calls (counters_ m)) off (takeZ (transferred r) d)]) /\
    write_calls (counters_ m') = 1 + write_calls (counters_ m) /\
    if status_ok (io_status r) then off + len d <= len (volatile_ m)
    else transferred r = 0 /\ (code (io_status r) = StatusCode.interrupted ->
        (pending_interrupts m' < pending_interrupts m)%nat)).
  { intros s m2 -> Hok Hint [= <- <-]. cbn [transferred io_status].
    rewrite (takeZ_nonpos 0), splice_nil, app_nil_r by zlia.
    split_and!; try done; try lia; [by destruct Hwf; split|apply Hadv; done|].
    destruct (status_ok s) eqn:E; [by apply status_ok_Ok in E|]. split; [done|]. intros ?. done. }
  destruct (negb (writable_ m)) eqn:Ew; [by apply Hfail|].
  destruct (_ || _) eqn:Erange; [by apply Hfail|]. clear Hfail.
  apply in_range in Erange; [|split; [apply len_nonneg|apply wf_size; done]|zlia|done].
  destruct (faulted_transfer _ _ _) as [tr s] eqn:Ef.
  apply faulted_transfer_spec in Ef as [Htr Hs]; [|done|lia].
  intros [= <- <-]. cbn [transferred io_status].
  assert (Hpend : match status_ok s with true => True | false =>
    code s = StatusCode.interrupted -> forall m2, faults_ m2 = faults_ m ->
    read_calls (counters_ m2) = read_calls (counters_ m1) ->
    write_calls (counters_ m2) = write_calls (counters_ m1) ->
    (pending_interrupts m2 < pending_interrupts m)%nat end).
  { destruct (status_ok s); [done|]. intros Hc m2 Hf Hrc Hwc.
    destruct Hs as (_&rule&Hin&Hop&Hcall&Hres).
    eapply (interrupts_advance m); [done|rewrite ?Hrc, ?Hwc; simpl; lia..|exact Hin|congruence|].
    rewrite Hop, Hcall, Hwc. simpl. lia. }
  destruct (Z.eqb_spec tr 0) as [->|Hne0]; cbn [negb].
  - rewrite (takeZ_nonpos 0), splice_nil, app_nil_r by zlia.
    split_and!; try done; try lia; [by destruct Hwf; split| |].
    + apply (interrupts_advance m); simpl; (done || lia).
    + destruct (status_ok s); [lia|]. split; [done|]. intros Hc. by apply Hpend.
  - split_and!; try done; try lia.
    + destruct Hwf. split; simpl; try done.
      * rewrite len_splice; [done|zlia|]. rewrite len_takeZ. lia.
      * rewrite len_splice; [done|zlia|]. rewrite len_takeZ. lia.
      * apply Forall_splice; [by apply Forall_takeZ|done].
    + apply (interrupts_advance m); simpl; (done || lia).
    + destruct (status_ok s); [lia|]. destruct Hs. lia.
Qed.

Lemma memory_flush_spec m s m' :
  mem_wf m -> flush m = (s, m') ->
  mem_wf m' /\ volatile_ m' = volatile_ m /\ writable_ m' = writable_ m /\
  (pending_interrupts m' <= pending_interrupts m)%nat /\
  durable_ m' = (if status_ok s then volatile_ m else durable_ m) /\
  dirty_writes_ m' = (if status_ok s then [] else dirty_writes_ m) /\
  write_calls (counters_ m') = write_calls (counters_ m).
Proof.
  intros Hwf. unfold flush, flush_locked, count_flush. set (m1 := m <| counters_ ::= _ |>). cbn zeta.
  assert (Hok : forall m2, m2 = log op_flush (flush_calls (counters_ m1)) 0 0
      (mkIoResult 0 Status_Ok) (m1 <| durable_ := volatile_ m1 |> <| dirty_writes_ := [] |>) ->
    (Status_Ok, m2) = (s, m') -> mem_wf m' /\ volatile_ m' = volatile_ m /\
    writable_ m' = writable_ m /\ (pending_interrupts m' <= pending_interrupts m)%nat /\
    durable_ m' = (if status_ok s then volatile_ m else durable_ m) /\
    dirty_writes_ m' = (if status_ok s then [] else dirty_writes_ m) /\
    write_calls (counters_ m') = write_calls (counters_ m)).
  { intros m2 -> [= <- <-]. split_and!; try done.
    destruct Hwf. split; simpl; (done || congruence). }
  destruct (matching_fault _ _ _) as [rule|]; [|by apply Hok].
  destruct (code_eqb (fr_result rule) StatusCode.ok) eqn:E; cbn [negb]; [by apply Hok|].
  intros [= <- <-]. unfold status_ok. cbn [code Status_Error]. rewrite E.
  split_and!; try done. by destruct Hwf; split.
Qed.

#[global] Program Instance model : StorageModel t := {|
  st_wf := mem_wf; contents := volatile_; durable := durable_ |}.
Next Obligation. done. Qed.
Next Obligation. intros m Hwf. apply (wf_size m Hwf). Qed.
Next Obligation. intros m Hwf. apply (wf_volatile m Hwf). Qed.
Next Obligation.
  intros m off n data r m' Hwf Hoff Hn H.
  destruct (memory_read_spec m off n data r m' Hwf Hoff Hn H) as (?&?&?&?&_&_&?&?&?).
  by split_and!.
Qed.
Next Obligation.
  intros m off d r m' Hwf Hoff Hd Hne H.
  destruct (memory_write_spec m off d r m' Hwf Hoff Hd Hne H) as (?&?&?&?&?&?&?&_&_&?).
  split_and!; (done || lia || by destruct (status_ok _)).
Qed.
Next Obligation.
  intros m s m' Hwf H. destruct (memory_flush_spec m s m' Hwf H) as (?&?&?&?&?&_).
  by split_and!.
Qed.

(** With no fault scripted every read inside the image succeeds. *)
#[global] Program Instance reliable : ReliableReads t := {| rr_ok := fun m => faults_ m = [] |}.
Next Obligation.
  intros m off n data r m' Hwf Hf Hoff Hn H. simpl in *. split.
  { unfold read_at, read_locked, count_read in H. repeat case_match; by simplify_eq. }
  intros Hin. unfold read_at, read_locked, count_read in H. unfold view_valid in H. rewrite orb_true_r in H. cbn [negb view_size] in H.
  rewrite len_replicate, Z2Nat.id in H by lia. cbn zeta in H.
  change (volatile_ (m <| counters_ ::= set read_calls (Z.add 1) |>)) with (volatile_ m) in H.
  pose proof (wf_size m Hwf). rewrite (proj2 (Z.ltb_ge _ _)) in H by lia.
  rewrite u64_small in H by zlia. rewrite (proj2 (Z.ltb_ge _ _)) in H by lia. cbn [orb] in H.
  unfold matching_fault in H. simpl in H. rewrite Hf in H. simpl in H. injection H as <- <- <-.
  by split_and!.
Qed.

(** ** Crash injection *)

(** The media operations, in any order, on any inputs. *)
Inductive mem_step : t -> t -> Prop :=
| step_read m off n r m' : is_u64 off -> 0 < n ->
    read_at off (View (replicate (Z.to_nat n) 0)) m = (r, m') -> mem_step m m'
| step_write m off d r m' : is_u64 off -> bytes_ok d -> d <> [] ->
    write_at off (View d) m = (r, m') -> mem_step m m'
| step_flush m s m' : flush m = (s, m') -> mem_step m m'
| step_fault m rule : 0 <= fr_transfer_before_error rule -> mem_step m (add_fault rule m)
| step_clear m : mem_step m (clear_faults m)
| step_discard m : mem_step m (crash_discard_volatile m)
| step_persist m : mem_step m (crash_persist_all_dirty m)
| step_materialize m fs s m' : Forall (fun f => 0 <= wf_offset_in_write f /\ 0 <= wf_length f) fs ->
    crash_materialize fs m = (s, m') -> mem_step m m'.

Definition dirty_in (size : Z) (w : DirtyWrite) : Prop :=
  0 <= dw_offset w /\ dw_offset w + len (dw_bytes w) <= size /\ bytes_ok (dw_bytes w).

(** Dirty writes fit the image, carry distinct call numbers of the past, and
    replaying them over the durable image gives the volatile image. *)
Record crash_inv (m : t) : Prop := {
  ci_wf : mem_wf m;
  ci_dirty : Forall (dirty_in (len (durable_ m))) (dirty_writes_ m);
  ci_calls : NoDup (map dw_call (dirty_writes_ m));
  ci_past : Forall (fun w => dw_call w <= write_calls (counters_ m)) (dirty_writes_ m);
  ci_replay : replay (durable_ m) (dirty_writes_ m) = volatile_ m }.

Lemma replay_app image a b : replay image (a ++ b) = replay (replay image a) b.
Proof. apply foldl_app. Qed.

Lemma replay_wf image ws : Forall (dirty_in (len image)) ws -> bytes_ok image ->
  len (replay image ws) = len image /\ bytes_ok (replay image ws).
Proof.
  intros Hws. revert image Hws. induction ws as [|w ws IH]; intros image Hws Hok; [done|].
  inversion_clear Hws as [|? ? (?&?&?) Hws']. cbn [replay foldl apply_write].
  assert (Hl : len (splice (dw_offset w) (dw_bytes w) image) = len image)
    by (by apply len_splice). unfold replay in IH. unfold apply_write at 2 4.
  destruct (IH (splice (dw_offset w) (dw_bytes w) image)) as [Hl2 Hok2].
  - by rewrite Hl.
  - by apply Forall_splice.
  - by rewrite Hl2.
Qed.

Lemma replay_same m : crash_inv m -> crash_persist_all_dirty m =
  m <| durable_ := volatile_ m |> <| dirty_writes_ := [] |>.
Proof.
  intros H. unfold crash_persist_all_dirty. rewrite (ci_replay m H). by destruct m.
Qed.

(** A validated fragment list stays inside the image. *)
Lemma select_writes_spec dirty size fs ws :
  0 <= size < 2 ^ 63 -> Forall (dirty_in size) dirty ->
  Forall (fun f => 0 <= wf_offset_in_write f /\ 0 <= wf_length f) fs ->
  select_writes dirty size fs = Ok ws ->
  forall image, len image = size -> bytes_ok image ->
  len (foldl apply_fragment image (combine fs ws)) = size /\
  bytes_ok (foldl apply_fragment image (combine fs ws)).
Proof.
  intros Hsz Hd. revert ws. induction fs as [|f fs IH]; intros ws Hfs Hsel image Hl Hok;
    cbn [select_writes] in Hsel; [by simplify_eq|].
  inversion_clear Hfs as [|? ? [Hf1 Hf2] Hfs'].
  destruct (List.find _ dirty) as [w|] eqn:Ef; [|done].
  apply find_some in Ef as [Hin _]. rewrite Forall_forall in Hd.
  destruct (Hd w ltac:(by apply list_elem_of_In)) as (Ho&Hb&Hwok).
  pose proof (len_nonneg (dw_bytes w)).
  destruct (_ || _) eqn:E1; [done|]. apply orb_false_iff in E1 as [E1 E1'].
  rewrite u64_small in E1' by zlia.
  destruct (_ || _) eqn:E2; [done|]. apply orb_false_iff in E2 as [E2 E2'].
  rewrite (u64_small (dw_offset w + _)) in * by zlia. rewrite u64_small in E2' by zlia.
  destruct (select_writes dirty size fs) as [ws'|] eqn:Es; [|done]. simplify_eq.
  cbn [combine foldl]. apply IH; [done|done|..].
  - cbn [apply_fragment]. rewrite u64_small by zlia.
    rewrite len_splice; [done|lia|]. rewrite len_slice by lia. lia.
  - cbn [apply_fragment]. apply Forall_splice; [by apply Forall_slice|done].
Qed.

Lemma crash_reset_inv m (img : bytes) :
  mem_wf m -> len img = len (volatile_ m) -> bytes_ok img ->
  crash_inv (m <| durable_ := img |> <| volatile_ := img |> <| dirty_writes_ := [] |>).
Proof.
  intros [] Hl Hok. split; simpl; try constructor; simpl; (done || lia).
Qed.

Lemma durable_size m : mem_wf m -> 0 <= len (durable_ m) < 2 ^ 63.
Proof.
  intros Hwf. rewrite (wf_len m Hwf). split; [apply len_nonneg|apply (wf_size m Hwf)].
Qed.

(** The dirty part of the invariant only depends on these fields. *)
Lemma crash_inv_ext m m' :
  crash_inv m -> mem_wf m' -> volatile_ m' = volatile_ m -> durable_ m' = durable_ m ->
  dirty_writes_ m' = dirty_writes_ m ->
  write_calls (counters_ m') = write_calls (counters_ m) -> crash_inv m'.
Proof. intros [] Hwf Hv Hd Hdw Hc. split; rewrite ?Hdw, ?Hd, ?Hv, ?Hc; done. Qed.

Lemma crash_inv_write m off d r m' :
  crash_inv m -> is_u64 off -> bytes_ok d -> d <> [] -> write_at off (View d) m = (r, m') ->
  crash_inv m'.
Proof.
  intros Hi Hoff Hd Hne H. pose proof (ci_wf m Hi) as Hwf.
  destruct (memory_write_spec m off d r m' Hwf Hoff Hd Hne H)
    as (Hwf'&Hdur&_&_&Htr&Hin&Hv&Hdw&Hc&_).
  destruct Hi as [_ Hdi Hca Hpa Hre]. destruct (Z.eqb_spec (transferred r) 0) as [Hz|Hz].
  - rewrite app_nil_r in Hdw. split; rewrite ?Hdw, ?Hdur, ?Hv, ?Hc; try done.
    + eapply Forall_impl; [done|]. simpl. lia.
    + rewrite Hz, takeZ_nonpos, splice_nil by zlia. done.
  - destruct Hin as [Hin|]; [|done].
    split; rewrite ?Hdw, ?Hdur, ?Hv, ?Hc; try done.
    + apply Forall_app; split; [done|]. apply Forall_singleton. unfold dirty_in.
      cbn [dw_offset dw_bytes]. rewrite (wf_len m Hwf), len_takeZ.
      split_and!; [zlia|lia|by apply Forall_takeZ].
    + rewrite map_app. apply NoDup_app; split_and!; [done| |apply NoDup_singleton].
      intros c Hc'. apply list_elem_of_In, in_map_iff in Hc' as (w&<-&Hw).
      rewrite Forall_forall in Hpa. specialize (Hpa w ltac:(by apply list_elem_of_In)).
      intros Hx. apply list_elem_of_singleton in Hx. simpl in Hx. lia.
    + apply Forall_app; split; [|apply Forall_singleton; simpl; lia].
      eapply Forall_impl; [done|]. simpl. lia.
    + rewrite replay_app, Hre. done.
Qed.

Lemma crash_materialize_inv m fs s m' :
  crash_inv m -> Forall (fun f => 0 <= wf_offset_in_write f /\ 0 <= wf_length f) fs ->
  crash_materialize fs m = (s, m') -> crash_inv m'.
Proof.
  intros Hi Hfs. pose proof (ci_wf m Hi) as Hwf. unfold crash_materialize.
  destruct (select_writes _ _ _) as [ws|] eqn:E; intros [= <- <-]; [|done].
  destruct (select_writes_spec _ _ _ _ (durable_size m Hwf) (ci_dirty m Hi) Hfs E (durable_ m)
    eq_refl (wf_durable m Hwf)) as [Hl Hok].
  apply (crash_reset_inv m _ Hwf); [|exact Hok]. rewrite <- (wf_len m Hwf). exact Hl.
Qed.

Lemma mem_step_inv m m' : crash_inv m -> mem_step m m' -> crash_inv m'.
Proof.
  intros Hi Hs. pose proof (ci_wf m Hi) as Hwf.
  destruct Hs as [m off n [data r] m' Hoff Hn H|m off d r m' Hoff Hd Hne H|m s m' H|m rule Hr
    |m|m|m|m fs s m' Hfs H].
  - destruct (memory_read_spec m off n data r m' Hwf Hoff Hn H) as (?&?&?&_&?&?&_).
    by apply (crash_inv_ext m).
  - by apply (crash_inv_write m off d r).
  - destruct (memory_flush_spec m s m' Hwf H) as (Hwf'&Hv&_&_&Hd&Hdw&Hc).
    destruct (status_ok s); [|by apply (crash_inv_ext m)].
    split; rewrite ?Hdw; [done|constructor..|]. by rewrite Hd, Hv.
  - apply (crash_inv_ext m); try done. destruct Hwf. split; simpl; try done.
    apply Forall_app; split; [done|]. by apply Forall_singleton.
  - apply (crash_inv_ext m); try done. destruct Hwf. split; simpl; done.
  - apply (crash_reset_inv m (durable_ m)); [done|apply (wf_len m Hwf)|apply (wf_durable m Hwf)].
  - destruct (replay_wf (durable_ m) (dirty_writes_ m) (ci_dirty m Hi) (wf_durable m Hwf)).
    apply crash_reset_inv; [done| |done]. rewrite <- (wf_len m Hwf). done.
  - by apply (crash_materialize_inv m fs s).
Qed.

Lemma make_inv size writable : 0 <= size < 2 ^ 63 -> crash_inv (make size writable).
Proof.
  intros Hs. split; simpl; try constructor; simpl; try done.
  - rewrite len_replicate. lia.
  - apply Forall_replicate. zlia.
  - apply Forall_replicate. zlia.
Qed.

Lemma mem_steps_inv size writable m :
  0 <= size < 2 ^ 63 -> rtc mem_step (make size writable) m -> crash_inv m.
Proof.
  intros Hs Hr. pose proof (make_inv size writable Hs) as Hi. revert Hi.
  induction Hr as [|a b c Hab Hbc IH]; [done|]. intros Hi. apply IH. by apply (mem_step_inv a).
Qed.

(** Materialising every dirty write whole and in order is the same crash as
    persisting everything. *)
Definition whole (w : DirtyWrite) : WriteFragment :=
  mkWriteFragment (dw_call w) 0 (len (dw_bytes w)).

Lemma find_whole dirty w : NoDup (map dw_call dirty) -> In w dirty ->
  List.find (fun x => dw_call x =? dw_call w) dirty = Some w.
Proof.
  induction dirty as [|x l IH]; simpl; [done|]. intros Hnd [->|Hin].
  - by rewrite Z.eqb_refl.
  - apply NoDup_cons in Hnd as [Hx Hnd].
    destruct (Z.eqb_spec (dw_call x) (dw_call w)) as [He|]; [|by apply IH].
    exfalso. apply Hx. rewrite He. apply list_elem_of_In. by apply in_map.
Qed.

Lemma select_whole dirty size ws :
  0 <= size < 2 ^ 63 -> NoDup (map dw_call dirty) -> Forall (dirty_in size) dirty ->
  incl ws dirty -> select_writes dirty size (map whole ws) = Ok ws.
Proof.
  intros Hs Hnd Hd. induction ws as [|w ws IH]; intros Hin; [done|]. cbn [map select_writes].
  cbn [wf_write_call wf_offset_in_write wf_length whole].
  rewrite (find_whole dirty w Hnd) by (apply Hin; by left).
  rewrite Forall_forall in Hd.
  destruct (Hd w ltac:(apply list_elem_of_In, Hin; by left)) as (?&?&?).
  pose proof (len_nonneg (dw_bytes w)). rewrite Z.add_0_r.
  rewrite !u64_small by (rewrite ?u64_small; zlia).
  rewrite !(proj2 (Z.ltb_ge _ _)) by lia. cbn [orb].
  rewrite IH; [done|]. intros x Hx. apply Hin. by right.
Qed.

Lemma apply_whole size image ws :
  0 <= size < 2 ^ 63 -> Forall (dirty_in size) ws ->
  foldl apply_fragment image (combine (map whole ws) ws) = replay image ws.
Proof.
  intros Hs Hws. revert image. induction Hws as [|w ws (?&?&?) Hws IH]; intros image; [done|].
  cbn [map combine foldl replay]. unfold replay in IH. rewrite <- IH. f_equal.
  cbn [apply_fragment whole wf_offset_in_write wf_length]. unfold apply_write.
  pose proof (len_nonneg (dw_bytes w)). by rewrite Z.add_0_r, u64_small, slice_all by zlia.
Qed.

Lemma materialize_whole m : crash_inv m ->
  crash_materialize (map whole (dirty_writes_ m)) m = (Status_Ok, crash_persist_all_dirty m).
Proof.
  intros Hi. pose proof (ci_wf m Hi) as Hwf. unfold crash_materialize.
  pose proof (durable_size m Hwf).
  rewrite select_whole; [|done|apply (ci_calls m Hi)|apply (ci_dirty m Hi)|apply incl_refl].
  rewrite (apply_whole (len (durable_ m))); [done|done|apply (ci_dirty m Hi)].
Qed.
End MemoryFacts.

Module CountingFacts.
Import CountingStorage.
Section Counting.
Context {D : Type} `{!Storage D, !StorageModel D}.

(** The decorator is transparent. *)
#[global] Program Instance model : StorageModel (t D) := {|
  st_wf := fun c => st_wf (delegate_ c);
  contents := fun c => contents (delegate_ c);
  durable := fun c => durable (delegate_ c) |}.
Next Obligation. intros c. apply (st_size_contents (delegate_ c)). Qed.
Next Obligation. intros c. apply (st_size_bound (delegate_ c)). Qed.
Next Obligation. intros c. apply (st_bytes_ok (delegate_ c)). Qed.
Next Obligation.
  intros c off n data r c' Hwf Hoff Hn H. simpl in H. unfold CountingStorage.read_at in H.
  destruct (Storage.read_at off n (delegate_ c)) as [[data0 r0] d] eqn:E.
  injection H as <- <- <-. apply (read_at_spec _ _ _ _ _ _ Hwf Hoff Hn E).
Qed.
Next Obligation.
  intros c off x r c' Hwf Hoff Hx Hne H. simpl in H. unfold CountingStorage.write_at in H.
  destruct (Storage.write_at off x (delegate_ c)) as [r0 d] eqn:E.
  injection H as <- <-. apply (write_at_spec _ _ _ _ _ Hwf Hoff Hx Hne E).
Qed.
Next Obligation.
  intros c s c' Hwf H. simpl in H. unfold CountingStorage.flush in H.
  destruct (Storage.flush (delegate_ c)) as [s0 d] eqn:E.
  injection H as <- <-. apply (flush_spec _ _ _ Hwf E).
Qed.
End Counting.
End CountingFacts.

(** ** The observation hook *)

Module HookedFacts.
Import MemoryStorage.

(** A hook call as it is made. *)
Record hook_call := mkHookCall {
  hc_operation : StorageOperation; hc_point : HookPoint; hc_call : Z; hc_offset : Z; hc_size : Z }.

(** A hook that only records. *)
Definition recorder : Hooked.hook (list hook_call) := fun op point call offset n x =>
  (fst x, snd x ++ [mkHookCall op point call offset n]).

(** The calls around the operation that logged [e]. *)
Definition observed (e : StorageEvent) : list hook_call :=
  let c point := mkHookCall (ev_operation e) point (ev_call e) (ev_offset e) (ev_requested e) in
  [c before; c after].

Inductive hooked_step {U} : Hooked.t U -> Hooked.t U -> Prop :=
| hooked_read h off out r h' : Hooked.read_at off out h = (r, h') -> hooked_step h h'
| hooked_write h off d r h' : Hooked.write_at off d h = (r, h') -> hooked_step h h'
| hooked_flush h s h' : Hooked.flush h = (s, h') -> hooked_step h h'.
Inductive plain_step : t -> t -> Prop :=
| plain_read m off out r m' : read_at off out m = (r, m') -> plain_step m m'
| plain_write m off d r m' : write_at off d m = (r, m') -> plain_step m m'
| plain_flush m s m' : flush m = (s, m') -> plain_step m m'.

(** A critical section logs its call. *)
Definition logs {A} (op : StorageOperation) (call offset n : Z) (m : t) (x : A * t) : Prop :=
  exists tr c, events_ (snd x) = events_ m ++ [mkStorageEvent op call offset n tr c].
Lemma read_logs call offset n m : logs op_read call offset n m (read_locked call offset n m).
Proof. unfold logs, read_locked. destruct (_ || _); [|destruct (faulted_transfer _ _ _)]; by eexists _, _. Qed.
Lemma write_logs call offset d m :
  logs op_write call offset (view_size d) m (write_locked call offset d m).
Proof.
  unfold logs, write_locked. destruct (negb _); [by eexists _, _|]. destruct (_ || _); [by eexists _, _|].
  destruct (faulted_transfer _ _ _) as [tr s]. destruct (negb _); by eexists _, _.
Qed.
Lemma flush_logs call m : logs op_flush call 0 0 m (flush_locked call m).
Proof. unfold logs, flush_locked. destruct (matching_fault _ _ _); [destruct (negb _)|]; by eexists _, _. Qed.

(** One call under the recorder is the plain call and two records. *)
Definition recorded (h h' : Hooked.t (list hook_call)) : Prop :=
  Hooked.hook_ h' = Some recorder /\ exists new,
    events_ (Hooked.memory h') = events_ (Hooked.memory h) ++ new /\
    Hooked.user h' = Hooked.user h ++ concat (map observed new).

Lemma around_recorded {A} op count calls offset n (work : Z -> t -> A * t) h a h' :
  Hooked.hook_ h = Some recorder -> (forall m, events_ (count m) = events_ m) ->
  (forall call m, logs op call offset n m (work call m)) ->
  Hooked.around op count calls offset n work h = (a, h') ->
  recorded h h' /\ work (calls (counters_ (count (Hooked.memory h)))) (count (Hooked.memory h)) =
    (a, Hooked.memory h').
Proof.
  intros Hh Hc Hw. unfold Hooked.around. cbn [Hooked.hook_ set]. 
  set (call := calls _). rewrite Hh.
  cbn. destruct (work call (count (Hooked.memory h))) as [x m] eqn:E. intros [= <- <-].
  destruct (Hw call (count (Hooked.memory h))) as (tr&c&He). rewrite E in He. cbn in He. rewrite Hc in He.
  split; [|done]. split; [done|]. eexists. split; [exact He|]. cbn. by rewrite <- app_assoc.
Qed.

Lemma hooked_step_recorded h h' : Hooked.hook_ h = Some recorder -> hooked_step h h' ->
  recorded h h' /\ plain_step (Hooked.memory h) (Hooked.memory h').
Proof.
  intros Hh Hs. destruct Hs as [h off out r h' H|h off d r h' H|h s h' H].
  - unfold Hooked.read_at in H. destruct (negb (view_valid out)) eqn:Ev.
    + injection H as <- <-. split; [split; [done|exists []; by rewrite !app_nil_r]|].
      eapply (plain_read _ off out). unfold read_at. by rewrite Ev.
    + eapply around_recorded in H as [Hr Hw]; [|done|done|intros; apply read_logs]. split; [done|].
      eapply (plain_read _ off out). unfold read_at. rewrite Ev. exact Hw.
  - unfold Hooked.write_at in H. destruct (negb (view_valid d)) eqn:Ev.
    + injection H as <- <-. split; [split; [done|exists []; by rewrite !app_nil_r]|].
      eapply (plain_write _ off d). unfold write_at. by rewrite Ev.
    + eapply around_recorded in H as [Hr Hw]; [|done|done|intros; apply write_logs]. split; [done|].
      eapply (plain_write _ off d). unfold write_at. rewrite Ev. exact Hw.
  - eapply around_recorded in H as [Hr Hw]; [|done|done|intros; apply flush_logs]. split; [done|].
    eapply plain_flush. exact Hw.
Qed.

Lemma hooked_run_recorded h h' : Hooked.hook_ h = Some recorder -> rtc hooked_step h h' ->
  recorded h h' /\ rtc plain_step (Hooked.memory h) (Hooked.memory h').
Proof.
  intros Hh Hs. induction Hs as [h|h h1 h' H1 Hs IH].
  - split; [|done]. split; [done|]. exists []. by rewrite !app_nil_r.
  - destruct (hooked_step_recorded _ _ Hh H1) as [[Hh1 (n1&E1&U1)] Hp1].
    destruct (IH Hh1) as [[Hh2 (n2&E2&U2)] Hp2]. split; [|by eapply rtc_l].
    split; [done|]. exists (n1 ++ n2). rewrite map_app, concat_app, !app_assoc. split; congruence.
Qed.
End HookedFacts.
