(* ===== verification/FileStorage.v ===== *)
(** * The POSIX backend

    [FileStorage] of src/storage_posix.cpp and include/tfdb/storage.hpp. The
    system calls are the class [Posix], a parameter: each takes and returns
    the kernel state and answers its C return value with [errno]. The retry
    loops of [fsync] and [fdatasync] run while the kernel answers [EINTR];
    [eintrs] bounds how often it still will. *)

From stdpp Require Import gmap.
From Stdlib Require Import Ascii.
From S2P Require Import Prelude Status Codec Storage.

Inductive errno_t : Set :=
| EINTR | ENOSPC | EDQUOT | EINVAL | EWOULDBLOCK | EAGAIN
| errno_other (n : Z).
#[export] Instance errno_t_eq_dec : EqDecision errno_t.
Proof. solve_decision. Defined.

Inductive open_flag : Set := O_RDONLY | O_RDWR | O_CREAT | O_EXCL | O_CLOEXEC | O_DIRECTORY.
#[export] Instance open_flag_eq_dec : EqDecision open_flag.
Proof. solve_decision. Defined.

Inductive file_type : Set := S_IFREG | S_IFBLK | S_IFother.
Record stat := mkStat { st_mode : file_type; stat_size : Z }.
Definition S_ISBLK (m : file_type) : bool := match m with S_IFBLK => true | _ => false end.
Definition S_ISREG (m : file_type) : bool := match m with S_IFREG => true | _ => false end.

Definition SSIZE_MAX : Z := INT64_MAX.

Record sysret := mkSysret { ret : Z; errno : errno_t }.

(** [posix_fallocate] answers its error number, [None] for 0; [sys_flock] is
    called with [LOCK_EX | LOCK_NB]; [sys_pread] returns the bytes it put at
    the front of the buffer. *)
Class Posix (K : Type) := {
  sys_open : string -> list open_flag -> K -> sysret * K;
  sys_close : Z -> K -> K;
  sys_flock : Z -> K -> sysret * K;
  sys_fsync : Z -> K -> sysret * K;
  sys_fdatasync : Z -> K -> sysret * K;
  sys_fstat : Z -> K -> (sysret * stat) * K;
  sys_ioctl_BLKGETSIZE64 : Z -> K -> (sysret * Z) * K;
  sys_ftruncate : Z -> Z -> K -> sysret * K;
  sys_posix_fallocate : Z -> Z -> Z -> K -> option errno_t * K;
  sys_pread : Z -> Z -> Z -> K -> (bytes * sysret) * K;
  sys_pwrite : Z -> bytes -> Z -> K -> sysret * K;
  strerror : errno_t -> string;
  eintrs : K -> nat }.

(** [std::string::find_last_of('/')]. *)
Fixpoint find_last_slash (path : string) : option nat :=
  match path with
  | EmptyString => None
  | String c rest =>
      match find_last_slash rest with
      | Some n => Some (S n)
      | None => if bool_decide (c = "/"%char) then Some O else None
      end
  end.

Definition parent_directory (path : string) : string :=
  match find_last_slash path with
  | None => "."
  | Some O => "/"
  | Some slash => String.substring 0 slash path
  end.

Module FileStorage.
Record t := mk { fd_ : Z; size_ : Z; writable_ : bool }.

Section Posix.
Context {K : Type} `{!Posix K}.

Definition errno_status (operation : string) (error : errno_t) : Status :=
  let code := StatusCode.io_error in
  let code := if decide (error = EINTR) then StatusCode.interrupted else code in
  let code := if decide (error = ENOSPC \/ error = EDQUOT) then StatusCode.no_space else code in
  let code := if decide (error = EINVAL) then StatusCode.invalid_argument else code in
  let code := if decide (error = EWOULDBLOCK \/ error = EAGAIN) then StatusCode.busy else code in
  Status_Error code (operation +:+ ": " +:+ strerror error).

(** The answer of a call is a value, as in [int fd = ::open(...)]. *)
Definition call {A} (f : K -> A * K) : prog K A := fun k => let '(r, k) := f k in (Ok r, k).

Definition lock_writer (fd : Z) : prog K unit :=
  r ← call (sys_flock fd);
  when (negb (ret r =? 0)) (throw (errno_status "exclusive writer lock" (errno r))).

(** [while (sync() != 0) { if (errno == EINTR) continue; return error; }];
    [None] when the iterations run out. *)
Fixpoint sync_loop (sync : K -> sysret * K) (operation : string) (fuel : nat) (k : K)
    : option (Status * K) :=
  match fuel with
  | O => None
  | S fuel =>
      let '(r, k) := sync k in
      if negb (ret r =? 0) then
        if decide (errno r = EINTR) then sync_loop sync operation fuel k
        else Some (errno_status operation (errno r), k)
      else Some (Status_Ok, k)
  end.
Definition sync_retry (sync : K -> sysret * K) (operation : string) (k : K) : Status * K :=
  default (retry_exhausted, k) (sync_loop sync operation (S (eintrs k)) k).

(** A status used as in [if (!status.ok()) return status;]. *)
Definition checked (f : K -> Status * K) : prog K unit :=
  s ← call f; if status_ok s then mret tt else throw s.

Definition sync_parent_directory (path : string) : prog K unit :=
  r ← call (sys_open (parent_directory path) [O_RDONLY; O_DIRECTORY; O_CLOEXEC]);
  if ret r <? 0 then throw (errno_status "open parent directory" (errno r)) else
  let directory_fd := ret r in
  status ← call (sync_retry (sys_fsync directory_fd) "fsync parent directory");
  modify (sys_close directory_fd);;
  if status_ok status then mret tt else throw status.

Definition determine_size (fd : Z) : prog K Z :=
  '(r, info) ← call (sys_fstat fd);
  if negb (ret r =? 0) then throw (errno_status "fstat" (errno r)) else
  if S_ISBLK (st_mode info) then
    '(r, bytes) ← call (sys_ioctl_BLKGETSIZE64 fd);
    if negb (ret r =? 0) then throw (errno_status "BLKGETSIZE64" (errno r))
    else mret bytes
  else if negb (S_ISREG (st_mode info)) then
    throw_error StatusCode.invalid_argument "storage must be a regular file or block device"
  else if stat_size info <? 0 then
    throw_error StatusCode.out_of_range "negative storage size"
  else mret (u64 (stat_size info)).

(** [if (!status.ok()) { ::close(fd); return status; }]. *)
Definition or_close {A} (fd : Z) (m : prog K A) : prog K A :=
  r ← attempt m;
  match r with
  | Ok a => mret a
  | Err status => modify (sys_close fd);; throw status
  end.

Definition open_existing (path : string) (writable : bool) : prog K t :=
  let flags := if writable then [O_RDWR; O_CLOEXEC] else [O_RDONLY; O_CLOEXEC] in
  r ← call (sys_open path flags);
  let fd := ret r in
  if fd <? 0 then throw (errno_status "open" (errno r)) else
  when writable (or_close fd (lock_writer fd));;
  bytes ← or_close fd (determine_size fd);
  mret (mk fd bytes writable).

Definition create (path : string) (bytes : Z) (overwrite : bool) : prog K t :=
  if (bytes =? 0) || (INT64_MAX <? bytes)
  then throw_error StatusCode.invalid_argument "invalid create output or size" else
  let flags := [O_RDWR; O_CREAT; O_CLOEXEC] in
  let flags := if negb overwrite then flags ++ [O_EXCL] else flags in
  r ← call (sys_open path flags);
  let fd := ret r in
  if fd <? 0 then throw (errno_status "create" (errno r)) else
  or_close fd (lock_writer fd);;
  when overwrite (or_close fd (
    r ← call (sys_ftruncate fd bytes);
    when (negb (ret r =? 0)) (throw (errno_status "ftruncate" (errno r)))));;
  or_close fd (
    result ← call (sys_posix_fallocate fd 0 bytes);
    match result with
    | Some e => throw (errno_status "posix_fallocate" e)
    | None => mret tt
    end);;
  or_close fd (checked (sync_retry (sys_fdatasync fd) "fdatasync created file"));;
  or_close fd (sync_parent_directory path);;
  mret (mk fd bytes true).

Definition destroy (f : t) (k : K) : K := if 0 <=? fd_ f then sys_close (fd_ f) k else k.

Definition read_at (f : t) (offset : Z) (output : ByteView) (k : K) : (bytes * IoResult) * K :=
  let n := view_size output in
  if negb (view_valid output)
  then (([], mkIoResult 0 (Status_Error StatusCode.invalid_argument
                             "null non-empty read buffer")), k)
  else if (size_ f <? offset) || (u64 (size_ f - offset) <? n) || (INT64_MAX <? offset) ||
          (SSIZE_MAX <? n) || (u64 (INT64_MAX - offset) <? n)
  then (([], mkIoResult 0 (Status_Error StatusCode.out_of_range "read offset too large")), k)
  else
    let '((data, result), k) := sys_pread (fd_ f) n offset k in
    if ret result <? 0 then ((data, mkIoResult 0 (errno_status "pread" (errno result))), k)
    else ((data, mkIoResult (ret result) Status_Ok), k).

Definition write_at (f : t) (offset : Z) (input : ByteView) (k : K) : IoResult * K :=
  let n := view_size input in
  if negb (writable_ f)
  then (mkIoResult 0 (Status_Error StatusCode.io_error "storage is read-only"), k)
  else if negb (view_valid input)
  then (mkIoResult 0 (Status_Error StatusCode.invalid_argument "null non-empty write buffer"), k)
  else if (size_ f <? offset) || (u64 (size_ f - offset) <? n)
  then (mkIoResult 0 (Status_Error StatusCode.no_space "write outside storage"), k)
  else if INT64_MAX <? offset
  then (mkIoResult 0 (Status_Error StatusCode.out_of_range "write offset too large"), k)
  else if (SSIZE_MAX <? n) || (u64 (INT64_MAX - offset) <? n)
  then (mkIoResult 0 (Status_Error StatusCode.out_of_range
                        "write length exceeds POSIX range"), k)
  else
    let '(result, k) := sys_pwrite (fd_ f) (view_data input) offset k in
    if ret result <? 0 then (mkIoResult 0 (errno_status "pwrite" (errno result)), k)
    else (mkIoResult (ret result) Status_Ok, k).

Definition flush (f : t) (k : K) : Status * K :=
  if negb (writable_ f)
  then (Status_Error StatusCode.io_error "storage is read-only", k)
  else sync_retry (sys_fdatasync (fd_ f)) "fdatasync" k.
End Posix.

(** A backend object and the kernel it runs on. *)
Record file (K : Type) := mkFile { object : t; kernel : K }.
Arguments mkFile {K}.
Arguments object {K}.
Arguments kernel {K}.

#[global] Instance storage {K} `{!Posix K} : Storage (file K) := {|
  st_size := fun x => size_ (object x);
  st_writable := fun x => writable_ (object x);
  Storage.read_at := fun off n x =>
    let '(r, k) := read_at (object x) off (View (replicate (Z.to_nat n) 0)) (kernel x) in
    (r, mkFile (object x) k);
  Storage.write_at := fun off d x =>
    let '(r, k) := write_at (object x) off (View d) (kernel x) in (r, mkFile (object x) k);
  Storage.flush := fun x =>
    let '(s, k) := flush (object x) (kernel x) in (s, mkFile (object x) k);
  interrupts := fun x => eintrs (kernel x) |}.
End FileStorage.
