(* ===== verification/RandomId.v ===== *)
(** * Random identifiers

    [random_nonzero_id] of src/ring_store.cpp: sixteen bytes of [getrandom],
    drawn again while they are all zero. [getrandom] is the class [Entropy], a
    parameter; [dry] bounds how often it will still answer [EINTR] or nothing
    but zero bytes. The host is little-endian. *)

From S2P Require Import Prelude Status Crc32c Layout Format FormatFacts Codec Storage FileStorage.

Class Entropy (W : Type) := {
  sys_getrandom : Z -> W -> (bytes * sysret) * W;
  getrandom_strerror : errno_t -> string;
  dry : W -> nat }.

Definition kIdSize : Z := 16.
Definition draws_exhausted : Status := Status_Error StatusCode.io_error "draws exhausted".

Section Random.
Context {W : Type} `{!Entropy W}.

(** The inner loop; [filled] is the [done] of the code. *)
Fixpoint fill_id (fuel : nat) (id : bytes) (filled : Z) (w : W) : option (result bytes * W) :=
  match fuel with
  | O => None
  | S fuel =>
      if filled =? kIdSize then Some (Ok id, w) else
      let '((data, r), w) := sys_getrandom (kIdSize - filled) w in
      if ret r <? 0 then
        if decide (errno r = EINTR) then fill_id fuel id filled w
        else Some (error StatusCode.io_error ("getrandom: " +:+ getrandom_strerror (errno r)), w)
      else if ret r =? 0 then Some (error StatusCode.io_error "getrandom made no progress", w)
      else fill_id fuel (splice filled data id) (filled + ret r) w
  end.

(** The outer loop. *)
Fixpoint draw_id (fuel : nat) (id : bytes) (w : W) : option (result (Z * Z) * W) :=
  match fuel with
  | O => None
  | S fuel =>
      match fill_id (S (Z.to_nat kIdSize + dry w)) id 0 w with
      | None => None
      | Some (Err e, w) => Some (Err e, w)
      | Some (Ok id, w) =>
          if (get64 id 0 =? 0) && (get64 id 8 =? 0) then draw_id fuel id w
          else Some (Ok (get64 id 0, get64 id 8), w)
      end
  end.

Definition random_nonzero_id (w : W) : result (Z * Z) * W :=
  default (Err draws_exhausted, w) (draw_id (S (dry w)) (zeroed kIdSize) w).
End Random.

(** ** What the loops rely on, and that they end *)

Class EntropyModel (W : Type) `{!Entropy W} := {
  getrandom_law n w data r w' : 0 < n -> sys_getrandom n w = ((data, r), w') ->
    (dry w' <= dry w)%nat /\
    if ret r <? 0 then errno r = EINTR -> (dry w' < dry w)%nat
    else ret r <= n /\ len data = ret r /\ bytes_ok data /\
      (0 < ret r -> data = zeroed (ret r) -> (dry w' < dry w)%nat) }.

Section Facts.
Context {W : Type} `{!Entropy W, !EntropyModel W}.

Definition id_buffer (id : bytes) : Prop := len id = kIdSize /\ bytes_ok id.

Lemma fill_id_spec fuel : forall id filled w,
  id_buffer id -> 0 <= filled < kIdSize -> (Z.to_nat (kIdSize - filled) + dry w < fuel)%nat ->
  exists r w', fill_id fuel id filled w = Some (r, w') /\ (dry w' <= dry w)%nat /\
    match r with
    | Ok id' => id_buffer id' /\ (id' = zeroed kIdSize -> (dry w' < dry w)%nat)
    | Err e => code e = StatusCode.io_error
    end.
Proof.
  induction fuel as [|fuel IH]; intros id filled w [Hl Hb] Hf Hfu; [lia|]. cbn [fill_id].
  rewrite (proj2 (Z.eqb_neq _ _)) by lia. destruct (sys_getrandom _ w) as [[data r] w1] eqn:E.
  destruct (getrandom_law (kIdSize - filled) _ _ _ _ ltac:(lia) E) as [Hd Hr]. destruct (Z.ltb_spec (ret r) 0).
  { destruct (decide _) as [He|]; [|by eexists _, _].
    specialize (Hr He). destruct (IH id filled w1 (conj Hl Hb) Hf ltac:(lia)) as (x&w'&Hx&Hd'&Hp).
    exists x, w'. split; [done|]. split; [lia|]. destruct x; [|done]. destruct Hp as [? Hz].
    split; [done|]. intros Hi. specialize (Hz Hi). lia. }
  destruct Hr as (Hle&Hdl&Hdb&Hz). destruct (Z.eqb_spec (ret r) 0); [by eexists _, _|].
  set (id1 := splice filled data id).
  assert (Hb1 : id_buffer id1).
  { split; [unfold id1; rewrite len_splice by lia; done|by apply Forall_splice]. }
  destruct (Z.eq_dec (filled + ret r) kIdSize) as [Hend|Hend].
  - destruct fuel as [|fuel]; [lia|]. cbn [fill_id]. rewrite (proj2 (Z.eqb_eq _ _)) by done.
    eexists _, _. split; [done|]. split; [lia|]. split; [done|]. intros Hi. apply Hz; [lia|].
    assert (Hs : data = slice filled (len data) id1) by (unfold id1; by rewrite slice_splice_same by lia).
    rewrite Hs, Hi, Hdl. apply slice_zeroed; lia.
  - destruct (IH id1 (filled + ret r) w1 Hb1 ltac:(lia) ltac:(lia)) as (x&w'&Hx&Hd'&Hp).
    exists x, w'. split; [done|]. split; [lia|]. destruct x; [|done]. destruct Hp as [? Hz'].
    split; [done|]. intros Hi. specialize (Hz' Hi). lia.
Qed.

Lemma zero_id id : id_buffer id -> get64 id 0 = 0 -> get64 id 8 = 0 -> id = zeroed kIdSize.
Proof.
  intros [Hl Hb] H0 H8. unfold kIdSize in *. rewrite <- (slice_all id), Hl.
  pose proof (slice_get_le 8 id 0 ltac:(lia) ltac:(lia) Hb) as S0.
  pose proof (slice_get_le 8 id 8 ltac:(lia) ltac:(lia) Hb) as S8. change (Z.of_nat 8) with 8 in S0, S8.
  change 16 with (8 + 8). rewrite slice_add by lia. change (0 + 8) with 8. rewrite S0, S8.
  unfold get64 in *. rewrite H0, H8. reflexivity.
Qed.

Lemma draw_id_spec fuel : forall id w, id_buffer id -> (dry w < fuel)%nat ->
  exists r w', draw_id fuel id w = Some (r, w') /\
    match r with
    | Ok (high, low) => is_u64 high /\ is_u64 low /\ ~ (high = 0 /\ low = 0)
    | Err e => code e = StatusCode.io_error
    end.
Proof.
  induction fuel as [|fuel IH]; intros id w Hid Hfu; [lia|]. cbn [draw_id].
  destruct (fill_id_spec (S (Z.to_nat kIdSize + dry w)) id 0 w Hid) as (r&w1&->&Hd&Hr);
    [unfold kIdSize; lia|rewrite Z.sub_0_r; lia|].
  destruct r as [id1|e]; [|by eexists _, _]. destruct Hr as [Hid1 Hz].
  destruct (_ && _) eqn:E.
  - apply andb_true_iff in E as [E0 E8]. apply IH; [done|]. specialize (Hz ltac:(apply zero_id; [done|lia|lia])). lia.
  - eexists _, _. split; [done|]. destruct Hid1 as [Hl Hb]. unfold kIdSize in Hl.
    split_and!; try (apply get64_range; (done || lia)). intros [E0 E8]. rewrite E0, E8 in E. done.
Qed.
End Facts.
