(* ===== verification/FileStorageFacts.v ===== *)
(** * The POSIX backend meets the storage contract

    [PosixModel] states what the backend relies on of the system calls, as
    the open descriptors of the process with what each reads, what its last
    successful sync made durable and whether it holds the writer lock. Two
    descriptors may be open on one file: a call that changes a file says
    nothing about the bytes seen through another descriptor. *)

From stdpp Require Import gmap.
From S2P Require Import Prelude Status Hoare Codec Storage FileStorage.
Import FileStorage.

Record ofile := mkOfile { of_contents : bytes; of_synced : bytes; of_locked : bool }.
#[export] Instance ofile_eta : Eta ofile :=
  fun f => mkOfile (of_contents f) (of_synced f) (of_locked f).

Definition file_ok (f : ofile) : Prop := bytes_ok (of_contents f) /\ len (of_contents f) < 2 ^ 63.

(** A sync leaves what the other descriptors read alone; a descriptor of the
    same file may become synced with it. *)
Definition synced_too (f g : ofile) : Prop :=
  of_contents g = of_contents f /\ of_locked g = of_locked f /\
  (of_synced g = of_synced f \/ of_synced g = of_contents f).

Section Model.
Context {K : Type} `{!Posix K}.

Definition sync_law (fds : K -> gmap Z ofile) (sync : Z -> K -> sysret * K) : Prop :=
  forall fd f k r k', fds k !! fd = Some f -> sync fd k = (r, k') ->
    (eintrs k' <= eintrs k)%nat /\
    if ret r =? 0 then
      fds k' !! fd = Some (f <| of_synced := of_contents f |>) /\
      dom (fds k') = dom (fds k) /\
      (forall fd' g, fds k !! fd' = Some g -> exists g', fds k' !! fd' = Some g' /\ synced_too g g')
    else fds k' = fds k /\ (errno r = EINTR -> (eintrs k' < eintrs k)%nat).
End Model.

Class PosixModel (K : Type) `{!Posix K} := {
  fds : K -> gmap Z ofile;
  open_law path flags k r k' : sys_open path flags k = (r, k') ->
    (eintrs k' <= eintrs k)%nat /\
    if ret r <? 0 then fds k' = fds k
    else fds k !! ret r = None /\ exists f, fds k' = <[ret r := f]> (fds k) /\ file_ok f /\
      of_locked f = false /\ (O_EXCL ∈ flags -> of_contents f = []);
  close_law fd k : fds (sys_close fd k) = delete fd (fds k) /\
    (eintrs (sys_close fd k) <= eintrs k)%nat;
  flock_law fd f k r k' : fds k !! fd = Some f -> sys_flock fd k = (r, k') ->
    (eintrs k' <= eintrs k)%nat /\
    fds k' = if ret r =? 0 then <[fd := f <| of_locked := true |>]> (fds k) else fds k;
  fsync_law : sync_law fds sys_fsync;
  fdatasync_law : sync_law fds sys_fdatasync;
  fstat_law fd f k r info k' : fds k !! fd = Some f -> sys_fstat fd k = ((r, info), k') ->
    fds k' = fds k /\ (eintrs k' <= eintrs k)%nat /\
    (ret r = 0 -> st_mode info = S_IFREG -> stat_size info = len (of_contents f));
  ioctl_law fd f k r n k' : fds k !! fd = Some f -> sys_ioctl_BLKGETSIZE64 fd k = ((r, n), k') ->
    fds k' = fds k /\ (eintrs k' <= eintrs k)%nat /\ (ret r = 0 -> n = len (of_contents f));
  ftruncate_law fd f k n r k' : fds k !! fd = Some f -> 0 <= n <= INT64_MAX ->
    file_ok f -> sys_ftruncate fd n k = (r, k') ->
    (eintrs k' <= eintrs k)%nat /\ dom (fds k') = dom (fds k) /\
    (ret r = 0 -> exists f', fds k' !! fd = Some f' /\ file_ok f' /\
       of_locked f' = of_locked f /\ len (of_contents f') = n);
  fallocate_law fd f k n r k' : fds k !! fd = Some f -> 0 < n <= INT64_MAX ->
    file_ok f -> sys_posix_fallocate fd 0 n k = (r, k') ->
    (eintrs k' <= eintrs k)%nat /\ dom (fds k') = dom (fds k) /\
    (r = None -> exists f', fds k' !! fd = Some f' /\ file_ok f' /\
       of_locked f' = of_locked f /\ len (of_contents f') = Z.max (len (of_contents f)) n);
  pread_law fd f k n off data r k' : fds k !! fd = Some f ->
    0 < n <= SSIZE_MAX -> 0 <= off -> off + n <= INT64_MAX ->
    sys_pread fd n off k = ((data, r), k') ->
    fds k' = fds k /\ (eintrs k' <= eintrs k)%nat /\
    if ret r <? 0 then data = [] /\ (errno r = EINTR -> (eintrs k' < eintrs k)%nat)
    else ret r <= n /\ len data = ret r /\ data = slice off (ret r) (of_contents f);
  pwrite_law fd f k d off r k' : fds k !! fd = Some f -> file_ok f -> bytes_ok d ->
    0 < len d <= SSIZE_MAX -> 0 <= off -> off + len d <= len (of_contents f) ->
    sys_pwrite fd d off k = (r, k') ->
    (eintrs k' <= eintrs k)%nat /\
    if ret r <? 0 then fds k' = fds k /\ (errno r = EINTR -> (eintrs k' < eintrs k)%nat)
    else ret r <= len d /\ fds k' !! fd =
      Some (f <| of_contents := splice off (takeZ (ret r) d) (of_contents f) |>) }.

Section Facts.
Context {K : Type} `{!Posix K, !PosixModel K}.

Lemma errno_status_bad op e : status_ok (errno_status op e) = false.
Proof. unfold errno_status, status_ok, code_eqb. cbn [code Status_Error].
  repeat case_decide; by rewrite bool_decide_eq_false.
Qed.
Lemma errno_status_interrupted op e :
  code (errno_status op e) = StatusCode.interrupted -> e = EINTR.
Proof. unfold errno_status. cbn [code Status_Error]. repeat case_decide; done. Qed.

(** The sync loop ends, and ends in success or in the first other error. *)
Lemma sync_retry_spec sync op fd f k s k' :
  sync_law fds sync -> fds k !! fd = Some f -> sync_retry (sync fd) op k = (s, k') ->
  (eintrs k' <= eintrs k)%nat /\ dom (fds k') = dom (fds k) /\
  (forall fd' g, fds k !! fd' = Some g -> exists g', fds k' !! fd' = Some g' /\ synced_too g g') /\
  if status_ok s then fds k' !! fd = Some (f <| of_synced := of_contents f |>)
  else fds k' = fds k.
Proof.
  intros Hl. unfold sync_retry. generalize (le_n (S (eintrs k))).
  generalize (retry_exhausted, k). generalize (S (eintrs k)) at 2 3.
  intros n x Hn. revert k Hn. induction n as [|n IH]; intros k Hn Hf; [lia|].
  cbn [sync_loop]. destruct (sync fd k) as [r k1] eqn:E.
  destruct (Hl _ _ _ _ _ Hf E) as (Hi&Hr).
  assert (Hrefl : forall fd' g, fds k !! fd' = Some g ->
    exists g', fds k !! fd' = Some g' /\ synced_too g g')
    by (intros ? g Hg; exists g; split; [done|by repeat split; left]).
  destruct (ret r =? 0); cbn [negb default].
  - intros [= <- <-]. destruct Hr as (?&?&?). by split_and!.
  - destruct Hr as [Hk Hint]. destruct (decide _) as [He|He].
    + specialize (Hint He). intros H. rewrite <- Hk in Hf. destruct (IH k1 ltac:(lia) Hf H) as (?&?&?&?).
      rewrite Hk in *. split_and!; (done || lia).
    + intros [= <- <-]. rewrite errno_status_bad, Hk. by split_and!.
Qed.

(** ** The contract *)

Definition entry (x : file K) : option ofile := fds (kernel x) !! fd_ (object x).
Definition image (x : file K) : ofile := default (mkOfile [] [] false) (entry x).
Record file_wf (x : file K) : Prop := {
  fw_entry : entry x = Some (image x);
  fw_ok : file_ok (image x);
  fw_size : size_ (object x) = len (of_contents (image x)) }.

Lemma file_wf_intro x f : entry x = Some f -> file_ok f -> size_ (object x) = len (of_contents f) ->
  file_wf x /\ image x = f.
Proof. intros H. unfold image. intros. split; [|by rewrite H]. split; unfold image; by rewrite H. Qed.

Lemma file_wf_kernel x k : file_wf x -> fds k = fds (kernel x) ->
  file_wf (mkFile (object x) k) /\ image (mkFile (object x) k) = image x.
Proof.
  intros [] H. apply file_wf_intro; [|done|done]. unfold entry in *. cbn. by rewrite H.
Qed.

Lemma file_read_spec x off n data r x' : file_wf x -> is_u64 off -> 0 < n ->
  Storage.read_at off n x = ((data, r), x') ->
  file_wf x' /\ image x' = image x /\ object x' = object x /\ len data = transferred r /\
  (interrupts x' <= interrupts x)%nat /\
  if status_ok (io_status r)
  then transferred r <= n /\ off + n <= len (of_contents (image x)) /\
       data = slice off (transferred r) (of_contents (image x))
  else (code (io_status r) = StatusCode.interrupted -> (interrupts x' < interrupts x)%nat).
Proof.
  intros Hwf Ho Hn. pose proof (fw_size _ Hwf) as Hsz. destruct (fw_ok _ Hwf) as [_ Hmax].
  pose proof (len_nonneg (of_contents (image x))). unfold is_u64 in Ho.
  cbn [Storage.read_at storage]. unfold read_at. cbn [view_size].
  rewrite len_replicate, Z2Nat.id by lia. unfold view_valid. rewrite orb_true_r. cbn [negb].
  destruct (_ || _) eqn:Eg.
  { intros [= <- <- <-]. cbn. by destruct x. }
  rewrite !orb_false_iff in Eg. destruct Eg as ((((E1&E2)&E3)&E4)&E5).
  unfold SSIZE_MAX, INT64_MAX in *. rewrite (u64_small (size_ _ - _)) in E2 by zlia.
  rewrite u64_small in E5 by zlia.
  destruct (sys_pread _ _ _ _) as [[d res] k'] eqn:Ep.
  destruct (pread_law _ _ _ n off _ _ _ (fw_entry _ Hwf) ltac:(unfold SSIZE_MAX, INT64_MAX; lia)
    ltac:(lia) ltac:(unfold INT64_MAX; lia) Ep) as (Hk&Hi&Hr).
  destruct (file_wf_kernel x k' Hwf Hk) as [Hw' Hi'].
  destruct (ret res <? 0); intros [= <- <- <-]; cbn [transferred io_status].
  - rewrite errno_status_bad. destruct Hr as [-> Hint]. split_and!; try done.
    intros Hc. by apply Hint, (errno_status_interrupted "pread").
  - destruct Hr as (?&?&?). split_and!; try done. cbn. split_and!; (done || lia).
Qed.

Lemma file_write_spec x off d r x' : file_wf x -> is_u64 off -> bytes_ok d -> d <> [] ->
  Storage.write_at off d x = (r, x') ->
  file_wf x' /\ object x' = object x /\ (interrupts x' <= interrupts x)%nat /\
  0 <= transferred r <= len d /\
  (off + len d <= len (of_contents (image x)) \/ transferred r = 0) /\
  image x' = (image x) <| of_contents := splice off (takeZ (transferred r) d) (of_contents (image x)) |> /\
  if status_ok (io_status r) then off + len d <= len (of_contents (image x))
  else transferred r = 0 /\
    (code (io_status r) = StatusCode.interrupted -> (interrupts x' < interrupts x)%nat).
Proof.
  intros Hwf Ho Hb Hd. pose proof (fw_size _ Hwf) as Hsz. pose proof (fw_ok _ Hwf) as [Hbo Hmax].
  assert (0 < len d) by (destruct d; [done|len_lia]). unfold is_u64 in Ho.
  pose proof (len_nonneg (of_contents (image x))).
  assert (Hnil : image x = (image x) <| of_contents := splice off (takeZ 0 d) (of_contents (image x)) |>).
  { rewrite takeZ_nonpos, splice_nil by lia. by destruct (image x). }
  cbn [Storage.write_at storage]. unfold write_at. cbn [view_size view_data].
  assert (Hstop : forall s, status_ok s = false -> code s <> StatusCode.interrupted ->
    (mkIoResult 0 s, mkFile (object x) (kernel x)) = (r, x') ->
    file_wf x' /\ object x' = object x /\ (interrupts x' <= interrupts x)%nat /\
    0 <= transferred r <= len d /\
    (off + len d <= len (of_contents (image x)) \/ transferred r = 0) /\
    image x' = (image x) <| of_contents := splice off (takeZ (transferred r) d) (of_contents (image x)) |> /\
    if status_ok (io_status r) then off + len d <= len (of_contents (image x))
    else transferred r = 0 /\
      (code (io_status r) = StatusCode.interrupted -> (interrupts x' < interrupts x)%nat)).
  { intros s Hs Hc [= <- <-]. cbn [transferred io_status]. rewrite Hs.
    destruct x as [o k]. cbn [object kernel] in *. split_and!; (done || lia || auto). }
  destruct (negb (writable_ _)); [by apply Hstop|].
  unfold view_valid. rewrite orb_true_r. cbn [negb].
  destruct (_ || _) eqn:Eg; [by apply Hstop|]. apply orb_false_iff in Eg as [E1 E2].
  rewrite u64_small in E2 by zlia. destruct (INT64_MAX <? off) eqn:E3; [by apply Hstop|].
  destruct (_ || _) eqn:E4; [by apply Hstop|].
  destruct (sys_pwrite _ _ _ _) as [res k'] eqn:Ep.
  destruct (pwrite_law _ _ _ d off _ _ (fw_entry _ Hwf) (fw_ok _ Hwf) Hb
    ltac:(unfold SSIZE_MAX, INT64_MAX; lia) ltac:(lia) ltac:(lia) Ep) as (Hi&Hr).
  destruct (Z.ltb_spec (ret res) 0); intros [= <- <-]; cbn [transferred io_status].
  - rewrite errno_status_bad. destruct Hr as [Hk Hint].
    destruct (file_wf_kernel x k' Hwf Hk) as [Hw' Hi']. rewrite Hi'.
    split_and!; try (done || lia || auto). intros Hc. by apply Hint, (errno_status_interrupted "pwrite").
  - destruct Hr as (Hle&Hk).
    assert (Hlen : len (takeZ (ret res) d) = ret res) by (rewrite len_takeZ; lia).
    destruct (file_wf_intro (mkFile (object x) k') _ Hk) as [Hw' Hi'].
    { split; cbn [of_contents set]; [|rewrite len_splice; lia].
      apply Forall_splice; [by apply Forall_takeZ|done]. }
    { cbn [of_contents set object]. rewrite len_splice; lia. }
    rewrite Hi'. change (status_ok Status_Ok) with true. cbn. split_and!; (done || lia || auto).
Qed.

Lemma file_flush_spec x s x' : file_wf x -> Storage.flush x = (s, x') ->
  file_wf x' /\ object x' = object x /\ (interrupts x' <= interrupts x)%nat /\
  of_contents (image x') = of_contents (image x) /\
  of_synced (image x') = if status_ok s then of_contents (image x) else of_synced (image x).
Proof.
  intros Hwf. cbn [Storage.flush storage]. unfold flush.
  destruct (negb _); [intros [= <- <-]; by destruct x|].
  destruct (sync_retry _ _ _) as [s1 k'] eqn:E. intros [= <- <-].
  destruct (sync_retry_spec _ _ _ _ _ _ _ fdatasync_law (fw_entry _ Hwf) E) as (?&_&_&H).
  destruct (status_ok s1).
  - destruct (file_wf_intro (mkFile (object x) k') _ H) as [Hw' ->]; [by destruct Hwf..|done].
  - destruct (file_wf_kernel x k' Hwf H) as [? ->]. by split_and!.
Qed.

#[global] Program Instance model : StorageModel (file K) := {|
  st_wf := file_wf;
  contents := fun x => of_contents (image x);
  durable := fun x => of_synced (image x) |}.
Next Obligation. intros x []. done. Qed.
Next Obligation. intros x [? [? ?] Hs]. cbn. by rewrite Hs. Qed.
Next Obligation. intros x [? [? ?] ?]. done. Qed.
Next Obligation.
  intros x off n data r x' Hwf Ho Hn H. destruct (file_read_spec _ _ _ _ _ _ Hwf Ho Hn H)
    as (?&->&Hob&?&?&?). cbn. rewrite Hob. by split_and!.
Qed.
Next Obligation.
  intros x off d r x' Hwf Ho Hb Hd H. destruct (file_write_spec _ _ _ _ _ Hwf Ho Hb Hd H)
    as (?&Hob&?&?&?&->&?). cbn. rewrite Hob. split_and!; (done || lia || by destruct (status_ok _)).
Qed.
Next Obligation.
  intros x s x' Hwf H. destruct (file_flush_spec _ _ _ Hwf H) as (?&Hob&?&->&->). cbn. by rewrite Hob.
Qed.

(** ** Opening and creating *)

Lemma wp_call {A} (f : K -> A * K) (Q : A -> K -> Prop) E k :
  (forall r k', f k = (r, k') -> Q r k') -> wp (call f) Q E k.
Proof. unfold wp, call. destruct (f k) as [r k']. auto. Qed.
Lemma wp_or_close {A} fd (m : prog K A) Q (E : Status -> K -> Prop) k :
  wp m Q (fun e k' => E e (sys_close fd k')) k -> wp (or_close fd m) Q E k.
Proof.
  intros H. apply wp_bind, wp_attempt. eapply wp_conseq; [exact H|done|].
  intros e k' He. apply wp_bind, wp_modify, wp_throw. exact He.
Qed.

(** [fd] is the one descriptor opened since [k0], on the file [f]. *)
Record opened (k0 : K) (fd : Z) (f : ofile) (k : K) : Prop := {
  op_new : fds k0 !! fd = None;
  op_entry : fds k !! fd = Some f;
  op_dom : dom (fds k) = {[fd]} ∪ dom (fds k0);
  op_ok : file_ok f }.

(** A failure that left no descriptor behind. *)
Definition released (k0 : K) (e : Status) (k : K) : Prop :=
  status_ok e = false /\ dom (fds k) = dom (fds k0).

Lemma released_close k0 fd e k : fds k0 !! fd = None -> status_ok e = false ->
  dom (fds k) = {[fd]} ∪ dom (fds k0) -> released k0 e (sys_close fd k).
Proof.
  intros Hn He Hd. split; [done|]. rewrite (proj1 (close_law fd k)), dom_delete_L, Hd.
  apply not_elem_of_dom in Hn. set_solver.
Qed.
Hint Resolve released_close : core.

Lemma opened_same k0 fd f k k' : opened k0 fd f k -> fds k' = fds k -> opened k0 fd f k'.
Proof. intros [] H. split; by rewrite ?H. Qed.

Lemma opened_released k0 fd f k e : opened k0 fd f k -> status_ok e = false ->
  released k0 e (sys_close fd k).
Proof. intros []. auto. Qed.

Lemma sys_open_spec path flags k0 r k : sys_open path flags k0 = (r, k) ->
  if ret r <? 0 then dom (fds k) = dom (fds k0)
  else exists f, opened k0 (ret r) f k /\ of_locked f = false /\
    (O_EXCL ∈ flags -> of_contents f = []) /\
    (forall fd g, fds k0 !! fd = Some g -> fds k !! fd = Some g).
Proof.
  intros H. destruct (open_law _ _ _ _ _ H) as [_ Ho]. destruct (ret r <? 0); [by rewrite Ho|].
  destruct Ho as (Hn&f&Hf&Hok&Hl&He). exists f. split_and!; try done.
  - split; [done| |by rewrite Hf, dom_insert_L|done]. by rewrite Hf, lookup_insert_eq.
  - intros fd g Hg. rewrite Hf, lookup_insert_ne by congruence. done.
Qed.

Lemma lock_writer_spec k0 fd f k : opened k0 fd f k ->
  wp (lock_writer fd) (fun _ k' => opened k0 fd (f <| of_locked := true |>) k')
    (fun e k' => released k0 e (sys_close fd k')) k.
Proof.
  intros Ho. apply wp_bind, wp_call. intros r k' H.
  destruct (flock_law _ _ _ _ _ (op_entry _ _ _ _ Ho) H) as [_ Hk].
  apply wp_when; intros Hr; [apply wp_throw|]; destruct (ret r =? 0); try done.
  - apply (opened_released _ _ f); [by eapply opened_same|apply errno_status_bad].
  - destruct Ho. split; [done|by rewrite Hk, lookup_insert_eq| |done].
    rewrite Hk, dom_insert_L, op_dom0. set_solver.
Qed.

Lemma determine_size_spec k0 fd f k : opened k0 fd f k ->
  wp (determine_size fd) (fun n k' => opened k0 fd f k' /\ n = len (of_contents f))
    (fun e k' => released k0 e (sys_close fd k')) k.
Proof.
  intros Ho. apply wp_bind, wp_call. intros [r info] k1 H.
  destruct (fstat_law _ _ _ _ _ _ (op_entry _ _ _ _ Ho) H) as (Hk&_&Hr).
  assert (Ho1 : opened k0 fd f k1) by (by eapply opened_same).
  assert (Hbad : forall e, status_ok e = false -> released k0 e (sys_close fd k1))
    by (intros; by eapply opened_released).
  apply wp_if; intros E; [apply wp_throw, Hbad, errno_status_bad|].
  apply wp_if; intros Em.
  - apply wp_bind, wp_call. intros [r2 n] k2 H2.
    destruct (ioctl_law _ _ _ _ _ _ (op_entry _ _ _ _ Ho1) H2) as (Hk2&_&Hr2).
    assert (Ho2 : opened k0 fd f k2) by (by eapply opened_same).
    apply wp_if; intros E2; [apply wp_throw; eapply opened_released; [done|apply errno_status_bad]|].
    apply wp_ret. split; [done|apply Hr2; lia].
  - apply wp_if; intros Er; [by apply wp_throw_error, Hbad|].
    apply wp_if; intros Es; [by apply wp_throw_error, Hbad|].
    apply wp_ret. split; [done|]. destruct (op_ok _ _ _ _ Ho) as [_ Hmax].
    pose proof (len_nonneg (of_contents f)). rewrite Hr; [apply u64_small; zlia|lia|].
    by destruct (st_mode info).
Qed.

(** What a caller holds after a successful open or create. *)
Record ready (k0 : K) (f : t) (w : bool) (k : K) : Prop := {
  rd_wf : file_wf (mkFile f k);
  rd_writable : writable_ f = w;
  rd_locked : w = true -> of_locked (image (mkFile f k)) = true;
  rd_dom : dom (fds k) = {[fd_ f]} ∪ dom (fds k0) }.

Lemma opened_ready k0 fd f k w : opened k0 fd f k -> (w = true -> of_locked f = true) ->
  ready k0 (mk fd (len (of_contents f)) w) w k /\
  image (mkFile (mk fd (len (of_contents f)) w) k) = f.
Proof.
  intros [] Hl. destruct (file_wf_intro (mkFile (mk fd (len (of_contents f)) w) k) f) as [Hw Hi];
    [done..|]. split; [|done]. split; try done. by rewrite Hi.
Qed.

Lemma open_existing_spec path w k0 :
  wp (open_existing path w) (fun f k => ready k0 f w k) (released k0) k0.
Proof.
  apply wp_bind, wp_call. intros r k1 H. apply sys_open_spec in H. cbv zeta.
  destruct (ret r <? 0); [apply wp_throw; split; [apply errno_status_bad|done]|].
  destruct H as (f&Ho&_). apply wp_bind.
  assert (Hnext : forall f' k', opened k0 (ret r) f' k' -> (w = true -> of_locked f' = true) ->
    wp (bytes ← or_close (ret r) (determine_size (ret r)); mret (mk (ret r) bytes w))
      (fun f k => ready k0 f w k) (released k0) k').
  { intros f' k' Ho' Hl. apply wp_bind, wp_or_close.
    eapply wp_conseq; [apply determine_size_spec; exact Ho'| |done].
    intros n k2 [Ho2 ->]. apply wp_ret. by apply opened_ready. }
  apply wp_when; intros ->.
  - apply wp_or_close. eapply wp_conseq; [apply lock_writer_spec; exact Ho| |done].
    intros [] k2 Ho2. by eapply Hnext.
  - by eapply Hnext.
Qed.

Lemma checked_spec (f : K -> Status * K) Q E k :
  (forall s k', f k = (s, k') -> if status_ok s then Q tt k' else E s k') -> wp (checked f) Q E k.
Proof.
  intros H. apply wp_bind, wp_call. intros s k' Hf. specialize (H _ _ Hf).
  by destruct (status_ok s).
Qed.

Lemma sync_parent_directory_spec k0 fd f k path : opened k0 fd f k -> of_synced f = of_contents f ->
  wp (sync_parent_directory path) (fun _ k' => opened k0 fd f k')
    (fun e k' => released k0 e (sys_close fd k')) k.
Proof.
  intros Ho Hs. apply wp_bind, wp_call. intros r k1 H. apply sys_open_spec in H.
  destruct (ret r <? 0).
  { apply wp_throw, released_close; [by destruct Ho|apply errno_status_bad|].
    by rewrite H; destruct Ho. }
  destruct H as (d&Hd&_&_&Hkeep). cbv zeta. apply wp_bind, wp_call. intros s k2 Hsync.
  destruct (sync_retry_spec _ _ _ _ _ _ _ fsync_law (op_entry _ _ _ _ Hd) Hsync)
    as (_&Hdom&Hoth&_).
  destruct (Hoth fd f (Hkeep _ _ (op_entry _ _ _ _ Ho))) as (g&Hg&Hgc&Hgl&Hgs).
  assert (g = f) as -> by (destruct f, g; cbn in *; destruct Hgs; congruence).
  apply wp_bind, wp_modify. destruct (close_law (ret r) k2) as [Hc _].
  assert (Hne : ret r <> fd).
  { intros <-. destruct Hd as [Hn _ _ _], Ho. congruence. }
  assert (Ho2 : opened k0 fd f (sys_close (ret r) k2)).
  { split; [by destruct Ho|by rewrite Hc, lookup_delete_ne| |by destruct Ho].
    rewrite Hc, dom_delete_L, Hdom, (op_dom _ _ _ _ Hd), <- (op_dom _ _ _ _ Ho).
    destruct Hd as [Hn%not_elem_of_dom _ _ _]. set_solver. }
  destruct (status_ok s) eqn:Es; [by apply wp_ret|]. apply wp_throw. by eapply opened_released.
Qed.

(** The steps of [create] behind the lock. *)
Lemma truncate_spec k0 fd f k n : opened k0 fd f k -> 0 < n <= INT64_MAX ->
  wp (r ← call (sys_ftruncate fd n);
      when (negb (ret r =? 0)) (throw (errno_status "ftruncate" (errno r))))
    (fun _ k' => exists f', opened k0 fd f' k' /\ of_locked f' = of_locked f /\
       len (of_contents f') = n)
    (fun e k' => released k0 e (sys_close fd k')) k.
Proof.
  intros Ho Hn. apply wp_bind, wp_call. intros r k' H.
  destruct (ftruncate_law _ _ _ n _ _ (op_entry _ _ _ _ Ho) ltac:(lia) (op_ok _ _ _ _ Ho) H)
    as (_&Hd&Hr). destruct Ho. apply wp_when; intros E.
  - apply wp_throw, released_close; [done|apply errno_status_bad|congruence].
  - destruct (Hr ltac:(lia)) as (f'&?&?&?&?). exists f'. split_and!; [|done..].
    split; [done..|congruence|done].
Qed.
Lemma allocate_spec k0 fd f k n : opened k0 fd f k -> 0 < n <= INT64_MAX ->
  len (of_contents f) <= n ->
  wp (result ← call (sys_posix_fallocate fd 0 n);
      match result with
      | Some e => throw (errno_status "posix_fallocate" e)
      | None => mret tt
      end)
    (fun _ k' => exists f', opened k0 fd f' k' /\ of_locked f' = of_locked f /\
       len (of_contents f') = n)
    (fun e k' => released k0 e (sys_close fd k')) k.
Proof.
  intros Ho Hn Hle. apply wp_bind, wp_call. intros r k' H.
  destruct (fallocate_law _ _ _ _ _ _ (op_entry _ _ _ _ Ho) Hn (op_ok _ _ _ _ Ho) H)
    as (_&Hd&Hr). destruct Ho. destruct r as [e|].
  - apply wp_throw, released_close; [done|apply errno_status_bad|congruence].
  - destruct (Hr eq_refl) as (f'&?&?&?&?). apply wp_ret. exists f'. split_and!; [|done|lia].
    split; [done..|congruence|done].
Qed.
Lemma sync_created_spec k0 fd f k op : opened k0 fd f k ->
  wp (checked (sync_retry (sys_fdatasync fd) op))
    (fun _ k' => opened k0 fd (f <| of_synced := of_contents f |>) k')
    (fun e k' => released k0 e (sys_close fd k')) k.
Proof.
  intros Ho. apply checked_spec. intros s k' H.
  destruct (sync_retry_spec _ _ _ _ _ _ _ fdatasync_law (op_entry _ _ _ _ Ho) H) as (_&Hd&_&Hs).
  destruct (status_ok s) eqn:E; destruct Ho.
  - split; [done..|congruence|done].
  - apply released_close; [done|done|congruence].
Qed.

Lemma create_spec path n overwrite k0 : 0 <= n ->
  wp (create path n overwrite)
    (fun f k => ready k0 f true k /\ size_ f = n /\
       of_synced (image (mkFile f k)) = of_contents (image (mkFile f k))) (released k0) k0.
Proof.
  intros Hn0. apply wp_if; intros Eg; [by apply wp_throw_error|].
  apply orb_false_iff in Eg as [E0 E1]. apply wp_bind, wp_call. intros r k1 H.
  apply sys_open_spec in H. cbv zeta.
  destruct (ret r <? 0); [apply wp_throw; split; [apply errno_status_bad|done]|].
  destruct H as (f&Ho&_&Hex&_). apply wp_bind, wp_or_close.
  eapply wp_conseq; [apply lock_writer_spec; exact Ho| |done]. clear Ho. intros [] k2 Ho.
  apply wp_bind. set (f1 := f <| of_locked := true |>) in Ho.
  assert (Hrest : forall f2 k3, opened k0 (ret r) f2 k3 -> of_locked f2 = true ->
    len (of_contents f2) <= n -> wp (or_close (ret r) (
        result ← call (sys_posix_fallocate (ret r) 0 n);
        match result with
        | Some e => throw (errno_status "posix_fallocate" e)
        | None => mret tt
        end);;
      or_close (ret r) (checked (sync_retry (sys_fdatasync (ret r)) "fdatasync created file"));;
      or_close (ret r) (sync_parent_directory path);;
      mret (mk (ret r) n true))
    (fun f k => ready k0 f true k /\ size_ f = n /\
       of_synced (image (mkFile f k)) = of_contents (image (mkFile f k))) (released k0) k3).
  { intros f2 k3 Ho2 Hl2 Hlen. apply wp_bind, wp_or_close.
    eapply wp_conseq; [apply allocate_spec; [exact Ho2|lia|done]| |done].
    intros [] k4 (f3&Ho3&Hl3&Hn3). apply wp_bind, wp_or_close.
    eapply wp_conseq; [apply sync_created_spec; exact Ho3| |done]. intros [] k5 Ho4.
    apply wp_bind, wp_or_close.
    eapply wp_conseq; [apply sync_parent_directory_spec; [exact Ho4|done]| |done].
    intros [] k6 Ho5. apply wp_ret. destruct (opened_ready _ _ _ _ true Ho5) as [Hr Hi].
    { intros _. cbn. congruence. }
    cbn [of_contents set] in Hr, Hi. rewrite Hn3 in Hr, Hi. rewrite Hi. by split_and!. }
  apply wp_when; intros ->.
  - apply wp_or_close. eapply wp_conseq; [apply truncate_spec; [exact Ho|lia]| |done].
    intros [] k3 (f2&Ho2&Hl2&Hn2). apply (Hrest f2); [done|done|lia].
  - apply (Hrest f1); [done|done|]. cbn. rewrite Hex by set_solver. rewrite len_nil. lia.
Qed.
End Facts.

(** ** Kernels whose reads succeed *)

Class PosixReliable (K : Type) `{!Posix K, !PosixModel K} := {
  pread_reliable : K -> Prop;
  pread_reliable_law fd f k n off data r k' : fds k !! fd = Some f -> pread_reliable k ->
    0 < n <= SSIZE_MAX -> 0 <= off -> off + n <= INT64_MAX ->
    sys_pread fd n off k = ((data, r), k') ->
    pread_reliable k' /\ (off + n <= len (of_contents f) -> 0 < ret r) }.

#[global] Program Instance reliable {K} `{!Posix K, !PosixModel K, !PosixReliable K} :
  ReliableReads (file K) := {| rr_ok := fun x => pread_reliable (kernel x) |}.
Next Obligation.
  intros K ? ? ? x off n data r x' Hwf Hrr Ho Hn H.
  pose proof (fw_size _ Hwf) as Hsz. destruct (fw_ok _ Hwf) as [_ Hmax].
  pose proof (len_nonneg (of_contents (image x))). unfold is_u64 in Ho.
  cbn [Storage.read_at storage] in H. unfold read_at in H. cbn [view_size] in H.
  rewrite len_replicate, Z2Nat.id in H by lia. unfold view_valid in H. rewrite orb_true_r in H.
  cbn [negb] in H. destruct (_ || _) eqn:Eg in H.
  { injection H as <- <- <-. split; [done|]. cbn. intros Hin. exfalso.
    unfold SSIZE_MAX, INT64_MAX in Eg. rewrite !u64_small in Eg by zlia. lia. }
  rewrite !orb_false_iff in Eg. destruct Eg as ((((E1&E2)&E3)&E4)&E5).
  unfold SSIZE_MAX, INT64_MAX in *. rewrite (u64_small (size_ _ - _)) in E2 by zlia.
  rewrite u64_small in E5 by zlia.
  destruct (sys_pread _ _ _ _) as [[d res] k'] eqn:Ep.
  destruct (pread_reliable_law _ _ _ n off _ _ _ (fw_entry _ Hwf) Hrr
    ltac:(unfold SSIZE_MAX, INT64_MAX; lia) ltac:(lia) ltac:(unfold INT64_MAX; lia) Ep) as [Hk Hr].
  destruct (Z.ltb_spec (ret res) 0); injection H as <- <- <-; (split; [done|]); cbn; intros Hin;
    specialize (Hr Hin); [lia|done].
Qed.
