(* ===== verification/FileNames.v ===== *)
(** * Files and their names

    What a program that closes a file and opens it again by its name relies
    on, beyond [PosixModel]: while a descriptor is open on the file of a path,
    no system call of the process but its own [close] gives the path to
    another file; opening the path again reads what the descriptor read; and
    allocated space is zero. *)

From stdpp Require Import gmap.
From S2P Require Import Prelude Status Hoare Format FormatFacts Codec Storage FileStorage.
From S2P Require Import FileStorageFacts.
Import FileStorage.

Section Steps.
Context {K : Type} `{!Posix K}.

(** A system call of the process other than a [close] of [fd]. *)
Inductive sys_step (fd : Z) (k : K) : K -> Prop :=
| step_open path flags r k' : sys_open path flags k = (r, k') -> sys_step fd k k'
| step_close fd' : fd' <> fd -> sys_step fd k (sys_close fd' k)
| step_flock fd' r k' : sys_flock fd' k = (r, k') -> sys_step fd k k'
| step_fsync fd' r k' : sys_fsync fd' k = (r, k') -> sys_step fd k k'
| step_fdatasync fd' r k' : sys_fdatasync fd' k = (r, k') -> sys_step fd k k'
| step_fstat fd' r k' : sys_fstat fd' k = (r, k') -> sys_step fd k k'
| step_ioctl fd' r k' : sys_ioctl_BLKGETSIZE64 fd' k = (r, k') -> sys_step fd k k'
| step_ftruncate fd' n r k' : sys_ftruncate fd' n k = (r, k') -> sys_step fd k k'
| step_fallocate fd' off n r k' : sys_posix_fallocate fd' off n k = (r, k') -> sys_step fd k k'
| step_pread fd' n off r k' : sys_pread fd' n off k = (r, k') -> sys_step fd k k'
| step_pwrite fd' d off r k' : sys_pwrite fd' d off k = (r, k') -> sys_step fd k k'.
End Steps.

Class PosixFiles (K : Type) `{!Posix K, !PosixModel K} := {
  names : string -> Z -> K -> Prop;
  names_fd path fd k : names path fd k -> 0 <= fd;
  names_open path flags k r k' : sys_open path flags k = (r, k') -> 0 <= ret r -> names path (ret r) k';
  names_step path fd k k' : sys_step fd k k' -> names path fd k -> names path fd k';
  names_reopen path fd f flags k r k' : names path fd k -> fds k !! fd = Some f -> O_EXCL ∉ flags ->
    sys_open path flags (sys_close fd k) = (r, k') -> 0 <= ret r ->
    exists g, fds k' !! ret r = Some g /\ of_contents g = of_contents f;
  fallocate_zero fd f k n k' : fds k !! fd = Some f -> 0 < n <= INT64_MAX -> file_ok f ->
    sys_posix_fallocate fd 0 n k = (None, k') ->
    exists f', fds k' !! fd = Some f' /\
      of_contents f' = of_contents f ++ zeroed (n - len (of_contents f)) }.

Section Sync.
Context {K : Type} `{!Posix K, !PosixModel K, !PosixFiles K}.

Lemma sync_retry_named path (sync : Z -> K -> sysret * K) op fd fd' k s k' :
  (forall k r k', sync fd' k = (r, k') -> sys_step fd k k') ->
  sync_retry (sync fd') op k = (s, k') -> names path fd k -> names path fd k'.
Proof.
  intros Hs. unfold sync_retry.
  assert (Hl : forall n k s k', sync_loop (sync fd') op n k = Some (s, k') -> names path fd k -> names path fd k').
  { induction n as [|n IH]; intros k0 s0 k0' H Hn; cbn [sync_loop] in H; [done|].
    destruct (sync fd' k0) as [r k1] eqn:E. pose proof (names_step _ _ _ _ (Hs _ _ _ E) Hn) as Hn1.
    destruct (negb _) in H; [|by injection H as _ <-].
    destruct (decide _) in H; [by eapply IH|by injection H as _ <-]. }
  destruct (sync_loop _ _ _ k) as [[]|] eqn:E; cbn [default]; intros [= <- <-] Hn; [by eapply Hl|done].
Qed.

End Sync.

Section Named.
Context {K : Type} `{!Posix K, !PosixModel K, !PosixFiles K}.
Variables (path : string) (self : t).

(** The object [self], open on the file of [path]. *)
Definition held (x : file K) : Prop := names path (fd_ self) (kernel x) /\ object x = self.
Definition named_wf (x : file K) : Prop := file_wf x /\ held x.

(** The contract of the backend, with the name of the file. *)
Lemma read_named x off n data r x' : Storage.read_at off n x = ((data, r), x') -> held x -> held x'.
Proof.
  cbn [Storage.read_at storage]. unfold read_at. intros H [Hn Hs].
  destruct (negb _) in H; [injection H as _ _ <-; by split|]. destruct (_ || _) in H; [injection H as _ _ <-; by split|].
  destruct (sys_pread _ _ _ _) as [[d res] k'] eqn:E.
  pose proof (names_step path (fd_ self) _ _ (step_pread _ _ _ _ _ _ _ E) Hn).
  destruct (ret res <? 0) in H; injection H as _ _ <-; by split.
Qed.
Lemma write_named x off d r x' : Storage.write_at off d x = (r, x') -> held x -> held x'.
Proof.
  cbn [Storage.write_at storage]. unfold write_at. intros H [Hn Hs].
  do 5 (destruct (_ : bool) in H; [injection H as _ <-; by split|]).
  destruct (sys_pwrite _ _ _ _) as [res k'] eqn:E.
  pose proof (names_step path (fd_ self) _ _ (step_pwrite _ _ _ _ _ _ _ E) Hn).
  destruct (ret res <? 0) in H; injection H as _ <-; by split.
Qed.
Lemma flush_named x s x' : Storage.flush x = (s, x') -> held x -> held x'.
Proof.
  cbn [Storage.flush storage]. unfold flush. intros H [Hn Hs]. destruct (negb _) in H; [injection H as _ <-; by split|].
  destruct (sync_retry _ _ _) as [s1 k'] eqn:E. injection H as _ <-. split; [|done]. cbn.
  eapply sync_retry_named; [|exact E|done]. intros. by eapply step_fdatasync.
Qed.

#[local] Program Instance named_model : StorageModel (file K) := {|
  st_wf := named_wf;
  contents := fun x => of_contents (image x);
  durable := fun x => of_synced (image x) |}.
Next Obligation. intros x [H _]. exact (st_size_contents (StorageModel := model) x H). Qed.
Next Obligation. intros x [H _]. exact (st_size_bound (StorageModel := model) x H). Qed.
Next Obligation. intros x [H _]. exact (st_bytes_ok (StorageModel := model) x H). Qed.
Next Obligation.
  intros x off n data r x' (Hwf&Hn) Ho Hp H.
  destruct (read_at_spec (StorageModel := model) _ _ _ _ _ _ Hwf Ho Hp H) as [? Hx].
  split; [split; [done|by eapply read_named]|exact Hx].
Qed.
Next Obligation.
  intros x off d r x' (Hwf&Hn) Ho Hb Hd H.
  destruct (write_at_spec (StorageModel := model) _ _ _ _ _ Hwf Ho Hb Hd H) as [? Hx].
  split; [split; [done|by eapply write_named]|exact Hx].
Qed.
Next Obligation.
  intros x s x' (Hwf&Hn) H. destruct (flush_spec (StorageModel := model) _ _ _ Hwf H) as [? Hx].
  split; [split; [done|by eapply flush_named]|exact Hx].
Qed.

#[local] Program Instance named_reliable `{!PosixReliable K} : ReliableReads (file K) := {|
  rr_ok := fun x => pread_reliable (kernel x) |}.
Next Obligation.
  intros ? x off n data r x' [Hwf _] Hr Ho Hn H.
  exact (rr_read_at (ReliableReads := reliable) _ _ _ _ _ _ Hwf Hr Ho Hn H).
Qed.
End Named.

Section Paths.
Context {K : Type} `{!Posix K, !PosixModel K, !PosixFiles K}.
Variable path : string.

(** Opening, creating and opening again. *)
Definition holds (k0 : K) (fd : Z) (f : ofile) (k : K) : Prop := opened k0 fd f k /\ names path fd k.

Lemma wp_holds {A} (m : prog K A) (Q : A -> K -> Prop) E fd k :
  wp m Q E k -> wp m (fun _ => names path fd) (fun _ _ => True) k ->
  wp m (fun a k' => Q a k' /\ names path fd k') (fun _ _ => True) k.
Proof. unfold wp. destruct (m k) as [[]]; auto. Qed.

Lemma lock_holds k0 fd f k : holds k0 fd f k ->
  wp (lock_writer fd) (fun _ => holds k0 fd (f <| of_locked := true |>)) (fun _ _ => True) k.
Proof.
  intros [Ho Hn]. eapply wp_holds; [by apply lock_writer_spec|]. apply wp_bind, wp_call. intros r k' H.
  apply wp_when; intros _; [done|]. eapply names_step; [by eapply step_flock|done].
Qed.

Lemma allocate_holds k0 fd f k n : holds k0 fd f k -> of_contents f = [] -> 0 < n <= INT64_MAX ->
  wp (result ← call (sys_posix_fallocate fd 0 n);
      match result with
      | Some e => throw (errno_status "posix_fallocate" e)
      | None => mret tt
      end)
    (fun _ k' => exists f', holds k0 fd f' k' /\ of_contents f' = zeroed n) (fun _ _ => True) k.
Proof.
  intros [Ho Hn] He Hb. pose proof (op_ok _ _ _ _ Ho) as Hok.
  pose proof (allocate_spec k0 fd f k n Ho Hb ltac:(rewrite He, len_nil; lia)) as H.
  unfold wp, mbind, prog_bind, call in *. destruct (sys_posix_fallocate fd 0 n k) as [[e|] k'] eqn:E; [done|].
  cbn in H |- *. destruct H as (f'&Ho'&_). exists f'.
  destruct (fallocate_zero fd f k n k' (op_entry _ _ _ _ Ho) Hb Hok E) as (g&Hg&Hz).
  rewrite (op_entry _ _ _ _ Ho') in Hg. injection Hg as <-.
  rewrite He, Z.sub_0_r in Hz. split; [split; [done|]|exact Hz].
  eapply names_step; [by eapply step_fallocate|done].
Qed.

Lemma parent_holds k0 fd f k : holds k0 fd f k -> of_synced f = of_contents f ->
  wp (sync_parent_directory path) (fun _ => holds k0 fd f) (fun _ _ => True) k.
Proof.
  intros [Ho Hn] Hs. eapply wp_holds; [by apply sync_parent_directory_spec|].
  apply wp_bind, wp_call. intros r k1 H. pose proof (names_step path fd _ _ (step_open _ _ _ _ _ _ H) Hn) as Hn1.
  apply sys_open_spec in H. destruct (ret r <? 0); [done|]. destruct H as (d&Hd&_&_&Hk). cbv zeta.
  apply wp_bind, wp_call. intros s k2 Hsync.
  assert (Hn2 : names path fd k2).
  { eapply sync_retry_named; [|exact Hsync|exact Hn1]. intros. by eapply step_fsync. }
  apply wp_bind, wp_modify. destruct (status_ok s); [|done]. apply wp_ret.
  eapply names_step; [apply step_close|exact Hn2].
  intros E. pose proof (op_new _ _ _ _ Hd) as Hnone. rewrite E in Hnone. destruct Ho. congruence.
Qed.

(** A created file is zero. *)
Definition fresh_file (n : Z) (f : t) (k : K) : Prop :=
  named_wf path f (mkFile f k) /\ of_contents (image (mkFile f k)) = zeroed n /\ writable_ f = true.

Lemma finish_holds k0 fd f n k : holds k0 fd f k -> of_contents f = zeroed n -> 0 <= n ->
  wp (or_close fd (checked (sync_retry (sys_fdatasync fd) "fdatasync created file"));;
      or_close fd (sync_parent_directory path);; mret (mk fd n true)) (fresh_file n) (fun _ _ => True) k.
Proof.
  intros [Ho Hn] Hz H0. apply wp_bind, wp_or_close. eapply wp_conseq.
  { eapply wp_holds; [eapply sync_created_spec; exact Ho|]. apply checked_spec. intros s k' Hs.
    destruct (status_ok s); [|done]. eapply sync_retry_named; [|exact Hs|exact Hn]. intros.
    by eapply step_fdatasync. }
  2: done.
  intros [] k1 Hh. apply wp_bind, wp_or_close. eapply wp_conseq; [apply parent_holds; [exact Hh|done]| |done].
  intros [] k2 [Ho2 Hn2]. apply wp_ret.
  assert (Hl : len (of_contents f) = n) by (rewrite Hz; unfold zeroed; rewrite len_replicate; lia).
  destruct (file_wf_intro (mkFile (mk fd n true) k2) _ (op_entry _ _ _ _ Ho2)) as [Hw Hi];
    [apply (op_ok _ _ _ _ Ho)|by rewrite <- Hl|].
  split; [split; [exact Hw|by split]|]. by rewrite Hi.
Qed.

Lemma create_named n k0 f k : 0 <= n -> create path n false k0 = (Ok f, k) -> fresh_file n f k.
Proof.
  intros H0 E. enough (H : wp (create path n false) (fresh_file n) (fun _ _ => True) k0)
    by exact (wp_elim _ _ _ _ _ _ H E). clear E.
  unfold create. apply wp_if; intros E; [done|]. apply orb_false_iff in E as [E1 E2]. cbv zeta.
  apply wp_bind, wp_call. intros r k1 Hop. pose proof (names_open _ _ _ _ _ Hop) as Hn.
  apply sys_open_spec in Hop. destruct (Z.ltb_spec (ret r) 0); [done|].
  destruct Hop as (g&Ho&_&He&_). assert (Hh : holds k0 (ret r) g k1) by (split; auto).
  apply wp_bind, wp_or_close. eapply wp_conseq; [apply lock_holds; exact Hh| |done].
  intros [] k2 H2. apply wp_bind. apply wp_when; [done|]. intros _.
  apply wp_bind, wp_or_close. eapply wp_conseq; [eapply allocate_holds; [exact H2| |lia]| |done].
  - cbn. apply He. set_solver.
  - intros [] k3 (g'&Hh3&Hz). by apply (finish_holds k0 _ g').
Qed.

(** Opening the path again after the file is closed reads what it held. *)
Lemma reopen_named self (x : file K) f k : named_wf path self x ->
  open_existing path false (destroy self (kernel x)) = (Ok f, k) ->
  file_wf (mkFile f k) /\ of_contents (image (mkFile f k)) = of_contents (image x).
Proof.
  intros (Hwf&Hn&<-) E. unfold destroy in E. rewrite (proj2 (Z.leb_le _ _)) in E by (by eapply names_fd).
  enough (H : wp (open_existing path false) (fun f k => file_wf (mkFile f k) /\
    of_contents (image (mkFile f k)) = of_contents (image x)) (fun _ _ => True)
    (sys_close (fd_ (object x)) (kernel x))) by exact (wp_elim _ _ _ _ _ _ H E). clear E.
  apply wp_bind, wp_call. intros r k1 Hop. cbv zeta. destruct (Z.ltb_spec (ret r) 0) as [|Hr]; [done|].
  assert (Hfl : O_EXCL ∉ [O_RDONLY; O_CLOEXEC]) by set_solver.
  destruct (names_reopen _ _ _ _ _ _ _ Hn (fw_entry _ Hwf) Hfl Hop Hr) as (g&Hg&Hc).
  apply sys_open_spec in Hop. rewrite (proj2 (Z.ltb_ge _ _)) in Hop by done. destruct Hop as (g'&Ho&_).
  assert (g' = g) as -> by (pose proof (op_entry _ _ _ _ Ho); congruence).
  apply wp_bind, wp_ret, wp_bind, wp_or_close. eapply wp_conseq; [by apply determine_size_spec| |done].
  intros n k2 [Ho2 ->]. apply wp_ret. rewrite <- Hc.
  destruct (opened_ready _ _ _ _ false Ho2 ltac:(done)) as [[Hw _ _ _] Hi]. by rewrite Hi.
Qed.
End Paths.
