(* ===== verification/FileSample.v ===== *)
(** * A small kernel

    One process with a table of open files, one disk image behind every path
    that is not created afresh, transfers of at most three bytes and a number
    of interruptions still to come: an instance of the system calls on which
    the properties of the POSIX backend are instantiated. *)

From stdpp Require Import gmap.
From S2P Require Import Prelude Status Codec Storage FileStorage FileStorageFacts.
Import FileStorage.

Record skernel := mkSkernel {
  sk_fds : gmap Z ofile; sk_next : Z; sk_eintrs : nat; sk_disk : bytes }.
#[export] Instance skernel_eta : Eta skernel :=
  fun k => mkSkernel (sk_fds k) (sk_next k) (sk_eintrs k) (sk_disk k).

(** The disk holds bytes and is small. *)
Definition clip (n : Z) (l : bytes) : bytes := map u8 (takeZ n l).
Lemma clip_ok n l : n < 2 ^ 63 -> bytes_ok (clip n l) /\ len (clip n l) < 2 ^ 63.
Proof.
  intros Hn. split.
  - apply Forall_forall. intros b Hb. apply list_elem_of_fmap in Hb as (x&->&_). apply u8_range.
  - assert (H : len (clip n l) = len (takeZ n l)) by (unfold len, clip; by rewrite length_map).
    rewrite H, len_takeZ. lia.
Qed.
Definition disk_image (k : skernel) : bytes := clip 65536 (sk_disk k).
Lemma disk_image_ok k : bytes_ok (disk_image k) /\ len (disk_image k) < 2 ^ 63.
Proof. apply clip_ok. lia. Qed.

Definition sample_image : bytes := replicate 32 7.
Definition sk_ok (n : Z) : sysret := mkSysret n (errno_other 0).
Definition sk_error (e : errno_t) : sysret := mkSysret (-1) e.

(** Every call but [open] works on an open descriptor. *)
Definition on_file (fd : Z) (k : skernel) (f : ofile -> sysret * ofile) : sysret * skernel :=
  match sk_fds k !! fd with
  | None => (sk_error (errno_other 9), k)
  | Some x => let '(r, x') := f x in (r, k <| sk_fds ::= <[fd := x']> |>)
  end.
(** Answer [EINTR] while interruptions are left. *)
Definition interruptible {A} (none : A) (k : skernel) (f : skernel -> (A * sysret) * skernel)
    : (A * sysret) * skernel :=
  match sk_eintrs k with
  | S n => ((none, sk_error EINTR), k <| sk_eintrs := n |>)
  | O => f k
  end.

Definition sk_sync (fd : Z) (k : skernel) : sysret * skernel :=
  let '((_, r), k) := interruptible tt k (fun k =>
    let '(r, k) := on_file fd k (fun x => (sk_ok 0, x <| of_synced := of_contents x |>)) in
    ((tt, r), k)) in (r, k).
Definition grow (n : Z) (c : bytes) : bytes := c ++ replicate (Z.to_nat (n - len c)) 0.

#[export] Instance sk_posix : Posix skernel := {|
  sys_open path flags k :=
    if bool_decide (sk_next k < 0 \/ is_Some (sk_fds k !! sk_next k))
    then (sk_error (errno_other 24), k)
    else
      let c := if bool_decide (O_EXCL ∈ flags \/ O_DIRECTORY ∈ flags) then [] else disk_image k in
      (sk_ok (sk_next k),
       k <| sk_fds ::= <[sk_next k := mkOfile c c false]> |> <| sk_next ::= Z.add 1 |>);
  sys_close fd k := k <| sk_fds ::= delete fd |>;
  sys_flock fd k := on_file fd k (fun x => (sk_ok 0, x <| of_locked := true |>));
  sys_fsync := sk_sync;
  sys_fdatasync := sk_sync;
  sys_fstat fd k :=
    match sk_fds k !! fd with
    | None => ((sk_error (errno_other 9), mkStat S_IFother 0), k)
    | Some x => ((sk_ok 0, mkStat S_IFREG (len (of_contents x))), k)
    end;
  sys_ioctl_BLKGETSIZE64 fd k := ((sk_error (errno_other 25), 0), k);
  sys_ftruncate fd n k :=
    on_file fd k (fun x => (sk_ok 0, x <| of_contents ::= fun c => grow n (takeZ n c) |>));
  sys_posix_fallocate fd off n k :=
    let '(r, k) := on_file fd k (fun x => (sk_ok 0, x <| of_contents ::= grow (off + n) |>)) in
    (if ret r =? 0 then None else Some (errno r), k);
  sys_pread fd n off k := interruptible [] k (fun k =>
    match sk_fds k !! fd with
    | None => (([], sk_error (errno_other 9)), k)
    | Some x => let data := slice off (Z.min n 3) (of_contents x) in
                ((data, sk_ok (len data)), k)
    end);
  sys_pwrite fd d off k :=
    let '((_, r), k) := interruptible tt k (fun k =>
      let '(r, k) := on_file fd k (fun x =>
        (sk_ok (len (takeZ 3 d)), x <| of_contents ::= splice off (takeZ 3 d) |>)) in
      ((tt, r), k)) in (r, k);
  strerror _ := "error";
  eintrs := sk_eintrs |}.

Lemma on_file_Some fd k f x : sk_fds k !! fd = Some x ->
  on_file fd k f = (fst (f x), k <| sk_fds ::= <[fd := snd (f x)]> |>).
Proof. intros H. unfold on_file. rewrite H. by destruct (f x). Qed.

Lemma dom_same (m : gmap Z ofile) fd x y : m !! fd = Some x -> dom (<[fd := y]> m) = dom m.
Proof. intros H. rewrite dom_insert_L. apply elem_of_dom_2 in H. set_solver. Qed.

Lemma sk_sync_law : sync_law sk_fds sk_sync.
Proof.
  intros fd f k r k' Hf. unfold sk_sync, interruptible. cbn [eintrs sk_posix].
  destruct (sk_eintrs k) as [|n] eqn:E.
  - rewrite (on_file_Some _ _ _ _ Hf). intros [= <- <-]. cbn. split; [lia|].
    split; [by rewrite lookup_insert_eq|]. split; [by eapply dom_same|].
    intros fd' g Hg. destruct (decide (fd' = fd)) as [->|Hne].
    + simplify_eq. rewrite lookup_insert_eq. eexists. split; [done|]. by repeat split; right.
    + rewrite lookup_insert_ne by done. exists g. split; [done|]. by repeat split; left.
  - intros [= <- <-]. cbn. split; [lia|]. split; [done|lia].
Qed.

Lemma grow_ok n c : bytes_ok c -> bytes_ok (grow n c).
Proof.
  intros. apply Forall_app. split; [done|]. apply Forall_replicate. unfold is_u8. lia.
Qed.
Lemma len_grow n c : len (grow n c) = Z.max (len c) n.
Proof.
  unfold grow. rewrite len_app, len_replicate. lia.
Qed.

#[export] Program Instance sk_model : PosixModel skernel := {| fds := sk_fds |}.
Next Obligation.
  intros path flags k r k'. cbn [sys_open eintrs sk_posix].
  case_bool_decide as Hc; [intros [= <- <-]; cbn; done|]. intros [= <- <-]. cbn [ret sk_ok sk_eintrs set].
  rewrite (proj2 (Z.ltb_ge _ _)) by lia. split; [lia|].
  assert (Hn : sk_fds k !! sk_next k = None).
  { destruct (sk_fds k !! sk_next k) eqn:E; [|done]. exfalso. apply Hc. right. by eexists. }
  split; [done|]. eexists. split; [done|]. split_and!; [|done|].
  - case_bool_decide; [split; [constructor|vm_compute; reflexivity]|apply disk_image_ok].
  - intros He. by rewrite bool_decide_true by (by left).
Qed.
Next Obligation. done. Qed.
Next Obligation.
  intros fd f k r k' Hf. cbn [sys_flock sk_posix]. rewrite (on_file_Some _ _ _ _ Hf).
  intros [= <- <-]. done.
Qed.
Next Obligation. exact sk_sync_law. Qed.
Next Obligation. exact sk_sync_law. Qed.
Next Obligation.
  intros fd f k r info k' Hf. cbn [sys_fstat sk_posix]. rewrite Hf. intros [= <- <- <-]. done.
Qed.
Next Obligation.
  intros fd f k r n k' Hf. cbn [sys_ioctl_BLKGETSIZE64 sk_posix]. intros [= <- <- <-]. done.
Qed.
Next Obligation.
  intros fd f k n r k' Hf Hn [Hb Hl]. cbn [sys_ftruncate sk_posix]. rewrite (on_file_Some _ _ _ _ Hf).
  intros [= <- <-]. cbn. split; [lia|]. split; [by eapply dom_same|]. intros _.
  eexists. split; [by rewrite lookup_insert_eq|]. unfold file_ok. cbn.
  assert (Hg : len (grow n (takeZ n (of_contents f))) = n)
    by (rewrite len_grow, len_takeZ; pose proof (len_nonneg (of_contents f)); lia).
  rewrite Hg. split; [|done]. split; [apply grow_ok; by apply Forall_takeZ|unfold INT64_MAX in *; lia].
Qed.
Next Obligation.
  intros fd f k n r k' Hf Hn [Hb Hl]. cbn [sys_posix_fallocate sk_posix].
  rewrite (on_file_Some _ _ _ _ Hf). intros [= <- <-]. cbn. split; [lia|].
  split; [by eapply dom_same|]. intros _. eexists. split; [by rewrite lookup_insert_eq|].
  unfold file_ok. cbn. rewrite len_grow, Z.add_0_l. split; [|done].
  split; [by apply grow_ok|unfold INT64_MAX in *; lia].
Qed.
Next Obligation.
  intros fd f k n off data r k' Hf Hn Ho Hmax. cbn [sys_pread eintrs sk_posix].
  unfold interruptible. destruct (sk_eintrs k) as [|m] eqn:E; cycle 1.
  { intros [= <- <- <-]. cbn. split_and!; (done || lia). }
  rewrite Hf. intros [= <- <- <-]. cbn [ret sk_ok]. split; [done|]. split; [lia|].
  pose proof (len_nonneg (slice off (Z.min n 3) (of_contents f))).
  rewrite (proj2 (Z.ltb_ge _ _)) by lia.
  assert (Hle : len (slice off (Z.min n 3) (of_contents f)) <= n)
    by (unfold slice; rewrite len_takeZ; lia).
  split_and!; [done|done|]. unfold slice. rewrite !len_takeZ.
  destruct (Z.le_gt_cases (Z.min n 3) (len (dropZ off (of_contents f)))).
  - f_equal. pose proof (len_nonneg (dropZ off (of_contents f))). lia.
  - rewrite !takeZ_all; [done|..]; pose proof (len_nonneg (dropZ off (of_contents f))); lia.
Qed.
Next Obligation.
  intros fd f k d off r k' Hf Hok Hb Hd Ho Hin. cbn [sys_pwrite eintrs sk_posix].
  unfold interruptible. destruct (sk_eintrs k) as [|m] eqn:E; cycle 1.
  { intros [= <- <-]. cbn. split_and!; (done || lia). }
  rewrite (on_file_Some _ _ _ _ Hf). intros [= <- <-]. cbn [fst ret sk_ok].
  pose proof (len_nonneg (takeZ 3 d)). rewrite (proj2 (Z.ltb_ge _ _)) by lia.
  cbn. rewrite len_takeZ in *. split; [lia|]. split; [lia|]. rewrite lookup_insert_eq. do 2 f_equal.
  destruct (Z.le_gt_cases 3 (len d)); [do 2 f_equal; lia|].
  rewrite !takeZ_all by lia. done.
Qed.

#[export] Program Instance sk_reliable : PosixReliable skernel :=
  {| pread_reliable := fun k => sk_eintrs k = O |}.
Next Obligation.
  intros fd f k n off data r k' Hf Hk Hn Ho Hmax. cbn [sys_pread sk_posix fds sk_model] in *.
  unfold interruptible. rewrite Hk, Hf. intros [= <- <- <-]. split; [done|]. intros Hin.
  cbn [ret sk_ok]. rewrite len_slice by lia. lia.
Qed.

(** A process with nothing open that will be interrupted twice. *)
Definition sample_kernel : skernel := mkSkernel ∅ 3 2 sample_image.
