(* ===== verification/DiskSample.v ===== *)
(** * A kernel with named files

    One process, a table of descriptors on named files, and sparse files: the
    bytes a file holds and those its last sync made durable. Transfers are
    whole and nothing interrupts. An instance of the system calls on which
    programs that close and reopen a file are instantiated. *)

From stdpp Require Import gmap strings.
From S2P Require Import Prelude Status Format FormatFacts Codec Storage FileStorage.
From S2P Require Import FileStorageFacts FileNames.
Import FileStorage.

(** ** Sparse files *)

Record sparse := mkSparse { sp_size : Z; sp_bytes : gmap Z Z }.
Definition sp_empty : sparse := mkSparse 0 ∅.

Definition sp_len (f : sparse) : Z := Z.max 0 (Z.min (sp_size f) INT64_MAX).
Definition sp_byte (m : gmap Z Z) (i : Z) : Z := u8 (default 0 (m !! i)).
Definition sp_range (m : gmap Z Z) (off n : Z) : bytes := map (sp_byte m) (seqZ off n).
Definition render (f : sparse) : bytes := sp_range (sp_bytes f) 0 (sp_len f).

Fixpoint sp_write (off : Z) (d : bytes) (m : gmap Z Z) : gmap Z Z :=
  match d with
  | [] => m
  | b :: d => <[off := b]> (sp_write (off + 1) d m)
  end.
(** Another size; the bytes behind the smaller of the two are gone. *)
Definition sp_resize (n : Z) (f : sparse) : sparse :=
  mkSparse n (filter (fun x => fst x < Z.min n (sp_len f)) (sp_bytes f)).

Lemma len_range m off n : len (sp_range m off n) = Z.max 0 n.
Proof. unfold sp_range, len. rewrite length_map, length_seqZ. lia. Qed.
Lemma range_app m off a b : 0 <= a -> 0 <= b ->
  sp_range m off (a + b) = sp_range m off a ++ sp_range m (off + a) b.
Proof. intros. unfold sp_range. by rewrite seqZ_app, map_app by lia. Qed.
Lemma range_ext m m' off n : (forall i, off <= i < off + n -> sp_byte m i = sp_byte m' i) ->
  sp_range m off n = sp_range m' off n.
Proof. intros H. apply map_ext_in. intros i Hi. apply H. apply list_elem_of_In, elem_of_seqZ in Hi. lia. Qed.
Lemma range_ok m off n : bytes_ok (sp_range m off n).
Proof.
  apply Forall_forall. intros b Hb. apply list_elem_of_fmap in Hb as (i&->&_). apply u8_range.
Qed.
Lemma sp_len_range f : 0 <= sp_len f <= INT64_MAX.
Proof. unfold sp_len, INT64_MAX. lia. Qed.
Lemma render_len f : len (render f) = sp_len f.
Proof. unfold render. rewrite len_range. pose proof (sp_len_range f). lia. Qed.
Lemma render_ok f : bytes_ok (render f) /\ len (render f) < 2 ^ 63.
Proof.
  split; [apply range_ok|]. rewrite render_len. pose proof (sp_len_range f). unfold INT64_MAX in *. lia.
Qed.

Lemma range_slice m size off n : 0 <= off -> 0 <= n -> off + n <= size ->
  slice off n (sp_range m 0 size) = sp_range m off n.
Proof.
  intros. replace size with (off + (n + (size - off - n))) by lia.
  rewrite !range_app by lia. rewrite slice_app_r, slice_app_l by (rewrite !len_range; lia).
  rewrite len_range, Z.max_r, Z.sub_diag by lia. rewrite Z.add_0_l.
  rewrite slice_0_takeZ. apply takeZ_all. rewrite len_range. lia.
Qed.

Lemma sp_write_lookup d m i : forall off, sp_write off d m !! i =
  if bool_decide (off <= i < off + len d) then d !! Z.to_nat (i - off) else m !! i.
Proof.
  induction d as [|b d IH]; intros off; cbn [sp_write].
  - rewrite bool_decide_eq_false_2; [done|]. rewrite len_nil. lia.
  - rewrite len_cons. pose proof (len_nonneg d). destruct (decide (i = off)) as [->|Hne].
    + rewrite lookup_insert_eq, bool_decide_eq_true_2, Z.sub_diag by lia. done.
    + rewrite lookup_insert_ne, IH by done. case_bool_decide.
      * rewrite bool_decide_eq_true_2 by lia. replace (Z.to_nat (i - off)) with (S (Z.to_nat (i - (off + 1)))) by lia.
        done.
      * rewrite bool_decide_eq_false_2 by lia. done.
Qed.

Lemma range_written off d m : bytes_ok d -> sp_range (sp_write off d m) off (len d) = d.
Proof.
  intros Hb. apply list_eq. intros i. unfold sp_range. rewrite (list_lookup_fmap (sp_byte _)).
  destruct (decide (Z.of_nat i < len d)) as [Hi|Hi].
  - rewrite lookup_seqZ_lt by done. cbn. unfold sp_byte. rewrite sp_write_lookup, bool_decide_eq_true_2 by lia.
    replace (Z.to_nat (off + Z.of_nat i - off)) with i by lia.
    destruct (d !! i) as [b|] eqn:E; [|apply lookup_ge_None in E; unfold len in Hi; lia].
    cbn. f_equal. apply u8_small. by eapply Forall_lookup_1 in E.
  - rewrite lookup_seqZ_ge by lia. cbn. symmetry. apply lookup_ge_None. unfold len in Hi. lia.
Qed.
Lemma range_kept off d m o n : o + n <= off \/ off + len d <= o ->
  sp_range (sp_write off d m) o n = sp_range m o n.
Proof.
  intros H. apply range_ext. intros i Hi. unfold sp_byte. rewrite sp_write_lookup, bool_decide_eq_false_2; [done|lia].
Qed.
Lemma range_splice off d m size : bytes_ok d -> 0 <= off -> off + len d <= size ->
  sp_range (sp_write off d m) 0 size = splice off d (sp_range m 0 size).
Proof.
  intros Hb Ho Hs. pose proof (len_nonneg d).
  replace size with (off + (len d + (size - off - len d))) by lia.
  rewrite !range_app by lia. rewrite Z.add_0_l, range_written, !range_kept by (done || lia).
  unfold splice. rewrite takeZ_app, !dropZ_app, !len_range.
  rewrite takeZ_all, takeZ_nonpos, (dropZ_all _ (sp_range m 0 off)), (dropZ_all _ (sp_range m off (len d))),
    dropZ_nonpos by (rewrite ?len_range; lia).
  by rewrite app_nil_r.
Qed.

Lemma range_zero m off n : (forall i, off <= i < off + n -> sp_byte m i = 0) ->
  sp_range m off n = zeroed n.
Proof.
  intros H. apply list_eq. intros i. unfold sp_range, zeroed. rewrite (list_lookup_fmap (sp_byte _)).
  destruct (decide (Z.of_nat i < n)) as [Hi|Hi].
  - rewrite lookup_seqZ_lt, lookup_replicate_2 by lia. cbn. f_equal. apply H. lia.
  - rewrite lookup_seqZ_ge by lia. cbn. symmetry. apply lookup_replicate_None. lia.
Qed.
Lemma resize_lookup n f i : sp_bytes (sp_resize n f) !! i =
  if bool_decide (i < Z.min n (sp_len f)) then sp_bytes f !! i else None.
Proof.
  cbn [sp_resize sp_bytes]. apply option_eq. intros b. rewrite map_lookup_filter_Some. cbn.
  case_bool_decide; [|naive_solver]. split; [by intros []|done].
Qed.
Lemma resize_grow n f : sp_len f <= n <= INT64_MAX ->
  render (sp_resize n f) = render f ++ zeroed (n - sp_len f).
Proof.
  intros Hn. pose proof (sp_len_range f). assert (El : sp_len (sp_resize n f) = sp_len f + (n - sp_len f))
    by (unfold sp_len, sp_resize in *; cbn; lia).
  unfold render. rewrite El, range_app by lia. f_equal.
  - apply range_ext. intros i Hi. unfold sp_byte. by rewrite resize_lookup, bool_decide_eq_true_2 by lia.
  - apply range_zero. intros i Hi. unfold sp_byte. by rewrite resize_lookup, bool_decide_eq_false_2 by lia.
Qed.

(** ** The kernel *)

Record disk_file := mkDiskFile { df_now : sparse; df_disk : sparse }.
Record descriptor := mkDescriptor { ds_path : string; ds_locked : bool }.
Record dkernel := mkDkernel {
  dk_fds : gmap Z descriptor; dk_files : gmap string disk_file; dk_next : Z }.
#[export] Instance dkernel_eta : Eta dkernel :=
  fun k => mkDkernel (dk_fds k) (dk_files k) (dk_next k).

Definition new_file : disk_file := mkDiskFile sp_empty sp_empty.
Definition file_at (k : dkernel) (path : string) : disk_file := default new_file (dk_files k !! path).
Definition dk_ok (n : Z) : sysret := mkSysret n (errno_other 0).
Definition dk_error (e : Z) : sysret := mkSysret (-1) (errno_other e).

Definition put_file (path : string) (f : disk_file) (k : dkernel) : dkernel := k <| dk_files ::= <[path := f]> |>.

(** A call on the file behind an open descriptor. *)
Definition on_disk {A} (bad : A) (fd : Z) (k : dkernel) (f : disk_file -> A * disk_file) : A * dkernel :=
  match dk_fds k !! fd with
  | None => (bad, k)
  | Some d =>
      let '(a, file) := f (file_at k (ds_path d)) in (a, put_file (ds_path d) file k)
  end.
Definition resize (n : Z) (f : disk_file) : disk_file := mkDiskFile (sp_resize n (df_now f)) (df_disk f).
Definition dk_sync (fd : Z) (k : dkernel) : sysret * dkernel :=
  on_disk (dk_error 9) fd k (fun f => (dk_ok 0, mkDiskFile (df_now f) (df_now f))).

#[export] Instance dk_posix : Posix dkernel := {|
  sys_open path flags k :=
    if bool_decide (dk_next k < 0 \/ is_Some (dk_fds k !! dk_next k)) then (dk_error 24, k) else
    if bool_decide ((O_EXCL ∈ flags) /\ is_Some (dk_files k !! path)) then (dk_error 17, k) else
    if bool_decide ((O_CREAT ∉ flags) /\ (O_DIRECTORY ∉ flags) /\ dk_files k !! path = None)
    then (dk_error 2, k) else
    (dk_ok (dk_next k),
     (put_file path (file_at k path) k)
       <| dk_fds ::= <[dk_next k := mkDescriptor path false]> |> <| dk_next ::= Z.add 1 |>);
  sys_close fd k := k <| dk_fds ::= delete fd |>;
  sys_flock fd k :=
    match dk_fds k !! fd with
    | None => (dk_error 9, k)
    | Some d => (dk_ok 0, k <| dk_fds ::= <[fd := mkDescriptor (ds_path d) true]> |>)
    end;
  sys_fsync := dk_sync;
  sys_fdatasync := dk_sync;
  sys_fstat fd k := on_disk (dk_error 9, mkStat S_IFother 0) fd k
    (fun f => ((dk_ok 0, mkStat S_IFREG (sp_len (df_now f))), f));
  sys_ioctl_BLKGETSIZE64 fd k := ((dk_error 25, 0), k);
  sys_ftruncate fd n k := on_disk (dk_error 9) fd k (fun f => (dk_ok 0, resize n f));
  sys_posix_fallocate fd off n k := on_disk (Some (errno_other 9)) fd k
    (fun f => (None, resize (Z.max (sp_len (df_now f)) (off + n)) f));
  sys_pread fd n off k := on_disk ([], dk_error 9) fd k (fun f =>
    let data := sp_range (sp_bytes (df_now f)) off (Z.min n (sp_len (df_now f) - off)) in
    ((data, dk_ok (len data)), f));
  sys_pwrite fd d off k := on_disk (dk_error 9) fd k (fun f =>
    (dk_ok (len d),
     mkDiskFile (mkSparse (sp_size (df_now f)) (sp_write off d (sp_bytes (df_now f)))) (df_disk f)));
  strerror _ := "error";
  eintrs _ := O |}.

(** What a descriptor sees. *)
Definition dk_view (k : dkernel) (d : descriptor) : ofile :=
  mkOfile (render (df_now (file_at k (ds_path d)))) (render (df_disk (file_at k (ds_path d)))) (ds_locked d).
Definition dk_view_fds (k : dkernel) : gmap Z ofile := dk_view k <$> dk_fds k.

Lemma view_ok k d : file_ok (dk_view k d).
Proof. apply render_ok. Qed.
Lemma view_lookup k fd f : dk_view_fds k !! fd = Some f ->
  exists d, dk_fds k !! fd = Some d /\ f = dk_view k d.
Proof. unfold dk_view_fds. rewrite lookup_fmap_Some. naive_solver. Qed.
Lemma fds_put_file path f k : dk_fds (put_file path f k) = dk_fds k.
Proof. done. Qed.
Lemma file_at_insert k path f path' :
  file_at (put_file path f k) path' = if decide (path = path') then f else file_at k path'.
Proof.
  unfold file_at, put_file. cbn. destruct (decide _) as [->|]; [by rewrite lookup_insert_eq|].
  by rewrite lookup_insert_ne.
Qed.
(** A file put back as it was changes nothing. *)
Lemma view_same k path : dk_view_fds (put_file path (file_at k path) k) = dk_view_fds k.
Proof.
  unfold dk_view_fds. rewrite fds_put_file. apply map_fmap_ext. intros fd d _. unfold dk_view.
  rewrite file_at_insert. by case_decide; subst.
Qed.
Lemma on_disk_view {A} (bad : A) fd k g f a k' : dk_view_fds k !! fd = Some f ->
  on_disk bad fd k g = (a, k') ->
  exists d file, dk_fds k !! fd = Some d /\ f = dk_view k d /\ g (file_at k (ds_path d)) = (a, file) /\
    k' = put_file (ds_path d) file k /\ dom (dk_view_fds k') = dom (dk_view_fds k) /\
    dk_view_fds k' !! fd = Some (mkOfile (render (df_now file)) (render (df_disk file)) (ds_locked d)).
Proof.
  intros Hf. destruct (view_lookup _ _ _ Hf) as (d&Hd&->). unfold on_disk. rewrite Hd.
  destruct (g _) as [a' file] eqn:E. intros [= <- <-]. exists d, file. split_and!; try done.
  - unfold dk_view_fds. by rewrite !dom_fmap_L.
  - unfold dk_view_fds. rewrite lookup_fmap, fds_put_file, Hd. cbn [fmap option_fmap option_map]. unfold dk_view. rewrite file_at_insert.
    by rewrite decide_True.
Qed.

Lemma dk_open_view path flags k r k' : sys_open path flags k = (r, k') ->
  (ret r = -1 /\ k' = k) \/
  (0 <= ret r /\ dk_view_fds k !! ret r = None /\
   dk_view_fds k' = <[ret r := dk_view k (mkDescriptor path false)]> (dk_view_fds k) /\
   (forall p, file_at k' p = file_at k p) /\
   dk_fds k' = <[ret r := mkDescriptor path false]> (dk_fds k) /\
   (O_EXCL ∈ flags -> dk_files k !! path = None)).
Proof.
  cbn [sys_open dk_posix]. case_bool_decide as Hn; [intros [= <- <-]; by left|].
  case_bool_decide as He; [intros [= <- <-]; by left|].
  case_bool_decide; [intros [= <- <-]; by left|]. intros [= <- <-]. right. cbn [ret dk_ok].
  assert (Hat : forall p, file_at (put_file path (file_at k path) k) p = file_at k p)
    by (intros p; rewrite file_at_insert; by case_decide; subst).
  split; [destruct (Z.lt_ge_cases (dk_next k) 0); [by destruct Hn; left|done]|]. split_and!.
  - unfold dk_view_fds. rewrite lookup_fmap. destruct (dk_fds k !! dk_next k) eqn:E; [|done].
    destruct Hn. right. by eexists.
  - unfold dk_view_fds at 2. rewrite <- fmap_insert. apply map_fmap_ext. intros fd d _.
    unfold dk_view. by rewrite <- (Hat (ds_path d)).
  - exact Hat.
  - done.
  - intros Hx. destruct (dk_files k !! path) eqn:E; [|done]. destruct He. split; [done|by eexists].
Qed.

Lemma dk_sync_law : sync_law dk_view_fds dk_sync.
Proof.
  intros fd f k r k' Hf H. destruct (on_disk_view _ _ _ _ _ _ _ Hf H) as (d&file&Hd&->&[= <- <-]&->&Hdom&Hl).
  split; [done|]. cbn [ret dk_ok]. rewrite Z.eqb_refl. split; [exact Hl|]. split; [exact Hdom|].
  intros fd' g Hg. destruct (view_lookup _ _ _ Hg) as (d'&Hd'&->).
  eexists. split; [unfold dk_view_fds; rewrite lookup_fmap, fds_put_file, Hd'; reflexivity|].
  unfold synced_too, dk_view. rewrite file_at_insert. cbn [of_contents of_locked of_synced].
  case_decide as E; [rewrite <- E; cbn; auto|auto].
Qed.

#[export] Program Instance dk_model : PosixModel dkernel := {| fds := dk_view_fds |}.
Next Obligation.
  intros path flags k r k' H. split; [done|].
  destruct (dk_open_view _ _ _ _ _ H) as [[-> ->]|(Hr&Hn&->&_&_&Hx)]; [done|].
  rewrite (proj2 (Z.ltb_ge _ _)) by done. split; [done|]. eexists. split_and!; [done|apply view_ok|done|].
  intros He. cbn. unfold file_at. by rewrite (Hx He).
Qed.
Next Obligation.
  intros fd k. split; [|done]. cbn. unfold dk_view_fds. cbn. by rewrite fmap_delete.
Qed.
Next Obligation.
  intros fd f k r k' Hf. destruct (view_lookup _ _ _ Hf) as (d&Hd&->). cbn [sys_flock dk_posix]. rewrite Hd.
  intros [= <- <-]. split; [done|]. unfold dk_view_fds. cbn. by rewrite fmap_insert.
Qed.
Next Obligation. exact dk_sync_law. Qed.
Next Obligation. exact dk_sync_law. Qed.
Next Obligation.
  intros fd f k r info k' Hf H. destruct (on_disk_view _ _ _ _ _ _ _ Hf H) as (d&file&Hd&->&[= <- <- <-]&->&_).
  split; [apply view_same|]. split; [done|]. intros _ _. cbn. by rewrite render_len.
Qed.
Next Obligation. intros fd f k r n k' Hf. cbn. intros [= <- <- <-]. done. Qed.
Next Obligation.
  intros fd f k n r k' Hf Hn Hok H. destruct (on_disk_view _ _ _ _ _ _ _ Hf H) as (d&file&Hd&->&[= <- <-]&->&Hdom&Hl).
  split; [done|]. split; [exact Hdom|]. intros _. eexists. split; [exact Hl|]. split; [apply render_ok|].
  split; [done|]. cbn [of_contents]. rewrite render_len. unfold sp_len, resize, sp_resize. cbn. lia.
Qed.
Next Obligation.
  intros fd f k n r k' Hf Hn Hok H. destruct (on_disk_view _ _ _ _ _ _ _ Hf H) as (d&file&Hd&->&[= <- <-]&->&Hdom&Hl).
  split; [done|]. split; [exact Hdom|]. intros _. eexists. split; [exact Hl|]. split; [apply render_ok|].
  split; [done|]. cbn [of_contents dk_view]. rewrite !render_len. cbn.
  pose proof (sp_len_range (df_now (file_at k (ds_path d)))).
  unfold sp_len at 1. cbn. lia.
Qed.
Next Obligation.
  intros fd f k n off data r k' Hf Hn Ho Hmax H.
  destruct (on_disk_view _ _ _ _ _ _ _ Hf H) as (d&file&Hd&->&[= <- <- <-]&->&_).
  split; [apply view_same|]. split; [done|]. cbn [ret dk_ok of_contents dk_view].
  rewrite len_range, (proj2 (Z.ltb_ge _ _)) by lia. split; [lia|]. split; [done|].
  set (g := df_now (file_at k (ds_path d))). pose proof (sp_len_range g).
  destruct (Z.le_gt_cases (sp_len g) off).
  - rewrite Z.max_l by lia. unfold slice. rewrite takeZ_nonpos by lia.
    unfold sp_range. rewrite seqZ_nil by lia. done.
  - rewrite Z.max_r by lia. unfold render. rewrite range_slice by lia. done.
Qed.
Next Obligation.
  intros fd f k b off r k' Hf Hok Hb Hd Ho Hin H.
  destruct (on_disk_view _ _ _ _ _ _ _ Hf H) as (d&file&Hds&->&[= <- <-]&->&_&Hl).
  split; [done|]. cbn [ret dk_ok]. rewrite (proj2 (Z.ltb_ge _ _)) by lia. split; [lia|].
  change (fds _ !! fd) with (dk_view_fds (put_file (ds_path d) (mkDiskFile (mkSparse (sp_size (df_now (file_at k (ds_path d))))
    (sp_write off b (sp_bytes (df_now (file_at k (ds_path d)))))) (df_disk (file_at k (ds_path d)))) k) !! fd).
  rewrite Hl, takeZ_all by lia. cbn [of_contents dk_view] in Hin. rewrite render_len in Hin.
  cbn. f_equal. unfold dk_view. cbn. f_equal. unfold render. cbn. apply range_splice; [done|done|exact Hin].
Qed.

#[export] Program Instance dk_reliable : PosixReliable dkernel := {| pread_reliable := fun _ => True |}.
Next Obligation.
  intros fd f k n off data r k' Hf _ Hn Ho Hmax H. split; [done|].
  destruct (on_disk_view _ _ _ _ _ _ _ Hf H) as (d&file&Hd&->&[= <- <- <-]&->&_).
  cbn [ret dk_ok of_contents dk_view]. rewrite len_range, render_len. lia.
Qed.

(** ** Names *)

Definition dk_names (path : string) (fd : Z) (k : dkernel) : Prop :=
  0 <= fd /\ ds_path <$> dk_fds k !! fd = Some path.

Lemma on_disk_fds {A} (bad : A) fd k g a k' : on_disk bad fd k g = (a, k') -> dk_fds k' = dk_fds k.
Proof. unfold on_disk. destruct (dk_fds k !! fd); [destruct (g _)|]; by intros [= _ <-]. Qed.

Lemma dk_names_step path fd k k' : sys_step fd k k' -> dk_names path fd k -> dk_names path fd k'.
Proof.
  intros Hs [H0 Hn].
  assert (Hsame : dk_fds k' = dk_fds k -> dk_names path fd k') by (intros E; split; [done|by rewrite E]).
  inversion Hs as [p flags r k1 H|fd' Hne|fd' r k1 H|fd' r k1 H|fd' r k1 H|fd' r k1 H|fd' r k1 H|fd' n r k1 H
    |fd' off n r k1 H|fd' n off r k1 H|fd' b off r k1 H]; subst;
    try (apply Hsame; eapply on_disk_fds; exact H).
  - destruct (dk_open_view _ _ _ _ _ H) as [[_ ->]|(_&Hf&_&_&E&_)]; [done|]. split; [done|].
    rewrite E, lookup_insert_ne; [done|]. intros <-. unfold dk_view_fds in Hf.
    rewrite lookup_fmap, fmap_None in Hf. by rewrite Hf in Hn.
  - split; [done|]. cbn. by rewrite lookup_delete_ne.
  - cbn in H. destruct (dk_fds k !! fd') as [d|] eqn:E; injection H as _ <-; [|done]. split; [done|]. cbn.
    destruct (decide (fd = fd')) as [->|]; [rewrite E in Hn; by rewrite lookup_insert_eq|].
    by rewrite lookup_insert_ne.
  - cbn in H. injection H as _ <-. done.
Qed.

#[export] Program Instance dk_named : PosixFiles dkernel := {| names := dk_names |}.
Next Obligation. by intros ? ? ? []. Qed.
Next Obligation.
  intros path flags k r k' H Hr. destruct (dk_open_view _ _ _ _ _ H) as [[E _]|(_&_&_&_&E&_)]; [lia|].
  split; [done|]. by rewrite E, lookup_insert_eq.
Qed.
Next Obligation. exact dk_names_step. Qed.
Next Obligation.
  intros path fd f flags k r k' [_ Hn] Hf _ H Hr. destruct (view_lookup _ _ _ Hf) as (d&Hd&->).
  rewrite Hd in Hn. injection Hn as <-.
  destruct (dk_open_view _ _ _ _ _ H) as [[E _]|(_&_&E&_&_&_)]; [lia|].
  eexists. split; [cbn; rewrite E; apply lookup_insert_eq|done].
Qed.
Next Obligation.
  intros fd f k n k' Hf Hn Hok H. destruct (on_disk_view _ _ _ _ _ _ _ Hf H) as (d&file&Hd&->&[= <-]&->&_&Hl).
  eexists. split; [exact Hl|]. cbn [of_contents dk_view resize df_now].
  pose proof (sp_len_range (df_now (file_at k (ds_path d)))).
  rewrite resize_grow by lia. rewrite render_len. f_equal.
  destruct (Z.le_gt_cases n (sp_len (df_now (file_at k (ds_path d))))).
  - unfold zeroed. f_equal. lia.
  - f_equal. lia.
Qed.

(** A process with nothing open and an empty disk. *)
Definition sample_disk : dkernel := mkDkernel ∅ ∅ 3.
