(* ===== verification/RingTypes.v ===== *)
(** * Ring store: options, state, geometry

    include/tfdb/ring_store.hpp and src/ring_store.cpp lines 28-223. *)

From S2P Require Import Prelude Status Crc32c Layout Format Codec Lz4 Storage.

Definition kBlockFlagTimeAnomaly : Z := Z.shiftl 1 0.
Definition kBlockFlagUnsynchronizedTime : Z := Z.shiftl 1 1.
Definition kRecordFlagUnsynchronizedTime : Z := Z.shiftl 1 0.

Record VolumeOptions := mkVolumeOptions {
  vo_partition_size : Z;
  vo_index_region_size : Z;
  vo_max_block_payload : Z;
  vo_persistence_quantum : Z;
  vo_volume_id_high : Z;
  vo_volume_id_low : Z;
  vo_allow_explicit_volume_id_for_testing : bool;
  vo_created_time_ns : Z }.

Record AppendContract := mkAppendContract {
  ac_record_format_id : Z; ac_record_format_version : Z; ac_time_domain_id : Z }.

Record OpenOptions := mkOpenOptions {
  oo_writable : bool;
  oo_verify_payloads_on_open : bool;
  oo_next_partition : PartitionOptions;
  oo_compression_codecs : list CompressionCodec;
  oo_writer_id_high : Z;
  oo_writer_id_low : Z;
  oo_allow_explicit_writer_id_for_testing : bool }.

Record StoreMetrics := mkStoreMetrics {
  accepted_records : Z;
  accepted_payload_bytes : Z;
  published_blocks : Z;
  stored_block_bytes : Z;
  raw_block_bytes : Z;
  checkpoints : Z;
  rotations : Z;
  time_anomalies : Z;
  overwritten_gaps : Z;
  corrupt_gaps : Z;
  durable_records : Z;
  durable_blocks : Z;
  sync_errors : Z;
  sync_calls : Z;
  last_sync_duration_ns : Z;
  max_sync_duration_ns : Z;
  oldest_undurable_age_ns : Z;
  max_accepted_to_durable_ns : Z }.
#[export] Instance StoreMetrics_eta : Eta StoreMetrics := fun m => mkStoreMetrics
  (accepted_records m) (accepted_payload_bytes m) (published_blocks m) (stored_block_bytes m)
  (raw_block_bytes m) (checkpoints m) (rotations m) (time_anomalies m) (overwritten_gaps m)
  (corrupt_gaps m) (durable_records m) (durable_blocks m) (sync_errors m) (sync_calls m)
  (last_sync_duration_ns m) (max_sync_duration_ns m) (oldest_undurable_age_ns m)
  (max_accepted_to_durable_ns m).
Definition StoreMetrics_zero : StoreMetrics :=
  mkStoreMetrics 0 0 0 0 0 0 0 0 0 0 0 0 0 0 0 0 0 0.

(** The atomics a watchdog reads without the store mutex. *)
Record HealthMirror := mkHealthMirror {
  health_closed : bool;
  health_faulted : bool;
  health_fault_code : StatusCode.t;
  health_have_undurable : bool;
  health_oldest_undurable_ns : Z;
  health_last_sync_ns : Z;
  health_max_sync_ns : Z;
  health_sync_calls : Z;
  health_sync_errors : Z;
  health_checkpoints : Z }.
#[export] Instance HealthMirror_eta : Eta HealthMirror := fun h => mkHealthMirror
  (health_closed h) (health_faulted h) (health_fault_code h) (health_have_undurable h)
  (health_oldest_undurable_ns h) (health_last_sync_ns h) (health_max_sync_ns h)
  (health_sync_calls h) (health_sync_errors h) (health_checkpoints h).
Definition HealthMirror_zero : HealthMirror :=
  mkHealthMirror false false StatusCode.ok false 0 0 0 0 0 0.

Record WriterHealth := mkWriterHealth {
  wh_writable : bool;
  wh_closed : bool;
  wh_faulted : bool;
  wh_fault_code : StatusCode.t;
  wh_oldest_undurable_age_ns : Z;
  wh_last_sync_duration_ns : Z;
  wh_max_sync_duration_ns : Z;
  wh_sync_calls : Z;
  wh_sync_errors : Z;
  wh_checkpoints : Z }.

Record BlockMetadata := mkBlockMetadata {
  md_partition_slot : Z;
  md_partition_generation : Z;
  md_block_sequence : Z;
  md_record_count : Z;
  md_min_time_ns : Z;
  md_max_time_ns : Z;
  md_flags : Z;
  md_compression : CompressionId;
  md_stored_size : Z;
  md_raw_size : Z;
  md_physical_offset : Z;
  md_record_format_id : Z;
  md_record_format_version : Z;
  md_time_domain_id : Z }.
Definition BlockMetadata_default : BlockMetadata :=
  mkBlockMetadata 0 0 0 0 0 0 0 CompressionId_none 0 0 0 0 0 0.
#[export] Instance BlockMetadata_eta : Eta BlockMetadata := fun m => mkBlockMetadata
  (md_partition_slot m) (md_partition_generation m) (md_block_sequence m) (md_record_count m)
  (md_min_time_ns m) (md_max_time_ns m) (md_flags m) (md_compression m) (md_stored_size m)
  (md_raw_size m) (md_physical_offset m) (md_record_format_id m) (md_record_format_version m)
  (md_time_domain_id m).

Inductive BlockEventKind : Set := ev_data | overwritten_gap | corrupt_gap.
#[export] Instance BlockEventKind_eq_dec : EqDecision BlockEventKind.
Proof. solve_decision. Defined.

Record BlockEvent := mkBlockEvent {
  be_kind : BlockEventKind;
  be_metadata : BlockMetadata;
  be_data : bytes;
  be_detail : Status }.

Record TimeRange := mkTimeRange { tr_begin_ns : Z; tr_end_ns : Z; tr_time_domain_id : Z }.
Definition TimeRange_default : TimeRange := mkTimeRange 0 0 1.

Record QueryOptions := mkQueryOptions { continue_on_gap : bool; verify_payload_crc : bool }.

Record PartitionInfo := mkPartitionInfo {
  pi_slot : Z;
  pi_generation : Z;
  pi_sealed : bool;
  pi_block_count : Z;
  pi_data_bytes : Z;
  pi_min_time_ns : Z;
  pi_max_time_ns : Z;
  pi_flags : Z;
  pi_options : PartitionOptions }.

Record VolumeInfo := mkVolumeInfo {
  vi_volume_size : Z;
  vi_partition_size : Z;
  vi_partition_count : Z;
  vi_index_region_size : Z;
  vi_max_block_payload : Z;
  vi_persistence_quantum : Z;
  vi_volume_id_high : Z;
  vi_volume_id_low : Z;
  vi_partitions : list PartitionInfo }.

(** ** Geometry and comparisons *)

Definition same_volume_header (a b : VolumeHeader) : bool :=
  (vh_volume_id_high a =? vh_volume_id_high b) && (vh_volume_id_low a =? vh_volume_id_low b) &&
  (vh_volume_size a =? vh_volume_size b) && (vh_partition_size a =? vh_partition_size b) &&
  (vh_partition_count a =? vh_partition_count b) &&
  (vh_index_region_size a =? vh_index_region_size b) &&
  (vh_max_block_payload a =? vh_max_block_payload b) &&
  (vh_persistence_quantum a =? vh_persistence_quantum b) &&
  (vh_created_time_ns a =? vh_created_time_ns b).

Definition is_power_of_two (value : Z) : bool :=
  negb (value =? 0) && (Z.land value (u32 (value - 1)) =? 0).

(** [align_up(...)] with its overflow flag folded into the comparison. *)
Definition validate_volume_geometry (volume : VolumeHeader) (backend_size : Z) : result unit :=
  if (vh_volume_id_high volume =? 0) && (vh_volume_id_low volume =? 0)
  then error StatusCode.corrupt "zero volume incarnation ID" else
  if (backend_size <? vh_volume_size volume) || (vh_volume_size volume <? kVolumePrefixSize) ||
     (vh_partition_count volume <? 2) || (vh_partition_size volume =? 0) ||
     negb (is_power_of_two (vh_persistence_quantum volume)) ||
     (kPartitionHeaderRegionSize <? vh_persistence_quantum volume) ||
     (vh_max_block_payload volume =? 0) ||
     (vh_index_region_size volume <? kIndexEntryEncodedSize) ||
     negb (kVolumePrefixSize mod vh_persistence_quantum volume =? 0) ||
     negb (kPartitionHeaderRegionSize mod vh_persistence_quantum volume =? 0) ||
     negb (vh_partition_size volume mod vh_persistence_quantum volume =? 0) ||
     negb (vh_index_region_size volume mod vh_persistence_quantum volume =? 0)
  then error StatusCode.corrupt "invalid volume geometry" else
  let fixed := kPartitionHeaderRegionSize + kPartitionFooterRegionSize +
               vh_index_region_size volume in
  if (vh_partition_size volume <=? fixed) ||
     (vh_partition_size volume - fixed <? vh_persistence_quantum volume) ||
     ((vh_volume_size volume - kVolumePrefixSize) / vh_partition_size volume
        <? vh_partition_count volume)
  then error StatusCode.corrupt "volume geometry exceeds backend" else
  match align_up (kBlockHeaderEncodedSize + vh_max_block_payload volume)
          (vh_persistence_quantum volume) with
  | Some maximum_span =>
      if vh_partition_size volume - fixed <? maximum_span
      then error StatusCode.corrupt "maximum block does not fit partition" else Ok tt
  | None => error StatusCode.corrupt "maximum block does not fit partition"
  end.

Definition same_index_entry (a b : IndexEntry) : bool :=
  (ie_offset a =? ie_offset b) && (ie_frame_size a =? ie_frame_size b) &&
  (ie_frame_span a =? ie_frame_span b) && (ie_sequence a =? ie_sequence b) &&
  (ie_record_count a =? ie_record_count b) && (ie_min_time_ns a =? ie_min_time_ns b) &&
  (ie_max_time_ns a =? ie_max_time_ns b) && (ie_flags a =? ie_flags b) &&
  (ie_raw_size a =? ie_raw_size b).

Definition ranges_intersect (min_time max_time : Z) (range : TimeRange) : bool :=
  (min_time <? tr_end_ns range) && (tr_begin_ns range <=? max_time).

Definition delta_exceeds (earlier later allowed : Z) : bool :=
  if allowed <? 0 then false
  else if later <? earlier then true
  else let distance := u64 (u64 later - u64 earlier) in u64 allowed <? distance.

(** ** State *)

Record PartitionState := mkPartitionState {
  ps_header : PartitionHeader;
  ps_sealed : bool;
  ps_index_valid : bool;
  ps_footer : PartitionFooter;
  ps_active_index : list IndexEntry;
  ps_data_end : Z;
  ps_aggregate_flags : Z;
  ps_has_time : bool;
  ps_block_count : Z;
  ps_min_time_ns : Z;
  ps_max_time_ns : Z }.
#[export] Instance PartitionState_eta : Eta PartitionState := fun p => mkPartitionState
  (ps_header p) (ps_sealed p) (ps_index_valid p) (ps_footer p) (ps_active_index p)
  (ps_data_end p) (ps_aggregate_flags p) (ps_has_time p) (ps_block_count p) (ps_min_time_ns p)
  (ps_max_time_ns p).

Definition default_footer : PartitionFooter := mkPartitionFooter 0 0 0 0 0 0 0 0 0 0 0 0.
Definition new_partition_state (header : PartitionHeader) : PartitionState :=
  mkPartitionState header false false default_footer [] kPartitionHeaderRegionSize 0 false 0 0 0.

(** [Impl]; [clock_reads] counts the readings taken of the steady clock. *)
Record Impl (T : Type) := mkImpl {
  storage : T;
  volume : VolumeHeader;
  open_options : OpenOptions;
  writable : bool;
  closed : bool;
  faulted : bool;
  fault_status : Status;
  partitions : list PartitionState;
  active_generation : Z;
  active_slot : Z;
  writer_id_high : Z;
  writer_id_low : Z;
  next_options : PartitionOptions;
  builder : bytes;
  builder_records : Z;
  builder_flags : Z;
  builder_min_time : Z;
  builder_max_time : Z;
  have_last_time : bool;
  last_time : Z;
  dirty : bool;
  have_undurable_records : bool;
  oldest_undurable_record : Z;
  metrics : StoreMetrics;
  corrupt_slots : list Z;
  health : HealthMirror;
  clock_reads : nat }.
Arguments mkImpl {T}. Arguments storage {T}. Arguments volume {T}. Arguments open_options {T}.
Arguments writable {T}. Arguments closed {T}. Arguments faulted {T}. Arguments fault_status {T}.
Arguments partitions {T}. Arguments active_generation {T}. Arguments active_slot {T}.
Arguments writer_id_high {T}. Arguments writer_id_low {T}. Arguments next_options {T}.
Arguments builder {T}. Arguments builder_records {T}. Arguments builder_flags {T}.
Arguments builder_min_time {T}. Arguments builder_max_time {T}. Arguments have_last_time {T}.
Arguments last_time {T}. Arguments dirty {T}. Arguments have_undurable_records {T}.
Arguments oldest_undurable_record {T}. Arguments metrics {T}. Arguments corrupt_slots {T}.
Arguments health {T}. Arguments clock_reads {T}.
#[export] Instance Impl_eta T : Eta (Impl T) := fun s => mkImpl
  (storage s) (volume s) (open_options s) (writable s) (closed s) (faulted s) (fault_status s)
  (partitions s) (active_generation s) (active_slot s) (writer_id_high s) (writer_id_low s)
  (next_options s) (builder s) (builder_records s) (builder_flags s) (builder_min_time s)
  (builder_max_time s) (have_last_time s) (last_time s) (dirty s) (have_undurable_records s)
  (oldest_undurable_record s) (metrics s) (corrupt_slots s) (health s) (clock_reads s).

Definition partition_base (v : VolumeHeader) (slot : Z) : Z :=
  u64 (kVolumePrefixSize + slot * vh_partition_size v).
Definition index_begin (v : VolumeHeader) : Z :=
  u64 (vh_partition_size v - kPartitionFooterRegionSize - vh_index_region_size v).
Definition footer_offset (v : VolumeHeader) : Z :=
  u64 (vh_partition_size v - kPartitionFooterRegionSize).

(** [active()]: the first partition with the active generation and slot. *)
Definition is_active {T} (s : Impl T) (p : PartitionState) : bool :=
  (ph_generation (ps_header p) =? active_generation s) &&
  (ph_slot (ps_header p) =? active_slot s).
Definition active {T} (s : Impl T) : option PartitionState :=
  List.find (is_active s) (partitions s).

(** Mutation through the pointer [active()] returned. *)
Fixpoint update_first {A} (p : A -> bool) (f : A -> A) (l : list A) : list A :=
  match l with
  | [] => []
  | x :: l => if p x then f x :: l else x :: update_first p f l
  end.
Definition update_active {T} (f : PartitionState -> PartitionState) (s : Impl T) : Impl T :=
  s <| partitions ::= update_first (is_active s) f |>.

(** [std::sort] by generation; generations are distinct. *)
Fixpoint insert_by_generation (p : PartitionState) (l : list PartitionState)
    : list PartitionState :=
  match l with
  | [] => [p]
  | x :: l' =>
      if ph_generation (ps_header p) <? ph_generation (ps_header x) then p :: l
      else x :: insert_by_generation p l'
  end.
Definition sort_by_generation (l : list PartitionState) : list PartitionState :=
  foldl (fun acc p => insert_by_generation p acc) [] l.

Definition codec_matches (id version : Z) (c : CompressionCodec) : bool :=
  (codec_id c =? id) && (codec_version c =? version).

(** [codec_for]: the built-in codec of that version, else a registered one. *)
Definition codec_for (o : OpenOptions) (id version : Z) : option CompressionCodec :=
  match built_in_codec id with
  | Some codec =>
      if codec_version codec =? version then Some codec
      else List.find (codec_matches id version) (oo_compression_codecs o)
  | None => List.find (codec_matches id version) (oo_compression_codecs o)
  end.

Definition validate_partition_options (o : OpenOptions) (options : PartitionOptions)
    : result unit :=
  match codec_for o (po_compression options) (po_compression_version options) with
  | None => error StatusCode.unsupported "compression codec/version unavailable"
  | Some _ =>
      if po_time_domain_id options =? 0
      then error StatusCode.invalid_argument "time domain zero is reserved for physical scans" else
      if negb (Bool.eqb (po_record_format_id options =? 0) (po_record_format_version options =? 0))
      then error StatusCode.invalid_argument
             "record profile ID and version must both be zero or nonzero"
      else Ok tt
  end.
