(* ===== verification/RingWriter.v ===== *)
(** * Ring store: the writer

    src/ring_store.cpp lines 225-275, 492-738 and 1326-1473. Every method is
    a [prog] over [Impl]: mutations made before an early return stay. The
    mutex is the sequential order of the calls. [now i] is the [i]-th reading
    of the steady clock in nanoseconds. *)

From S2P Require Import Prelude Status Crc32c Layout Format Codec Lz4 Storage RingTypes.

Definition inc (x : Z) : Z := u64 (x + 1).

Section Writer.
Context {T : Type} `{!Storage T}.
Variable now : nat -> Z.

Abbreviation P := (prog (Impl T)).

Definition read_clock : P Z :=
  fun s => (Ok (now (clock_reads s)), s <| clock_reads ::= S |>).

Definition storage_write (offset : Z) (d : bytes) : P Status := fun s =>
  let '(status, st) := write_exact offset (View d) (storage s) in
  (Ok status, s <| storage := st |>).
Definition storage_flush : P Status := fun s =>
  let '(status, st) := flush (storage s) in (Ok status, s <| storage := st |>).

(** [return status;] *)
Definition return_status (status : Status) : P unit :=
  if status_ok status then mret tt else throw status.

Definition fail (status : Status) : P unit :=
  if status_ok status then mret tt else
  modify (fun s => s <| faulted := true |> <| fault_status := status |>
                     <| health ::= set health_fault_code (fun _ => code status) |>
                     <| health ::= set health_faulted (fun _ => true) |>);;
  throw status.
Definition fail_error (c : StatusCode.t) (m : string) : P unit := fail (Status_Error c m).

(** [if (!status.ok()) return fail(status);] *)
Definition check_or_fail (status : Status) : P unit :=
  if status_ok status then mret tt else fail status.

Definition sync_media (advances_durability : bool) : P unit :=
  started ← read_clock;
  status ← storage_flush;
  ended ← read_clock;
  let elapsed := u64 (ended - started) in
  modify (fun s => s <| metrics ::= set sync_calls inc |>
    <| metrics ::= set last_sync_duration_ns (fun _ => elapsed) |>
    <| metrics ::= fun m => m <| max_sync_duration_ns ::= fun x => Z.max x elapsed |> |>);;
  modify (fun s => s <| health ::= set health_sync_calls (fun _ => sync_calls (metrics s)) |>
    <| health ::= set health_last_sync_ns (fun _ => elapsed) |>
    <| health ::= set health_max_sync_ns (fun _ => max_sync_duration_ns (metrics s)) |>);;
  if negb (status_ok status) then
    modify (fun s => s <| metrics ::= set sync_errors inc |>);;
    modify (fun s => s <| health ::= set health_sync_errors (fun _ => sync_errors (metrics s)) |>);;
    fail status
  else if advances_durability then
    modify (fun s => s <| dirty := false |> <| metrics ::= set checkpoints inc |>);;
    modify (fun s => s
      <| metrics ::= set durable_records (fun _ => accepted_records (metrics s)) |>
      <| metrics ::= set durable_blocks (fun _ => published_blocks (metrics s)) |>
      <| health ::= set health_checkpoints (fun _ => checkpoints (metrics s)) |>);;
    s ← get;
    if have_undurable_records s then
      t ← read_clock;
      let age := u64 (t - oldest_undurable_record s) in
      modify (fun s => s
        <| metrics ::= fun m => m <| max_accepted_to_durable_ns ::= fun x => Z.max x age |> |>
        <| have_undurable_records := false |>
        <| health ::= set health_have_undurable (fun _ => false) |>)
    else mret tt
  else mret tt.

Definition make_partition_header (v : VolumeHeader) (slot generation : Z)
    (options : PartitionOptions) : PartitionHeader :=
  mkPartitionHeader (vh_volume_id_high v) (vh_volume_id_low v) generation slot 0
    (vh_max_block_payload v) (vh_persistence_quantum v) options [].

Definition create_partition (slot generation : Z) (options : PartitionOptions) : P unit :=
  if generation =? 0
  then throw_error StatusCode.generation_exhausted "partition generation exhausted" else
  s ← get;
  let time_domain_changed :=
    match active s with
    | Some previous => negb (po_time_domain_id (ph_options (ps_header previous)) =?
                             po_time_domain_id options)
    | None => false
    end in
  let v := volume s in
  let header := make_partition_header v slot generation options in
  lift_result (validate_partition_options (open_options s) options);;
  let bytes := encode_partition_header header (vh_partition_size v) (vh_index_region_size v) in
  status ← storage_write (partition_base v slot) bytes;
  check_or_fail status;;
  sync_media false;;
  modify (fun s => s
    <| partitions ::= List.filter (fun p => negb (ph_slot (ps_header p) =? slot)) |>
    <| corrupt_slots ::= List.filter (fun x => negb (x =? slot)) |>
    <| partitions ::= fun l => sort_by_generation (l ++ [new_partition_state header]) |>
    <| active_generation := generation |>
    <| active_slot := slot |>);;
  when time_domain_changed (modify (fun s => s <| have_last_time := false |>));;
  modify (fun s => s <| dirty := false |>).

Definition make_footer (v : VolumeHeader) (state : PartitionState) (index_bytes : bytes)
    : PartitionFooter :=
  mkPartitionFooter (vh_volume_id_high v) (vh_volume_id_low v)
    (ph_generation (ps_header state)) (ph_slot (ps_header state)) (ps_aggregate_flags state)
    (u32 (len (ps_active_index state))) (index_begin v) (u32 (len index_bytes))
    (ps_data_end state)
    (if ps_has_time state then ps_min_time_ns state else 0)
    (if ps_has_time state then ps_max_time_ns state else 0)
    (crc32c index_bytes).

Definition seal_active_only : P unit :=
  s ← get;
  match active s with
  | None => throw_error StatusCode.internal_error "no active partition to seal"
  | Some state =>
      if ps_sealed state
      then throw_error StatusCode.internal_error "no active partition to seal" else
      when (dirty s) (sync_media true);;
      let v := volume s in
      let index_bytes := encode_index (ps_active_index state) in
      if vh_index_region_size v <? len index_bytes
      then fail_error StatusCode.internal_error "active index exceeds reserve" else
      (if negb (len index_bytes =? 0) then
         status ← storage_write
           (u64 (partition_base v (ph_slot (ps_header state)) + index_begin v)) index_bytes;
         check_or_fail status
       else mret tt);;
      let footer := make_footer v state index_bytes in
      let footer_bytes := encode_partition_footer footer in
      status ← storage_write
        (u64 (partition_base v (ph_slot (ps_header state)) + footer_offset v)) footer_bytes;
      check_or_fail status;;
      sync_media false;;
      modify (update_active (fun p =>
        p <| ps_sealed := true |> <| ps_index_valid := true |> <| ps_footer := footer |>))
  end.

Definition rotate_internal (options : PartitionOptions) : P unit :=
  s ← get;
  match active s with
  | None => throw_error StatusCode.internal_error "missing active partition"
  | Some state =>
      if ph_generation (ps_header state) =? UINT64_MAX
      then fail_error StatusCode.generation_exhausted "partition generation exhausted" else
      seal_active_only;;
      let next_slot := u32 (ph_slot (ps_header state) + 1) mod vh_partition_count (volume s) in
      let next_generation := u64 (ph_generation (ps_header state) + 1) in
      create_partition next_slot next_generation options;;
      modify (fun s => s <| metrics ::= set rotations inc |>)
  end.

Definition ensure_empty_builder_capacity : P unit :=
  s ← get;
  if negb (len (builder s) =? 0) then mret tt else
  match active s with
  | None => throw_error StatusCode.internal_error "missing active partition"
  | Some state =>
      let v := volume s in
      match align_up (kBlockHeaderEncodedSize + vh_max_block_payload v)
              (vh_persistence_quantum v) with
      | None => fail_error StatusCode.no_space "configured block cannot fit empty partition"
      | Some worst_span =>
          if u64 (index_begin v - kPartitionHeaderRegionSize) <? worst_span
          then fail_error StatusCode.no_space "configured block cannot fit empty partition" else
          let data_full := (index_begin v <? ps_data_end state) ||
                           (u64 (index_begin v - ps_data_end state) <? worst_span) in
          let index_full := vh_index_region_size v / kIndexEntryEncodedSize <?
                            len (ps_active_index state) + 1 in
          if data_full || index_full then rotate_internal (next_options s) else mret tt
      end
  end.

(** The payload [emit_builder] stores: compressed when that is smaller. *)
Definition select_payload (configured : CompressionCodec) (compression : CompressionId)
    (raw : bytes) : result (CompressionId * Z * bytes) :=
  if negb (compression =? CompressionId_none) then
    let '(status, out) := compress configured (View raw) (Some []) in
    let compressed := default [] out in
    if negb (status_ok status) then Err status
    else if max_compressed_size configured (len raw) <? len compressed
    then error StatusCode.internal_error "compression codec exceeded declared bound"
    else if len compressed =? 0
    then error StatusCode.internal_error "compression codec returned empty output"
    else if len compressed <? len raw
    then Ok (compression, codec_version configured, compressed)
    else Ok (CompressionId_none, 1, raw)
  else Ok (CompressionId_none, 1, raw).

Definition make_block (s : Impl T) (state : PartitionState) (selected : CompressionId)
    (selected_version : Z) (payload : bytes) (span64 : Z) : BlockHeader :=
  mkBlockHeader (ph_generation (ps_header state)) (ph_slot (ps_header state))
    (u32 (len (ps_active_index state))) (builder_flags s) (builder_records s)
    (u32 (len payload)) (u32 (len (builder s))) (u32 span64)
    (builder_min_time s) (builder_max_time s) selected selected_version (crc32c payload)
    (vh_volume_id_low (volume s)) (vh_volume_id_high (volume s))
    (writer_id_high s) (writer_id_low s)
    (match last (ps_active_index state) with Some e => ie_writer_id_high e | None => 0 end)
    (match last (ps_active_index state) with Some e => ie_writer_id_low e | None => 0 end).

Definition make_entry (block : BlockHeader) (data_end frame_size64 span64 : Z) : IndexEntry :=
  mkIndexEntry data_end (u32 frame_size64) (u32 span64) (bh_sequence block)
    (bh_record_count block) (bh_min_time_ns block) (bh_max_time_ns block) (bh_flags block)
    (bh_raw_size block) (bh_writer_id_high block) (bh_writer_id_low block).

(** What publishing a block does to the partition's catalog entry. *)
Definition push_block (block : BlockHeader) (entry : IndexEntry) (span64 : Z)
    (p : PartitionState) : PartitionState :=
  let p := p <| ps_active_index ::= fun l => l ++ [entry] |> in
  let p := p <| ps_block_count := u32 (len (ps_active_index p)) |>
             <| ps_data_end ::= fun x => u64 (x + span64) |>
             <| ps_aggregate_flags ::= fun x => Z.lor x (bh_flags block) |> in
  if negb (ps_has_time p)
  then p <| ps_has_time := true |> <| ps_min_time_ns := bh_min_time_ns block |>
         <| ps_max_time_ns := bh_max_time_ns block |>
  else p <| ps_min_time_ns ::= fun x => Z.min x (bh_min_time_ns block) |>
         <| ps_max_time_ns ::= fun x => Z.max x (bh_max_time_ns block) |>.

Definition emit_builder : P unit :=
  s ← get;
  if len (builder s) =? 0 then mret tt else
  match active s with
  | None => fail_error StatusCode.internal_error "missing active partition"
  | Some state =>
      let options := ph_options (ps_header state) in
      let v := volume s in
      match codec_for (open_options s) (po_compression options)
              (po_compression_version options) with
      | None => fail_error StatusCode.unsupported "compression codec unavailable"
      | Some configured =>
          match select_payload configured (po_compression options) (builder s) with
          | Err status => fail status
          | Ok (selected, selected_version, payload) =>
              let frame_size64 := kBlockHeaderEncodedSize + len payload in
              match align_up frame_size64 (vh_persistence_quantum v) with
              | None => fail_error StatusCode.out_of_range "encoded block too large"
              | Some span64 =>
                  if (UINT32_MAX <? frame_size64) || (UINT32_MAX <? span64)
                  then fail_error StatusCode.out_of_range "encoded block too large" else
                  let prospective_entries := len (ps_active_index state) + 1 in
                  if (index_begin v <? ps_data_end state) ||
                     (u64 (index_begin v - ps_data_end state) <? span64) ||
                     (vh_index_region_size v / kIndexEntryEncodedSize <? prospective_entries)
                  then fail_error StatusCode.internal_error
                         "builder capacity was not reserved before accepting records" else
                  let block := make_block s state selected selected_version payload span64 in
                  let frame := encode_block_header block ++ payload in
                  status ← storage_write
                    (u64 (partition_base v (ph_slot (ps_header state)) + ps_data_end state))
                    frame;
                  check_or_fail status;;
                  let entry := make_entry block (ps_data_end state) frame_size64 span64 in
                  modify (update_active (push_block block entry span64));;
                  modify (fun s => s <| metrics ::= set published_blocks inc |>
                    <| metrics ::= fun m =>
                         m <| stored_block_bytes ::= fun x => u64 (x + len frame) |> |>
                    <| metrics ::= fun m =>
                         m <| raw_block_bytes ::= fun x => u64 (x + len (builder s)) |> |>
                    <| dirty := true |> <| builder := [] |> <| builder_records := 0 |>
                    <| builder_flags := 0 |>)
              end
          end
      end
  end.

(** ** Public operations *)

Definition check_writer : P unit :=
  s ← get;
  if negb (writable s) then throw_error StatusCode.io_error "store is read-only" else
  if closed s then throw_error StatusCode.closed "store is closed" else
  if faulted s then throw (fault_status s) else mret tt.

Definition contract_mismatch (options : PartitionOptions) (expected : AppendContract) : bool :=
  negb (po_record_format_id options =? ac_record_format_id expected) ||
  negb (po_record_format_version options =? ac_record_format_version expected) ||
  negb (po_time_domain_id options =? ac_time_domain_id expected).

(** The time-anomaly diagnosis of a record against the previous one. *)
Definition time_anomaly (s : Impl T) (options : PartitionOptions) (time : Z) : bool :=
  have_last_time s &&
  (((time <? last_time s) &&
    delta_exceeds time (last_time s) (po_allowed_backward_skew_ns options)) ||
   ((last_time s <? time) &&
    delta_exceeds (last_time s) time (po_allowed_forward_step_ns options))).

Definition record_block_flags (record_flags : Z) (anomaly : bool) : Z :=
  let flags := Z.land record_flags 0xffff0000 in
  let flags := if negb (Z.land record_flags kRecordFlagUnsynchronizedTime =? 0)
               then Z.lor flags kBlockFlagUnsynchronizedTime else flags in
  if anomaly then Z.lor flags kBlockFlagTimeAnomaly else flags.

(** The record enters the builder. *)
Definition accept_record (record : bytes) (time flags : Z) (s : Impl T) : Impl T :=
  let s :=
    if len (builder s) =? 0
    then s <| builder_min_time := time |> <| builder_max_time := time |>
           <| builder_flags := flags |>
    else s <| builder_min_time ::= fun x => Z.min x time |>
           <| builder_max_time ::= fun x => Z.max x time |>
           <| builder_flags ::= fun x => Z.lor x flags |> in
  s <| builder ::= fun b => b ++ record |>
    <| builder_records ::= fun n => u32 (n + 1) |>
    <| last_time := time |> <| have_last_time := true |>
    <| metrics ::= set accepted_records inc |>
    <| metrics ::= fun m =>
         m <| accepted_payload_bytes ::= fun x => u64 (x + len record) |> |>.

Definition append_impl (record : ByteView) (time record_flags : Z)
    (expected : option AppendContract) : P unit :=
  check_writer;;
  s ← get;
  if view_empty record
  then throw_error StatusCode.invalid_argument "zero-length record is not allowed" else
  if negb (view_valid record)
  then throw_error StatusCode.invalid_argument "null non-empty record" else
  if vh_max_block_payload (volume s) <? view_size record
  then throw_error StatusCode.out_of_range "record exceeds block payload limit" else
  (if u64 (vh_max_block_payload (volume s) - len (builder s)) <? view_size record
   then emit_builder else mret tt);;
  ensure_empty_builder_capacity;;
  s ← get;
  match active s with
  | None => throw_error StatusCode.internal_error "missing active partition"
  | Some state =>
      let options := ph_options (ps_header state) in
      if match expected with Some e => contract_mismatch options e | None => false end
      then throw_error StatusCode.invalid_argument
             "active partition contract changed before append" else
      let anomaly := time_anomaly s options time in
      let flags := record_block_flags record_flags anomaly in
      when anomaly (modify (fun s => s <| metrics ::= set time_anomalies inc |>));;
      modify (accept_record (view_data record) time flags);;
      s ← get;
      if negb (have_undurable_records s) then
        t ← read_clock;
        modify (fun s => s <| have_undurable_records := true |>
                           <| oldest_undurable_record := t |>);;
        t ← read_clock;
        modify (fun s => s
          <| health ::= set health_oldest_undurable_ns (fun _ => u64 t) |>
          <| health ::= set health_have_undurable (fun _ => true) |>)
      else mret tt
  end.

Definition append (record : ByteView) (time record_flags : Z) : P unit :=
  append_impl record time record_flags None.

Definition append_checked (record : ByteView) (time : Z) (expected : AppendContract)
    (record_flags : Z) : P unit :=
  if (ac_record_format_id expected =? 0) || (ac_record_format_version expected =? 0) ||
     (ac_time_domain_id expected =? 0)
  then throw_error StatusCode.invalid_argument
         "checked append requires a nonzero partition contract" else
  append_impl record time record_flags (Some expected).

Definition publish : P unit := check_writer;; emit_builder.

Definition checkpoint : P unit :=
  check_writer;;
  emit_builder;;
  s ← get;
  if negb (dirty s) then mret tt else sync_media true.

Definition set_closed (s : Impl T) : Impl T :=
  s <| closed := true |> <| health ::= set health_closed (fun _ => true) |>.

Definition close : P unit :=
  s ← get;
  if closed s then mret tt else
  if negb (writable s) then modify set_closed else
  if faulted s then throw (fault_status s) else
  emit_builder;;
  s ← get;
  when (dirty s) (sync_media true);;
  modify set_closed.

Definition rotate (next : PartitionOptions) : P unit :=
  check_writer;;
  s ← get;
  lift_result (validate_partition_options (open_options s) next);;
  emit_builder;;
  modify (fun s => s <| next_options := next |>);;
  rotate_internal next.

Definition set_next_partition_options (options : PartitionOptions) : P unit :=
  check_writer;;
  s ← get;
  lift_result (validate_partition_options (open_options s) options);;
  modify (fun s => s <| next_options := options |>).

(** ** Observers *)

Definition info_of (state : PartitionState) : PartitionInfo :=
  mkPartitionInfo (ph_slot (ps_header state)) (ph_generation (ps_header state))
    (ps_sealed state)
    (if ps_sealed state then pf_block_count (ps_footer state) else ps_block_count state)
    (u64 (ps_data_end state - kPartitionHeaderRegionSize))
    (if ps_has_time state then ps_min_time_ns state else 0)
    (if ps_has_time state then ps_max_time_ns state else 0)
    (ps_aggregate_flags state) (ph_options (ps_header state)).

Definition inspect (s : Impl T) : VolumeInfo :=
  let v := volume s in
  mkVolumeInfo (vh_volume_size v) (vh_partition_size v) (vh_partition_count v)
    (vh_index_region_size v) (vh_max_block_payload v) (vh_persistence_quantum v)
    (vh_volume_id_high v) (vh_volume_id_low v) (map info_of (partitions s)).

Definition active_partition_info (s : Impl T) : result PartitionInfo :=
  match active s with
  | None => error StatusCode.closed "store has no active partition"
  | Some state => Ok (info_of state)
  end.

Definition get_metrics : P StoreMetrics :=
  s ← get;
  if have_undurable_records s then
    t ← read_clock;
    mret ((metrics s) <| oldest_undurable_age_ns := u64 (t - oldest_undurable_record s) |>)
  else mret (metrics s).

Definition get_health : P WriterHealth :=
  s ← get;
  let h := health s in
  age ← (if health_have_undurable h then
           t ← read_clock;
           let since := health_oldest_undurable_ns h in
           mret (if since <? u64 t then u64 t - since else 0)
         else mret 0);
  mret (mkWriterHealth (writable s) (health_closed h) (health_faulted h) (health_fault_code h)
    age (health_last_sync_ns h) (health_max_sync_ns h) (health_sync_calls h)
    (health_sync_errors h) (health_checkpoints h)).

Definition writer_status (s : Impl T) : Status :=
  if negb (writable s) then Status_Error StatusCode.invalid_argument "store is read-only" else
  if closed s then Status_Error StatusCode.closed "store is closed" else
  if faulted s then fault_status s else Status_Ok.
End Writer.
