(* ===== verification/RingReader.v ===== *)
(** * Ring store: readers

    src/ring_store.cpp lines 303-508 and 740-1004. Reads go through the
    backend, so they thread its state too. A query runs outside the writer
    mutex in the code; here it is one call, and what a concurrent writer may
    change under it is whatever the backend answers. *)

From stdpp Require Import pretty.
From S2P Require Import Prelude Status Crc32c Layout Format Codec Lz4 Storage RingTypes.
From S2P Require Import RingWriter.

Definition slot_message (prefix : string) (slot generation : Z) : string :=
  prefix +:+ " slot=" +:+ pretty slot +:+ " generation=" +:+ pretty generation.

Section Reader.
Context {T : Type} `{!Storage T}.

Abbreviation P := (prog (Impl T)).

(** A zeroed vector of [n] bytes, filled by [read_exact]. *)
Definition storage_read (offset n : Z) : P bytes := fun s =>
  let '((status, buf), st) := read_exact offset (View (zeroed n)) (storage s) in
  let s := s <| storage := st |> in
  if status_ok status then (Ok buf, s) else (Err status, s).

(** ** Partition header and footer *)

Definition check_header_identity (v : VolumeHeader) (slot : Z) (header : PartitionHeader)
    : result unit :=
  if negb (ph_volume_id_high header =? vh_volume_id_high v) ||
     negb (ph_volume_id_low header =? vh_volume_id_low v) || negb (ph_slot header =? slot) ||
     negb (ph_max_block_payload header =? vh_max_block_payload v) ||
     negb (ph_persistence_quantum header =? vh_persistence_quantum v)
  then error StatusCode.corrupt "partition identity/geometry mismatch" else Ok tt.

Definition check_feature_region (v : VolumeHeader) (f : FeatureDescriptor) : result unit :=
  if (vh_partition_size v <? fd_region_offset f) ||
     (u64 (vh_partition_size v - fd_region_offset f) <? fd_region_length f)
  then error StatusCode.corrupt "feature region outside partition" else
  if (fd_kind f =? kFeatureTimeIndex) &&
     (negb (fd_region_offset f =? index_begin v) ||
      negb (fd_region_length f =? vh_index_region_size v))
  then error StatusCode.corrupt "time-index region mismatch" else
  if negb (fd_kind f =? kFeatureCompression) && negb (fd_kind f =? kFeatureTimeIndex) &&
     negb (fd_kind f =? kFeatureRecordProfile) && negb (fd_kind f =? kFeatureIntegrity) &&
     negb (fd_region_length f =? 0)
  then error StatusCode.unsupported "unknown feature reserves media space" else Ok tt.

Fixpoint check_feature_regions (v : VolumeHeader) (fs : list FeatureDescriptor)
    : result unit :=
  match fs with
  | [] => Ok tt
  | f :: fs => check_feature_region v f ≫= fun _ => check_feature_regions v fs
  end.

Definition accept_partition_header (v : VolumeHeader) (o : OpenOptions) (slot : Z)
    (bytes : bytes) : result PartitionHeader :=
  header ← decode_partition_header bytes;
  check_header_identity v slot header ≫= fun _ =>
  validate_partition_options o (ph_options header) ≫= fun _ =>
  check_feature_regions v (ph_features header) ≫= fun _ =>
  Ok header.

Definition read_partition_header (slot : Z) : P PartitionHeader :=
  s ← get;
  bytes ← storage_read (partition_base (volume s) slot) kPartitionHeaderEncodedSize;
  lift_result (accept_partition_header (volume s) (open_options s) slot bytes).

Definition footer_bad (v : VolumeHeader) (header : PartitionHeader) (footer : PartitionFooter)
    : bool :=
  negb (pf_volume_id_high footer =? vh_volume_id_high v) ||
  negb (pf_volume_id_low footer =? vh_volume_id_low v) ||
  negb (pf_slot footer =? ph_slot header) ||
  negb (pf_generation footer =? ph_generation header) ||
  negb (pf_index_offset footer =? index_begin v) ||
  (vh_index_region_size v <? pf_index_size footer) ||
  (pf_data_end footer <? kPartitionHeaderRegionSize) ||
  (index_begin v <? pf_data_end footer) ||
  negb (pf_data_end footer mod vh_persistence_quantum v =? 0) ||
  negb (pf_index_size footer =? pf_block_count footer * kIndexEntryEncodedSize) ||
  ((pf_block_count footer =? 0) && negb (pf_data_end footer =? kPartitionHeaderRegionSize)) ||
  (negb (pf_block_count footer =? 0) && (pf_max_time_ns footer <? pf_min_time_ns footer)).

Definition accept_footer (v : VolumeHeader) (header : PartitionHeader) (bytes : bytes)
    : result PartitionFooter :=
  footer ← decode_partition_footer bytes;
  if footer_bad v header footer
  then error StatusCode.corrupt "footer identity/bounds mismatch" else Ok footer.

Definition read_footer (header : PartitionHeader) : P PartitionFooter :=
  s ← get;
  bytes ← storage_read (u64 (partition_base (volume s) (ph_slot header) +
                             footer_offset (volume s))) kPartitionFooterEncodedSize;
  lift_result (accept_footer (volume s) header bytes).

(** ** Sequential scan *)

Record ScanResult := mkScanResult {
  sc_entries : list IndexEntry; sc_data_end : Z; sc_stopped_on_corruption : bool }.

(** The chain, identity and bounds test on a decoded block header. *)
Definition block_bad (v : VolumeHeader) (header : PartitionHeader) (limit cursor
    expected_sequence expected_writer_high expected_writer_low : Z) (block : BlockHeader)
    : bool :=
  negb (bh_generation block =? ph_generation header) ||
  negb (bh_slot block =? ph_slot header) ||
  negb (bh_volume_id_low block =? vh_volume_id_low v) ||
  negb (bh_volume_id_high block =? vh_volume_id_high v) ||
  negb (bh_previous_writer_id_high block =? expected_writer_high) ||
  negb (bh_previous_writer_id_low block =? expected_writer_low) ||
  negb (bh_sequence block =? expected_sequence) ||
  (bh_record_count block =? 0) || (bh_max_time_ns block <? bh_min_time_ns block) ||
  (vh_max_block_payload v <? bh_stored_size block) ||
  (vh_max_block_payload v <? bh_raw_size block) ||
  (negb (bh_compression block =? CompressionId_none) &&
   (negb (bh_compression block =? po_compression (ph_options header)) ||
    negb (bh_compression_version block =? po_compression_version (ph_options header)))) ||
  ((bh_compression block =? CompressionId_none) &&
   (negb (bh_stored_size block =? bh_raw_size block) ||
    negb (bh_compression_version block =? 1))) ||
  negb (bh_frame_span block mod vh_persistence_quantum v =? 0) ||
  negb (cursor mod vh_persistence_quantum v =? 0) ||
  (u64 (limit - cursor) <? bh_frame_span block).

Definition span_bad (v : VolumeHeader) (block : BlockHeader) : bool :=
  match align_up (kBlockHeaderEncodedSize + bh_stored_size block) (vh_persistence_quantum v) with
  | Some expected_span => negb (bh_frame_span block =? expected_span)
  | None => true
  end.

Definition scanned_entry (cursor : Z) (block : BlockHeader) : IndexEntry :=
  mkIndexEntry cursor (u32 (kBlockHeaderEncodedSize + bh_stored_size block))
    (bh_frame_span block) (bh_sequence block) (bh_record_count block) (bh_min_time_ns block)
    (bh_max_time_ns block) (bh_flags block) (bh_raw_size block) (bh_writer_id_high block)
    (bh_writer_id_low block).

Fixpoint scan_loop (fuel : nat) (header : PartitionHeader) (limit cursor expected_sequence
    expected_writer_high expected_writer_low : Z) (entries : list IndexEntry)
    : P (option ScanResult) :=
  match fuel with
  | O => mret None
  | S fuel =>
      if u64 (cursor + kBlockHeaderEncodedSize) <=? limit then
        s ← get;
        let v := volume s in
        let stopped := mret (Some (mkScanResult entries cursor true)) in
        header_bytes ← storage_read (u64 (partition_base v (ph_slot header) + cursor))
                         kBlockHeaderEncodedSize;
        match decode_block_header header_bytes with
        | Err _ => stopped
        | Ok block =>
            if block_bad v header limit cursor expected_sequence expected_writer_high
                 expected_writer_low block
            then stopped else
            if span_bad v block then stopped else
            payload ← storage_read
              (u64 (partition_base v (ph_slot header) + cursor + kBlockHeaderEncodedSize))
              (bh_stored_size block);
            if negb (crc32c payload =? bh_payload_crc block) then stopped else
            scan_loop fuel header limit (u64 (cursor + bh_frame_span block))
              (u32 (expected_sequence + 1)) (bh_writer_id_high block) (bh_writer_id_low block)
              (entries ++ [scanned_entry cursor block])
        end
      else mret (Some (mkScanResult entries cursor false))
  end.

(** Every accepted frame spans at least a block header. *)
Definition scan_fuel (limit : Z) : nat := S (Z.to_nat (limit / kBlockHeaderEncodedSize)).

Definition scan_partition (header : PartitionHeader) (scan_limit : Z) : P ScanResult :=
  s ← get;
  let v := volume s in
  let limit := if scan_limit =? 0 then index_begin v else scan_limit in
  if (limit <? kPartitionHeaderRegionSize) || (index_begin v <? limit)
  then throw_error StatusCode.corrupt "partition scan limit outside data region" else
  r ← scan_loop (scan_fuel limit) header limit kPartitionHeaderRegionSize 0 0 0 [];
  match r with
  | Some r => mret r
  | None => throw_error StatusCode.internal_error "scan bound exhausted"
  end.

(** ** Sealed index *)

Definition index_entry_bad (v : VolumeHeader) (i expected_offset : Z) (entry : IndexEntry)
    : bool :=
  negb (ie_sequence entry =? i) || negb (ie_offset entry =? expected_offset) ||
  (ie_record_count entry =? 0) || (ie_max_time_ns entry <? ie_min_time_ns entry) ||
  (ie_frame_size entry <? kBlockHeaderEncodedSize) ||
  (u32 (kBlockHeaderEncodedSize + vh_max_block_payload v) <? ie_frame_size entry) ||
  (vh_max_block_payload v <? ie_raw_size entry) ||
  negb (ie_frame_span entry mod vh_persistence_quantum v =? 0) ||
  (u64 (index_begin v - ie_offset entry) <? ie_frame_span entry).

Fixpoint check_index (v : VolumeHeader) (i expected_offset : Z) (entries : list IndexEntry)
    : result Z :=
  match entries with
  | [] => Ok expected_offset
  | entry :: rest =>
      if index_entry_bad v i expected_offset entry
      then error StatusCode.corrupt "partition index sequence/bounds mismatch" else
      match align_up (ie_frame_size entry) (vh_persistence_quantum v) with
      | Some expected_span =>
          if negb (ie_frame_span entry =? expected_span)
          then error StatusCode.corrupt "partition index frame span mismatch"
          else check_index v (i + 1) (u64 (expected_offset + ie_frame_span entry)) rest
      | None => error StatusCode.corrupt "partition index frame span mismatch"
      end
  end.

Definition accept_index (v : VolumeHeader) (footer : PartitionFooter) (bytes : bytes)
    : result (list IndexEntry) :=
  if negb (crc32c bytes =? pf_index_crc footer)
  then error StatusCode.corrupt "partition index CRC mismatch" else
  entries ← decode_index bytes;
  if negb (len entries =? pf_block_count footer)
  then error StatusCode.corrupt "partition index count mismatch" else
  end_offset ← check_index v 0 kPartitionHeaderRegionSize entries;
  if negb (end_offset =? pf_data_end footer)
  then error StatusCode.corrupt "partition index data end mismatch" else Ok entries.

Definition load_index (state : PartitionState) : P (list IndexEntry) :=
  if negb (ps_sealed state)
  then throw_error StatusCode.invalid_argument "partition is not sealed" else
  if pf_index_size (ps_footer state) =? 0 then mret [] else
  s ← get;
  bytes ← storage_read (u64 (partition_base (volume s) (ph_slot (ps_header state)) +
                             pf_index_offset (ps_footer state)))
            (pf_index_size (ps_footer state));
  lift_result (accept_index (volume s) (ps_footer state) bytes).

(** ** Summary of a recovered index *)

Definition summarize_entry (p : PartitionState) (entry : IndexEntry) : PartitionState :=
  let p := p <| ps_aggregate_flags ::= fun x => Z.lor x (ie_flags entry) |> in
  if negb (ps_has_time p)
  then p <| ps_has_time := true |> <| ps_min_time_ns := ie_min_time_ns entry |>
         <| ps_max_time_ns := ie_max_time_ns entry |>
  else p <| ps_min_time_ns ::= fun x => Z.min x (ie_min_time_ns entry) |>
         <| ps_max_time_ns ::= fun x => Z.max x (ie_max_time_ns entry) |>.

Definition summarize (p : PartitionState) : PartitionState :=
  let p := p <| ps_aggregate_flags := 0 |> <| ps_has_time := false |>
             <| ps_block_count := u32 (len (ps_active_index p)) |> in
  foldl summarize_entry p (ps_active_index p).

(** ** Reading one block *)

Definition is_io_class (c : StatusCode.t) : bool :=
  code_eqb c StatusCode.io_error || code_eqb c StatusCode.interrupted ||
  code_eqb c StatusCode.unsupported.

Definition classify_snapshot_failure {A} (partition : PartitionState) (fallback : Status)
    : P A :=
  r ← attempt (read_partition_header (ph_slot (ps_header partition)));
  match r with
  | Ok current =>
      if negb (ph_generation current =? ph_generation (ps_header partition))
      then throw_error StatusCode.overwritten "partition changed while reading block"
      else throw fallback
  | Err status => if is_io_class (code status) then throw status else throw fallback
  end.

Definition block_identity_bad (v : VolumeHeader) (partition : PartitionState)
    (entry : IndexEntry) (block : BlockHeader) : bool :=
  negb (bh_generation block =? ph_generation (ps_header partition)) ||
  negb (bh_slot block =? ph_slot (ps_header partition)) ||
  negb (bh_sequence block =? ie_sequence entry) ||
  negb (bh_volume_id_low block =? vh_volume_id_low v) ||
  negb (bh_volume_id_high block =? vh_volume_id_high v) ||
  ((negb (ie_writer_id_high entry =? 0) || negb (ie_writer_id_low entry =? 0)) &&
   (negb (bh_writer_id_high block =? ie_writer_id_high entry) ||
    negb (bh_writer_id_low block =? ie_writer_id_low entry))).

Definition block_metadata_bad (v : VolumeHeader) (partition : PartitionState)
    (entry : IndexEntry) (block : BlockHeader) : bool :=
  let options := ph_options (ps_header partition) in
  negb (u32 (bh_stored_size block + kBlockHeaderEncodedSize) =? ie_frame_size entry) ||
  negb (bh_frame_span block =? ie_frame_span entry) ||
  (vh_max_block_payload v <? bh_raw_size block) ||
  (vh_max_block_payload v <? bh_stored_size block) ||
  (bh_record_count block =? 0) || (bh_max_time_ns block <? bh_min_time_ns block) ||
  negb (bh_record_count block =? ie_record_count entry) ||
  negb (bh_raw_size block =? ie_raw_size entry) ||
  negb (bh_min_time_ns block =? ie_min_time_ns entry) ||
  negb (bh_max_time_ns block =? ie_max_time_ns entry) ||
  negb (bh_flags block =? ie_flags entry) ||
  (negb (bh_compression block =? CompressionId_none) &&
   (negb (bh_compression block =? po_compression options) ||
    negb (bh_compression_version block =? po_compression_version options))) ||
  ((bh_compression block =? CompressionId_none) &&
   (negb (bh_stored_size block =? bh_raw_size block) ||
    negb (bh_compression_version block =? 1))).

Definition block_metadata (v : VolumeHeader) (partition : PartitionState) (entry : IndexEntry)
    (block : BlockHeader) : BlockMetadata :=
  let header := ps_header partition in
  mkBlockMetadata (ph_slot header) (ph_generation header) (bh_sequence block)
    (bh_record_count block) (bh_min_time_ns block) (bh_max_time_ns block) (bh_flags block)
    (bh_compression block) (bh_stored_size block) (bh_raw_size block)
    (u64 (partition_base v (ph_slot header) + ie_offset entry))
    (po_record_format_id (ph_options header)) (po_record_format_version (ph_options header))
    (po_time_domain_id (ph_options header)).

Definition decode_payload (o : OpenOptions) (block : BlockHeader) (stored : bytes)
    : result bytes :=
  match codec_for o (bh_compression block) (bh_compression_version block) with
  | None => error StatusCode.unsupported "block compression unavailable"
  | Some codec =>
      let '(status, out) := decompress codec (View stored) (bh_raw_size block) (Some []) in
      if negb (status_ok status) then Err status else
      let decoded := default [] out in
      if negb (len decoded =? bh_raw_size block)
      then error StatusCode.corrupt "compression codec returned wrong output size"
      else Ok decoded
  end.

(** [read_partition_header] with the generation recheck that follows it. *)
Definition recheck_generation (partition : PartitionState) (message : string) : P unit :=
  r ← attempt (read_partition_header (ph_slot (ps_header partition)));
  match r with
  | Err status => classify_snapshot_failure partition status
  | Ok current =>
      if negb (ph_generation current =? ph_generation (ps_header partition))
      then throw_error StatusCode.overwritten message
      else mret tt
  end.

Definition read_block (partition : PartitionState) (entry : IndexEntry)
    : P (BlockMetadata * bytes) :=
  let header := ps_header partition in
  recheck_generation partition
    (slot_message "partition was overwritten" (ph_slot header) (ph_generation header));;
  s ← get;
  let v := volume s in
  header_bytes ← storage_read (u64 (partition_base v (ph_slot header) + ie_offset entry))
                   kBlockHeaderEncodedSize;
  match decode_block_header header_bytes with
  | Err status => classify_snapshot_failure partition status
  | Ok block =>
      if block_identity_bad v partition entry block
      then classify_snapshot_failure partition
             (Status_Error StatusCode.corrupt "block identity disagrees with snapshot") else
      if block_metadata_bad v partition entry block
      then classify_snapshot_failure partition
             (Status_Error StatusCode.corrupt "block metadata disagrees with partition/index")
      else
      if span_bad v block
      then classify_snapshot_failure partition
             (Status_Error StatusCode.corrupt "block frame span mismatch") else
      stored ← storage_read
        (u64 (partition_base v (ph_slot header) + ie_offset entry + kBlockHeaderEncodedSize))
        (bh_stored_size block);
      recheck_generation partition "partition changed while reading block payload";;
      if negb (crc32c stored =? bh_payload_crc block)
      then classify_snapshot_failure partition
             (Status_Error StatusCode.corrupt "block payload CRC mismatch") else
      decoded ← lift_result (decode_payload (open_options s) block stored);
      mret (block_metadata v partition entry block, decoded)
  end.

(** ** Query

    [visitor] is the caller's callback with its own state [V]. A [return]
    inside the loops is [throw]; [throw Status_Ok] is an early
    [return Status::Ok();]. *)
Section Query.
Context {V : Type}.
Variable visitor : BlockEvent -> V -> bool * V.

Abbreviation Q := (prog (Impl T * V)).

Definition on_store {A} (m : P A) : Q A := fun sv =>
  let '(r, s) := m (fst sv) in (r, (s, snd sv)).
Definition visit (event : BlockEvent) : Q unit := fun sv =>
  let '(go, v) := visitor event (snd sv) in
  if go then (Ok tt, (fst sv, v)) else (Err Status_Ok, (fst sv, v)).

Definition count_gap (kind : BlockEventKind) : P unit :=
  if bool_decide (kind = overwritten_gap)
  then modify (fun s => s <| metrics ::= set overwritten_gaps inc |>)
  else modify (fun s => s <| metrics ::= set corrupt_gaps inc |>).

(** Count the gap, show it to the visitor, stop unless told otherwise. *)
Definition report_gap (options : QueryOptions) (event : BlockEvent) : Q unit :=
  on_store (count_gap (be_kind event));;
  visit event;;
  if negb (continue_on_gap options) then throw (be_detail event) else mret tt.

Definition gap_event (kind : BlockEventKind) (slot generation sequence : Z) (detail : Status)
    : BlockEvent :=
  mkBlockEvent kind
    (BlockMetadata_default <| md_partition_slot := slot |>
       <| md_partition_generation := generation |> <| md_block_sequence := sequence |>)
    [] detail.

Fixpoint report_corrupt_slots (options : QueryOptions) (slots : list Z) : Q unit :=
  match slots with
  | [] => mret tt
  | slot :: slots =>
      report_gap options (gap_event corrupt_gap slot 0 0
        (Status_Error StatusCode.corrupt "partition header is damaged"));;
      report_corrupt_slots options slots
  end.

(** Index acquisition for one snapshotted partition. *)
Record Acquired := mkAcquired {
  aq_entries : list IndexEntry;
  aq_corrupt_scan : bool;
  aq_invalid_sealed_index : bool;
  aq_rescanned_unsealed : bool;
  aq_scanned_end : Z }.

Definition rescan_after_corruption (partition : PartitionState) (rescanned : bool)
    (status : Status) : P Acquired :=
  if negb (code_eqb (code status) StatusCode.corrupt) then throw status else
  r ← scan_partition (ps_header partition)
        (if ps_sealed partition then pf_data_end (ps_footer partition) else 0);
  mret (mkAcquired (sc_entries r) (sc_stopped_on_corruption r) (ps_sealed partition) rescanned
          (sc_data_end r)).

Definition acquire_index (partition : PartitionState) : P Acquired :=
  if ps_sealed partition then
    r ← attempt (load_index partition);
    match r with
    | Ok entries => mret (mkAcquired entries false false false 0)
    | Err status => rescan_after_corruption partition false status
    end
  else if negb (len (ps_active_index partition) =? 0) ||
          (ps_data_end partition =? kPartitionHeaderRegionSize)
  then mret (mkAcquired (ps_active_index partition) false false false 0)
  else
    r ← attempt (scan_partition (ps_header partition) (ps_data_end partition));
    match r with
    | Ok r => mret (mkAcquired (sc_entries r) (sc_stopped_on_corruption r) false true
                      (sc_data_end r))
    | Err status => rescan_after_corruption partition true status
    end.

Definition invalid_prefix (partition : PartitionState) (a : Acquired) : bool :=
  let sealed_bad := ps_sealed partition &&
    (aq_invalid_sealed_index a || aq_corrupt_scan a ||
     negb (len (aq_entries a) =? pf_block_count (ps_footer partition)) ||
     (negb (aq_scanned_end a =? 0) &&
      negb (aq_scanned_end a =? pf_data_end (ps_footer partition)))) in
  let unsealed_bad := aq_rescanned_unsealed a &&
    (aq_corrupt_scan a || negb (aq_scanned_end a =? ps_data_end partition) ||
     negb (len (aq_entries a) =? ps_block_count partition)) in
  sealed_bad || unsealed_bad.

(** The block loop; [break] after an overwrite leaves it. *)
Fixpoint query_entries (all_blocks : bool) (range : TimeRange) (options : QueryOptions)
    (partition : PartitionState) (entries : list IndexEntry) : Q unit :=
  match entries with
  | [] => mret tt
  | entry :: rest =>
      if negb all_blocks &&
         negb (ranges_intersect (ie_min_time_ns entry) (ie_max_time_ns entry) range)
      then query_entries all_blocks range options partition rest else
      r ← attempt (on_store (read_block partition entry));
      match r with
      | Ok (metadata, decoded) =>
          visit (mkBlockEvent ev_data metadata decoded Status_Ok);;
          query_entries all_blocks range options partition rest
      | Err status =>
          let kind := if code_eqb (code status) StatusCode.overwritten
                      then overwritten_gap else corrupt_gap in
          report_gap options (gap_event kind (ph_slot (ps_header partition))
            (ph_generation (ps_header partition)) (ie_sequence entry) status);;
          if bool_decide (kind = overwritten_gap) then mret tt
          else query_entries all_blocks range options partition rest
      end
  end.

Definition query_partition (all_blocks : bool) (range : TimeRange) (options : QueryOptions)
    (partition : PartitionState) : Q unit :=
  let header := ps_header partition in
  if negb all_blocks && negb (tr_time_domain_id range =? 0) &&
     negb (po_time_domain_id (ph_options header) =? tr_time_domain_id range)
  then mret tt else
  a ← on_store (acquire_index partition);
  current ← attempt (on_store (read_partition_header (ph_slot header)));
  match current with
  | Err status =>
      if is_io_class (code status) then throw status else
      report_gap options (gap_event corrupt_gap (ph_slot header) (ph_generation header) 0 status)
  | Ok current =>
      if negb (ph_generation current =? ph_generation header) then
        report_gap options (gap_event overwritten_gap (ph_slot header) (ph_generation header) 0
          (Status_Error StatusCode.overwritten "partition changed while acquiring its index"))
      else
        (if invalid_prefix partition a then
           report_gap options (gap_event corrupt_gap (ph_slot header) (ph_generation header) 0
             (Status_Error StatusCode.corrupt
                (if ps_sealed partition then "sealed partition has invalid data/index prefix"
                 else "footerless partition changed after catalog snapshot")))
         else mret tt);;
        query_entries all_blocks range options partition (aq_entries a)
  end.

Fixpoint query_partitions (all_blocks : bool) (range : TimeRange) (options : QueryOptions)
    (snapshot : list PartitionState) : Q unit :=
  match snapshot with
  | [] => mret tt
  | partition :: rest =>
      query_partition all_blocks range options partition;;
      query_partitions all_blocks range options rest
  end.

Definition query_body (all_blocks : bool) (range : TimeRange) (options : QueryOptions)
    : Q unit :=
  if negb all_blocks && (tr_end_ns range <=? tr_begin_ns range)
  then throw_error StatusCode.invalid_argument "time range must be non-empty [begin,end)" else
  if negb all_blocks && (tr_time_domain_id range =? 0)
  then throw_error StatusCode.invalid_argument "time domain zero requires scan_blocks()" else
  sv ← get;
  let snapshot := sort_by_generation (partitions (fst sv)) in
  report_corrupt_slots options (corrupt_slots (fst sv));;
  query_partitions all_blocks range options snapshot.

Definition query (all_blocks : bool) (range : TimeRange) (options : QueryOptions)
    (s : Impl T) (v : V) : Status * (Impl T * V) :=
  match query_body all_blocks range options (s, v) with
  | (Ok _, sv) => (Status_Ok, sv)
  | (Err status, sv) => (status, sv)
  end.

Definition query_blocks (range : TimeRange) (options : QueryOptions) :=
  query false range options.
Definition scan_blocks (options : QueryOptions) := query true TimeRange_default options.
End Query.
End Reader.
