(* ===== verification/RingOpen.v ===== *)
(** * Ring store: format and recovery

    src/ring_store.cpp lines 1012-1324. [random] is what [random_nonzero_id]
    (a [getrandom] loop) answered. *)

From S2P Require Import Prelude Status Crc32c Layout Format Codec Lz4 Storage RingTypes.
From S2P Require Import RingWriter RingReader.

Section Open.
Context {T : Type} `{!Storage T}.
Variable now : nat -> Z.

Abbreviation P := (prog (Impl T)).

(** ** format *)

Definition format_geometry (size : Z) (o : VolumeOptions) : result Z :=
  if (size <? kVolumePrefixSize) || (vo_partition_size o =? 0) ||
     negb (is_power_of_two (vo_persistence_quantum o)) ||
     (kPartitionHeaderRegionSize <? vo_persistence_quantum o) ||
     (vo_max_block_payload o =? 0) || (vo_index_region_size o <? kIndexEntryEncodedSize) ||
     negb (kVolumePrefixSize mod vo_persistence_quantum o =? 0) ||
     negb (kPartitionHeaderRegionSize mod vo_persistence_quantum o =? 0) ||
     negb (vo_partition_size o mod vo_persistence_quantum o =? 0) ||
     negb (vo_index_region_size o mod vo_persistence_quantum o =? 0) ||
     (vo_partition_size o <? kPartitionHeaderRegionSize + kPartitionFooterRegionSize +
                             vo_index_region_size o + vo_persistence_quantum o)
  then error StatusCode.invalid_argument "invalid volume geometry" else
  let available := size - kVolumePrefixSize in
  let count64 := available / vo_partition_size o in
  if (count64 <? 2) || (UINT32_MAX <? count64)
  then error StatusCode.invalid_argument "volume needs 2..UINT32_MAX partitions" else
  match align_up (kBlockHeaderEncodedSize + vo_max_block_payload o)
          (vo_persistence_quantum o) with
  | None => error StatusCode.invalid_argument "maximum block cannot fit partition"
  | Some maximum_frame_span =>
      if vo_partition_size o - kPartitionHeaderRegionSize - kPartitionFooterRegionSize -
         vo_index_region_size o <? maximum_frame_span
      then error StatusCode.invalid_argument "maximum block cannot fit partition"
      else Ok count64
  end.

Definition format_volume_id (o : VolumeOptions) (random : result (Z * Z)) : result (Z * Z) :=
  if negb (vo_volume_id_high o =? 0) || negb (vo_volume_id_low o =? 0) then
    if negb (vo_allow_explicit_volume_id_for_testing o)
    then error StatusCode.invalid_argument
           "explicit volume ID is restricted to tests/golden vectors"
    else Ok (vo_volume_id_high o, vo_volume_id_low o)
  else random.

Definition format_header (size : Z) (o : VolumeOptions) (random : result (Z * Z))
    : result VolumeHeader :=
  count64 ← format_geometry size o;
  id ← format_volume_id o random;
  Ok (mkVolumeHeader (fst id) (snd id) size (vo_partition_size o) (u32 count64)
        (vo_index_region_size o) (vo_max_block_payload o) (vo_persistence_quantum o)
        (vo_created_time_ns o)).

Definition format (o : VolumeOptions) (random : result (Z * Z)) (st : T) : Status * T :=
  if negb (st_writable st)
  then (Status_Error StatusCode.invalid_argument "format requires writable storage", st) else
  match format_header (st_size st) o random with
  | Err status => (status, st)
  | Ok header =>
      let bytes := encode_volume_header header in
      let '(status, st) := write_exact 0 (View bytes) st in
      if negb (status_ok status) then (status, st) else
      let '(status, st) := write_exact kVolumeHeaderCopySize (View bytes) st in
      if negb (status_ok status) then (status, st) else flush st
  end.

(** ** open: the volume header *)

Definition is_io_error (c : StatusCode.t) : bool :=
  code_eqb c StatusCode.io_error || code_eqb c StatusCode.interrupted.

(** The status of one header copy: the read, then the decode. *)
Definition copy_status (io : Status * bytes) : result VolumeHeader :=
  let '(status, bytes) := io in
  if status_ok status then decode_volume_header bytes else Err status.

Definition choose_volume (first_io second_io : Status * bytes) : result VolumeHeader :=
  if negb (status_ok (fst first_io)) && negb (status_ok (fst second_io))
  then Err (fst first_io) else
  match copy_status first_io, copy_status second_io with
  | Ok first, Ok second =>
      if negb (same_volume_header first second)
      then error StatusCode.corrupt "valid volume header copies disagree"
      else Ok first
  | Ok first, Err _ => Ok first
  | Err _, Ok second => Ok second
  | Err first, Err second =>
      if code_eqb (code first) StatusCode.unsupported then Err first else
      if code_eqb (code second) StatusCode.unsupported then Err second else
      if is_io_error (code first) then Err first else
      if is_io_error (code second) then Err second else
      error StatusCode.corrupt "both volume headers are invalid"
  end.

Definition writer_id (o : OpenOptions) (random : result (Z * Z)) : result (Z * Z) :=
  if negb (oo_writer_id_high o =? 0) || negb (oo_writer_id_low o =? 0) then
    if negb (oo_allow_explicit_writer_id_for_testing o)
    then error StatusCode.invalid_argument "explicit writer ID is restricted to tests"
    else Ok (oo_writer_id_high o, oo_writer_id_low o)
  else random.

Definition initial_impl (v : VolumeHeader) (o : OpenOptions) (id : Z * Z) (st : T) : Impl T :=
  mkImpl st v o (oo_writable o) false false Status_Ok [] 0 0 (fst id) (snd id)
    (oo_next_partition o) [] 0 0 0 0 false 0 false false 0 StoreMetrics_zero []
    HealthMirror_zero 0.

(** ** open: one slot whose header is not valid *)

Definition footer_evidence (v : VolumeHeader) (slot : Z) (bytes : bytes) : bool :=
  match decode_partition_footer bytes with
  | Ok f => (pf_slot f =? slot) && (pf_volume_id_high f =? vh_volume_id_high v) &&
            (pf_volume_id_low f =? vh_volume_id_low v)
  | Err _ => false
  end.
Definition block_evidence (v : VolumeHeader) (slot : Z) (bytes : bytes) : bool :=
  match decode_block_header bytes with
  | Ok b => (bh_slot b =? slot) && (bh_volume_id_high b =? vh_volume_id_high v) &&
            (bh_volume_id_low b =? vh_volume_id_low v)
  | Err _ => false
  end.

Definition header_evidence (v : VolumeHeader) (raw : bytes) : bool :=
  bool_decide (slice 0 8 raw = kPartitionMagic) &&
  ((get64 raw 16 =? vh_volume_id_high v) && (get64 raw 24 =? vh_volume_id_low v)).

(** Does anything in the slot belong to this volume? *)
Definition damaged_evidence (v : VolumeHeader) (slot : Z) (raw : bytes) : P bool :=
  let is_zero := forallb (fun b => b =? 0) raw in
  if negb is_zero && negb (header_evidence v raw) then
    footer_bytes ← storage_read (u64 (partition_base v slot + footer_offset v))
                     kPartitionFooterEncodedSize;
    block_bytes ← storage_read (u64 (partition_base v slot + kPartitionHeaderRegionSize))
                    kBlockHeaderEncodedSize;
    mret (footer_evidence v slot footer_bytes || block_evidence v slot block_bytes)
  else mret (negb is_zero && header_evidence v raw).

Definition damaged_slot (slot : Z) (header_status : Status) : P unit :=
  if is_io_error (code header_status) then throw header_status else
  s ← get;
  let v := volume s in
  raw ← storage_read (partition_base v slot) kPartitionHeaderEncodedSize;
  evidence ← damaged_evidence v slot raw;
  if (evidence : bool) then
    if code_eqb (code header_status) StatusCode.unsupported then throw header_status else
    if oo_verify_payloads_on_open (open_options s) then throw header_status else
    modify (fun s => s <| corrupt_slots ::= fun l => l ++ [slot] |>)
  else mret tt.

(** ** open: one partition *)

(** Strict open decodes every block. *)
Fixpoint verify_blocks (state : PartitionState) (entries : list IndexEntry) : P unit :=
  match entries with
  | [] => mret tt
  | entry :: rest => read_block state entry;; verify_blocks state rest
  end.

Fixpoint same_entries (scanned indexed : list IndexEntry) : bool :=
  match scanned, indexed with
  | a :: scanned, b :: indexed => same_index_entry a b && same_entries scanned indexed
  | _, _ => true
  end.

Definition scanned_flags (l : list IndexEntry) : Z :=
  foldl (fun x e => Z.lor x (ie_flags e)) 0 l.
Definition scanned_min (l : list IndexEntry) : Z :=
  match l with
  | [] => 0
  | e :: _ => foldl (fun x e => Z.min x (ie_min_time_ns e)) (ie_min_time_ns e) l
  end.
Definition scanned_max (l : list IndexEntry) : Z :=
  match l with
  | [] => 0
  | e :: _ => foldl (fun x e => Z.max x (ie_max_time_ns e)) (ie_max_time_ns e) l
  end.

Definition verify_sealed (state : PartitionState) (footer : PartitionFooter) : P unit :=
  indexed ← load_index state;
  scan ← scan_partition (ps_header state) (pf_data_end footer);
  let scanned := sc_entries scan in
  if negb (sc_data_end scan =? pf_data_end footer) || negb (len scanned =? len indexed)
  then throw_error StatusCode.corrupt "strict sealed-partition verification failed" else
  if negb (same_entries scanned indexed)
  then throw_error StatusCode.corrupt "sealed index disagrees with block scan" else
  if negb (pf_flags footer =? scanned_flags scanned) ||
     negb (pf_min_time_ns footer =? scanned_min scanned) ||
     negb (pf_max_time_ns footer =? scanned_max scanned)
  then throw_error StatusCode.corrupt "footer summary disagrees with block scan" else
  verify_blocks state indexed.

Definition sealed_state (header : PartitionHeader) (footer : PartitionFooter)
    : PartitionState :=
  (new_partition_state header) <| ps_sealed := true |> <| ps_footer := footer |>
    <| ps_data_end := pf_data_end footer |> <| ps_aggregate_flags := pf_flags footer |>
    <| ps_block_count := pf_block_count footer |>
    <| ps_has_time := negb (pf_block_count footer =? 0) |>
    <| ps_min_time_ns := pf_min_time_ns footer |>
    <| ps_max_time_ns := pf_max_time_ns footer |>.

Definition recovered_state (header : PartitionHeader) (scan : ScanResult) : PartitionState :=
  summarize ((new_partition_state header) <| ps_active_index := sc_entries scan |>
               <| ps_data_end := sc_data_end scan |>).

Definition recover_partition (header : PartitionHeader) : P PartitionState :=
  s ← get;
  let strict := oo_verify_payloads_on_open (open_options s) in
  r ← attempt (read_footer header);
  match r with
  | Ok footer =>
      let state := sealed_state header footer in
      when strict (verify_sealed state footer);;
      mret state
  | Err status =>
      if is_io_class (code status) then throw status else
      scan ← scan_partition header 0;
      let state := recovered_state header scan in
      when strict (verify_blocks state (ps_active_index state));;
      mret state
  end.

(** Footerless partitions other than the newest drop their resident index. *)
Definition newest_generation (l : list PartitionState) : Z :=
  foldl (fun x p => Z.max x (ph_generation (ps_header p))) 0 l.
Definition trim_index (newest : Z) (p : PartitionState) : PartitionState :=
  if negb (ps_sealed p) && negb (ph_generation (ps_header p) =? newest)
  then p <| ps_active_index := [] |> else p.
Definition push_recovered (state : PartitionState) (l : list PartitionState)
    : list PartitionState :=
  let l := l ++ [state] in map (trim_index (newest_generation l)) l.

Definition open_slot (slot : Z) (generations : list Z) : P (list Z) :=
  r ← attempt (read_partition_header slot);
  match r with
  | Err status => damaged_slot slot status;; mret generations
  | Ok header =>
      if ph_generation header =? 0
      then throw_error StatusCode.corrupt "partition generation zero is reserved" else
      if bool_decide (ph_generation header ∈ generations)
      then throw_error StatusCode.corrupt "duplicate partition generation" else
      state ← recover_partition header;
      modify (fun s => s <| partitions ::= push_recovered state |>);;
      mret (ph_generation header :: generations)
  end.

(** [for (slot = 0; slot != partition_count; ++slot)]. *)
Fixpoint open_slots (slots : list Z) (generations : list Z) : P unit :=
  match slots with
  | [] => mret tt
  | slot :: rest => generations ← open_slot slot generations; open_slots rest generations
  end.

(** All but the last partition. *)
Fixpoint trim_historical (l : list PartitionState) : list PartitionState :=
  match l with
  | [] => []
  | [p] => [p]
  | p :: rest => (if negb (ps_sealed p) then p <| ps_active_index := [] |> else p)
                   :: trim_historical rest
  end.

Definition select_newest : P unit :=
  modify (fun s => s <| partitions ::= sort_by_generation |>);;
  modify (fun s => s <| partitions ::= trim_historical |>);;
  modify (fun s =>
    match last (partitions s) with
    | Some newest => s <| active_generation := ph_generation (ps_header newest) |>
                       <| active_slot := ph_slot (ps_header newest) |>
    | None => s
    end).

(** A writer continues the newest partition or starts the next one. *)
Definition start_writer : P unit :=
  s ← get;
  let o := open_options s in
  if negb (oo_writable o) then mret tt else
  if negb (len (corrupt_slots s) =? 0)
  then throw_error StatusCode.corrupt
         "writable open refuses ambiguous damaged partition headers" else
  match last (partitions s) with
  | None => create_partition now 0 1 (oo_next_partition o)
  | Some newest =>
      if ps_sealed newest then
        if ph_generation (ps_header newest) =? UINT64_MAX
        then throw_error StatusCode.generation_exhausted "partition generation exhausted" else
        create_partition now
          (u32 (ph_slot (ps_header newest) + 1) mod vh_partition_count (volume s))
          (u64 (ph_generation (ps_header newest) + 1)) (oo_next_partition o)
      else mret tt
  end.

Definition open_body : P unit :=
  s ← get;
  open_slots (seqZ 0 (vh_partition_count (volume s))) [];;
  select_newest;;
  start_writer.

(** The store on success; the backend keeps what was written either way. *)
Definition open (o : OpenOptions) (random : result (Z * Z)) (st : T) : result (Impl T) * T :=
  if oo_writable o && negb (st_writable st)
  then (error StatusCode.invalid_argument "writable open on read-only backend", st) else
  let '(first_io, st) := read_exact 0 (View (zeroed kVolumeHeaderEncodedSize)) st in
  let '(second_io, st) :=
    read_exact kVolumeHeaderCopySize (View (zeroed kVolumeHeaderEncodedSize)) st in
  match choose_volume first_io second_io with
  | Err status => (Err status, st)
  | Ok v =>
  match validate_volume_geometry v (st_size st) with
  | Err status => (Err status, st)
  | Ok _ =>
  match (if oo_writable o then
           id ← writer_id o random;
           _ ← validate_partition_options o (oo_next_partition o);
           Ok id
         else Ok (0, 0)) with
  | Err status => (Err status, st)
  | Ok id =>
      match open_body (initial_impl v o id st) with
      | (Ok _, s) => (Ok s, storage s)
      | (Err status, s) => (Err status, storage s)
      end
  end end end.
End Open.
