(* ===== verification/RingRules.v ===== *)
(** * Rules for the primitive steps of the store *)

From S2P Require Import Prelude Status Hoare Codec Storage RingTypes RingWriter RingReader.

Section Rules.
Context {T : Type} `{!Storage T}.
Variable now : nat -> Z.

Lemma wp_read_clock (Q : Z -> Impl T -> Prop) E s :
  Q (now (clock_reads s)) (s <| clock_reads ::= S |>) -> wp (read_clock now) Q E s.
Proof. done. Qed.
Lemma wp_storage_write off d (Q : Status -> Impl T -> Prop) E s :
  (forall status st, write_exact off (View d) (storage s) = (status, st) ->
     Q status (s <| storage := st |>)) -> wp (storage_write off d) Q E s.
Proof. intros H. unfold wp, storage_write. destruct (write_exact _ _ _) eqn:E0. by apply H. Qed.
Lemma wp_storage_flush (Q : Status -> Impl T -> Prop) E s :
  (forall status st, flush (storage s) = (status, st) -> Q status (s <| storage := st |>)) ->
  wp storage_flush Q E s.
Proof. intros H. unfold wp, storage_flush. destruct (flush _) eqn:E0. by apply H. Qed.
Lemma wp_storage_read off n (Q : bytes -> Impl T -> Prop) (E : Status -> Impl T -> Prop) s :
  (forall status buf st, read_exact off (View (Format.zeroed n)) (storage s) = ((status, buf), st) ->
     if status_ok status then Q buf (s <| storage := st |>)
     else E status (s <| storage := st |>)) ->
  wp (storage_read off n) Q E s.
Proof.
  intros H. unfold wp, storage_read. destruct (read_exact _ _ _) as [[status buf] st] eqn:E0.
  specialize (H _ _ _ eq_refl). by destruct (status_ok status).
Qed.

Definition faulted_with (status : Status) (s : Impl T) : Impl T :=
  s <| faulted := true |> <| fault_status := status |>
    <| health ::= set health_fault_code (fun _ => code status) |>
    <| health ::= set health_faulted (fun _ => true) |>.

Lemma wp_fail status (Q : unit -> Impl T -> Prop) (E : Status -> Impl T -> Prop) s :
  (status_ok status = true -> Q tt s) ->
  (status_ok status = false -> E status (faulted_with status s)) -> wp (fail status) Q E s.
Proof. intros H1 H2. unfold fail. destruct (status_ok status); [by apply H1|by apply H2]. Qed.
Lemma wp_fail_error c m (Q : unit -> Impl T -> Prop) (E : Status -> Impl T -> Prop) s :
  c <> StatusCode.ok -> E (Status_Error c m) (faulted_with (Status_Error c m) s) ->
  wp (fail_error c m) Q E s.
Proof.
  intros Hc HE. apply wp_fail; [|done]. intros H. by apply status_ok_Ok in H.
Qed.
Lemma wp_check_or_fail status (Q : unit -> Impl T -> Prop) (E : Status -> Impl T -> Prop) s :
  (status_ok status = true -> Q tt s) ->
  (status_ok status = false -> E status (faulted_with status s)) ->
  wp (check_or_fail status) Q E s.
Proof.
  intros H1 H2. unfold check_or_fail. destruct (status_ok status) eqn:E0; [by apply H1|].
  by apply wp_fail; [rewrite E0|intros; apply H2].
Qed.
End Rules.

Ltac ring_step :=
  lazymatch goal with
  | |- wp (read_clock _) _ _ _ => apply wp_read_clock
  | |- wp (storage_write _ _) _ _ _ => apply wp_storage_write; intros ? ? ?
  | |- wp storage_flush _ _ _ => apply wp_storage_flush; intros ? ? ?
  | |- wp (fail_error _ _) _ _ _ => apply wp_fail_error; [done|]
  | |- wp (fail _) _ _ _ => apply wp_fail; intros ?
  | |- wp (check_or_fail _) _ _ _ => apply wp_check_or_fail; intros ?
  | |- _ => wp_step
  end; cbv beta zeta.
Ltac ring_auto := repeat ring_step.
