(* ===== verification/RingHealth.v ===== *)
(** * The watchdog mirrors and the fault latch

    No assumption on the backend: whatever it answers, every writer operation
    keeps the lock-free mirrors equal to the fields they mirror, and a fault
    once recorded is returned by every later operation unchanged. *)

From S2P Require Import Prelude Status Hoare Crc32c Layout Format Codec Lz4 Storage RingTypes.
From S2P Require Import RingWriter RingReader RingRules.

Create HintDb keeps.

Section Health.
Context {T : Type} `{!Storage T}.
Variable now : nat -> Z.
Implicit Types s : Impl T.

Definition health_ok s : Prop :=
  health_closed (health s) = closed s /\
  health_faulted (health s) = faulted s /\
  (faulted s = true -> health_fault_code (health s) = code (fault_status s) /\
                       code (fault_status s) <> StatusCode.ok) /\
  health_have_undurable (health s) = have_undurable_records s /\
  health_last_sync_ns (health s) = last_sync_duration_ns (metrics s) /\
  health_max_sync_ns (health s) = max_sync_duration_ns (metrics s) /\
  health_sync_calls (health s) = sync_calls (metrics s) /\
  health_sync_errors (health s) = sync_errors (metrics s) /\
  health_checkpoints (health s) = checkpoints (metrics s).

Definition keeps {A} (m : prog (Impl T) A) : Prop :=
  forall s, health_ok s -> wp m (fun _ => health_ok) (fun _ => health_ok) s.

Lemma keeps_bind {A B} (m : prog (Impl T) A) (k : A -> prog (Impl T) B) :
  keeps m -> (forall a, keeps (k a)) -> keeps (m ≫= k).
Proof.
  intros Hm Hk s Hs. apply wp_bind. eapply wp_conseq; [by apply Hm|simpl|done].
  intros. by apply Hk.
Qed.
Lemma keeps_ret {A} (a : A) : keeps (mret a).
Proof. intros s Hs. exact Hs. Qed.
Lemma keeps_throw {A} st : keeps (throw st : prog (Impl T) A).
Proof. intros s Hs. exact Hs. Qed.
Lemma keeps_throw_error {A} c m : keeps (throw_error c m : prog (Impl T) A).
Proof. intros s Hs. exact Hs. Qed.
Lemma keeps_get : keeps get.
Proof. intros s Hs. exact Hs. Qed.
Lemma keeps_modify (f : Impl T -> Impl T) :
  (forall s, health_ok s -> health_ok (f s)) -> keeps (modify f).
Proof. intros Hf s Hs. by apply Hf. Qed.
Lemma keeps_lift {A} (r : result A) : keeps (lift_result r).
Proof. intros s Hs. destruct r; exact Hs. Qed.
Lemma keeps_when b m : keeps m -> keeps (when b m).
Proof. destruct b; [done|intros _; apply keeps_ret]. Qed.
Lemma keeps_if {A} (b : bool) (m n : prog (Impl T) A) :
  keeps m -> keeps n -> keeps (if b then m else n).
Proof. by destruct b. Qed.

Lemma keeps_read_clock : keeps (read_clock now).
Proof. intros s Hs. exact Hs. Qed.
Lemma keeps_storage_write off d : keeps (storage_write off d).
Proof.
  intros s Hs. unfold wp, storage_write. destruct (write_exact _ _ _). exact Hs.
Qed.
Lemma keeps_storage_flush : keeps storage_flush.
Proof. intros s Hs. unfold wp, storage_flush. destruct (flush _). exact Hs. Qed.

Lemma keeps_fail st : keeps (fail st).
Proof.
  unfold fail. destruct (status_ok st) eqn:E; [apply keeps_ret|]. intros s (?&?&?&?&?&?&?&?&?).
  assert (code st <> StatusCode.ok) by (intros Hc; apply status_ok_Ok in Hc; congruence).
  unfold health_ok. by repeat split.
Qed.
Lemma keeps_check_or_fail st : keeps (check_or_fail st).
Proof. unfold check_or_fail. apply keeps_if; [apply keeps_ret|apply keeps_fail]. Qed.
End Health.

#[export] Hint Resolve keeps_ret keeps_throw keeps_throw_error keeps_get keeps_lift
  keeps_read_clock keeps_storage_write keeps_storage_flush keeps_fail keeps_check_or_fail : keeps.

Ltac keeps_step :=
  lazymatch goal with
  | |- keeps (mbind _ _) => apply keeps_bind; [|intros ?]
  | |- keeps (if _ then _ else _) => apply keeps_if
  | |- keeps (when _ _) => apply keeps_when
  | |- keeps (modify _) => apply keeps_modify; intros ? (?&?&?&?&?&?&?&?&?);
      unfold health_ok; repeat split; simpl; (assumption || congruence || tauto)
  | |- keeps (match ?x with _ => _ end) => destruct x
  | |- _ => solve [auto with keeps]
  end; cbv beta zeta.
Ltac keeps_auto := repeat keeps_step.

Section HealthOps.
Context {T : Type} `{!Storage T}.
Variable now : nat -> Z.

Lemma keeps_sync_media b : keeps (sync_media (T:=T) now b).
Proof.
  intros s (?&?&Hf&?&?&?&?&?&?). unfold sync_media. ring_auto; unfold health_ok; simpl;
    try tauto.
  all: rewrite negb_true_iff in *; try congruence.
  all: repeat split; try assumption; try congruence.
  all: intros Hc; apply status_ok_Ok in Hc; congruence.
Qed.
#[local] Hint Resolve keeps_sync_media : keeps.

Lemma keeps_create_partition slot g o : keeps (create_partition (T:=T) now slot g o).
Proof. unfold create_partition. keeps_auto. Qed.
#[local] Hint Resolve keeps_create_partition : keeps.
Lemma keeps_seal : keeps (seal_active_only (T:=T) now).
Proof. unfold seal_active_only, fail_error. keeps_auto. Qed.
#[local] Hint Resolve keeps_seal : keeps.
Lemma keeps_rotate_internal o : keeps (rotate_internal (T:=T) now o).
Proof. unfold rotate_internal, fail_error. keeps_auto. Qed.
#[local] Hint Resolve keeps_rotate_internal : keeps.
Lemma keeps_ensure : keeps (ensure_empty_builder_capacity (T:=T) now).
Proof. unfold ensure_empty_builder_capacity, fail_error. keeps_auto. Qed.
#[local] Hint Resolve keeps_ensure : keeps.
Lemma keeps_emit : keeps (emit_builder (T:=T)).
Proof. unfold emit_builder, fail_error. keeps_auto. Qed.
#[local] Hint Resolve keeps_emit : keeps.
Lemma keeps_check_writer : keeps (check_writer (T:=T)).
Proof. unfold check_writer. keeps_auto. Qed.
#[local] Hint Resolve keeps_check_writer : keeps.

(** The end of an append: the undurable flag and its mirror. *)
Lemma keeps_mark_undurable : keeps (T:=T) (
  s ← get;
  if negb (have_undurable_records s) then
    t ← read_clock now;
    modify (fun s => s <| have_undurable_records := true |> <| oldest_undurable_record := t |>);;
    t ← read_clock now;
    modify (fun s => s <| health ::= set health_oldest_undurable_ns (fun _ => u64 t) |>
                       <| health ::= set health_have_undurable (fun _ => true) |>)
  else mret tt).
Proof.
  intros s (?&?&?&?&?&?&?&?&?). ring_auto; unfold health_ok; simpl; tauto.
Qed.

Lemma keeps_append_impl r t f e : keeps (append_impl (T:=T) now r t f e).
Proof.
  unfold append_impl.
  repeat (lazymatch goal with
    | |- keeps (modify (accept_record _ _ _)) => apply keeps_modify
    | |- keeps (get ≫= fun s => if negb (have_undurable_records s) then _ else _) =>
        apply keeps_mark_undurable
    | |- _ => keeps_step end).
  intros s (?&?&?&?&?&?&?&?&?). unfold accept_record. destruct (len (builder s) =? 0);
    unfold health_ok; simpl; tauto.
Qed.
#[local] Hint Resolve keeps_append_impl : keeps.

(** ** Calls on the store, in any order *)

Inductive call : Type :=
| call_append (record : ByteView) (time flags : Z)
| call_append_checked (record : ByteView) (time : Z) (expected : AppendContract) (flags : Z)
| call_publish
| call_checkpoint
| call_close
| call_rotate (next : PartitionOptions)
| call_set_next (options : PartitionOptions).

Definition run_call (c : call) : prog (Impl T) unit :=
  match c with
  | call_append r t f => append now r t f
  | call_append_checked r t e f => append_checked now r t e f
  | call_publish => publish
  | call_checkpoint => checkpoint now
  | call_close => close now
  | call_rotate o => rotate now o
  | call_set_next o => set_next_partition_options o
  end.

(** One completed call. *)
Definition call_step (s s' : Impl T) : Prop := exists c, snd (run_call c s) = s'.

Lemma keeps_run_call c : keeps (run_call c).
Proof.
  destruct c; simpl; unfold append, append_checked, publish, checkpoint, close, rotate,
    set_next_partition_options, set_closed; keeps_auto.
Qed.

Lemma health_reachable s s' : health_ok s -> rtc call_step s s' -> health_ok s'.
Proof.
  intros Hs Hr. induction Hr as [|a b d [c <-] _ IH]; [done|]. apply IH.
  pose proof (keeps_run_call c a Hs) as H. unfold wp in H.
  by destruct (run_call c a) as [[] ?].
Qed.

(** ** The fault latch *)

(** A faulted open writer answers every mutating call with the recorded
    status (argument checks aside) and does not move. *)
Lemma faulted_call c s :
  writable s = true -> closed s = false -> faulted s = true ->
  exists st, run_call c s = (Err st, s) /\
    (st = fault_status s \/ code st = StatusCode.invalid_argument).
Proof.
  intros Hw Hc Hf.
  assert (Hcw : check_writer s = (Err (fault_status s), s)).
  { unfold check_writer, mbind, prog_bind, get. by rewrite Hw, Hc, Hf. }
  assert (Hcwb : forall k : unit -> prog (Impl T) unit,
    (check_writer ≫= k) s = (Err (fault_status s), s)).
  { intros k. unfold mbind, prog_bind. by rewrite Hcw. }
  destruct c; simpl; unfold append, append_checked, publish, checkpoint, rotate,
    set_next_partition_options, append_impl; try (rewrite Hcwb; by eauto).
  - case_match; [|rewrite Hcwb; by eauto]. unfold throw_error, throw. eauto.
  - exists (fault_status s). split; [|by left].
    unfold close, mbind, prog_bind, get. by rewrite Hw, Hc, Hf.
Qed.
End HealthOps.
