(* ===== verification/RingGeometry.v ===== *)
(** * Volume geometry

    What [validate_volume_geometry] accepts, as a record of facts, and the
    region arithmetic of a partition that follows from it. *)

From S2P Require Import Prelude Status Crc32c Layout Format FormatFacts Codec Storage RingTypes.
From S2P Require Import RingOpen.

(** The span of the largest block. *)
Definition worst_span (v : VolumeHeader) : Z :=
  default 0 (align_up (kBlockHeaderEncodedSize + vh_max_block_payload v)
               (vh_persistence_quantum v)).

Record geometry_ok (v : VolumeHeader) (backend : Z) : Prop := {
  g_wf : VolumeHeader_wf v;
  g_id : ~ (vh_volume_id_high v = 0 /\ vh_volume_id_low v = 0);
  g_backend : vh_volume_size v <= backend;
  g_count : 2 <= vh_partition_count v;
  g_pow : is_power_of_two (vh_persistence_quantum v) = true;
  g_quantum : 0 < vh_persistence_quantum v <= kPartitionHeaderRegionSize;
  g_payload : 0 < vh_max_block_payload v;
  g_index : kIndexEntryEncodedSize <= vh_index_region_size v;
  g_prefix_mod : kVolumePrefixSize mod vh_persistence_quantum v = 0;
  g_header_mod : kPartitionHeaderRegionSize mod vh_persistence_quantum v = 0;
  g_partition_mod : vh_partition_size v mod vh_persistence_quantum v = 0;
  g_index_mod : vh_index_region_size v mod vh_persistence_quantum v = 0;
  g_data : kPartitionHeaderRegionSize + kPartitionFooterRegionSize + vh_index_region_size v +
           vh_persistence_quantum v <= vh_partition_size v;
  g_fits : kVolumePrefixSize + vh_partition_count v * vh_partition_size v <= vh_volume_size v;
  g_span : align_up (kBlockHeaderEncodedSize + vh_max_block_payload v)
             (vh_persistence_quantum v) = Some (worst_span v);
  g_span_fits : worst_span v <= vh_partition_size v - kPartitionHeaderRegionSize -
                  kPartitionFooterRegionSize - vh_index_region_size v }.

Lemma div_lt_iff a b c : 0 < b -> (a / b <? c) = false <-> b * c <= a.
Proof.
  intros Hb. rewrite Z.ltb_ge. pose proof (Z.div_mod a b ltac:(lia)).
  pose proof (Z.mod_pos_bound a b Hb). nia.
Qed.

(** The checks of [open] are exactly these facts. *)
Lemma validate_geometry_spec v backend :
  VolumeHeader_wf v ->
  validate_volume_geometry v backend = Ok tt <-> geometry_ok v backend.
Proof.
  intros Hwf. unfold validate_volume_geometry. split.
  - intros H. destruct (_ && _) eqn:Eid in H; [done|]. destruct (_ || _) eqn:E1 in H; [done|].
    destruct (_ || _) eqn:E2 in H; [done|].
    repeat rewrite orb_false_iff in E1. repeat rewrite orb_false_iff in E2.
    rewrite !negb_false_iff in E1.
    destruct E1 as (((((((((((?&?)&?)&?)&Hp)&?)&?)&?)&?)&?)&?)&?). destruct E2 as ((?&?)&Hc).
    destruct (align_up _ _) as [w|] eqn:Ew; [|done].
    assert (Hws : worst_span v = w) by (unfold worst_span; by rewrite Ew).
    destruct (_ <? w) eqn:E3 in H; [done|].
    assert (0 < vh_persistence_quantum v).
    { unfold is_power_of_two in Hp. apply andb_true_iff in Hp as [Hp _].
      apply negb_true_iff in Hp. pose proof (vh_wf_persistence_quantum v Hwf). zlia. }
    unfold kPartitionHeaderRegionSize, kPartitionFooterRegionSize, kVolumePrefixSize in *.
    apply div_lt_iff in Hc; [|pose proof (vh_wf_partition_size v Hwf); zlia].
    pose proof (vh_wf_max_block_payload v Hwf).
    split; try done; unfold kPartitionHeaderRegionSize, kPartitionFooterRegionSize,
      kVolumePrefixSize in *; rewrite ?Hws; (done || zlia).
  - intros []. unfold kPartitionHeaderRegionSize, kPartitionFooterRegionSize,
      kVolumePrefixSize in *. pose proof (vh_wf_index_region_size v Hwf).
    destruct (_ && _) eqn:Eid; [lia|].
    match goal with |- (if ?b then _ else _) = _ => destruct b eqn:E1 end.
    { exfalso. rewrite !orb_true_iff, !negb_true_iff in E1. rewrite g_pow0 in E1.
      assert (0 <= vh_partition_count v * vh_partition_size v) by (apply Z.mul_nonneg_nonneg; zlia). zlia. }
    match goal with |- (if ?b then _ else _) = _ => destruct b eqn:E2 end.
    { exfalso. rewrite !orb_true_iff in E2. destruct E2 as [[E2|E2]|E2]; [zlia..|].
      assert (Hx : ((vh_volume_size v - 8192) / vh_partition_size v <? vh_partition_count v) = false)
        by (apply div_lt_iff; zlia). congruence. }
    rewrite g_span0. by rewrite (proj2 (Z.ltb_ge _ _)) by lia.
Qed.

Section Regions.
Context (v : VolumeHeader) (backend : Z).
Context (Hg : geometry_ok v backend) (Hb : backend < 2 ^ 63).

Lemma quantum_pos : 0 < vh_persistence_quantum v.
Proof. apply (g_quantum v backend Hg). Qed.

Lemma index_begin_eq :
  index_begin v = vh_partition_size v - kPartitionFooterRegionSize - vh_index_region_size v.
Proof.
  destruct Hg. unfold index_begin, kPartitionFooterRegionSize, kPartitionHeaderRegionSize in *.
  pose proof (vh_wf_partition_size v g_wf0). pose proof (vh_wf_index_region_size v g_wf0).
  apply u64_small. zlia.
Qed.
Lemma footer_offset_eq : footer_offset v = vh_partition_size v - kPartitionFooterRegionSize.
Proof.
  destruct Hg. unfold footer_offset, kPartitionFooterRegionSize, kPartitionHeaderRegionSize in *.
  pose proof (vh_wf_partition_size v g_wf0). pose proof (vh_wf_index_region_size v g_wf0).
  apply u64_small. zlia.
Qed.
Lemma partition_range slot : 0 <= slot < vh_partition_count v ->
  0 <= slot * vh_partition_size v /\
  kVolumePrefixSize + slot * vh_partition_size v + vh_partition_size v <= backend.
Proof. destruct Hg. pose proof (vh_wf_partition_size v g_wf0). zunfold. nia. Qed.
Lemma partition_base_eq slot : 0 <= slot < vh_partition_count v ->
  partition_base v slot = kVolumePrefixSize + slot * vh_partition_size v.
Proof.
  intros Hs. pose proof (partition_range slot Hs). destruct Hg.
  pose proof (vh_wf_partition_size v g_wf0). unfold partition_base, kVolumePrefixSize in *.
  apply u64_small. zlia.
Qed.

(** Regions of a partition, in order. *)
Lemma regions : kPartitionHeaderRegionSize + worst_span v <= index_begin v /\
  index_begin v + vh_index_region_size v = footer_offset v /\
  footer_offset v + kPartitionFooterRegionSize = vh_partition_size v /\
  vh_partition_size v < 2 ^ 63.
Proof.
  rewrite index_begin_eq, footer_offset_eq. pose proof (partition_range 0) as H.
  destruct Hg. split_and!; try lia. unfold kVolumePrefixSize in *. lia.
Qed.

Lemma index_begin_mod : index_begin v mod vh_persistence_quantum v = 0.
Proof.
  rewrite index_begin_eq. destruct Hg. unfold kPartitionFooterRegionSize.
  pose proof quantum_pos. apply Z.mod_divide; [lia|]. apply Z.divide_sub_r.
  - apply Z.divide_sub_r; apply Z.mod_divide; (done || lia).
  - apply Z.mod_divide; (done || lia).
Qed.

Lemma worst_span_bounds :
  kBlockHeaderEncodedSize + vh_max_block_payload v <= worst_span v.
Proof.
  destruct Hg. apply (align_up_Some _ _ _) in g_span0; [lia| |lia].
  pose proof (vh_wf_max_block_payload v g_wf0). unfold kBlockHeaderEncodedSize. zlia.
Qed.

(** A block of at most the maximum payload has a span, within the worst. *)
Lemma span_of n : 0 <= n <= vh_max_block_payload v -> exists span,
  align_up (kBlockHeaderEncodedSize + n) (vh_persistence_quantum v) = Some span /\
  kBlockHeaderEncodedSize + n <= span <= worst_span v /\
  span mod vh_persistence_quantum v = 0.
Proof.
  intros Hn. pose proof quantum_pos. pose proof regions as (?&?&?&?).
  assert (Hp := vh_wf_max_block_payload v (g_wf v backend Hg)).
  assert (Hu : is_u64 (kBlockHeaderEncodedSize + n)) by (unfold kBlockHeaderEncodedSize; zlia).
  assert (Hw := g_span v backend Hg). apply align_up_Some in Hw as (?&Hwm&?);
    [|unfold kBlockHeaderEncodedSize; zlia|lia].
  destruct (align_up _ _) as [span|] eqn:E.
  - exists span. split; [done|]. pose proof E as E'.
    apply align_up_Some in E as (?&?&?); [|done|lia].
    assert (span <= worst_span v)
      by (eapply align_up_least; [exact Hu| |exact E'| |exact Hwm]; lia).
    split; [lia|done].
  - assert (2 ^ 64 <= worst_span v)
      by (eapply align_up_None; [exact Hu| |exact E| |exact Hwm]; lia). zlia.
Qed.
End Regions.

(** [format] only writes headers that [open] accepts. *)
Record VolumeOptions_wf (o : VolumeOptions) : Prop := {
  vo_wf_partition_size : is_u64 (vo_partition_size o);
  vo_wf_index_region_size : is_u32 (vo_index_region_size o);
  vo_wf_max_block_payload : is_u32 (vo_max_block_payload o);
  vo_wf_persistence_quantum : is_u32 (vo_persistence_quantum o);
  vo_wf_id_high : is_u64 (vo_volume_id_high o);
  vo_wf_id_low : is_u64 (vo_volume_id_low o);
  vo_wf_created_time_ns : is_i64 (vo_created_time_ns o) }.

Definition random_id_ok (random : result (Z * Z)) : Prop :=
  match random with
  | Ok (h, l) => is_u64 h /\ is_u64 l /\ ~ (h = 0 /\ l = 0)
  | Err e => status_ok e = false
  end.

Lemma format_header_geometry size o random v :
  is_u64 size -> VolumeOptions_wf o -> random_id_ok random ->
  format_header size o random = Ok v -> geometry_ok v size.
Proof.
  intros Hsz [] Hr H. unfold format_header in H. apply result_bind_Ok in H as (count&Hc&H).
  apply result_bind_Ok in H as ([h l]&Hid&H). injection H as <-. cbn [fst snd] in *.
  assert (Hid' : is_u64 h /\ is_u64 l /\ ~ (h = 0 /\ l = 0)).
  { unfold format_volume_id in Hid. destruct (_ || _) eqn:E.
    - case_match; [done|]. injection Hid as <- <-. split_and!; [done|done|]. lia.
    - by rewrite Hid in Hr. }
  unfold format_geometry in Hc. destruct (_ || _) eqn:E1 in Hc; [done|].
  destruct (_ || _) eqn:E2 in Hc; [done|].
  destruct (align_up _ _) as [w|] eqn:Ew; [|done].
  destruct (_ <? w) eqn:E3 in Hc; [done|]. injection Hc as <-.
  repeat rewrite orb_false_iff in E1. rewrite !negb_false_iff in E1.
  destruct E1 as ((((((((((?&?)&Hp)&?)&?)&?)&?)&?)&?)&?)&?).
  apply orb_false_iff in E2 as [Ec1 Ec2].
  assert (0 < vo_persistence_quantum o).
  { unfold is_power_of_two in Hp. apply andb_true_iff in Hp as [Hp _].
    apply negb_true_iff in Hp. zlia. }
  set (count := (size - kVolumePrefixSize) / vo_partition_size o) in *.
  assert (vo_partition_size o * count <= size - kVolumePrefixSize)
    by (apply Z.mul_div_le; zlia).
  assert (u32 count = count) as Hcount by (apply u32_small; zlia).
  unfold kPartitionHeaderRegionSize, kPartitionFooterRegionSize, kVolumePrefixSize in *.
  split; cbn; rewrite ?Hcount; try tauto;
    unfold worst_span; cbn; rewrite ?Ew; cbn; try done;
    unfold kPartitionHeaderRegionSize, kPartitionFooterRegionSize, kVolumePrefixSize in *;
    try zlia.
  split; cbn; rewrite ?Hcount; try done; zlia.
Qed.
