(* ===== verification/RingInv.v ===== *)
(** * Writer invariant

    The catalog of the active partition is contiguous, aligned and inside the
    data region; a non-empty builder always has room reserved for the worst
    block; an unfaulted store has an unsealed active partition and knows
    exactly whether something is not yet durable. *)

From S2P Require Import Prelude Status Hoare Crc32c Layout Format FormatFacts Codec PackBitsFacts.
From S2P Require Import Lz4 Lz4Facts Storage RingTypes RingWriter RingReader RingOpen RingRules.
From S2P Require Import RingGeometry.

(** ** Catalog *)

Record entry_ok (v : VolumeHeader) (i off : Z) (e : IndexEntry) : Prop := {
  eo_wf : IndexEntry_wf e;
  eo_sequence : ie_sequence e = i;
  eo_offset : ie_offset e = off;
  eo_records : 0 < ie_record_count e;
  eo_time : ie_min_time_ns e <= ie_max_time_ns e;
  eo_frame : kBlockHeaderEncodedSize < ie_frame_size e <=
             kBlockHeaderEncodedSize + vh_max_block_payload v;
  eo_raw : 0 < ie_raw_size e <= vh_max_block_payload v;
  eo_span : align_up (ie_frame_size e) (vh_persistence_quantum v) = Some (ie_frame_span e);
  eo_fits : off + ie_frame_span e <= index_begin v;
  eo_writer : is_u64 (ie_writer_id_high e) /\ is_u64 (ie_writer_id_low e) }.

Fixpoint index_ok (v : VolumeHeader) (i off : Z) (es : list IndexEntry) (data_end : Z) : Prop :=
  match es with
  | [] => off = data_end
  | e :: es => entry_ok v i off e /\ index_ok v (i + 1) (off + ie_frame_span e) es data_end
  end.

Lemma index_ok_app v i off es e data_end :
  index_ok v i off es data_end -> entry_ok v (i + len es) data_end e ->
  index_ok v i off (es ++ [e]) (data_end + ie_frame_span e).
Proof.
  revert i off. induction es as [|x es IH]; intros i off; cbn [index_ok app].
  - intros ->. rewrite len_nil, Z.add_0_r. done.
  - intros [Hx Hes] He. split; [done|]. apply IH; [done|].
    rewrite len_cons in He. by replace (i + 1 + len es) with (i + (1 + len es)) by lia.
Qed.

Lemma entry_span v i off e : entry_ok v i off e -> 0 < vh_persistence_quantum v ->
  0 < ie_frame_span e /\ ie_frame_size e <= ie_frame_span e /\
  ie_frame_span e mod vh_persistence_quantum v = 0.
Proof.
  intros [] Hq. pose proof (ie_wf_frame_size e eo_wf0).
  apply align_up_Some in eo_span0 as (?&?&?); [|zlia|done].
  unfold kBlockHeaderEncodedSize in *. lia.
Qed.

Lemma index_ok_bounds v i off es data_end :
  0 < vh_persistence_quantum v -> off mod vh_persistence_quantum v = 0 -> off <= index_begin v ->
  index_ok v i off es data_end ->
  off <= data_end <= index_begin v /\ data_end mod vh_persistence_quantum v = 0.
Proof.
  intros Hq. revert i off. induction es as [|e es IH]; intros i off Hm Hle H; cbn [index_ok] in H.
  - subst. split; [lia|done].
  - destruct H as [He Hes]. pose proof (entry_span _ _ _ _ He Hq) as (?&_&Hsm).
    pose proof (eo_fits _ _ _ _ He). apply IH in Hes as [? ?]; [split; [lia|done]| |lia].
    rewrite Z.add_mod, Hm, Hsm by lia. done.
Qed.

(** ** Options, codecs *)

Definition options_ok (o : OpenOptions) (p : PartitionOptions) : Prop :=
  PartitionOptions_wf p /\ po_compression_version p <> 0 /\
  validate_partition_options o p = Ok tt.

Lemma built_in_codec_laws id c : built_in_codec id = Some c -> CodecLaws c.
Proof.
  unfold built_in_codec. intros H. repeat case_match; simplify_eq; apply _.
Qed.

Lemma codec_for_laws o id version c :
  Forall CodecLaws (oo_compression_codecs o) -> codec_for o id version = Some c ->
  CodecLaws c /\ codec_id c = id /\ codec_version c = version.
Proof.
  intros Hc H. unfold codec_for in H.
  assert (Hreg : List.find (codec_matches id version) (oo_compression_codecs o) = Some c ->
    CodecLaws c /\ codec_id c = id /\ codec_version c = version).
  { intros Hf. apply find_some in Hf as [Hin Hm]. rewrite Forall_forall in Hc.
    split; [by apply Hc, list_elem_of_In|]. unfold codec_matches in Hm. lia. }
  destruct (built_in_codec id) as [b|] eqn:Eb; [|by apply Hreg].
  destruct (Z.eqb_spec (codec_version b) version); [|by apply Hreg]. simplify_eq.
  split; [by apply (built_in_codec_laws id)|]. split; [|done].
  unfold built_in_codec in Eb. repeat (case_match; simplify_eq); simpl; lia.
Qed.

Lemma options_ok_codec o p : options_ok o p ->
  exists c, codec_for o (po_compression p) (po_compression_version p) = Some c.
Proof.
  intros (_&_&H). unfold validate_partition_options in H.
  destruct (codec_for _ _ _) as [c|]; [by exists c|done].
Qed.

(** With lawful codecs the payload selection never fails, and never grows. *)
Lemma select_payload_ok c raw id :
  CodecLaws c -> codec_id c = id -> bytes_ok raw -> raw <> [] -> len raw < 2 ^ 32 ->
  exists sel ver payload, select_payload c id raw = Ok (sel, ver, payload) /\
    bytes_ok payload /\ payload <> [] /\ len payload <= len raw /\
    ((sel = CompressionId_none /\ ver = 1 /\ payload = raw) \/
     (sel = id /\ sel <> CompressionId_none /\ ver = codec_version c /\
      forall old, decompress c (View payload) (len raw) (Some old) = (Status_Ok, Some raw))).
Proof.
  intros Hc Hid Hok Hne Hlen. unfold select_payload.
  assert (Hraw : exists sel ver payload, Ok (CompressionId_none, 1, raw) = Ok (sel, ver, payload) /\
    bytes_ok payload /\ payload <> [] /\ len payload <= len raw /\
    ((sel = CompressionId_none /\ ver = 1 /\ payload = raw) \/
     (sel = id /\ sel <> CompressionId_none /\ ver = codec_version c /\
      forall old, decompress c (View payload) (len raw) (Some old) = (Status_Ok, Some raw)))).
  { exists CompressionId_none, 1, raw. split_and!; [done|done|done|lia|by left]. }
  destruct (Z.eqb_spec id CompressionId_none); cbn [negb]; [done|].
  destruct (codec_roundtrip raw [] [] Hok Hlen) as (enc&Hcomp&Henc&Hmax&Hnil&Hdec).
  rewrite Hcomp. simpl. rewrite (proj2 (Z.ltb_ge _ _)) by lia.
  assert (0 < len enc) by (destruct enc; [by destruct (Hnil Hne)|len_lia]).
  rewrite (proj2 (Z.eqb_neq (len enc) 0)) by lia.
  destruct (Z.ltb_spec (len enc) (len raw)); [|done].
  exists id, (codec_version c), enc. split_and!; [done|done|by apply Hnil|lia|]. right.
  split_and!; [done..|]. intros old. by destruct (codec_roundtrip raw [] old Hok Hlen)
    as (enc'&Hcomp'&_&_&_&Hdec'); rewrite Hcomp in Hcomp'; simplify_eq.
Qed.

(** ** Lookups *)

Lemma find_update_first {A} (p : A -> bool) (f : A -> A) l x :
  (forall y, p (f y) = p y) -> List.find p l = Some x ->
  List.find p (update_first p f l) = Some (f x).
Proof.
  intros Hf. induction l as [|y l IH]; simpl; [done|]. destruct (p y) eqn:E; simpl.
  - intros [= ->]. by rewrite Hf, E.
  - rewrite E. apply IH.
Qed.

Lemma find_unique {A} (p : A -> bool) l x :
  In x l -> p x = true -> (forall y, In y l -> p y = true -> y = x) -> List.find p l = Some x.
Proof.
  induction l as [|y l IH]; simpl; [done|]. intros Hin Hp Hu. destruct (p y) eqn:E.
  - f_equal. apply Hu; auto.
  - destruct Hin as [->|Hin]; [congruence|]. apply IH; auto.
Qed.

Lemma in_insert_by_generation p x l : In x (insert_by_generation p l) <-> x = p \/ In x l.
Proof.
  induction l as [|y l IH]; simpl; [naive_solver|]. case_match; simpl; [naive_solver|].
  rewrite IH. naive_solver.
Qed.
Lemma in_sort_by_generation x l : In x (sort_by_generation l) <-> In x l.
Proof.
  unfold sort_by_generation.
  assert (H : forall acc, In x (foldl (fun acc p => insert_by_generation p acc) acc l) <->
    In x acc \/ In x l).
  { induction l as [|y l IH]; intros acc; simpl; [naive_solver|].
    rewrite IH, in_insert_by_generation. naive_solver. }
  rewrite H. naive_solver.
Qed.

(** ** Partition state *)

(** The running summary of the index. *)
Record summary_ok (p : PartitionState) : Prop := {
  so_flags : ps_aggregate_flags p = scanned_flags (ps_active_index p);
  so_has : ps_has_time p = negb (len (ps_active_index p) =? 0);
  so_min : ps_active_index p <> [] -> ps_min_time_ns p = scanned_min (ps_active_index p);
  so_max : ps_active_index p <> [] -> ps_max_time_ns p = scanned_max (ps_active_index p) }.

Lemma scanned_flags_snoc l e : scanned_flags (l ++ [e]) = Z.lor (scanned_flags l) (ie_flags e).
Proof. unfold scanned_flags. by rewrite foldl_app. Qed.
Lemma scanned_min_snoc l e : scanned_min (l ++ [e]) =
  if len l =? 0 then ie_min_time_ns e else Z.min (scanned_min l) (ie_min_time_ns e).
Proof.
  destruct l as [|x l]; [simpl; lia|]. rewrite (proj2 (Z.eqb_neq _ _)) by len_lia.
  cbn [app scanned_min]. rewrite <- (foldl_snoc (fun x e => Z.min x (ie_min_time_ns e))). done.
Qed.
Lemma scanned_max_snoc l e : scanned_max (l ++ [e]) =
  if len l =? 0 then ie_max_time_ns e else Z.max (scanned_max l) (ie_max_time_ns e).
Proof.
  destruct l as [|x l]; [simpl; lia|]. rewrite (proj2 (Z.eqb_neq _ _)) by len_lia.
  cbn [app scanned_max]. rewrite <- (foldl_snoc (fun x e => Z.max x (ie_max_time_ns e))). done.
Qed.

Record header_ok (v : VolumeHeader) (o : OpenOptions) (h : PartitionHeader) : Prop := {
  ho_high : ph_volume_id_high h = vh_volume_id_high v;
  ho_low : ph_volume_id_low h = vh_volume_id_low v;
  ho_generation : is_u64 (ph_generation h) /\ ph_generation h <> 0;
  ho_slot : 0 <= ph_slot h < vh_partition_count v;
  ho_options : options_ok o (ph_options h) }.

Record pstate_ok (v : VolumeHeader) (o : OpenOptions) (p : PartitionState) : Prop := {
  po_header : header_ok v o (ps_header p);
  po_index : index_ok v 0 kPartitionHeaderRegionSize (ps_active_index p) (ps_data_end p);
  po_room : len (ps_active_index p) <= vh_index_region_size v / kIndexEntryEncodedSize;
  po_count : ps_block_count p = len (ps_active_index p);
  po_summary : summary_ok p }.

(** Space for one more block of any size. *)
Definition room (v : VolumeHeader) (p : PartitionState) : Prop :=
  worst_span v <= index_begin v - ps_data_end p /\
  len (ps_active_index p) + 1 <= vh_index_region_size v / kIndexEntryEncodedSize.

Section Inv.
Context {T : Type} `{!Storage T, !StorageModel T}.
Implicit Types s : Impl T.

Definition builder_ok s (p : PartitionState) : Prop :=
  bytes_ok (builder s) /\ len (builder s) <= vh_max_block_payload (volume s) /\
  (builder s <> [] ->
    room (volume s) p /\ 1 <= builder_records s <= len (builder s) /\
    is_i64 (builder_min_time s) /\ is_i64 (builder_max_time s) /\
    builder_min_time s <= builder_max_time s /\ is_u32 (builder_flags s)) /\
  (builder s = [] -> builder_records s = 0).

Record wbase s : Prop := {
  w_st : st_wf (storage s);
  w_geo : geometry_ok (volume s) (st_size (storage s));
  w_span32 : worst_span (volume s) <= UINT32_MAX;
  w_codecs : Forall CodecLaws (oo_compression_codecs (open_options s));
  w_next : options_ok (open_options s) (next_options s);
  w_writer : is_u64 (writer_id_high s) /\ is_u64 (writer_id_low s) /\
             ~ (writer_id_high s = 0 /\ writer_id_low s = 0) }.

Record winv s : Prop := {
  w_base : wbase s;
  w_active : exists p, active s = Some p /\ pstate_ok (volume s) (open_options s) p /\
             (faulted s = false -> ps_sealed p = false) /\ builder_ok s p;
  w_undurable : faulted s = false ->
    have_undurable_records s = negb (len (builder s) =? 0) || dirty s;
  w_durable : faulted s = false -> have_undurable_records s = false ->
    durable_records (metrics s) = accepted_records (metrics s) /\
    durable_blocks (metrics s) = published_blocks (metrics s) }.

(** Fields the media and accounting steps leave alone. *)
Record core_eq s s' : Prop := {
  c_volume : volume s' = volume s;
  c_options : open_options s' = open_options s;
  c_writable : writable s' = writable s;
  c_closed : closed s' = closed s;
  c_partitions : partitions s' = partitions s;
  c_corrupt : corrupt_slots s' = corrupt_slots s;
  c_generation : active_generation s' = active_generation s;
  c_slot : active_slot s' = active_slot s;
  c_high : writer_id_high s' = writer_id_high s;
  c_low : writer_id_low s' = writer_id_low s;
  c_next : next_options s' = next_options s;
  c_builder : builder s' = builder s;
  c_records : builder_records s' = builder_records s;
  c_flags : builder_flags s' = builder_flags s;
  c_min : builder_min_time s' = builder_min_time s;
  c_max : builder_max_time s' = builder_max_time s;
  c_accepted : accepted_records (metrics s') = accepted_records (metrics s);
  c_published : published_blocks (metrics s') = published_blocks (metrics s) }.

Lemma core_eq_refl s : core_eq s s.
Proof. by split. Qed.
Lemma core_eq_trans a b c : core_eq a b -> core_eq b c -> core_eq a c.
Proof. intros [] []. split; congruence. Qed.
Lemma core_active s s' : core_eq s s' -> active s' = active s.
Proof.
  intros []. unfold active, is_active.
  by rewrite c_partitions0, c_generation0, c_slot0.
Qed.

(** Which media changes keep the rest of the invariant. *)
Definition media_ok s s' : Prop :=
  st_wf (storage s') /\ st_size (storage s') = st_size (storage s).

Lemma wbase_core s s' : wbase s -> core_eq s s' -> media_ok s s' -> wbase s'.
Proof.
  intros [] [] [Hm1 Hm2]. split.
  - done.
  - by rewrite c_volume0, Hm2.
  - by rewrite c_volume0.
  - by rewrite c_options0.
  - by rewrite c_options0, c_next0.
  - by rewrite c_high0, c_low0.
Qed.

Lemma winv_core s s' :
  winv s -> core_eq s s' -> media_ok s s' -> (faulted s' = false -> faulted s = false) ->
  (faulted s' = false ->
    have_undurable_records s' = negb (len (builder s) =? 0) || dirty s' /\
    (have_undurable_records s' = false ->
      durable_records (metrics s') = accepted_records (metrics s') /\
      durable_blocks (metrics s') = published_blocks (metrics s'))) ->
  winv s'.
Proof.
  intros Hw Hc [Hm1 Hm2] Hf Hu. pose proof (core_active _ _ Hc) as Ha.
  destruct Hw as [Hbase (p&Hp&Hps&Hsl&Hb) ? ?]. pose proof (wbase_core _ _ Hbase Hc (conj Hm1 Hm2)).
  destruct Hc. split.
  - done.
  - exists p. rewrite Ha, c_volume0, c_options0. split_and!; [done|done|auto|].
    unfold builder_ok in *. rewrite c_builder0, c_volume0, c_records0, c_min0, c_max0, c_flags0.
    done.
  - intros Hx. rewrite c_builder0. by apply Hu.
  - intros Hx. by apply Hu.
Qed.

Lemma st_size_eq a b : st_wf a -> st_wf b -> contents b = contents a -> st_size b = st_size a.
Proof. intros Ha Hb H. by rewrite (st_size_contents a), (st_size_contents b), H. Qed.
Lemma st_size_wrote off d a b : 0 <= off -> st_wf a -> wrote off d a b -> st_size b = st_size a.
Proof.
  intros Ho Ha (Hb&_&_&_&Hd&Hc). rewrite (st_size_contents a), (st_size_contents b), Hc by done.
  destruct Hd as [->|Hd]; [by rewrite splice_nil|by rewrite len_splice].
Qed.
End Inv.
