(* ===== verification/RingWriterFacts.v ===== *)
(** * The writer keeps its invariant

    For any backend that meets [StorageModel], every operation preserves
    [winv] on success and on every early return; the capacity check inside
    [emit_builder] is unreachable; a successful checkpoint flushed the media. *)

From S2P Require Import Prelude Status Hoare Crc32c Layout Format FormatFacts Codec PackBitsFacts.
From S2P Require Import Lz4 Lz4Facts Storage RingTypes RingWriter RingReader RingOpen RingRules.
From S2P Require Import RingGeometry RingInv RingHealth.

(** Rewrite with the fields of a [core_eq]. *)
Ltac core_rw H :=
  rewrite ?(c_volume _ _ H), ?(c_options _ _ H), ?(c_writable _ _ H), ?(c_closed _ _ H),
    ?(c_high _ _ H), ?(c_low _ _ H), ?(c_next _ _ H), ?(c_builder _ _ H), ?(c_records _ _ H),
    ?(c_flags _ _ H), ?(c_min _ _ H), ?(c_max _ _ H), ?(c_accepted _ _ H), ?(c_published _ _ H).

Section WriterFacts.
Context {T : Type} `{!Storage T, !StorageModel T}.
Variable now : nat -> Z.
Implicit Types s : Impl T.

Record synced (b : bool) s s' : Prop := {
  y_core : core_eq s s';
  y_media : media_ok s s';
  y_contents : contents (storage s') = contents (storage s);
  y_durable : durable (storage s') = contents (storage s);
  y_faulted : faulted s' = faulted s;
  y_time : have_last_time s' = have_last_time s /\ last_time s' = last_time s;
  y_dirty : dirty s' = if b then false else dirty s;
  y_undurable : have_undurable_records s' = if b then false else have_undurable_records s;
  y_metrics : durable_records (metrics s') =
      (if b then accepted_records (metrics s) else durable_records (metrics s)) /\
    durable_blocks (metrics s') =
      (if b then published_blocks (metrics s) else durable_blocks (metrics s)) }.

(** A failed step: latched, nothing but the media touched. *)
Record latched s (e : Status) s' : Prop := {
  l_core : core_eq s s';
  l_media : media_ok s s';
  l_faulted : faulted s' = true;
  l_status : fault_status s' = e }.

Lemma latched_winv s e s' : winv s -> latched s e s' -> winv s'.
Proof. intros Hw []. apply (winv_core s); try done; congruence. Qed.

Lemma sync_media_spec b s : st_wf (storage s) ->
  wp (sync_media now b) (fun _ s' => synced b s s') (latched s) s.
Proof.
  intros Hwf. unfold sync_media. ring_auto; simpl in *;
    match goal with H : flush _ = _ |- _ =>
      destruct (flush_spec _ _ _ Hwf H) as (?&?&?&?&Hd) end;
    rewrite ?negb_true_iff, ?negb_false_iff in *; try congruence;
    try match goal with H : status_ok _ = true |- _ => rewrite H in Hd end.
  all: subst; split; simpl; try done; split; simpl; try done; by apply st_size_eq.
Qed.

(** An exact write followed by its check. *)
Lemma wp_write_check {A} off d (k : prog (Impl T) A) Q E s :
  st_wf (storage s) -> bytes_ok d -> 0 <= off -> off + len d < 2 ^ 64 ->
  (forall st, wrote off d (storage s) st -> wp k Q E (s <| storage := st |>)) ->
  (forall e st n, write_exact off (View d) (storage s) = (e, st) ->
     status_ok e = false -> 0 <= n <= len d -> wrote off (takeZ n d) (storage s) st ->
     E e (faulted_with e (s <| storage := st |>))) ->
  wp (storage_write off d ≫= fun status => check_or_fail status ≫= fun _ => k) Q E s.
Proof.
  intros Hwf Hd Hoff Hov Hok Herr. apply wp_bind, wp_storage_write. intros status st Hw.
  destruct (write_exact_spec off d (storage s) Hwf Hd Hoff Hov) as (e&st'&n&Hw'&Hn&Hwr&Hall).
  rewrite Hw in Hw'. simplify_eq. apply wp_bind, wp_check_or_fail.
  - intros Hs. apply Hok. rewrite (Hall Hs), takeZ_all in Hwr by lia. done.
  - intros Hs. by apply (Herr _ _ n).
Qed.

Lemma latched_write s e off d st :
  0 <= off -> st_wf (storage s) -> wrote off d (storage s) st ->
  latched s e (faulted_with e (s <| storage := st |>)).
Proof.
  intros Ho Hwf Hw. split; try done. split; [apply Hw|].
  simpl. by apply (st_size_wrote off d).
Qed.

Lemma latched_trans s s1 e s2 : core_eq s s1 -> media_ok s s1 -> latched s1 e s2 -> latched s e s2.
Proof.
  intros Hc [? Hm] [Hc' [? Hm'] ? ?]. split; try done; [by eapply core_eq_trans|].
  split; [done|congruence].
Qed.

Record created (slot g : Z) (o : PartitionOptions) s s' : Prop := {
  cr_volume : volume s' = volume s;
  cr_options : open_options s' = open_options s;
  cr_writable : writable s' = writable s;
  cr_closed : closed s' = closed s;
  cr_partitions : partitions s' = sort_by_generation
    (List.filter (fun p => negb (ph_slot (ps_header p) =? slot)) (partitions s) ++
     [new_partition_state (make_partition_header (volume s) slot g o)]);
  cr_corrupt : corrupt_slots s' =
    List.filter (fun x => negb (x =? slot)) (corrupt_slots s);
  cr_generation : active_generation s' = g;
  cr_slot : active_slot s' = slot;
  cr_writer : writer_id_high s' = writer_id_high s /\ writer_id_low s' = writer_id_low s;
  cr_next : next_options s' = next_options s;
  cr_builder : builder s' = builder s /\ builder_records s' = builder_records s;
  cr_faulted : faulted s' = faulted s;
  cr_dirty : dirty s' = false;
  cr_undurable : have_undurable_records s' = have_undurable_records s;
  cr_metrics : accepted_records (metrics s') = accepted_records (metrics s) /\
    published_blocks (metrics s') = published_blocks (metrics s) /\
    durable_records (metrics s') = durable_records (metrics s) /\
    durable_blocks (metrics s') = durable_blocks (metrics s);
  cr_media : media_ok s s';
  cr_contents : contents (storage s') =
    splice (partition_base (volume s) slot)
      (encode_partition_header (make_partition_header (volume s) slot g o)
         (vh_partition_size (volume s)) (vh_index_region_size (volume s)))
      (contents (storage s));
  cr_durable : durable (storage s') = contents (storage s') }.

Lemma create_partition_spec slot g o s :
  st_wf (storage s) -> geometry_ok (volume s) (st_size (storage s)) ->
  0 <= slot < vh_partition_count (volume s) -> g <> 0 -> options_ok (open_options s) o ->
  wp (create_partition now slot g o) (fun _ s' => created slot g o s s') (latched s) s.
Proof.
  intros Hwf Hg Hs Hg0 (Howf&_&Hov). pose proof (st_size_bound _ Hwf) as Hb.
  pose proof (partition_range _ _ Hg slot Hs) as Hpr.
  pose proof (partition_base_eq _ _ Hg Hb slot Hs) as Hbase.
  pose proof (regions _ _ Hg Hb) as (?&?&?&?). unfold kVolumePrefixSize in *.
  pose proof (vh_wf_partition_size _ (g_wf _ _ Hg)).
  unfold create_partition. rewrite (proj2 (Z.eqb_neq g 0)) by done.
  apply wp_bind, wp_get. cbv zeta. rewrite Hov. apply wp_bind, wp_lift_result; [|done].
  intros _ _. apply wp_write_check; [done|apply encode_partition_ok|lia|..].
  { rewrite encode_partition_len. unfold kPartitionHeaderEncodedSize. zlia. }
  2:{ intros. eapply latched_write; [|done|done]. lia. }
  intros st Hw. pose proof Hw as (Hst&_&_&_&_&Hcont). apply wp_bind.
  assert (Hmed : media_ok s (s <| storage := st |>)).
  { split; [done|]. simpl. eapply st_size_wrote; [|done|done]. lia. }
  eapply wp_conseq; [by apply sync_media_spec|..].
  - intros _ s' [[] [Hm1 Hm2] Hyc Hyd Hyf _ Hydi Hyu [Hyr Hyb]]. simpl in *.
    ring_auto; split; simpl; try done; try congruence;
      try (split; [done|by simpl; rewrite Hm2; apply Hmed]);
      first [by rewrite c_partitions|by rewrite c_corrupt].
  - intros e s' Hl. eapply latched_trans; [|done|exact Hl]. by split.
Qed.

Lemma created_active slot g o s s' : created slot g o s s' ->
  active s' = Some (new_partition_state (make_partition_header (volume s) slot g o)).
Proof.
  intros []. unfold active. rewrite cr_partitions0. apply find_unique.
  - apply in_sort_by_generation, in_or_app. right. by left.
  - unfold is_active. rewrite cr_generation0, cr_slot0. simpl. by rewrite !Z.eqb_refl.
  - intros y Hy Hp. apply in_sort_by_generation, in_app_or in Hy as [Hy|[<-|[]]]; [|done].
    apply filter_In in Hy as [_ Hy]. unfold is_active in Hp. rewrite cr_slot0 in Hp.
    apply andb_true_iff in Hp as [_ Hp]. rewrite Hp in Hy. done.
Qed.

(** A fresh partition after everything was made durable. *)
Lemma created_winv slot g o s s' :
  wbase s -> created slot g o s s' -> 0 <= slot < vh_partition_count (volume s) ->
  is_u64 g -> g <> 0 -> options_ok (open_options s) o ->
  builder s = [] -> builder_records s = 0 ->
  (faulted s = false -> have_undurable_records s = false /\
    durable_records (metrics s) = accepted_records (metrics s) /\
    durable_blocks (metrics s) = published_blocks (metrics s)) ->
  winv s'.
Proof.
  intros Hb Hcr Hs Hg Hg0 Ho Hbu Hbr Hu. pose proof (created_active _ _ _ _ _ Hcr) as Hact.
  destruct Hcr. set (header := make_partition_header (volume s) slot g o) in *.
  destruct cr_builder0 as [Eb Er]. destruct cr_metrics0 as (Ea&Ep&Ed&Edb).
  destruct cr_media0 as [Hm1 Hm2]. destruct cr_writer0 as [Eh El].
  pose proof (w_geo _ Hb) as Hgeo. split.
  - destruct Hb. split; rewrite ?cr_volume0, ?cr_options0, ?Eh, ?El, ?cr_next0, ?Hm2; done.
  - exists (new_partition_state header). split_and!; [done| |done|].
    + rewrite cr_volume0, cr_options0. split; simpl; try done.
      pose proof (g_index _ _ Hgeo). apply Z.div_pos; [|done].
      unfold kIndexEntryEncodedSize in *. lia.
    + unfold builder_ok. rewrite Eb, Er, Hbu, Hbr. split_and!; try done; [constructor|].
      rewrite len_nil, cr_volume0. pose proof (g_payload _ _ Hgeo). lia.
  - rewrite cr_faulted0. intros Hf. destruct (Hu Hf) as (Hh&_).
    by rewrite cr_undurable0, Hh, Eb, Hbu, cr_dirty0.
  - rewrite cr_faulted0. intros Hf _. destruct (Hu Hf) as (_&?&?). split; congruence.
Qed.

Definition seal_fn (footer : PartitionFooter) (p : PartitionState) : PartitionState :=
  p <| ps_sealed := true |> <| ps_index_valid := true |> <| ps_footer := footer |>.

Record sealed s p s' : Prop := {
  se_core : core_eq (update_active (seal_fn (make_footer (volume s) p
    (encode_index (ps_active_index p)))) s) s';
  se_media : media_ok s s';
  se_faulted : faulted s' = faulted s;
  se_durable : durable (storage s') = contents (storage s');
  se_undurable : have_undurable_records s' = false;
  se_metrics : durable_records (metrics s') = accepted_records (metrics s') /\
    durable_blocks (metrics s') = published_blocks (metrics s');
  se_contents : let v := volume s in let idx := encode_index (ps_active_index p) in
    let base := partition_base v (ph_slot (ps_header p)) in
    contents (storage s') =
      splice (base + footer_offset v) (encode_partition_footer (make_footer v p idx))
        (splice (base + index_begin v) idx (contents (storage s))) }.

(** The index of the active partition fits its region. *)
Lemma index_fits s p : wbase s -> pstate_ok (volume s) (open_options s) p ->
  len (encode_index (ps_active_index p)) <= vh_index_region_size (volume s).
Proof.
  intros Hb Hp. rewrite encode_index_len. pose proof (po_room _ _ _ Hp).
  unfold kIndexEntryEncodedSize in *.
  pose proof (Z.mul_div_le (vh_index_region_size (volume s)) 48). lia.
Qed.

(** What rotation leaves alone. *)
Record frame_eq s s' : Prop := {
  fe_volume : volume s' = volume s;
  fe_options : open_options s' = open_options s;
  fe_writable : writable s' = writable s;
  fe_closed : closed s' = closed s;
  fe_next : next_options s' = next_options s;
  fe_builder : builder s' = builder s;
  fe_faulted : faulted s' = faulted s;
  fe_accepted : accepted_records (metrics s') = accepted_records (metrics s);
  fe_published : published_blocks (metrics s') = published_blocks (metrics s) }.

Definition failed s (e : Status) s' : Prop :=
  winv s' /\ faulted s' = true /\ fault_status s' = e /\
  accepted_records (metrics s') = accepted_records (metrics s).

Lemma latched_failed s e s' : winv s -> latched s e s' -> failed s e s'.
Proof.
  intros Hw Hl. split; [by eapply latched_winv|]. split_and!; [apply Hl..|].
  apply (c_accepted _ _ (l_core _ _ _ Hl)).
Qed.

Lemma seal_spec s p :
  winv s -> faulted s = false -> builder s = [] -> active s = Some p ->
  wp (seal_active_only now) (fun _ s' => sealed s p s') (latched s) s.
Proof.
  intros Hw Hf Hbu Ha. destruct Hw as [Hb (p'&Hp'&Hps&Hsl&_) Hun Hdu].
  rewrite Ha in Hp'. injection Hp' as <-. specialize (Hsl Hf). specialize (Hun Hf).
  rewrite Hbu in Hun. simpl in Hun. specialize (Hdu Hf).
  pose proof (w_st _ Hb) as Hwf. pose proof (w_geo _ Hb) as Hg.
  pose proof (st_size_bound _ Hwf) as Hsb. pose proof (regions _ _ Hg Hsb) as (?&?&?&?).
  pose proof (ho_slot _ _ _ (po_header _ _ _ Hps)) as Hslot.
  pose proof (partition_range _ _ Hg _ Hslot) as Hpr.
  pose proof (partition_base_eq _ _ Hg Hsb _ Hslot) as Hbase.
  pose proof (index_fits s p Hb Hps) as Hfit. pose proof (worst_span_bounds _ _ Hg).
  pose proof (g_payload _ _ Hg). pose proof (vh_wf_index_region_size _ (g_wf _ _ Hg)).
  unfold kVolumePrefixSize, kPartitionHeaderRegionSize, kPartitionFooterRegionSize,
    kBlockHeaderEncodedSize in *.
  unfold seal_active_only. apply wp_bind, wp_get. rewrite Ha, Hsl. cbv zeta.
  set (v := volume s) in *. set (idx := encode_index (ps_active_index p)) in *.
  set (footer := make_footer v p idx). apply wp_bind.
  (* the first flush, if needed *)
  assert (Hfirst : wp (when (dirty s) (sync_media now true))
    (fun _ s1 => core_eq s s1 /\ media_ok s s1 /\ contents (storage s1) = contents (storage s) /\
       faulted s1 = faulted s /\ have_undurable_records s1 = false /\
       durable_records (metrics s1) = accepted_records (metrics s1) /\
       durable_blocks (metrics s1) = published_blocks (metrics s1)) (latched s) s).
  { apply wp_when.
    - intros Hd. eapply wp_conseq; [by apply sync_media_spec| |done].
      intros _ s1 [Hc Hm Hco _ Hfa _ _ Hu [Hr Hbl]]. split_and!; try done.
      + rewrite Hr. symmetry. apply Hc.
      + rewrite Hbl. symmetry. apply Hc.
    - intros Hd. rewrite Hd in Hun. destruct (Hdu Hun). by split_and!. }
  eapply wp_conseq; [exact Hfirst| |done].
  intros _ s1 (Hc1&Hm1&Hco1&Hfa1&Hu1&Hr1&Hbl1).
  rewrite (proj2 (Z.ltb_ge _ _)) by lia.
  rewrite !u64_small by zlia. destruct Hm1 as [Hwf1 Hsz1].
  assert (Hlc : forall st, st_wf st -> len (contents st) = st_size st)
    by (intros; by rewrite st_size_contents).
  (* the index, if there is one *)
  assert (Hidx : wp (if negb (len idx =? 0)
      then status ← storage_write (partition_base v (ph_slot (ps_header p)) + index_begin v) idx;
           check_or_fail status else mret tt)
    (fun _ s2 => exists st, s2 = s1 <| storage := st |> /\
      wrote (partition_base v (ph_slot (ps_header p)) + index_begin v) idx (storage s1) st)
    (latched s) s1).
  { apply wp_if.
    - intros _. apply wp_bind, wp_storage_write. intros status st Hws.
      destruct (write_exact_spec (partition_base v (ph_slot (ps_header p)) + index_begin v) idx
        (storage s1) Hwf1 (encode_index_ok _)) as (e&st'&n&Hw'&Hn&Hwr&Hall); [lia|lia|].
      rewrite Hws in Hw'. simplify_eq. apply wp_check_or_fail; intros Hst.
      + rewrite (Hall Hst), takeZ_all in Hwr by lia. by exists st'.
      + eapply latched_trans; [exact Hc1|by split|]. eapply latched_write; [|done|exact Hwr]. lia.
    - intros Hz. apply negb_false_iff, Z.eqb_eq, len_zero_nil in Hz. rewrite Hz.
      exists (storage s1). split; [by destruct s1|]. apply wrote_nil; (done || lia). }
  apply wp_bind. eapply wp_conseq; [exact Hidx| |done]. intros _ s2 (st2&->&Hw2).
  pose proof Hw2 as (Hwf2&_&_&_&_&Hco2).
  assert (Hsz2 : st_size st2 = st_size (storage s1))
    by (eapply st_size_wrote; [|done|exact Hw2]; lia).
  assert (Hfl : len (encode_partition_footer footer) = 256) by apply encode_footer_len.
  (* the footer *)
  apply wp_write_check; [done|apply encode_footer_ok|zlia|zlia|..].
  2:{ intros e st n _ He Hn Hwr. eapply latched_trans; [exact Hc1|by split|].
      eapply latched_trans; [| |eapply latched_write; [|done|exact Hwr]; zlia].
      - by split.
      - by split. }
  intros st3 Hw3. pose proof Hw3 as (Hwf3&_&_&_&_&Hco3). simpl in Hco3.
  assert (Hsz3 : st_size st3 = st_size st2)
    by (eapply st_size_wrote; [|exact Hwf2|exact Hw3]; zlia).
  apply wp_bind. eapply wp_conseq; [by apply sync_media_spec|..].
  - intros _ s4 [Hc4 [Hm4 Hsz4] Hyc Hyd Hyf _ Hydi Hyu [Hyr Hyb]]. simpl in *.
    apply wp_modify. split; simpl.
    + destruct Hc1, Hc4. simpl in *. unfold update_active.
      split; simpl; try congruence. rewrite c_partitions0, c_partitions.
      unfold is_active. by rewrite c_generation0, c_generation, c_slot0, c_slot.
    + split; simpl; [done|congruence].
    + congruence.
    + by rewrite Hyd.
    + by rewrite Hyu.
    + rewrite Hyr, Hyb, (c_accepted _ _ Hc4), (c_published _ _ Hc4). done.
    + rewrite Hyc, Hco3, Hco2, Hco1. done.
  - intros e s4 Hl. eapply latched_trans; [| |exact Hl].
    + by destruct Hc1; split.
    + split; simpl; [done|congruence].
Qed.

Lemma sealed_active s p s' : active s = Some p -> sealed s p s' ->
  active s' = Some (seal_fn (make_footer (volume s) p (encode_index (ps_active_index p))) p).
Proof.
  intros Ha [Hc _ _ _ _ _ _]. rewrite (core_active _ _ Hc).
  unfold active, update_active. simpl.
  apply (find_update_first (is_active s)); [|done]. intros y. done.
Qed.

Lemma sealed_base s p s' : winv s -> sealed s p s' -> wbase s'.
Proof.
  intros Hw [Hc [Hm1 Hm2] _ _ _ _ _]. destruct (w_base _ Hw).
  split; core_rw Hc; rewrite ?Hm2; done.
Qed.

(** Sealed but then faulted: still consistent. *)
Lemma sealed_latched s p s1 e s2 :
  winv s -> active s = Some p -> sealed s p s1 -> latched s1 e s2 -> failed s e s2.
Proof.
  intros Hw Ha Hse [Hc2 Hm2 Hf2 Hst2]. pose proof (sealed_base _ _ _ Hw Hse) as Hb1.
  pose proof (sealed_active _ _ _ Ha Hse) as Ha1.
  pose proof (se_core _ _ _ Hse) as Hc1. split.
  2:{ split_and!; try done. core_rw Hc2. core_rw Hc1. done. }
  destruct Hw as [Hb (p'&Hp'&Hps&_&Hbu) _ _]. rewrite Ha in Hp'. injection Hp' as <-.
  split; [by eapply wbase_core| |congruence..].
  rewrite (core_active _ _ Hc2), Ha1. eexists. split; [reflexivity|].
  split_and!; [|congruence|].
  - core_rw Hc2. core_rw Hc1. by destruct Hps as [? ? ? ? []].
  - unfold builder_ok, room in *. core_rw Hc2. core_rw Hc1. done.
Qed.

Lemma next_slot_range v b slot : geometry_ok v b ->
  0 <= u32 (slot + 1) mod vh_partition_count v < vh_partition_count v.
Proof. intros Hg. apply Z.mod_pos_bound. pose proof (g_count _ _ Hg). lia. Qed.

Lemma fresh_room v b header : geometry_ok v b -> b < 2 ^ 63 ->
  room v (new_partition_state header).
Proof.
  intros Hg Hb. pose proof (regions _ _ Hg Hb) as (?&_). split; simpl; [lia|].
  pose proof (g_index _ _ Hg). unfold kIndexEntryEncodedSize in *.
  assert (1 <= vh_index_region_size v / 48) by (apply Z.div_le_lower_bound; lia).
  rewrite len_nil. lia.
Qed.

(** The seal of [p] and the creation of the next partition, in sequence. *)
Definition turned (o : PartitionOptions) s s' : Prop :=
  exists p s1 s2, active s = Some p /\ sealed s p s1 /\
    created (u32 (ph_slot (ps_header p) + 1) mod vh_partition_count (volume s))
      (ph_generation (ps_header p) + 1) o s1 s2 /\
    ph_generation (ps_header p) <> UINT64_MAX /\
    s' = s2 <| metrics ::= set rotations inc |>.

Definition rotated (o : PartitionOptions) s s' : Prop :=
  winv s' /\ frame_eq s s' /\ durable (storage s') = contents (storage s') /\ turned o s s' /\
  exists p', active s' = Some p' /\ room (volume s') p'.

Lemma rotate_internal_spec o s :
  winv s -> faulted s = false -> builder s = [] -> options_ok (open_options s) o ->
  wp (rotate_internal now o) (fun _ s' => rotated o s s') (failed s) s.
Proof.
  intros Hw Hf Hbu Ho. pose proof (w_active _ Hw) as (p&Ha&Hps&_&Hbok).
  pose proof (po_header _ _ _ Hps) as Hh. destruct (ho_generation _ _ _ Hh) as [Hgu _].
  pose proof (w_geo _ (w_base _ Hw)) as Hg.
  unfold rotate_internal. apply wp_bind, wp_get. rewrite Ha. apply wp_if; intros Hmax.
  { apply wp_fail_error; [done|]. apply (latched_failed s); [done|]. split; try done.
    split; [apply (w_st _ (w_base _ Hw))|done]. }
  apply Z.eqb_neq in Hmax. apply wp_bind. eapply wp_conseq; [by apply (seal_spec s p)|..].
  2:{ intros e s1 Hl. by apply (latched_failed s). }
  intros ? s1 Hse. cbv zeta. pose proof (sealed_base _ _ _ Hw Hse) as Hb1.
  pose proof (se_core _ _ _ Hse) as Hc1.
  pose proof (c_volume _ _ Hc1) as Hv. pose proof (c_options _ _ Hc1) as Hopt.
  pose proof (c_builder _ _ Hc1) as Hbu1. pose proof (c_records _ _ Hc1) as Hrec.
  simpl in Hv, Hopt, Hbu1, Hrec. assert (Hgen : u64 (ph_generation (ps_header p) + 1) =
    ph_generation (ps_header p) + 1) by (apply u64_small; zlia). rewrite Hgen.
  pose proof (next_slot_range _ _ (ph_slot (ps_header p)) Hg) as Hns.
  apply wp_bind. eapply wp_conseq.
  - apply create_partition_spec; [apply (w_st _ Hb1)|apply (w_geo _ Hb1)|by rewrite Hv|zlia|].
    by rewrite Hopt.
  - intros ? s2 Hcr. apply wp_modify.
    assert (Hw2 : winv s2).
    { eapply created_winv; [exact Hb1|exact Hcr|by rewrite Hv|zlia|zlia|by rewrite Hopt|..].
      - congruence.
      - rewrite Hrec. destruct Hbok as (_&_&_&Hr). by apply Hr.
      - intros _. split; [apply Hse|apply Hse]. }
    assert (Hroom : exists p', active s2 = Some p' /\ room (volume s2) p').
    { eexists. split; [exact (created_active _ _ _ _ _ Hcr)|]. rewrite (cr_volume _ _ _ _ _ Hcr).
      eapply fresh_room; [apply (w_geo _ Hb1)|apply st_size_bound, (w_st _ Hb1)]. }
    split_and!.
    + eapply winv_core; [exact Hw2|by split|split; [apply (w_st _ (w_base _ Hw2))|done]|done|].
      intros Hf2. split; [by apply Hw2|]. intros Hu. by apply (w_durable _ Hw2).
    + pose proof (se_faulted _ _ _ Hse). destruct Hcr as [? ? ? ? _ _ _ _ _ ? [? _] ? _ _ (?&?&_) _ _ _].
      split; simpl; first [congruence|etrans; [eassumption|]; core_rw Hc1; done].
    + apply Hcr.
    + by exists p, s1, s2.
    + exact Hroom.
  - intros e s2 Hl. by apply (sealed_latched s p s1).
Qed.

Lemma frame_eq_refl s : frame_eq s s.
Proof. by split. Qed.

(** After the capacity check an accepted record has a block to go to. *)
(** The active partition may not take another worst-case block. *)
Definition full s : Prop := forall p, active s = Some p -> ~ room (volume s) p.

Lemma ensure_spec s : winv s -> faulted s = false ->
  wp (ensure_empty_builder_capacity now)
    (fun _ s' => winv s' /\ frame_eq s s' /\
      (s' = s \/ builder s = [] /\ full s /\ rotated (next_options s) s s') /\
      exists p', active s' = Some p' /\ room (volume s') p')
    (failed s) s.
Proof.
  intros Hw Hf. pose proof (w_active _ Hw) as (p&Ha&Hps&_&Hbok).
  pose proof (w_geo _ (w_base _ Hw)) as Hg. pose proof (w_st _ (w_base _ Hw)) as Hwf.
  pose proof (st_size_bound _ Hwf) as Hb. pose proof (regions _ _ Hg Hb) as (?&?&?&?).
  pose proof (worst_span_bounds _ _ Hg). pose proof (vh_wf_index_region_size _ (g_wf _ _ Hg)).
  pose proof (index_ok_bounds _ _ _ _ _ (quantum_pos _ _ Hg) (g_header_mod _ _ Hg)
    ltac:(pose proof (g_payload _ _ Hg); unfold kBlockHeaderEncodedSize in *; lia)
    (po_index _ _ _ Hps)) as [? _].
  unfold kPartitionHeaderRegionSize, kPartitionFooterRegionSize in *.
  unfold ensure_empty_builder_capacity. apply wp_bind, wp_get. apply wp_if; intros Hbe.
  { apply wp_ret. split_and!; [done|apply frame_eq_refl|by left|]. exists p. split; [done|].
    destruct Hbok as (_&_&Hne&_). apply Hne. intros E. by rewrite E in Hbe. }
  apply negb_false_iff, Z.eqb_eq, len_zero_nil in Hbe.
  rewrite Ha, (g_span _ _ Hg). cbv zeta. unfold kPartitionHeaderRegionSize.
  rewrite !u64_small by zlia. apply wp_if; intros Hfit; [lia|].
  apply wp_if; intros Hfull.
  - eapply wp_conseq; [apply rotate_internal_spec; [done|done|done|apply (w_base _ Hw)]| |done].
    intros ? s' Hro. pose proof Hro as (?&?&?&?&?). split_and!; auto. right. split_and!; [done| |done].
    intros q Hq [? ?]. rewrite Ha in Hq. injection Hq as <-. lia.
  - apply wp_ret. split_and!; [done|apply frame_eq_refl|by left|]. exists p. split; [done|].
    split; lia.
Qed.

(** ** Publishing the builder *)

Lemma push_block_ok v o p block entry span :
  pstate_ok v o p -> room v p ->
  entry_ok v (len (ps_active_index p)) (ps_data_end p) entry ->
  ie_frame_span entry = span -> ie_flags entry = bh_flags block ->
  ie_min_time_ns entry = bh_min_time_ns block -> ie_max_time_ns entry = bh_max_time_ns block ->
  0 <= ps_data_end p + span -> ps_data_end p + span < 2 ^ 64 ->
  vh_index_region_size v < 2 ^ 32 ->
  pstate_ok v o (push_block block entry span p) /\
  ps_sealed (push_block block entry span p) = ps_sealed p /\
  ps_header (push_block block entry span p) = ps_header p /\
  ps_active_index (push_block block entry span p) = ps_active_index p ++ [entry] /\
  ps_data_end (push_block block entry span p) = ps_data_end p + span.
Proof.
  intros Hp Hr He Hsp Hfl Hmin Hmax Hd0 Hd Hirs.
  set (p' := push_block block entry span p).
  assert (Hh : ps_header p' = ps_header p /\ ps_sealed p' = ps_sealed p /\
    ps_active_index p' = ps_active_index p ++ [entry] /\
    ps_data_end p' = ps_data_end p + span /\ ps_has_time p' = true /\
    ps_block_count p' = u32 (len (ps_active_index p ++ [entry])) /\
    ps_aggregate_flags p' = Z.lor (ps_aggregate_flags p) (bh_flags block)).
  { unfold p', push_block. simpl. destruct (ps_has_time p); simpl;
      rewrite ?u64_small by zlia; done. }
  destruct Hh as (Hh&Hs&Hi&Hde&Hht&Hbc&Hfl'). split_and!; try done.
  destruct Hp as [Hph Hpi Hpr Hpc [Hsf Hsh Hsmin Hsmax]]. destruct Hr as [Hr1 Hr2].
  assert (Hcount : len (ps_active_index p ++ [entry]) = len (ps_active_index p) + 1) by len_lia.
  assert (Hirs48 : vh_index_region_size v / kIndexEntryEncodedSize < 2 ^ 32).
  { unfold kIndexEntryEncodedSize. apply Z.div_lt_upper_bound; lia. }
  split; rewrite ?Hh, ?Hi, ?Hde, ?Hbc; try done.
  - rewrite <- Hsp. by apply index_ok_app.
  - lia.
  - rewrite u32_small; [done|]. pose proof (len_nonneg (ps_active_index p)). zlia.
  - split; rewrite ?Hi, ?Hfl', ?Hht.
    + by rewrite scanned_flags_snoc, Hsf, Hfl.
    + rewrite (proj2 (Z.eqb_neq _ _)); [done|]. len_lia.
    + intros _. rewrite scanned_min_snoc. unfold p', push_block. simpl. rewrite Hsh.
      destruct (Z.eqb_spec (len (ps_active_index p)) 0); simpl; [done|].
      rewrite Hsmin, Hmin; [done|]. intros E. by rewrite E in *.
    + intros _. rewrite scanned_max_snoc. unfold p', push_block. simpl. rewrite Hsh.
      destruct (Z.eqb_spec (len (ps_active_index p)) 0); simpl; [done|].
      rewrite Hsmax, Hmax; [done|]. intros E. by rewrite E in *.
Qed.

(** What [emit_builder] computes before it writes. *)
Record emission s p (sel ver : Z) (payload : bytes) (span : Z) : Prop := {
  em_codec : exists c, CodecLaws c /\
    codec_for (open_options s) (po_compression (ph_options (ps_header p)))
      (po_compression_version (ph_options (ps_header p))) = Some c /\
    select_payload c (po_compression (ph_options (ps_header p))) (builder s) =
      Ok (sel, ver, payload);
  em_ok : bytes_ok payload;
  em_len : 0 < len payload <= len (builder s);
  em_choice : (sel = CompressionId_none /\ ver = 1 /\ payload = builder s) \/
    (sel = po_compression (ph_options (ps_header p)) /\ sel <> CompressionId_none /\
     ver = po_compression_version (ph_options (ps_header p)) /\
     exists c, codec_for (open_options s) sel ver = Some c /\ forall old,
       decompress c (View payload) (len (builder s)) (Some old) = (Status_Ok, Some (builder s)));
  em_span : align_up (kBlockHeaderEncodedSize + len payload)
              (vh_persistence_quantum (volume s)) = Some span;
  em_bounds : kBlockHeaderEncodedSize + len payload <= span <= worst_span (volume s);
  em_mod : span mod vh_persistence_quantum (volume s) = 0 }.

Lemma emission_exists s p : winv s -> active s = Some p -> builder s <> [] ->
  exists sel ver payload span, emission s p sel ver payload span.
Proof.
  intros Hw Ha Hne. destruct (w_active _ Hw) as (p'&Ha'&Hps&_&(Hok&Hmax&_&_)).
  rewrite Ha in Ha'. injection Ha' as <-.
  pose proof (w_geo _ (w_base _ Hw)) as Hg. pose proof (w_st _ (w_base _ Hw)) as Hwf.
  pose proof (vh_wf_max_block_payload _ (g_wf _ _ Hg)).
  destruct (options_ok_codec _ _ (ho_options _ _ _ (po_header _ _ _ Hps))) as [c Hc].
  destruct (codec_for_laws _ _ _ _ (w_codecs _ (w_base _ Hw)) Hc) as (Hlaw&Hid&Hver).
  destruct (select_payload_ok c (builder s) _ Hlaw Hid Hok Hne ltac:(zlia))
    as (sel&ver&payload&Hsel&Hpok&Hpne&Hplen&Hch).
  assert (0 < len payload) by (destruct payload; [done|len_lia]).
  destruct (span_of _ _ Hg (st_size_bound _ Hwf) (len payload) ltac:(lia)) as (span&Hsp&Hb&Hm).
  exists sel, ver, payload, span. split; try done; [by exists c|].
  destruct Hch as [?|(->&?&->&Hdec)]; [by left|right]. split_and!; try done.
  exists c. rewrite Hver. done.
Qed.

Lemma last_writer_ok v i off es d :
  index_ok v i off es d ->
  is_u64 (match last es with Some e => ie_writer_id_high e | None => 0 end) /\
  is_u64 (match last es with Some e => ie_writer_id_low e | None => 0 end).
Proof.
  revert i off. induction es as [|e [|e' es] IH]; intros i off H.
  - cbn. zlia.
  - destruct H as [He _]. apply (eo_writer _ _ _ _ He).
  - destruct H as [_ H]. apply (IH _ _ H).
Qed.

Section Emission.
Context s p sel ver payload span (Hw : winv s) (Ha : active s = Some p)
  (Hne : builder s <> []) (He : emission s p sel ver payload span).

Local Abbreviation v := (volume s).
Local Abbreviation block := (make_block s p sel ver payload span).
Local Abbreviation entry :=
  (make_entry block (ps_data_end p) (kBlockHeaderEncodedSize + len payload) span).

Lemma emission_facts :
  pstate_ok v (open_options s) p /\ builder_ok s p /\ room v p /\
  geometry_ok v (st_size (storage s)) /\ st_size (storage s) < 2 ^ 63 /\
  kPartitionHeaderRegionSize <= ps_data_end p <= index_begin v /\
  ps_data_end p mod vh_persistence_quantum v = 0 /\ span <= UINT32_MAX /\
  len (ps_active_index p) < 2 ^ 32.
Proof.
  destruct (w_active _ Hw) as (p'&Ha'&Hps&_&Hb). rewrite Ha in Ha'. injection Ha' as <-.
  pose proof (w_geo _ (w_base _ Hw)) as Hg. pose proof (w_st _ (w_base _ Hw)) as Hwf.
  pose proof (st_size_bound _ Hwf) as Hsb. pose proof (regions _ _ Hg Hsb) as (?&_).
  pose proof (worst_span_bounds _ _ Hg). pose proof (g_payload _ _ Hg).
  destruct Hb as (?&?&Hroom&?). destruct (Hroom Hne) as (Hr&_).
  pose proof (vh_wf_index_region_size _ (g_wf _ _ Hg)).
  pose proof (index_ok_bounds _ _ _ _ _ (quantum_pos _ _ Hg) (g_header_mod _ _ Hg)
    ltac:(unfold kBlockHeaderEncodedSize in *; lia) (po_index _ _ _ Hps)) as [? ?].
  pose proof (w_span32 _ (w_base _ Hw)). pose proof (em_bounds _ _ _ _ _ _ He).
  split_and!; try done; try lia. destruct Hr as [_ Hr2]. unfold kIndexEntryEncodedSize in *.
  assert (vh_index_region_size v / 48 < 2 ^ 32) by (apply Z.div_lt_upper_bound; zlia). lia.
Qed.

Lemma block_wf : BlockHeader_wf block /\ block_header_valid block.
Proof.
  pose proof emission_facts as (Hps&(_&Hmaxp&Hb&_)&Hr&Hg&_&_&_&Hsp32&Hidx).
  destruct (Hb Hne) as (_&Hrec&Hmin&Hmax&Hle&Hfl).
  pose proof (em_bounds _ _ _ _ _ _ He) as Hbd. pose proof (em_len _ _ _ _ _ _ He) as Hl.
  pose proof (vh_wf_max_block_payload _ (g_wf _ _ Hg)).
  destruct (last_writer_ok _ _ _ _ _ (po_index _ _ _ Hps)) as [Hlh Hll].
  destruct (po_header _ _ _ Hps) as [_ _ [Hgen _] Hslot [[] _]].
  destruct (g_wf _ _ Hg). destruct (w_writer _ (w_base _ Hw)) as (?&?&?).
  unfold kBlockHeaderEncodedSize, UINT32_MAX in *.
  assert (Hsel : is_u16 sel /\ is_u16 ver).
  { destruct (em_choice _ _ _ _ _ _ He) as [(->&->&_)|(->&_&->&_)]; [|done].
    unfold CompressionId_none. zlia. }
  assert (u32 (len payload) = len payload) as Hu1 by (apply u32_small; zlia).
  assert (u32 (len (builder s)) = len (builder s)) as Hu2 by (apply u32_small; zlia).
  assert (u32 span = span) as Hu3 by (apply u32_small; zlia).
  split.
  - split; cbn; rewrite ?Hu1, ?Hu2, ?Hu3; try apply u32_range; try done; try zlia;
      try tauto. apply crc32c_range, (em_ok _ _ _ _ _ _ He).
  - unfold block_header_valid. cbn. unfold kBlockHeaderEncodedSize.
    rewrite Hu1, Hu2, Hu3. rewrite u32_small by zlia. split_and!; (lia || tauto).
Qed.

Lemma emitted_entry_ok :
  entry_ok v (len (ps_active_index p)) (ps_data_end p) entry /\ ie_frame_span entry = span.
Proof.
  pose proof emission_facts as (Hps&(_&Hmaxp&Hb&_)&[Hr1 Hr2]&Hg&_&Hde&_&Hsp32&Hidx).
  pose proof block_wf as [[] (?&?&?&?&?&?)]. cbn in *.
  pose proof (em_bounds _ _ _ _ _ _ He). pose proof (em_len _ _ _ _ _ _ He).
  pose proof (vh_wf_max_block_payload _ (g_wf _ _ Hg)).
  unfold kBlockHeaderEncodedSize, kPartitionHeaderRegionSize, UINT32_MAX in *.
  assert (u32 (128 + len payload) = 128 + len payload) as Hu1 by (apply u32_small; zlia).
  assert (u32 span = span) as Hu3 by (apply u32_small; zlia).
  assert (u32 (len (ps_active_index p)) = len (ps_active_index p)) as Hu4
    by (apply u32_small; len_lia).
  assert (u32 (len (builder s)) = len (builder s)) as Hu2 by (apply u32_small; len_lia).
  pose proof (regions _ _ Hg ltac:(apply st_size_bound, (w_st _ (w_base _ Hw)))) as (?&?&?&?).
  pose proof (vh_wf_index_region_size _ (g_wf _ _ Hg)). unfold kPartitionFooterRegionSize in *.
  split; [|done]. split; cbn; unfold kBlockHeaderEncodedSize; rewrite ?Hu1, ?Hu2, ?Hu3, ?Hu4;
    try lia; try done.
  - split; cbn; rewrite ?Hu1; try done; zlia.
  - apply (em_span _ _ _ _ _ _ He).
Qed.
End Emission.

(** The bytes of one published block, and the catalog afterwards. *)
Record emitted s p sel ver payload span s' : Prop := {
  et_emission : emission s p sel ver payload span;
  et_active : active s' = Some (push_block (make_block s p sel ver payload span)
    (make_entry (make_block s p sel ver payload span) (ps_data_end p)
       (kBlockHeaderEncodedSize + len payload) span) span p);
  et_catalog : partitions s' = partitions (update_active
      (push_block (make_block s p sel ver payload span)
         (make_entry (make_block s p sel ver payload span) (ps_data_end p)
            (kBlockHeaderEncodedSize + len payload) span) span) s) /\
    corrupt_slots s' = corrupt_slots s;
  et_contents : contents (storage s') =
    splice (partition_base (volume s) (ph_slot (ps_header p)) + ps_data_end p)
      (encode_block_header (make_block s p sel ver payload span) ++ payload)
      (contents (storage s));
  et_dirty : dirty s' = true }.

Record emit_frame s s' : Prop := {
  ef_volume : volume s' = volume s;
  ef_options : open_options s' = open_options s;
  ef_writable : writable s' = writable s;
  ef_closed : closed s' = closed s;
  ef_next : next_options s' = next_options s;
  ef_faulted : faulted s' = faulted s;
  ef_accepted : accepted_records (metrics s') = accepted_records (metrics s);
  ef_builder : builder s' = [] }.

Definition write_error s (e : Status) : Prop :=
  exists off d st, write_exact off (View d) (storage s) = (e, st).

Lemma emit_frame_pos s p sel ver payload span :
  winv s -> active s = Some p -> builder s <> [] -> emission s p sel ver payload span ->
  0 <= partition_base (volume s) (ph_slot (ps_header p)) + ps_data_end p /\
  partition_base (volume s) (ph_slot (ps_header p)) + ps_data_end p +
    (kBlockHeaderEncodedSize + len payload) <= len (contents (storage s)).
Proof.
  intros Hw Ha Hne He. pose proof (em_bounds _ _ _ _ _ _ He).
  pose proof (emission_facts s p sel ver payload span Hw Ha Hne He)
    as (Hps&_&[Hr _]&Hg&Hsb&Hde&_).
  pose proof (ho_slot _ _ _ (po_header _ _ _ Hps)) as Hslot.
  pose proof (partition_range _ _ Hg _ Hslot). pose proof (regions _ _ Hg Hsb) as (?&?&?&?).
  rewrite (partition_base_eq _ _ Hg Hsb _ Hslot).
  rewrite <- (st_size_contents _ (w_st _ (w_base _ Hw))).
  pose proof (vh_wf_index_region_size _ (g_wf _ _ Hg)).
  unfold kVolumePrefixSize, kPartitionHeaderRegionSize, kPartitionFooterRegionSize in *. zlia.
Qed.

(** The state after the frame is written keeps the invariant. *)
Lemma emitted_winv s p sel ver payload span s' :
  winv s -> active s = Some p -> builder s <> [] -> faulted s = false ->
  emitted s p sel ver payload span s' -> emit_frame s s' -> media_ok s s' ->
  writer_id_high s' = writer_id_high s -> writer_id_low s' = writer_id_low s ->
  builder_records s' = 0 -> have_undurable_records s' = have_undurable_records s -> winv s'.
Proof.
  intros Hw Ha Hne Hf [He Ha' _ _ Hd] [] [Hm1 Hm2] Hwh Hwl Hrec Hun.
  pose proof (emission_facts s p sel ver payload span Hw Ha Hne He)
    as (Hps&_&Hr&Hg&Hsb&Hde&_&Hsp&_).
  destruct (emitted_entry_ok s p sel ver payload span Hw Ha Hne He) as [Heo Hes].
  pose proof (em_bounds _ _ _ _ _ _ He). pose proof (em_len _ _ _ _ _ _ He).
  pose proof (vh_wf_index_region_size _ (g_wf _ _ Hg)). pose proof (regions _ _ Hg Hsb) as (?&?&?&?).
  unfold kPartitionHeaderRegionSize, kPartitionFooterRegionSize, kBlockHeaderEncodedSize in *.
  destruct (push_block_ok (volume s) (open_options s) p (make_block s p sel ver payload span) _ span
    Hps Hr Heo Hes eq_refl eq_refl eq_refl ltac:(zlia) ltac:(zlia) ltac:(zlia))
    as (Hps'&Hsl&_&_&_).
  destruct (w_active _ Hw) as (p'&Ha2&_&Hsealed&_). rewrite Ha in Ha2. injection Ha2 as <-.
  assert (Hbn : (len (builder s) =? 0) = false)
    by (apply Z.eqb_neq; destruct (builder s); [done|len_lia]).
  split.
  - destruct (w_base _ Hw). split; rewrite ?ef_volume0, ?ef_options0, ?ef_next0, ?Hwh, ?Hwl, ?Hm2;
      done.
  - eexists. split; [exact Ha'|]. rewrite ef_volume0, ef_options0. split_and!; [done| |].
    + intros _. rewrite Hsl. by apply Hsealed.
    + unfold builder_ok. rewrite ef_builder0, Hrec, ef_volume0.
      split_and!; try done; [constructor|].
      pose proof (g_payload _ _ Hg). rewrite len_nil. lia.
  - intros _. by rewrite Hun, (w_undurable _ Hw Hf), Hd, ef_builder0, Hbn.
  - intros _. by rewrite Hun, (w_undurable _ Hw Hf), Hbn.
Qed.

(** Publishing: nothing to do, or one frame written and catalogued; the only
    failure is a failed media write. *)
Lemma emit_spec s : winv s -> faulted s = false ->
  wp emit_builder
    (fun _ s' => winv s' /\ emit_frame s s' /\
      (builder s = [] /\ s' = s \/
       builder s <> [] /\ exists p sel ver payload span,
         active s = Some p /\ emitted s p sel ver payload span s'))
    (fun e s' => failed s e s' /\ write_error s e) s.
Proof.
  intros Hw Hf. destruct (w_active _ Hw) as (p&Ha&_).
  unfold emit_builder. apply wp_bind, wp_get. apply wp_if; intros Hz.
  { apply Z.eqb_eq, len_zero_nil in Hz. apply wp_ret. split_and!; [done|by split|by left]. }
  assert (Hne : builder s <> []) by (intros E; by rewrite E in Hz).
  destruct (emission_exists s p Hw Ha Hne) as (sel&ver&payload&span&He).
  destruct (em_codec _ _ _ _ _ _ He) as (c&_&Hc&Hsel).
  pose proof (emission_facts s p sel ver payload span Hw Ha Hne He)
    as (Hps&_&[Hr1 Hr2]&Hg&Hsb&Hde&_&Hsp&_).
  pose proof (emit_frame_pos s p sel ver payload span Hw Ha Hne He) as [Hpos Hend].
  pose proof (em_bounds _ _ _ _ _ _ He) as Hbd. pose proof (w_st _ (w_base _ Hw)) as Hwf.
  pose proof (st_size_contents _ Hwf) as Hsz.
  rewrite Ha. cbv zeta. rewrite Hc, Hsel, (em_span _ _ _ _ _ _ He).
  unfold kPartitionHeaderRegionSize, kBlockHeaderEncodedSize in *.
  pose proof (len_nonneg payload). pose proof (regions _ _ Hg Hsb) as (?&?&?&?).
  pose proof (vh_wf_index_region_size _ (g_wf _ _ Hg)). unfold kPartitionFooterRegionSize in *.
  rewrite !(proj2 (Z.ltb_ge UINT32_MAX _)) by lia. cbn [orb].
  rewrite (u64_small (index_begin _ - _)) by zlia.
  rewrite !(proj2 (Z.ltb_ge _ _)) by lia. cbn [orb]. rewrite u64_small by zlia.
  set (frame := encode_block_header (make_block s p sel ver payload span) ++ payload).
  assert (Hfl : len frame = 128 + len payload)
    by (unfold frame; rewrite len_app, encode_block_len; done).
  apply wp_write_check; [done| |lia|lia|..].
  { apply Forall_app; split; [apply encode_block_ok|apply (em_ok _ _ _ _ _ _ He)]. }
  2:{ intros e st n Hws Hst Hn Hwr. split; [|by eexists _, _, _].
      apply (latched_failed s); [done|]. by eapply latched_write; [|done|exact Hwr]. }
  intros st Hwr. apply wp_bind, wp_modify, wp_modify.
  assert (Hmed : st_wf st /\ st_size st = st_size (storage s)).
  { split; [apply Hwr|]. by eapply st_size_wrote; [|done|exact Hwr]. }
  set (s' := set builder_flags _ _).
  assert (Hem : emitted s p sel ver payload span s').
  { split; [done| |done|apply Hwr|done]. unfold active.
    apply (find_update_first (is_active s)); [|done].
    intros y. unfold is_active, push_block. simpl. by destruct (ps_has_time y). }
  assert (Hfr : emit_frame s s') by (by split).
  split_and!; [by eapply emitted_winv|done|]. right. split; [done|]. by eexists _, _, _, _, _.
Qed.

(** ** Accepting a record *)

Lemma record_block_flags_range f b : is_u32 (record_block_flags f b).
Proof.
  unfold record_block_flags. assert (H : is_u32 (Z.land f 0xffff0000))
    by (apply (land_range _ _ 32); lia).
  assert (H1 : forall x, is_u32 x -> is_u32 (Z.lor x kBlockFlagUnsynchronizedTime))
    by (intros; apply (lor_range _ _ 32); [lia|done|]; vm_compute; split; congruence).
  assert (H2 : forall x, is_u32 x -> is_u32 (Z.lor x kBlockFlagTimeAnomaly))
    by (intros; apply (lor_range _ _ 32); [lia|done|]; vm_compute; split; congruence).
  cbv zeta. destruct b, (negb _); auto.
Qed.

(** [s'] is [s] with the record accepted and marked undurable. *)
Record accepted (record : bytes) (time flags : Z) s s' : Prop := {
  ac_core : core_eq (accept_record record time flags s) s';
  ac_storage : storage s' = storage s;
  ac_faulted : faulted s' = faulted s;
  ac_dirty : dirty s' = dirty s;
  ac_undurable : have_undurable_records s' = true }.

Lemma accepted_winv record time flags p s s' :
  winv s -> active s = Some p -> room (volume s) p ->
  bytes_ok record -> 0 < len record -> len (builder s) + len record <= vh_max_block_payload (volume s) ->
  is_i64 time -> is_u32 flags -> accepted record time flags s s' -> winv s'.
Proof.
  intros Hw Ha Hr Hok Hl Hfit Ht Hfl [Hc Hst Hfa Hd Hu].
  destruct (w_active _ Hw) as (p'&Ha'&Hps&Hse&(Hbok&_&Hbne&Hbe)).
  rewrite Ha in Ha'. injection Ha' as <-.
  pose proof (w_geo _ (w_base _ Hw)) as Hg. pose proof (vh_wf_max_block_payload _ (g_wf _ _ Hg)).
  set (s1 := accept_record record time flags s) in *.
  assert (Hs1 : partitions s1 = partitions s /\ active_generation s1 = active_generation s /\
    active_slot s1 = active_slot s /\ volume s1 = volume s /\ open_options s1 = open_options s /\
    next_options s1 = next_options s /\ writer_id_high s1 = writer_id_high s /\
    writer_id_low s1 = writer_id_low s /\ builder s1 = builder s ++ record /\
    builder_records s1 = u32 (builder_records s + 1)).
  { unfold s1, accept_record. destruct (len (builder s) =? 0); done. }
  destruct Hs1 as (Hp1&Hg1&Hsl1&Hv1&Ho1&Hn1&Hh1&Hlo1&Hb1&Hr1).
  assert (Ha1 : active s' = Some p).
  { rewrite (core_active _ _ Hc). unfold active, is_active. by rewrite Hp1, Hg1, Hsl1. }
  assert (Hne' : builder s' <> []).
  { core_rw Hc. rewrite Hb1. intros E. apply (f_equal len) in E. rewrite len_app in E.
    pose proof (len_nonneg (builder s)). rewrite len_nil in E. lia. }
  split.
  - destruct (w_base _ Hw). split; core_rw Hc;
      rewrite ?Hv1, ?Ho1, ?Hn1, ?Hh1, ?Hlo1, ?Hst; done.
  - exists p. core_rw Hc. rewrite Hv1, Ho1, Hfa. split_and!; try done.
    unfold builder_ok. core_rw Hc. rewrite Hv1, Hb1, Hr1, len_app. split_and!.
    + by apply Forall_app.
    + done.
    + intros _. split; [done|]. unfold s1, accept_record.
      destruct (Z.eqb_spec (len (builder s)) 0) as [Hz|Hz]; simpl.
      * apply len_zero_nil in Hz. rewrite (Hbe Hz), Hz. rewrite u32_small by zlia.
        split_and!; (done || len_lia).
      * destruct Hbne as (_&Hrec&Hmi&Hma&Hle&Hfl0); [intros E; by rewrite E in Hz|].
        rewrite u32_small by zlia. split_and!; try zlia; apply (lor_range _ _ 32); (done || lia).
    + intros E. exfalso. apply Hne'. core_rw Hc. by rewrite Hb1.
  - intros _. rewrite Hu. rewrite (proj2 (Z.eqb_neq (len (builder s')) 0)); [done|].
    destruct (builder s'); [done|len_lia].
  - intros _ Hx. congruence.
Qed.

(** ** Public operations *)

Lemma wp_check_writer (Q : unit -> Impl T -> Prop) (E : Status -> Impl T -> Prop) s :
  (writable s = true -> closed s = false -> faulted s = false -> Q tt s) ->
  (forall e, E e s) -> wp check_writer Q E s.
Proof.
  intros HQ HE. unfold check_writer. apply wp_bind, wp_get.
  destruct (writable s) eqn:?; [|apply HE]. destruct (closed s) eqn:?; [apply HE|].
  destruct (faulted s) eqn:?; [apply HE|]. by apply HQ.
Qed.

(** What is not marked dirty has reached stable storage. *)
Definition clean s : Prop :=
  faulted s = false -> dirty s = false -> durable (storage s) = contents (storage s).

Lemma faulted_clean s : faulted s = true -> clean s.
Proof. unfold clean. congruence. Qed.
#[local] Hint Resolve faulted_clean : core.

Definition record_ok (record : ByteView) (time : Z) : Prop :=
  bytes_ok (view_data record) /\ is_i64 time.

Lemma emit_clean s s' :
  (builder s = [] /\ s' = s \/
   builder s <> [] /\ exists p sel ver payload span,
     active s = Some p /\ emitted s p sel ver payload span s') -> clean s -> clean s'.
Proof.
  intros [[_ ->]|(_&p&sel&ver&pl&span&_&Hem)]; [done|]. intros _ _ Hd.
  by rewrite (et_dirty _ _ _ _ _ _ _ Hem) in Hd.
Qed.
Lemma ensure_clean s s' :
  s' = s \/ builder s = [] /\ full s /\ rotated (next_options s) s s' -> clean s -> clean s'.
Proof. intros [->|(_&_&_&_&Hd&_)]; [done|]. by intros _ _ _. Qed.

(** The bytes pending in the builder when the record is added. *)
Definition pending s (record : ByteView) : bytes :=
  if vh_max_block_payload (volume s) - len (builder s) <? view_size record then [] else builder s.

(** A successful publish. *)
Definition published s s' : Prop :=
  winv s' /\ emit_frame s s' /\
  (builder s = [] /\ s' = s \/
   builder s <> [] /\ exists p sel ver payload span,
     active s = Some p /\ emitted s p sel ver payload span s').

(** The steps before a record is accepted: publish if it does not fit the
    builder, rotate if the empty builder has no block to go to. *)
Definition prepared (record : ByteView) s s2 : Prop :=
  exists s1,
    (if vh_max_block_payload (volume s) - len (builder s) <? view_size record
     then published s s1 else s1 = s) /\ winv s1 /\
    (s2 = s1 \/ builder s1 = [] /\ full s1 /\ rotated (next_options s1) s1 s2).

Definition appended (record : ByteView) (time : Z) s s' : Prop :=
  (exists s2 flags, prepared record s s2 /\ accepted (view_data record) time flags s2 s') /\
  winv s' /\ faulted s' = false /\ builder s' = pending s record ++ view_data record /\
  accepted_records (metrics s') = inc (accepted_records (metrics s)) /\
  have_undurable_records s' = true /\ (clean s -> clean s').

Definition rejected (s s' : Impl T) : Prop :=
  winv s' /\ accepted_records (metrics s') = accepted_records (metrics s) /\
  (clean s -> clean s').

Lemma accept_record_frame d time flags s :
  storage (accept_record d time flags s) = storage s /\
  faulted (accept_record d time flags s) = faulted s /\
  dirty (accept_record d time flags s) = dirty s.
Proof. unfold accept_record. by destruct (len (builder s) =? 0). Qed.

Lemma accept_record_core d time flags s :
  core_eq (accept_record d time flags s)
    (accept_record d time flags (s <| metrics ::= set time_anomalies inc |>)).
Proof.
  unfold accept_record.
  change (builder (s <| metrics ::= set time_anomalies inc |>)) with (builder s).
  destruct (len (builder s) =? 0); by split.
Qed.

Lemma wp_mark_undurable s :
  wp (if negb (have_undurable_records s) then
        t ← read_clock now;
        modify (fun s => s <| have_undurable_records := true |> <| oldest_undurable_record := t |>);;
        t ← read_clock now;
        modify (fun s => s <| health ::= set health_oldest_undurable_ns (fun _ => u64 t) |>
                           <| health ::= set health_have_undurable (fun _ => true) |>)
      else mret tt)
    (fun _ s' => core_eq s s' /\ storage s' = storage s /\ faulted s' = faulted s /\
       dirty s' = dirty s /\ have_undurable_records s' = true) (fun _ _ => False) s.
Proof.
  apply wp_if; intros Hu.
  - ring_auto. split; [by split|done].
  - apply wp_ret. apply negb_false_iff in Hu. split; [apply core_eq_refl|done].
Qed.

(** The end of [append_impl], once capacity is there. *)
Lemma accept_tail record time flags anomaly s p :
  winv s -> faulted s = false -> active s = Some p -> room (volume s) p -> record_ok record time ->
  view_size record = len (view_data record) -> 0 < view_size record ->
  len (builder s) + view_size record <= vh_max_block_payload (volume s) -> is_u32 flags ->
  wp (when anomaly (modify (fun s => s <| metrics ::= set time_anomalies inc |>));;
      modify (accept_record (view_data record) time flags);;
      s ← get;
      if negb (have_undurable_records s) then
        t ← read_clock now;
        modify (fun s => s <| have_undurable_records := true |> <| oldest_undurable_record := t |>);;
        t ← read_clock now;
        modify (fun s => s <| health ::= set health_oldest_undurable_ns (fun _ => u64 t) |>
                           <| health ::= set health_have_undurable (fun _ => true) |>)
      else mret tt)
    (fun _ s' => accepted (view_data record) time flags s s' /\
       winv s' /\ faulted s' = false /\ builder s' = builder s ++ view_data record /\
       accepted_records (metrics s') = inc (accepted_records (metrics s)) /\
       have_undurable_records s' = true /\ (clean s -> clean s')) (fun _ _ => False) s.
Proof.
  intros Hw Hf Ha Hr [Hok Ht] Hv Hpos Hfit Hfl.
  assert (Hgo : forall s', accepted (view_data record) time flags s s' ->
    winv s' /\ faulted s' = false /\ builder s' = builder s ++ view_data record /\
    accepted_records (metrics s') = inc (accepted_records (metrics s)) /\
    have_undurable_records s' = true /\ (clean s -> clean s')).
  { intros s' Hac. split; [eapply accepted_winv; try done; lia|].
    destruct Hac as [Hc Hst Hfa Hdi Hu].
    split_and!; [congruence|..|done|unfold clean; by rewrite Hfa, Hdi, Hst]; core_rw Hc;
      unfold accept_record; by destruct (len (builder s) =? 0). }
  apply wp_bind. eapply (wp_conseq _ (fun _ s1 => core_eq (accept_record (view_data record) time flags s)
    (accept_record (view_data record) time flags s1) /\ storage s1 = storage s /\
    faulted s1 = faulted s /\ dirty s1 = dirty s) _ (fun _ _ => False)); [|simpl|done].
  { apply wp_when; intros _; [apply wp_modify|].
    - split; [|done]. apply accept_record_core.
    - split; [apply core_eq_refl|done]. }
  intros _ s1 (Hc&Hst&Hfa&Hd). apply wp_bind, wp_modify, wp_bind, wp_get.
  eapply wp_conseq; [apply wp_mark_undurable| |done].
  intros _ s2 (Hc2&Hst2&Hfa2&Hd2&Hu2).
  destruct (accept_record_frame (view_data record) time flags s1) as (?&?&?).
  assert (Hac : accepted (view_data record) time flags s s2)
    by (split; [by eapply core_eq_trans|congruence..]). split; [done|by apply Hgo].
Qed.

Lemma append_impl_spec record time rflags expected s : winv s -> record_ok record time ->
  wp (append_impl now record time rflags expected) (fun _ s' => appended record time s s')
    (fun _ s' => rejected s s') s.
Proof.
  intros Hw Hrec. unfold append_impl. apply wp_bind, wp_check_writer; [|by split].
  intros _ _ Hf. apply wp_bind, wp_get.
  apply wp_if; intros Hem; [by split|]. apply wp_if; intros Hva; [by split|].
  apply wp_if; intros Hbig; [by split|].
  assert (Hv : view_size record = len (view_data record) /\ 0 < view_size record).
  { unfold view_empty, view_valid in *. rewrite Hem in Hva. destruct record as [d|n]; [|done].
    simpl in *. split; [done|]. pose proof (len_nonneg d). lia. }
  destruct Hv as [Hv Hpos]. pose proof (w_geo _ (w_base _ Hw)) as Hg.
  pose proof (vh_wf_max_block_payload _ (g_wf _ _ Hg)).
  destruct (w_active _ Hw) as (_&_&_&_&(_&Hbm&_)). pose proof (len_nonneg (builder s)).
  rewrite u64_small by zlia. apply wp_bind.
  (* after the optional publish: the pending bytes and room for the record *)
  eapply (wp_conseq _ (fun _ s1 =>
    (if vh_max_block_payload (volume s) - len (builder s) <? view_size record
     then published s s1 else s1 = s) /\ winv s1 /\ faulted s1 = false /\
    builder s1 = pending s record /\ volume s1 = volume s /\
    accepted_records (metrics s1) = accepted_records (metrics s) /\ (clean s -> clean s1)) _
    (fun _ s1 => rejected s s1)); [|simpl|done].
  { unfold pending. apply wp_if; intros Hfit; rewrite Hfit; [|by apply wp_ret].
    eapply wp_conseq; [by apply emit_spec|..].
    - intros ? s1 Hpub. pose proof Hpub as (Hw1&[] &Hem1). split_and!; [done|done|congruence..|]. by apply (emit_clean s s1).
    - intros e s1 ((Hw1&?&_&?)&_). split_and!; auto. }
  intros _ s1 (Hpub&Hw1&Hf1&Hb1&Hv1&Hac1&Hcl1). apply wp_bind.
  eapply wp_conseq; [by apply ensure_spec|..].
  2:{ intros e s2 (Hw2&?&_&?). split_and!; [done|congruence|auto]. }
  intros ? s2 (Hw2&Hfr&Hmd&p2&Ha2&Hr2). apply wp_bind, wp_get. rewrite Ha2. cbv zeta.
  assert (Hcl2 : clean s -> clean s2) by (intros; apply (ensure_clean s1); auto).
  destruct Hfr. apply wp_if; intros Hcm; [split_and!; [done|congruence|done]|].
  eapply wp_conseq; [apply accept_tail with (p := p2)|..]; try done; try congruence.
  - rewrite fe_volume0, Hv1, fe_builder0, Hb1. unfold pending.
    destruct (Z.ltb_spec (vh_max_block_payload (volume s) - len (builder s)) (view_size record));
      [rewrite len_nil|]; lia.
  - apply record_block_flags_range.
  - simpl. intros ? s3 (Hac&?&?&?&?&?&?). unfold appended. split.
    { eexists s2, _. split; [|exact Hac]. by exists s1. }
    split_and!; first [done|congruence|auto].
Qed.
End WriterFacts.
