(* ===== verification/RingCalls.v ===== *)
(** * Calls on the writer

    The public operations of src/ring_store.cpp lines 1326-1473 against the
    invariant: what each one leaves behind on success, and that every early
    return keeps the invariant too. *)

From S2P Require Import Prelude Status Hoare Crc32c Layout Format FormatFacts Codec PackBitsFacts.
From S2P Require Import Lz4 Lz4Facts Storage RingTypes RingWriter RingReader RingOpen RingRules.
From S2P Require Import RingGeometry RingInv RingHealth RingWriterFacts.

Section Calls.
Context {T : Type} `{!Storage T, !StorageModel T}.
Variable now : nat -> Z.
Implicit Types s : Impl T.

(** What the media steps leave alone. *)
Record kept s s' : Prop := {
  k_active : active s' = active s;
  k_partitions : partitions s' = partitions s;
  k_corrupt : corrupt_slots s' = corrupt_slots s;
  k_volume : volume s' = volume s;
  k_options : open_options s' = open_options s;
  k_contents : contents (storage s') = contents (storage s) }.

(** Nothing pending and nothing volatile. *)
Record settled s s' : Prop := {
  sd_winv : winv s';
  sd_faulted : faulted s' = false;
  sd_builder : builder s' = [];
  sd_dirty : dirty s' = false;
  sd_undurable : have_undurable_records s' = false;
  sd_accepted : accepted_records (metrics s') = accepted_records (metrics s);
  sd_records : durable_records (metrics s') = accepted_records (metrics s');
  sd_blocks : durable_blocks (metrics s') = published_blocks (metrics s');
  sd_durable : clean s -> durable (storage s') = contents (storage s');
  sd_steps : exists s1, published s s1 /\ kept s1 s' }.

Lemma published_refl s : winv s -> builder s = [] -> published s s.
Proof. intros Hw Hb. split; [done|]. split; [by split|by left]. Qed.

Lemma sync_if_dirty s : winv s -> faulted s = false -> builder s = [] ->
  wp (when (dirty s) (sync_media now true)) (fun _ s' => settled s s') (failed s) s.
Proof.
  intros Hw Hf Hb. apply wp_when; intros Hd.
  - eapply wp_conseq; [apply sync_media_spec, (w_st _ (w_base _ Hw))|..].
    2:{ intros e s' Hl. by apply latched_failed. }
    intros _ s' [Hc Hm Hco Hdu Hfa _ Hdi Hu [Hr Hbl]].
    assert (Hrec : durable_records (metrics s') = accepted_records (metrics s') /\
      durable_blocks (metrics s') = published_blocks (metrics s')).
    { by rewrite Hr, Hbl, (c_accepted _ _ Hc), (c_published _ _ Hc). }
    split; try tauto; try congruence.
    + eapply winv_core; [exact Hw|done|done|congruence|]. by rewrite Hu, Hdi, Hb.
    + by rewrite (c_builder _ _ Hc).
    + apply Hc.
    + exists s. split; [by apply published_refl|].
      split; [apply (core_active _ _ Hc)|apply Hc..|done].
  - pose proof (w_undurable _ Hw Hf) as Hu. rewrite Hd, Hb in Hu. simpl in Hu.
    pose proof (w_durable _ Hw Hf Hu) as [? ?]. split; try done.
    + intros Hcl. by apply Hcl.
    + exists s. split; [by apply published_refl|done].
Qed.

Lemma settled_trans s s1 s2 :
  published s s1 -> settled s1 s2 -> settled s s2.
Proof.
  intros Hp []. pose proof Hp as (_&Hfr&Hem). pose proof (emit_clean _ _ Hem). destruct Hfr.
  split; try done; [congruence|auto|]. destruct sd_steps0 as (s1'&(_&_&[[_ ->]|[? _]])&Hk); [|done].
  by exists s1.
Qed.

Lemma failed_trans s s1 e s2 :
  accepted_records (metrics s1) = accepted_records (metrics s) -> failed s1 e s2 -> failed s e s2.
Proof. intros Ha (?&?&?&?). split_and!; (done || congruence). Qed.

(** Publish what is pending, then flush. *)
Lemma settle_spec s : winv s -> faulted s = false ->
  wp (emit_builder;; s1 ← get; when (dirty s1) (sync_media now true))
    (fun _ s' => settled s s') (failed s) s.
Proof.
  intros Hw Hf. apply wp_bind. eapply wp_conseq; [by apply emit_spec|..].
  2:{ by intros e s1 [? _]. }
  intros ? s1 Hp. pose proof Hp as (Hw1&[]&_).
  apply wp_bind, wp_get. eapply wp_conseq; [apply sync_if_dirty; [done|congruence|done]|..].
  - intros ? s2 Hs. eapply settled_trans; [exact Hp|done].
  - intros e s2 Hs. by eapply failed_trans.
Qed.

(** ** Each operation *)

(** An early return: the invariant stands and no record was accepted. *)
Lemma failed_rejected s e s' : failed s e s' -> rejected s s'.
Proof. intros (?&?&_&?). split_and!; auto using faulted_clean. Qed.

Lemma rejected_refl s : winv s -> rejected s s.
Proof. intros; by split_and!. Qed.

Lemma checkpoint_spec s : winv s ->
  wp (checkpoint now) (fun _ s' => settled s s') (fun _ s' => rejected s s') s.
Proof.
  intros Hw. unfold checkpoint. apply wp_bind, wp_check_writer; [|intros; by apply rejected_refl].
  intros _ _ Hf. eapply (wp_conseq _ (fun _ s' => settled s s') _ (failed s)).
  - pose proof (settle_spec s Hw Hf) as H. revert H. unfold wp, mbind, prog_bind, get.
    destruct (emit_builder s) as [[] s1]; [|done]. by destruct (dirty s1).
  - done.
  - intros e s'. apply failed_rejected.
Qed.

Lemma set_closed_winv s : winv s -> winv (set_closed s).
Proof.
  intros Hw. pose proof (w_base _ Hw) as [Hst Hg ? ? ? ?]. destruct Hw as [_ Ha Hu Hd].
  split; [by split|exact Ha|exact Hu|exact Hd].
Qed.

Lemma settled_closed s s1 : settled s s1 -> settled s (set_closed s1).
Proof.
  intros []. split; try done; [by apply set_closed_winv|].
  destruct sd_steps0 as (s2&?&[]). exists s2. split; [done|]. by split.
Qed.

(** What a successful [close] of an open writer leaves. *)
Lemma close_spec s : winv s -> writable s = true -> closed s = false ->
  wp (close now) (fun _ s' => settled s s' /\ closed s' = true) (fun _ s' => rejected s s') s.
Proof.
  intros Hw Hwr Hcl. unfold close. apply wp_bind, wp_get. rewrite Hcl, Hwr. simpl.
  apply wp_if; intros Hf; [by apply rejected_refl|].
  pose proof (settle_spec s Hw Hf) as H. revert H. unfold wp, mbind, prog_bind, get.
  destruct (emit_builder s) as [[] s1]; [|by apply failed_rejected].
  destruct (when _ _ s1) as [[] s2]; [|by apply failed_rejected].
  intros H. split; [by apply settled_closed|done].
Qed.

Lemma close_winv s : winv s ->
  wp (close now) (fun _ s' => winv s' /\ (clean s -> clean s')) (fun _ s' => rejected s s') s.
Proof.
  intros Hw. destruct (closed s) eqn:Hcl.
  { unfold close. apply wp_bind, wp_get. rewrite Hcl. by apply wp_ret. }
  destruct (writable s) eqn:Hwr.
  - eapply wp_conseq; [by apply close_spec| |done]. intros ? s' [Hs _].
    split; [apply Hs|]. intros Hc _ _. by apply (sd_durable _ _ Hs).
  - unfold close. apply wp_bind, wp_get. rewrite Hcl, Hwr. apply wp_modify.
    split; [by apply set_closed_winv|done].
Qed.

Definition partition_arguments_ok (o : PartitionOptions) : Prop :=
  PartitionOptions_wf o /\ po_compression_version o <> 0.

Lemma set_next_winv s o : winv s -> options_ok (open_options s) o ->
  winv (s <| next_options := o |>).
Proof.
  intros Hw Ho. pose proof (w_base _ Hw) as [Hst Hg ? ? _ ?]. destruct Hw as [_ Ha Hu Hd].
  split; [by split|exact Ha|exact Hu|exact Hd].
Qed.

Lemma set_next_spec o s : winv s -> partition_arguments_ok o ->
  wp (set_next_partition_options o)
    (fun _ s' => winv s' /\ s' = s <| next_options := o |>) (fun _ s' => s' = s) s.
Proof.
  intros Hw [Ho Hv]. unfold set_next_partition_options.
  apply wp_bind, wp_check_writer; [|done]. intros _ _ _. apply wp_bind, wp_get.
  apply wp_bind, wp_lift_result; [|done]. intros [] Hval. apply wp_modify.
  split; [|done]. by apply set_next_winv.
Qed.

(** After [rotate] the next record opens a fresh, durable partition. *)
Lemma rotate_spec o s : winv s -> partition_arguments_ok o ->
  wp (rotate now o)
    (fun _ s' => winv s' /\ faulted s' = false /\ builder s' = [] /\
       accepted_records (metrics s') = accepted_records (metrics s) /\
       durable (storage s') = contents (storage s') /\
       exists s1, winv s1 /\ options_ok (open_options s1) o /\ turned o s1 s' /\
         exists s0, published s s0 /\ s1 = s0 <| next_options := o |>)
    (fun _ s' => rejected s s') s.
Proof.
  intros Hw [Ho Hv]. unfold rotate.
  apply wp_bind, wp_check_writer; [|intros; by apply rejected_refl]. intros _ _ Hf. apply wp_bind, wp_get.
  apply wp_bind, wp_lift_result; [|intros; by apply rejected_refl]. intros [] Hval. apply wp_bind.
  eapply wp_conseq; [by apply emit_spec|..].
  2:{ intros e s1 [? _]. by eapply failed_rejected. }
  intros ? s1 Hpub. pose proof Hpub as (Hw1&[]&_). apply wp_bind, wp_modify.
  assert (Ho1 : options_ok (open_options s1) o) by (rewrite ef_options; by split_and!).
  pose proof (set_next_winv _ _ Hw1 Ho1) as Hw2.
  eapply wp_conseq; [apply rotate_internal_spec; try done|..].
  - simpl. congruence.
  - intros ? s2 (?&[]&?&?&_). simpl in *. split_and!; [done|congruence..|done|].
    exists (s1 <| next_options := o |>). split_and!; [done..|]. by exists s1.
  - intros e s2 Hfl. eapply failed_rejected, failed_trans; [|exact Hfl]. done.
Qed.

(** ** Any call *)

Definition call_ok (c : call) : Prop :=
  match c with
  | call_append r t _ | call_append_checked r t _ _ => record_ok r t
  | call_rotate o | call_set_next o => partition_arguments_ok o
  | _ => True
  end.

Lemma run_call_winv c s : winv s -> call_ok c ->
  wp (run_call now c) (fun _ s' => winv s' /\ (clean s -> clean s'))
    (fun _ s' => winv s' /\ (clean s -> clean s')) s.
Proof.
  intros Hw Hc. assert (Hrej : forall (e : Status) s', rejected s s' -> winv s' /\ (clean s -> clean s'))
    by (by intros ? ? (?&_&?)).
  assert (Happ : forall r t f e, record_ok r t -> wp (append_impl now r t f e)
    (fun _ s' => winv s' /\ (clean s -> clean s')) (fun _ s' => winv s' /\ (clean s -> clean s')) s).
  { intros. eapply wp_conseq; [by apply append_impl_spec| |done].
    by intros ? s' (_&?&_&_&_&_&?). }
  destruct c; simpl in *.
  - by apply Happ.
  - unfold append_checked. apply wp_if; intros _; [by split|by apply Happ].
  - unfold publish. apply wp_bind, wp_check_writer; [|by split]. intros _ _ Hf.
    eapply wp_conseq; [by apply emit_spec|..].
    + intros ? s' (?&_&Hem). split; [done|by apply emit_clean].
    + intros e s' [Hfl _]. by eapply Hrej, failed_rejected.
  - eapply wp_conseq; [by apply checkpoint_spec| |done]. intros ? s' Hs.
    split; [apply Hs|]. intros Hcl _ _. by apply (sd_durable _ _ Hs).
  - eapply wp_conseq; [by apply close_winv|done|done].
  - eapply wp_conseq; [by apply rotate_spec| |done].
    intros ? s' (?&_&_&_&?&_). split; [done|]. by intros _ _ _.
  - eapply wp_conseq; [by apply set_next_spec|..].
    + intros ? s' [? ->]. done.
    + by intros e s' ->.
Qed.

(** One completed call with well-typed arguments. *)
Definition ok_step s s' : Prop := exists c, call_ok c /\ snd (run_call now c s) = s'.

Lemma winv_reachable s s' : winv s -> rtc ok_step s s' -> winv s' /\ (clean s -> clean s').
Proof.
  intros Hw Hr. induction Hr as [|a b d (c&Hok&<-) _ IH]; [done|].
  pose proof (run_call_winv c a Hw Hok) as H. unfold wp in H.
  destruct (run_call now c a) as [[] b]; simpl in *; destruct H as [Hb Hc];
    destruct (IH Hb) as [? ?]; auto.
Qed.
End Calls.
