(* ===== verification/RingDisk.v ===== *)
(** * Frames on media

    What the blocks of one partition look like on the media, what a
    sequential scan makes of them, and that writes elsewhere leave them
    alone. *)

From S2P Require Import Prelude Status Hoare Crc32c Layout Format FormatFacts Codec Lz4 Storage.
From S2P Require Import RingTypes RingWriter RingReader RingOpen RingRules RingGeometry RingInv.

(** A block: its header and its stored payload. *)
Definition frame : Type := BlockHeader * bytes.

Section Frames.
Context (v : VolumeHeader) (h : PartitionHeader).
Local Abbreviation pbase := (partition_base v (ph_slot h)).

(** The frame [f] lies at [off] and continues the writer chain. *)
Record frame_at (c : bytes) (seq off wh wl : Z) (f : frame) : Prop := {
  fr_header : decode_block_header (slice (pbase + off) kBlockHeaderEncodedSize c) = Ok (fst f);
  fr_payload : slice (pbase + off + kBlockHeaderEncodedSize) (bh_stored_size (fst f)) c = snd f;
  fr_crc : crc32c (snd f) = bh_payload_crc (fst f);
  fr_chain : block_bad v h (index_begin v) off seq wh wl (fst f) = false;
  fr_span : span_bad v (fst f) = false }.

Fixpoint frames_at (c : bytes) (seq off wh wl : Z) (log : list frame) : Prop :=
  match log with
  | [] => True
  | f :: log => frame_at c seq off wh wl f /\
      frames_at c (seq + 1) (off + bh_frame_span (fst f)) (bh_writer_id_high (fst f))
        (bh_writer_id_low (fst f)) log
  end.

Fixpoint log_entries (off : Z) (log : list frame) : list IndexEntry :=
  match log with
  | [] => []
  | f :: log => scanned_entry off (fst f) :: log_entries (off + bh_frame_span (fst f)) log
  end.

Fixpoint log_end (off : Z) (log : list frame) : Z :=
  match log with
  | [] => off
  | f :: log => log_end (off + bh_frame_span (fst f)) log
  end.

Lemma len_log_entries off log : len (log_entries off log) = len log.
Proof. revert off. induction log as [|f log IH]; intros off; cbn; rewrite ?len_cons, ?IH; done. Qed.

(** ** The tests of the scan, as facts *)

Record chain_ok (limit cursor seq wh wl : Z) (b : BlockHeader) : Prop := {
  ch_generation : bh_generation b = ph_generation h;
  ch_slot : bh_slot b = ph_slot h;
  ch_low : bh_volume_id_low b = vh_volume_id_low v;
  ch_high : bh_volume_id_high b = vh_volume_id_high v;
  ch_previous : bh_previous_writer_id_high b = wh /\ bh_previous_writer_id_low b = wl;
  ch_sequence : bh_sequence b = seq;
  ch_records : bh_record_count b <> 0;
  ch_time : bh_min_time_ns b <= bh_max_time_ns b;
  ch_stored : bh_stored_size b <= vh_max_block_payload v;
  ch_raw : bh_raw_size b <= vh_max_block_payload v;
  ch_codec : bh_compression b <> CompressionId_none ->
    bh_compression b = po_compression (ph_options h) /\
    bh_compression_version b = po_compression_version (ph_options h);
  ch_none : bh_compression b = CompressionId_none ->
    bh_stored_size b = bh_raw_size b /\ bh_compression_version b = 1;
  ch_span_mod : bh_frame_span b mod vh_persistence_quantum v = 0;
  ch_cursor_mod : cursor mod vh_persistence_quantum v = 0;
  ch_fits : bh_frame_span b <= u64 (limit - cursor) }.

Lemma block_bad_spec limit cursor seq wh wl b :
  block_bad v h limit cursor seq wh wl b = false <-> chain_ok limit cursor seq wh wl b.
Proof.
  unfold block_bad. rewrite !orb_false_iff, !andb_false_iff, !orb_false_iff, !negb_false_iff.
  split.
  - intros H. split; try lia; intros; lia.
  - intros []. split_and!; try lia.
Qed.

Lemma span_bad_spec b : span_bad v b = false <->
  align_up (kBlockHeaderEncodedSize + bh_stored_size b) (vh_persistence_quantum v) =
    Some (bh_frame_span b).
Proof.
  unfold span_bad. destruct (align_up _ _) as [x|]; [|done].
  rewrite negb_false_iff, Z.eqb_eq. split; congruence.
Qed.
End Frames.

Section Placed.
Context (v : VolumeHeader) (backend : Z) (h : PartitionHeader).
Context (Hg : geometry_ok v backend) (Hb : backend < 2 ^ 63).
Context (Hslot : 0 <= ph_slot h < vh_partition_count v).
Local Abbreviation pbase := (partition_base v (ph_slot h)).

Lemma pbase_range : 0 <= pbase /\ pbase + vh_partition_size v <= backend.
Proof.
  pose proof (partition_range _ _ Hg _ Hslot). rewrite (partition_base_eq _ _ Hg Hb _ Hslot).
  unfold kVolumePrefixSize in *. lia.
Qed.

Lemma index_begin_range : kPartitionHeaderRegionSize <= index_begin v /\
  index_begin v <= vh_partition_size v - kPartitionFooterRegionSize /\
  vh_partition_size v < 2 ^ 63.
Proof.
  pose proof (regions _ _ Hg Hb) as (?&?&?&?). pose proof (worst_span_bounds _ _ Hg).
  pose proof (g_payload _ _ Hg). pose proof (vh_wf_index_region_size _ (g_wf _ _ Hg)).
  unfold kBlockHeaderEncodedSize in *. zlia.
Qed.

(** Size and place of a well-placed block. *)
Lemma frame_size_facts limit cursor seq wh wl b :
  BlockHeader_wf b -> block_header_valid b -> chain_ok v h limit cursor seq wh wl b ->
  span_bad v b = false -> 0 <= cursor <= limit -> limit <= index_begin v ->
  kBlockHeaderEncodedSize < kBlockHeaderEncodedSize + bh_stored_size b <= bh_frame_span b /\
  cursor + bh_frame_span b <= limit /\ kBlockHeaderEncodedSize + bh_stored_size b < 2 ^ 32.
Proof.
  intros [] (?&_) [] Hs Hc Hl. apply span_bad_spec in Hs.
  pose proof index_begin_range as (?&?&?). unfold kBlockHeaderEncodedSize, kPartitionFooterRegionSize in *.
  apply align_up_Some in Hs as (?&_&_); [|zlia|apply (g_quantum _ _ Hg)].
  rewrite u64_small in ch_fits0 by zlia. zlia.
Qed.

Lemma chain_limit l1 l2 cursor seq wh wl b : 0 <= cursor -> is_u32 (bh_frame_span b) ->
  cursor + bh_frame_span b <= l2 -> l2 < 2 ^ 64 ->
  chain_ok v h l1 cursor seq wh wl b -> chain_ok v h l2 cursor seq wh wl b.
Proof. intros ? ? ? ? []. split; try done. rewrite u64_small by zlia. lia. Qed.

(** The header bytes of a frame inside the data region. *)
Lemma decode_at c off b :
  bytes_ok c -> backend <= len c -> 0 <= off <= index_begin v ->
  decode_block_header (slice (pbase + off) kBlockHeaderEncodedSize c) = Ok b ->
  BlockHeader_wf b /\ block_header_valid b.
Proof.
  intros Hok Hl Ho Hd. pose proof pbase_range. pose proof index_begin_range as (?&?&?).
  unfold kPartitionFooterRegionSize, kBlockHeaderEncodedSize in *.
  apply decode_block_inv in Hd as (?&?&_); [done|by apply Forall_slice|].
  rewrite len_slice; unfold kBlockHeaderEncodedSize; lia.
Qed.

Lemma decode_empty : exists e, decode_block_header [] = Err e.
Proof. eexists. reflexivity. Qed.

Lemma frame_entry_ok c seq off wh wl f :
  bytes_ok c -> backend <= len c -> 0 <= off <= index_begin v ->
  is_u32 seq -> frame_at v h c seq off wh wl f ->
  entry_ok v seq off (scanned_entry off (fst f)).
Proof.
  intros Hok Hl Ho Hq [Hd _ _ Hc Hs]. apply (decode_at c) in Hd as [Hwf Hv]; try done.
  apply block_bad_spec in Hc. pose proof index_begin_range as (?&?&?).
  pose proof (frame_size_facts _ _ _ _ _ _ Hwf Hv Hc Hs ltac:(lia) ltac:(lia)) as (?&?&?).
  apply span_bad_spec in Hs. pose proof Hv as (?&?&?&?&?&?).
  unfold kBlockHeaderEncodedSize, kPartitionFooterRegionSize in *.
  assert (Hu : u32 (128 + bh_stored_size (fst f)) = 128 + bh_stored_size (fst f))
    by (apply u32_small; zlia).
  destruct Hc. pose proof Hwf as [].
  split; cbn; unfold kBlockHeaderEncodedSize; rewrite ?Hu; try done; try lia.
  split; cbn; unfold kBlockHeaderEncodedSize; rewrite ?Hu; try done; zlia.
Qed.

Lemma frames_index_ok c log : bytes_ok c -> backend <= len c -> forall seq off wh wl,
  0 <= off <= index_begin v -> 0 <= seq -> seq + len log <= 2 ^ 32 ->
  frames_at v h c seq off wh wl log ->
  index_ok v seq off (log_entries off log) (log_end off log).
Proof.
  intros Hok Hl. induction log as [|f log IH]; intros seq off wh wl Ho Hs Hn H; cbn; [done|].
  destruct H as [Hf Hlog]. rewrite len_cons in Hn. pose proof (len_nonneg log).
  pose proof Hf as [Hd _ _ Hc Hsp]. pose proof index_begin_range as (?&?&?).
  destruct (decode_at c off (fst f) Hok Hl Ho Hd) as [Hwf Hv]. apply block_bad_spec in Hc.
  pose proof (frame_size_facts _ _ _ _ _ _ Hwf Hv Hc Hsp ltac:(lia) ltac:(lia)) as (?&?&?).
  unfold kBlockHeaderEncodedSize in *.
  split; [apply (frame_entry_ok c seq off wh wl); (done || zlia)|].
  apply (IH (seq + 1) (off + bh_frame_span (fst f)) _ _ ltac:(lia) ltac:(lia) ltac:(lia) Hlog).
Qed.

(** Where the frames end. *)
Lemma frames_end c log : bytes_ok c -> backend <= len c -> forall seq off wh wl,
  0 <= off <= index_begin v -> frames_at v h c seq off wh wl log ->
  off <= log_end off log <= index_begin v.
Proof.
  intros Hok Hl. induction log as [|f log IH]; intros seq off wh wl Ho H; cbn; [lia|].
  destruct H as [[Hd _ _ Hc Hsp] Hlog].
  destruct (decode_at c off (fst f) Hok Hl Ho Hd) as [Hwf Hv]. apply block_bad_spec in Hc.
  pose proof (frame_size_facts _ _ _ _ _ _ Hwf Hv Hc Hsp ltac:(lia) ltac:(lia)) as (?&?&?).
  unfold kBlockHeaderEncodedSize in *. apply IH in Hlog; lia.
Qed.

(** A change of the media outside the frames does not touch them. *)
Lemma frames_ext c c' log : bytes_ok c -> backend <= len c -> forall seq off wh wl,
  0 <= off <= index_begin v ->
  (forall o n, off <= o -> 0 <= n -> o + n <= log_end off log ->
     slice (pbase + o) n c' = slice (pbase + o) n c) ->
  frames_at v h c seq off wh wl log -> frames_at v h c' seq off wh wl log.
Proof.
  intros Hok Hl. induction log as [|f log IH]; intros seq off wh wl Ho Hext H; cbn; [done|].
  destruct H as [[Hd Hp Hcrc Hc Hsp] Hlog]. cbn in Hext.
  destruct (decode_at c off (fst f) Hok Hl Ho Hd) as [Hwf Hv].
  pose proof (frame_size_facts _ _ _ _ _ _ Hwf Hv (proj1 (block_bad_spec _ _ _ _ _ _ _ _) Hc) Hsp
    ltac:(lia) ltac:(lia)) as (?&?&?).
  pose proof (frames_end c log Hok Hl _ _ _ _ ltac:(unfold kBlockHeaderEncodedSize in *; split; [|eassumption]; lia) Hlog).
  split.
  - split; try done; rewrite <- ?Z.add_assoc, Hext; unfold kBlockHeaderEncodedSize in *;
      rewrite ?Z.add_assoc; (done || lia).
  - apply IH; [unfold kBlockHeaderEncodedSize in *; lia| |done]. intros o n ? ? ?.
    apply Hext; unfold kBlockHeaderEncodedSize in *; lia.
Qed.
End Placed.

Lemma log_entries_app off a b :
  log_entries off (a ++ b) = log_entries off a ++ log_entries (log_end off a) b.
Proof. revert off. induction a as [|f a IH]; intros off; cbn; [done|by rewrite IH]. Qed.
Lemma log_end_app off a b : log_end off (a ++ b) = log_end (log_end off a) b.
Proof. revert off. induction a as [|f a IH]; intros off; cbn; [done|by rewrite IH]. Qed.

(** The writer identity the next block must name. *)
Fixpoint last_writer (wh wl : Z) (log : list frame) : Z * Z :=
  match log with
  | [] => (wh, wl)
  | f :: log => last_writer (bh_writer_id_high (fst f)) (bh_writer_id_low (fst f)) log
  end.

Lemma last_writer_entries log : forall off wh wl, last_writer wh wl log =
  match last (log_entries off log) with
  | Some e => (ie_writer_id_high e, ie_writer_id_low e)
  | None => (wh, wl)
  end.
Proof.
  induction log as [|f log IH]; intros off wh wl; cbn; [done|].
  rewrite (IH (off + bh_frame_span (fst f))).
  destruct log as [|g log]; [done|]. cbn [log_entries]. rewrite (last_cons_cons (scanned_entry off _)).
  destruct (last _) eqn:E; [done|]. by apply last_None in E.
Qed.

Lemma frames_at_snoc v h c log f : forall seq off wh wl,
  frames_at v h c seq off wh wl log ->
  frame_at v h c (seq + len log) (log_end off log) (fst (last_writer wh wl log))
    (snd (last_writer wh wl log)) f ->
  frames_at v h c seq off wh wl (log ++ [f]).
Proof.
  induction log as [|g log IH]; intros seq off wh wl H Hf; cbn in *.
  - rewrite Z.add_0_r in Hf. done.
  - destruct H as [Hg Hlog]. split; [done|]. apply IH; [done|].
    rewrite len_cons in Hf. replace (seq + 1 + len log) with (seq + (1 + len log)) by lia.
    exact Hf.
Qed.
