(* ===== verification/RingScan.v ===== *)
(** * The sequential scan

    [scan_partition] (src/ring_store.cpp 361-445) always terminates within
    its fuel, and on a media that answers its reads returns exactly the
    longest valid chain of frames: every frame it lists is there, and every
    valid chain is a prefix of what it lists. *)

From S2P Require Import Prelude Status Hoare Crc32c Layout Format FormatFacts Codec Lz4 Storage.
From S2P Require Import RingTypes RingWriter RingReader RingOpen RingRules RingGeometry RingInv.
From S2P Require Import RingDisk.

Section Scan.
Context {T : Type} `{!Storage T, !StorageModel T, !ReliableReads T}.
Implicit Types s : Impl T.

(** Reads move nothing but the backend's private state, and a reliable
    medium stays reliable. *)
Definition moved s s' : Prop :=
  exists st, s' = s <| storage := st |> /\ same_media (storage s) st /\
    (rr_ok (storage s) -> rr_ok st).

Lemma moved_trans a b c : moved a b -> moved b c -> moved a c.
Proof.
  intros (st&->&Hm&Hr) (st'&->&Hm'&Hr'). exists st'. split; [done|].
  split; [by eapply same_media_trans|auto].
Qed.
Lemma moved_refl s : st_wf (storage s) -> moved s s.
Proof. intros. exists (storage s). split; [by destruct s|]. split; [by repeat split|done]. Qed.

Lemma moved_facts s s' : moved s s' ->
  volume s' = volume s /\ open_options s' = open_options s /\ st_wf (storage s') /\
  contents (storage s') = contents (storage s).
Proof. by intros (st&->&(?&?&_)&_). Qed.

(** A read went wrong although the medium is inside its image. *)
Definition lost s s' : Prop := moved s s' /\ ~ rr_ok (storage s).

Lemma lost_trans a b c : moved a b -> lost b c -> lost a c.
Proof.
  intros Hm [Hm' Hn]. split; [by eapply moved_trans|]. intros Hr. apply Hn.
  destruct Hm as (st&->&_&Hrr). by apply Hrr.
Qed.

Lemma wp_read off n (Q : bytes -> Impl T -> Prop) (E : Status -> Impl T -> Prop) s :
  st_wf (storage s) -> 0 <= off -> 0 <= n -> off + n <= len (contents (storage s)) ->
  (forall s', moved s s' -> Q (slice off n (contents (storage s))) s') ->
  (forall e s', status_ok e = false -> lost s s' -> E e s') ->
  wp (storage_read off n) Q E s.
Proof.
  intros Hwf Ho Hn Hin HQ HE. apply wp_storage_read. intros status buf st Hr.
  pose proof (st_size_contents _ Hwf). pose proof (st_size_bound _ Hwf).
  destruct (read_exact_spec off (zeroed n) (storage s) Hwf Ho) as (e&buf'&st'&Hr'&Hm&_&Hok).
  { rewrite len_zeroed by done. lia. }
  rewrite Hr in Hr'. simplify_eq. rewrite len_zeroed in Hok by done.
  assert (Hrr : rr_ok (storage s) -> status_ok e = true /\ rr_ok st').
  { intros Hrr. destruct (read_exact_reliable off (zeroed n) (storage s) Hwf Hrr Ho)
      as (b&t'&e'&He&Hs&Ht); [by rewrite len_zeroed|]. rewrite Hr in He. by simplify_eq. }
  assert (Hmv : moved s (s <| storage := st' |>)).
  { exists st'. split_and!; [done|done|]. intros Hx. by apply Hrr. }
  destruct (status_ok e) eqn:Ee.
  - destruct (Hok eq_refl) as [_ ->]. by apply HQ.
  - apply HE; [done|]. split; [done|]. intros Hx. by destruct (Hrr Hx).
Qed.

Section Loop.
Context (v : VolumeHeader) (backend : Z) (h : PartitionHeader) (c : bytes) (limit : Z).
Context (Hg : geometry_ok v backend) (Hb : backend < 2 ^ 63).
Context (Hslot : 0 <= ph_slot h < vh_partition_count v).
Context (Hok : bytes_ok c) (Hc : backend <= len c) (Hlim : limit <= index_begin v).

(** What a scan from [cursor] finds. *)
Record scanned (i cursor wh wl : Z) (entries : list IndexEntry) (log : list frame)
    (r : ScanResult) : Prop := {
  sn_entries : sc_entries r = entries ++ log_entries cursor log;
  sn_end : sc_data_end r = log_end cursor log;
  sn_limit : forall log', log' `prefix_of` log -> log_end cursor log' <= limit;
  sn_sound : forall log', log' `prefix_of` log -> i + len log' <= 2 ^ 32 ->
    frames_at v h c i cursor wh wl log';
  sn_complete : forall log', i + len log' <= 2 ^ 32 ->
    frames_at v h c i cursor wh wl log' -> log_end cursor log' <= limit ->
    log' `prefix_of` log }.

(** No frame can follow: the scan stops here. *)
Lemma scanned_stop i cursor wh wl entries b : 0 <= i -> cursor <= limit ->
  (i < 2 ^ 32 -> forall f, frame_at v h c i cursor wh wl f ->
     cursor + bh_frame_span (fst f) <= limit -> False) ->
  0 <= cursor ->
  scanned i cursor wh wl entries [] (mkScanResult entries cursor b).
Proof.
  intros Hi Hl Hno Hcur. split; cbn; [by rewrite app_nil_r|done|by intros ? ->%prefix_nil_inv..|].
  intros [|f log'] Hlen H Hend; [done|]. exfalso. destruct H as [Hf Hlog].
  rewrite len_cons in Hlen. pose proof (len_nonneg log'). cbn in Hend.
  pose proof Hf as [Hd _ _ Hch Hsp].
  destruct (decode_at v backend h Hg Hb Hslot c cursor (fst f) Hok Hc ltac:(lia) Hd) as [Hwf Hv].
  pose proof (frame_size_facts v backend h Hg Hb _ _ _ _ _ _ Hwf Hv
    (proj1 (block_bad_spec _ _ _ _ _ _ _ _) Hch) Hsp ltac:(lia) ltac:(lia)) as (?&?&?).
  unfold kBlockHeaderEncodedSize in *.
  pose proof (frames_end v backend h Hg Hb Hslot c log' Hok Hc (i + 1) (cursor + bh_frame_span (fst f))
    _ _ ltac:(lia) Hlog).
  apply (Hno ltac:(lia) f Hf). lia.
Qed.

Lemma scanned_cons i cursor wh wl entries f log r : 0 <= i -> cursor <= limit ->
  decode_block_header (slice (partition_base v (ph_slot h) + cursor) kBlockHeaderEncodedSize c) =
    Ok (fst f) ->
  slice (partition_base v (ph_slot h) + cursor + kBlockHeaderEncodedSize)
    (bh_stored_size (fst f)) c = snd f ->
  (i < 2 ^ 32 -> frame_at v h c i cursor wh wl f) ->
  scanned (i + 1) (cursor + bh_frame_span (fst f)) (bh_writer_id_high (fst f))
    (bh_writer_id_low (fst f)) (entries ++ [scanned_entry cursor (fst f)]) log r ->
  scanned i cursor wh wl entries (f :: log) r.
Proof.
  intros Hi Hcl Hd Hp Hf [He Hend Hl Hs Hcomp]. pose proof (len_nonneg log).
  split; cbn; try done.
  - by rewrite He, <- app_assoc.
  - intros [|g log'] Hpre; [done|]. pose proof (prefix_cons_inv_1 _ _ _ _ Hpre) as ->.
    apply prefix_cons_inv_2 in Hpre. cbn. by apply Hl.
  - intros [|g log'] Hpre Hn; [done|]. pose proof (prefix_cons_inv_1 _ _ _ _ Hpre) as ->.
    apply prefix_cons_inv_2 in Hpre. rewrite len_cons in Hn. pose proof (len_nonneg log').
    split; [apply Hf; lia|apply Hs; [done|lia]].
  - intros [|g log'] Hn H' Hend'; [apply prefix_nil|]. destruct H' as [[Hgd Hgp _ _ _] Hlog].
    rewrite len_cons in Hn. rewrite Hd in Hgd. injection Hgd as Hgd. rewrite <- Hgd in *.
    rewrite Hp in Hgp. destruct f, g. simpl in *. subst.
    apply prefix_cons, Hcomp; try done. lia.
Qed.

Lemma scan_loop_spec fuel : forall i cursor wh wl entries s,
  st_wf (storage s) -> volume s = v -> contents (storage s) = c ->
  0 <= i -> 0 <= cursor <= limit -> limit - cursor < kBlockHeaderEncodedSize * Z.of_nat fuel ->
  wp (scan_loop fuel h limit cursor (u32 i) wh wl entries)
    (fun r s' => moved s s' /\ exists r' log, r = Some r' /\ scanned i cursor wh wl entries log r')
    (fun _ s' => lost s s') s.
Proof.
  induction fuel as [|fuel IH]; intros i cursor wh wl entries s Hwf Hv Hcont Hi Hcur Hfuel; [lia|].
  cbn [scan_loop]. pose proof (index_begin_range v backend Hg Hb) as (?&?&?).
  pose proof (pbase_range v backend h Hg Hb Hslot) as [? ?].
  unfold kPartitionFooterRegionSize in *. pose proof (eq_refl : kBlockHeaderEncodedSize = 128).
  rewrite u64_small by zlia. apply wp_if; intros Hin; cycle 1.
  { apply wp_ret. split; [by apply moved_refl|]. eexists _, []. split; [done|].
    apply scanned_stop; try lia. intros Hi32 f Hf Hend.
    destruct Hf as [Hd _ _ Hch Hsp].
    destruct (decode_at v backend h Hg Hb Hslot c cursor (fst f) Hok Hc ltac:(lia) Hd) as [Hwf' Hv'].
    pose proof (frame_size_facts v backend h Hg Hb _ _ _ _ _ _ Hwf' Hv'
      (proj1 (block_bad_spec _ _ _ _ _ _ _ _) Hch) Hsp ltac:(lia) ltac:(lia)) as (?&?&?).
    lia. }
  apply wp_bind, wp_get. rewrite Hv. cbv zeta.
  rewrite (u64_small (partition_base v (ph_slot h) + cursor)) by zlia.
  apply wp_bind, wp_read; [done|lia|lia|rewrite Hcont; lia| |done]. intros s1 Hm1. rewrite Hcont.
  destruct (moved_facts _ _ Hm1) as (Hv1&_&Hwf1&Hc1).
  assert (Hstop : (i < 2 ^ 32 -> forall f, frame_at v h c i cursor wh wl f ->
      cursor + bh_frame_span (fst f) <= limit -> False) ->
    wp (mret (Some (mkScanResult entries cursor true)))
      (fun r s' => moved s s' /\ exists r' log, r = Some r' /\ scanned i cursor wh wl entries log r')
      (fun _ s' => lost s s') s1).
  { intros Hno. apply wp_ret. split; [done|]. eexists _, []. split; [done|].
    apply scanned_stop; (done || lia). }
  destruct (decode_block_header _) as [b|e] eqn:Ed; cycle 1.
  { apply Hstop. intros _ f [Hd _ _ _ _] _. congruence. }
  destruct (decode_at v backend h Hg Hb Hslot c cursor b Hok Hc ltac:(lia) Ed) as [Hbwf Hbv].
  apply wp_if; intros Hbad.
  { apply Hstop. intros Hi32 f [Hd _ _ Hch _] Hend. rewrite Hd in Ed. simplify_eq.
    rewrite u32_small in Hbad by zlia. apply block_bad_spec in Hch.
    rewrite (proj2 (block_bad_spec _ _ _ _ _ _ _ _)) in Hbad; [done|].
    apply (chain_limit v h (index_begin v)); try done; [lia|apply Hbwf|lia]. }
  apply block_bad_spec in Hbad. apply wp_if; intros Hsb.
  { apply Hstop. intros _ f [Hd _ _ _ Hsp] _. congruence. }
  pose proof (frame_size_facts v backend h Hg Hb _ _ _ _ _ _ Hbwf Hbv Hbad Hsb ltac:(lia) ltac:(lia))
    as (?&?&?).
  rewrite (u64_small (partition_base v (ph_slot h) + cursor + kBlockHeaderEncodedSize)) by zlia.
  apply wp_bind, wp_read; [done|lia|lia|rewrite Hc1, Hcont; lia| |].
  2:{ intros e s2 _ Hm2. by eapply lost_trans. }
  intros s2 Hm2. rewrite Hc1, Hcont. destruct (moved_facts _ _ Hm2) as (Hv2&_&Hwf2&Hc2).
  apply wp_if; intros Hcrc.
  { apply negb_true_iff, Z.eqb_neq in Hcrc. clear Hstop. apply wp_ret.
    split; [by eapply moved_trans|]. eexists _, []. split; [done|].
    apply scanned_stop; try (done || lia). intros _ f [Hd Hp Hfc _ _] _. simplify_eq.
    congruence. }
  apply negb_false_iff, Z.eqb_eq in Hcrc. rewrite u64_small by zlia.
  replace (u32 (u32 i + 1)) with (u32 (i + 1)) by (unfold u32; by rewrite Zplus_mod_idemp_l).
  eapply wp_conseq; [apply IH; try done; try congruence; try lia|..].
  - intros r s3 (Hm3&r'&log&->&Hsn). split; [by do 2 (eapply moved_trans; [done|])|].
    eexists _, _. split; [done|]. 
    apply (scanned_cons i cursor wh wl entries
      (b, slice (partition_base v (ph_slot h) + cursor + kBlockHeaderEncodedSize)
            (bh_stored_size b) c) log); [done|lia|done|done| |done].
    intros Hi32. rewrite u32_small in Hbad by zlia.
    split; try done. apply block_bad_spec. apply (chain_limit v h limit); try done; cbn [fst]; try lia.
    apply Hbwf.
  - intros e s3 Hm3. by do 2 (eapply lost_trans; [done|]).
Qed.
End Loop.

(** The limit [scan_partition] uses. *)
Definition scan_bound (v : VolumeHeader) (scan_limit : Z) : Z :=
  if scan_limit =? 0 then index_begin v else scan_limit.

Lemma scan_partition_spec h scan_limit s :
  st_wf (storage s) -> geometry_ok (volume s) (st_size (storage s)) ->
  0 <= ph_slot h < vh_partition_count (volume s) ->
  wp (scan_partition h scan_limit)
    (fun r s' => moved s s' /\ exists log,
       kPartitionHeaderRegionSize <= scan_bound (volume s) scan_limit <= index_begin (volume s) /\
       scanned (volume s) h (contents (storage s)) (scan_bound (volume s) scan_limit) 0
         kPartitionHeaderRegionSize 0 0 [] log r)
    (fun _ s' => lost s s' \/ moved s s' /\
       ~ (kPartitionHeaderRegionSize <= scan_bound (volume s) scan_limit <=
          index_begin (volume s))) s.
Proof.
  intros Hwf Hg Hslot. pose proof (st_size_bound _ Hwf) as Hb.
  pose proof (index_begin_range _ _ Hg Hb) as (?&?&?). pose proof (st_size_contents _ Hwf) as Hsz.
  unfold scan_partition. apply wp_bind, wp_get. cbv zeta. fold (scan_bound (volume s) scan_limit).
  set (limit := scan_bound (volume s) scan_limit).
  apply wp_if; intros Hlim.
  { right. split; [by apply moved_refl|lia]. }
  unfold kPartitionHeaderRegionSize in *. apply wp_bind.
  change 0 with (u32 0) at 1.
  eapply (wp_conseq _ _ _ (fun _ s' => lost s s')).
  - apply (scan_loop_spec (volume s) (st_size (storage s)) h (contents (storage s)) limit);
      try done; try lia; [by apply st_bytes_ok|].
    unfold scan_fuel, kBlockHeaderEncodedSize.
    assert (0 <= limit / 128) by (apply Z.div_pos; lia).
    pose proof (Z.mod_pos_bound limit 128 ltac:(lia)). pose proof (Z.div_mod limit 128 ltac:(lia)).
    lia.
  - intros r s' (Hm&r'&log&->&Hsn). apply wp_ret. split; [done|]. exists log. split; [lia|done].
  - intros e s' Hl. by left.
Qed.
End Scan.
