(* ===== verification/RingLog.v ===== *)
(** * The block log of the active partition

    The published blocks of the active partition are on the media in the
    order they were published, and each decodes to the bytes that were in the
    builder: an abstract log that publishing extends and rotation restarts. *)

From S2P Require Import Prelude Status Hoare Crc32c Layout Format FormatFacts Codec PackBitsFacts.
From S2P Require Import Lz4 Lz4Facts Storage RingTypes RingWriter RingReader RingOpen RingRules.
From S2P Require Import RingGeometry RingInv RingHealth RingWriterFacts RingCalls RingDisk.
From S2P Require Import RingScan.

(** The header on media is readable and names the same partition. *)
Definition header_at (v : VolumeHeader) (o : OpenOptions) (c : bytes) (h : PartitionHeader) : Prop :=
  exists h', accept_partition_header v o (ph_slot h)
      (slice (partition_base v (ph_slot h)) kPartitionHeaderEncodedSize c) = Ok h' /\
    ph_generation h' = ph_generation h /\ ph_options h' = ph_options h.

(** The stored payload of a frame decodes to [raw]. *)
Definition decodes (o : OpenOptions) (f : frame) (raw : bytes) : Prop :=
  decode_payload o (fst f) (snd f) = Ok raw.

Lemma decodes_codec o b payload c raw :
  codec_for o (bh_compression b) (bh_compression_version b) = Some c ->
  bh_raw_size b = len raw ->
  decompress c (View payload) (len raw) (Some []) = (Status_Ok, Some raw) ->
  decodes o (b, payload) raw.
Proof.
  intros Hc Hr Hd. unfold decodes, decode_payload. cbn [fst snd]. rewrite Hc, Hr, Hd. cbn.
  by rewrite Z.eqb_refl.
Qed.

Lemma decodes_none o b payload :
  bh_compression b = CompressionId_none -> bh_compression_version b = 1 ->
  bh_raw_size b = len payload -> decodes o (b, payload) payload.
Proof.
  intros Hc Hv Hr. apply (decodes_codec o b payload NoneCodec.codec payload); [by rewrite Hc, Hv|done|].
  unfold decompress, NoneCodec.codec, NoneCodec.run_decompress. cbn [view_data].
  rewrite with_output_View, Z.eqb_refl. done.
Qed.

Lemma own_features v backend opts : geometry_ok v backend -> backend < 2 ^ 63 ->
  check_feature_regions v (descriptors opts (vh_partition_size v) (vh_index_region_size v)) = Ok tt.
Proof.
  intros Hg Hb. pose proof (vh_wf_index_region_size _ (g_wf _ _ Hg)).
  pose proof (index_begin_range _ _ Hg Hb) as (?&?&?). pose proof (regions _ _ Hg Hb) as (_&?&?&_).
  unfold kPartitionHeaderRegionSize, kPartitionFooterRegionSize in *.
  unfold descriptors. fold (index_begin v). cbn [check_feature_regions].
  assert (Hz : forall k x y z e g, (k =? kFeatureTimeIndex) = false ->
    check_feature_region v (mkFeatureDescriptor k x y z e g 0 0) = Ok tt).
  { intros k x y z e g Ht. unfold check_feature_region. cbn [fd_region_offset fd_region_length fd_kind].
    rewrite (proj2 (Z.ltb_ge _ _)) by lia. rewrite u64_small by zlia.
    rewrite (proj2 (Z.ltb_ge _ _)) by lia. cbn [orb]. rewrite Ht. cbn. by rewrite andb_false_r. }
  rewrite !Hz by done. unfold check_feature_region, mbind, result_bind. cbn.
  rewrite (proj2 (Z.ltb_ge _ _)) by lia. rewrite (u64_small (_ - _)) by zlia.
  rewrite (proj2 (Z.ltb_ge _ _)) by lia. cbn. by rewrite !Z.eqb_refl.
Qed.

(** A header the writer wrote is accepted by the reader. *)
Lemma accept_own_header v backend o slot g opts :
  geometry_ok v backend -> backend < 2 ^ 63 -> 0 <= slot < vh_partition_count v -> is_u64 g ->
  options_ok o opts ->
  exists h', accept_partition_header v o slot
      (encode_partition_header (make_partition_header v slot g opts) (vh_partition_size v)
         (vh_index_region_size v)) = Ok h' /\
    ph_generation h' = g /\ ph_options h' = opts.
Proof.
  intros Hg Hb Hs Hgen (Howf&Hov&Hval). pose proof (g_wf _ _ Hg) as Hvwf.
  pose proof (index_begin_range _ _ Hg Hb) as (?&?&?). pose proof (regions _ _ Hg Hb) as (_&Hir&?&_).
  assert (Hh : PartitionHeader_wf (make_partition_header v slot g opts)).
  { destruct Hvwf. split; cbn; try done; zlia. }
  assert (Hopt : options_valid opts).
  { split; [done|]. unfold validate_partition_options in Hval. destruct (codec_for _ _ _); [|done].
    do 2 (case_match; [done|]). lia. }
  unfold accept_partition_header. rewrite decode_encode_partition; [|done|apply Hvwf|done|].
  2:{ pose proof (g_index _ _ Hg). unfold kIndexEntryEncodedSize in *. lia. }
  assert (Hid : forall h', ph_volume_id_high h' = vh_volume_id_high v ->
    ph_volume_id_low h' = vh_volume_id_low v -> ph_slot h' = slot ->
    ph_max_block_payload h' = vh_max_block_payload v ->
    ph_persistence_quantum h' = vh_persistence_quantum v -> check_header_identity v slot h' = Ok tt).
  { intros h' E1 E2 E3 E4 E5. unfold check_header_identity. by rewrite E1, E2, E3, E4, E5, !Z.eqb_refl. }
  eexists. unfold mbind, result_bind. rewrite Hid by done. cbn [ph_options ph_features].
  unfold make_partition_header. cbn [ph_options]. rewrite Hval, (own_features v backend) by done.
  done.
Qed.

Lemma slice_spliced {A} off n (a l : list A) : len a = n -> 0 <= off -> off + n <= len l ->
  slice off n (splice off a l) = a.
Proof. intros <-. apply slice_splice_same. Qed.

(** What was spliced in, read back in two parts. *)
Lemma slice_splice_app {A} off (a b l : list A) : 0 <= off -> off + len a + len b <= len l ->
  slice off (len a) (splice off (a ++ b) l) = a /\
  slice (off + len a) (len b) (splice off (a ++ b) l) = b.
Proof.
  intros Ho Hl. pose proof (len_nonneg a). pose proof (len_nonneg b).
  rewrite <- splice_splice by done. split.
  - rewrite slice_splice_before; [|lia..|rewrite len_splice; lia]. apply slice_splice_same; lia.
  - apply slice_splice_same; [lia|]. rewrite len_splice; lia.
Qed.

Lemma make_block_crc {T} (s : Impl T) p sel ver payload span :
  bh_payload_crc (make_block s p sel ver payload span) = crc32c payload.
Proof. reflexivity. Qed.

Section Log.
Context {T : Type} `{!Storage T, !StorageModel T}.
Variable now : nat -> Z.
Implicit Types s : Impl T.

Record logged s (p : PartitionState) (log : list frame) (raws : list bytes) : Prop := {
  lg_active : active s = Some p;
  lg_index : ps_active_index p = log_entries kPartitionHeaderRegionSize log;
  lg_end : ps_data_end p = log_end kPartitionHeaderRegionSize log;
  lg_header : header_at (volume s) (open_options s) (contents (storage s)) (ps_header p);
  lg_frames : frames_at (volume s) (ps_header p) (contents (storage s)) 0
                kPartitionHeaderRegionSize 0 0 log;
  lg_raws : Forall2 (decodes (open_options s)) log raws }.

Lemma logged_core s s' p log raws : core_eq s s' -> contents (storage s') = contents (storage s) ->
  logged s p log raws -> logged s' p log raws.
Proof.
  intros Hc Hco []. split; core_rw Hc; rewrite ?Hco; try done. by rewrite (core_active _ _ Hc).
Qed.

(** ** Publishing extends the log *)
Section Emit.
Context s p sel ver payload span s' (Hw : winv s) (Ha : active s = Some p)
  (Hne : builder s <> []) (Hem : emitted s p sel ver payload span s') (Hfr : emit_frame s s').
Let He := et_emission _ _ _ _ _ _ _ Hem.
Local Abbreviation v := (volume s).
Local Abbreviation block := (make_block s p sel ver payload span).

Lemma emitted_decodes : decodes (open_options s) (block, payload) (builder s).
Proof.
  pose proof (emission_facts s p sel ver payload span Hw Ha Hne He)
    as (_&(_&Hmax&_)&_&Hg&_). pose proof (vh_wf_max_block_payload _ (g_wf _ _ Hg)).
  assert (Hr : bh_raw_size block = len (builder s)) by (cbn; apply u32_small; len_lia).
  destruct (em_choice _ _ _ _ _ _ He) as [(Hs&Hv&Hp)|(Hs&_&Hv&c&Hc&Hd)].
  - rewrite <- Hp. apply decodes_none; [done|done|]. by rewrite Hr, Hp.
  - by apply (decodes_codec _ _ _ c).
Qed.

(** The frame is inside the data region. *)
Lemma emitted_place :
  let base := partition_base v (ph_slot (ps_header p)) in
  0 <= base /\ kPartitionHeaderRegionSize <= ps_data_end p /\
  base + ps_data_end p + len (encode_block_header block ++ payload) <= len (contents (storage s)) /\
  len (encode_block_header block ++ payload) = kBlockHeaderEncodedSize + len payload.
Proof.
  pose proof (emission_facts s p sel ver payload span Hw Ha Hne He) as (Hps&_&_&Hg&Hsb&Hde&_).
  pose proof (emit_frame_pos s p sel ver payload span Hw Ha Hne He) as [? ?].
  pose proof (ho_slot _ _ _ (po_header _ _ _ Hps)) as Hslot.
  pose proof (partition_range _ _ Hg _ Hslot).
  rewrite len_app, encode_block_len, (partition_base_eq _ _ Hg Hsb _ Hslot) in *.
  unfold kVolumePrefixSize in *. split_and!; lia.
Qed.

(** Bytes of the active partition below [data_end] do not move. *)
Lemma emitted_slice o n : 0 <= o -> 0 <= n -> o + n <= ps_data_end p ->
  slice (partition_base v (ph_slot (ps_header p)) + o) n (contents (storage s')) =
  slice (partition_base v (ph_slot (ps_header p)) + o) n (contents (storage s)).
Proof.
  intros. pose proof emitted_place as (?&?&?&?). rewrite (et_contents _ _ _ _ _ _ _ Hem).
  pose proof (len_nonneg (encode_block_header block ++ payload)).
  apply slice_splice_before; lia.
Qed.

Lemma emitted_chain wh wl :
  (wh, wl) = match last (ps_active_index p) with
             | Some e => (ie_writer_id_high e, ie_writer_id_low e) | None => (0, 0) end ->
  chain_ok v (ps_header p) (index_begin v) (ps_data_end p) (len (ps_active_index p)) wh wl block.
Proof.
  intros Hl.
  pose proof (emission_facts s p sel ver payload span Hw Ha Hne He)
    as (Hps&(_&Hmaxp&_&_)&[Hr _]&Hg&Hsb&Hde&Hmod&Hsp32&Hidx).
  pose proof (block_wf s p sel ver payload span Hw Ha Hne He) as [_ (?&?&?&?&?&?)].
  pose proof (em_bounds _ _ _ _ _ _ He). pose proof (em_len _ _ _ _ _ _ He).
  pose proof (vh_wf_max_block_payload _ (g_wf _ _ Hg)).
  pose proof (index_begin_range _ _ Hg Hsb) as (?&?&?).
  unfold kPartitionFooterRegionSize, kPartitionHeaderRegionSize, kBlockHeaderEncodedSize,
    UINT32_MAX in *.
  assert (Hst : bh_stored_size block = len payload) by (cbn; apply u32_small; zlia).
  assert (Hrs : bh_raw_size block = len (builder s)) by (cbn; apply u32_small; len_lia).
  assert (Hfs : bh_frame_span block = span) by (cbn; apply u32_small; zlia).
  pose proof (em_choice _ _ _ _ _ _ He) as Hch.
  split; rewrite ?Hst, ?Hrs, ?Hfs; try reflexivity; try lia.
  - cbn. destruct (last (ps_active_index p)); by injection Hl as -> ->.
  - apply u32_small. pose proof (len_nonneg (ps_active_index p)). zlia.
  - cbn. destruct Hch as [(->&_)|(->&_&->&_)]; [by intros []|done].
  - cbn. destruct Hch as [(->&->&->)|(->&Hx&_)]; [done|by intros ?].
  - apply (em_mod _ _ _ _ _ _ He).
  - rewrite u64_small by zlia. lia.
Qed.

Lemma emitted_frame_at wh wl :
  (wh, wl) = match last (ps_active_index p) with
             | Some e => (ie_writer_id_high e, ie_writer_id_low e) | None => (0, 0) end ->
  frame_at v (ps_header p) (contents (storage s')) (len (ps_active_index p)) (ps_data_end p)
    wh wl (block, payload).
Proof.
  intros Hl. pose proof emitted_place as (?&?&?&Hlen).
  pose proof (emission_facts s p sel ver payload span Hw Ha Hne He)
    as (Hps&(_&Hmaxp&Hb&_)&[Hr _]&Hg&Hsb&Hde&Hmod&Hsp32&Hidx).
  pose proof (block_wf s p sel ver payload span Hw Ha Hne He) as [Hwf Hv].
  pose proof (em_bounds _ _ _ _ _ _ He). pose proof (em_len _ _ _ _ _ _ He).
  pose proof (vh_wf_max_block_payload _ (g_wf _ _ Hg)).
  pose proof (index_begin_range _ _ Hg Hsb) as (?&?&?).
  unfold kPartitionFooterRegionSize, kPartitionHeaderRegionSize, UINT32_MAX in *.
  assert (Hk : kBlockHeaderEncodedSize = 128) by done.
  assert (Hst : bh_stored_size block = len payload) by (cbn; apply u32_small; zlia).
  assert (Hrs : bh_raw_size block = len (builder s)) by (cbn; apply u32_small; len_lia).
  assert (Hfs : bh_frame_span block = span) by (cbn; apply u32_small; zlia).
  pose proof (encode_block_len block) as Hebl.
  rewrite (et_contents _ _ _ _ _ _ _ Hem).
  destruct (slice_splice_app (partition_base v (ph_slot (ps_header p)) + ps_data_end p)
    (encode_block_header block) payload (contents (storage s))) as [Hr1 Hr2];
    [lia|rewrite Hebl; lia|]. rewrite Hebl in Hr1, Hr2.
  split; cbn [fst snd].
  - rewrite Hr1. by apply decode_encode_block.
  - rewrite Hst. exact Hr2.
  - symmetry. apply make_block_crc.
  - apply block_bad_spec. by apply emitted_chain.
  - apply span_bad_spec. rewrite Hst, Hfs. apply (em_span _ _ _ _ _ _ He).
Qed.

Lemma emitted_entry : make_entry block (ps_data_end p) (kBlockHeaderEncodedSize + len payload) span =
  scanned_entry (ps_data_end p) block.
Proof.
  pose proof (emission_facts s p sel ver payload span Hw Ha Hne He)
    as (_&(_&Hmaxp&_&_)&_&Hg&_). pose proof (em_len _ _ _ _ _ _ He).
  pose proof (vh_wf_max_block_payload _ (g_wf _ _ Hg)).
  assert (Hst : bh_stored_size block = len payload) by (cbn; apply u32_small; zlia).
  unfold make_entry, scanned_entry. by rewrite Hst.
Qed.

Lemma logged_emit log raws : logged s p log raws -> exists p',
  logged s' p' (log ++ [(block, payload)]) (raws ++ [builder s]).
Proof.
  intros [_ Hi Hend Hh Hf Hra].
  pose proof (emission_facts s p sel ver payload span Hw Ha Hne He) as (Hps&_&Hroom&Hg&Hsb&Hde&_).
  destruct (emitted_entry_ok s p sel ver payload span Hw Ha Hne He) as [Heo Hes].
  pose proof (ho_slot _ _ _ (po_header _ _ _ Hps)) as Hslot.
  pose proof (em_bounds _ _ _ _ _ _ He). pose proof (em_len _ _ _ _ _ _ He).
  pose proof (index_begin_range _ _ Hg Hsb) as (?&?&?). pose proof (proj1 Hroom).
  pose proof (vh_wf_index_region_size _ (g_wf _ _ Hg)).
  assert (Hk : kBlockHeaderEncodedSize = 128) by done.
  assert (Hk2 : kPartitionHeaderRegionSize = 4096) by done.
  unfold kPartitionFooterRegionSize in *.
  destruct (push_block_ok v (open_options s) p block _ span Hps Hroom Heo Hes eq_refl eq_refl
    eq_refl ltac:(lia) ltac:(lia) ltac:(zlia)) as (_&_&Hph&Hpi&Hpe).
  pose proof (w_st _ (w_base _ Hw)) as Hwf.
  pose proof (emitted_frame_at (fst (last_writer 0 0 log)) (snd (last_writer 0 0 log))) as Hfa.
  rewrite Hi, <- (last_writer_entries log kPartitionHeaderRegionSize 0 0), len_log_entries, Hend in Hfa.
  specialize (Hfa ltac:(by destruct (last_writer 0 0 log))).
  eexists. split.
  - apply (et_active _ _ _ _ _ _ _ Hem).
  - rewrite Hpi, Hi, log_entries_app, emitted_entry, Hend. done.
  - rewrite Hpe, Hend, log_end_app. cbn [log_end fst]. f_equal. symmetry. exact Hes.
  - rewrite Hph, (ef_volume _ _ Hfr), (ef_options _ _ Hfr). unfold header_at.
    replace (partition_base v (ph_slot (ps_header p)))
      with (partition_base v (ph_slot (ps_header p)) + 0) by lia.
    rewrite emitted_slice; [|lia|unfold kPartitionHeaderEncodedSize; lia|
      unfold kPartitionHeaderEncodedSize; lia]. by rewrite Z.add_0_r.
  - rewrite Hph, (ef_volume _ _ Hfr). apply frames_at_snoc; [|exact Hfa].
    apply (frames_ext _ (st_size (storage s)) _ Hg Hsb Hslot (contents (storage s)));
      [by apply st_bytes_ok|rewrite (st_size_contents _ Hwf); lia|lia| |done].
    intros o n ? ? ?. apply emitted_slice; lia.
  - rewrite (ef_options _ _ Hfr). apply Forall2_app; [done|]. constructor; [|done].
    apply emitted_decodes.
Qed.
End Emit.

(** ** Rotation restarts it *)

Lemma logged_created slot g o s s' : wbase s -> created slot g o s s' ->
  0 <= slot < vh_partition_count (volume s) -> is_u64 g -> options_ok (open_options s) o ->
  logged s' (new_partition_state (make_partition_header (volume s) slot g o)) [] [].
Proof.
  intros Hb1 Hcr Hslot Hgu Ho. pose proof (w_geo _ Hb1) as Hg.
  pose proof (st_size_bound _ (w_st _ Hb1)) as Hsb.
  pose proof (partition_range _ _ Hg _ Hslot). pose proof (partition_base_eq _ _ Hg Hsb _ Hslot).
  pose proof (index_begin_range _ _ Hg Hsb) as (?&?&?).
  pose proof (st_size_contents _ (w_st _ Hb1)) as Hsz.
  destruct (accept_own_header (volume s) _ (open_options s) slot g o Hg Hsb Hslot Hgu Ho)
    as (h'&Hacc&Hgen&Hopt).
  split; [by apply created_active|done|done| |done|constructor].
  exists h'. rewrite (cr_volume _ _ _ _ _ Hcr), (cr_options _ _ _ _ _ Hcr), (cr_contents _ _ _ _ _ Hcr).
  cbn [new_partition_state ps_header ph_slot make_partition_header ph_generation ph_options].
  unfold kVolumePrefixSize, kPartitionHeaderRegionSize, kPartitionFooterRegionSize in *.
  rewrite slice_spliced; [|apply encode_partition_len|clear Hacc; lia|
    unfold kPartitionHeaderEncodedSize; clear Hacc; lia].
  exact (conj Hacc (conj Hgen Hopt)).
Qed.

Lemma logged_turned o s s' : winv s -> turned o s s' -> options_ok (open_options s) o ->
  exists p', logged s' p' [] [].
Proof.
  intros Hw (p&s1&s2&Ha&Hse&Hcr&Hgm&->) Ho. pose proof (sealed_base _ _ _ Hw Hse) as Hb1.
  destruct (w_active _ Hw) as (p'&Ha'&Hps&_). rewrite Ha in Ha'. injection Ha' as <-.
  pose proof (ho_generation _ _ _ (po_header _ _ _ Hps)) as [Hgu _].
  pose proof (se_core _ _ _ Hse) as Hc1.
  pose proof (c_volume _ _ Hc1) as Hv1. pose proof (c_options _ _ Hc1) as Ho1. simpl in Hv1, Ho1.
  pose proof (next_slot_range _ _ (ph_slot (ps_header p)) (w_geo _ (w_base _ Hw))) as Hslot.
  eexists. eapply (logged_core s2); [by split|done|].
  eapply logged_created; [exact Hb1|exact Hcr|by rewrite Hv1|unfold UINT64_MAX in *; zlia|].
  by rewrite Ho1.
Qed.
End Log.
