(* ===== verification/RingRefine.v ===== *)
(** * The abstract log, and the store as a refinement of it

    A client sees a sequence of published blocks of the current partition and
    the bytes pending for the next one. [astep] is what each call is allowed
    to do to that; every call of the writer that returns does one of these
    steps, and what it leaves on the media decodes to the abstract blocks. *)

From S2P Require Import Prelude Status Hoare Crc32c Layout Format FormatFacts Codec PackBitsFacts.
From S2P Require Import Lz4 Lz4Facts Storage RingTypes RingWriter RingReader RingOpen RingRules.
From S2P Require Import RingGeometry RingInv RingHealth RingWriterFacts RingCalls RingDisk.
From S2P Require Import RingScan RingLog.

Record alog := mkAlog { a_blocks : list bytes; a_pending : bytes }.

Definition apublish (l : alog) : alog :=
  match a_pending l with
  | [] => l
  | pending => mkAlog (a_blocks l ++ [pending]) []
  end.
Definition afresh : alog := mkAlog [] [].
Definition aaccept (record : bytes) (l : alog) : alog :=
  mkAlog (a_blocks l) (a_pending l ++ record).

(** Before accepting: publish when the record does not fit the block, start a
    new partition when the current one is full. *)
Definition aroom (max : Z) (record : ByteView) (l l' : alog) : Prop :=
  let l1 := if max - len (a_pending l) <? view_size record then apublish l else l in
  l' = l1 \/ (a_pending l1 = [] /\ l' = afresh).

Inductive astep (max : Z) : call -> alog -> alog -> Prop :=
| astep_append r t f l l' : aroom max r l l' ->
    astep max (call_append r t f) l (aaccept (view_data r) l')
| astep_append_checked r t e f l l' : aroom max r l l' ->
    astep max (call_append_checked r t e f) l (aaccept (view_data r) l')
| astep_publish l : astep max call_publish l (apublish l)
| astep_checkpoint l : astep max call_checkpoint l (apublish l)
| astep_close l : astep max call_close l (apublish l)
| astep_rotate o l : astep max (call_rotate o) l afresh
| astep_set_next o l : astep max (call_set_next o) l l.

Section Refine.
Context {T : Type} `{!Storage T, !StorageModel T}.
Variable now : nat -> Z.
Implicit Types s : Impl T.

Definition refines s (l : alog) : Prop :=
  winv s /\ builder s = a_pending l /\ exists p log, logged s p log (a_blocks l).

Lemma logged_kept s s' p log raws : kept s s' -> logged s p log raws -> logged s' p log raws.
Proof. intros [Ha _ _ Hv Ho Hc] []. split; rewrite ?Ha, ?Hv, ?Ho, ?Hc; done. Qed.

Lemma refines_published s s' l : published s s' -> refines s l -> refines s' (apublish l).
Proof.
  intros (Hw'&Hfr&[[Hb ->]|(Hne&p&sel&ver&pl&span&Ha&Hem)]) (Hw&Hpend&p0&log&Hl).
  - unfold apublish. rewrite Hb in Hpend. rewrite <- Hpend. split; [done|].
    split; [by rewrite Hb|by exists p0, log].
  - assert (p0 = p) as -> by (pose proof (lg_active _ _ _ _ Hl); congruence).
    destruct (logged_emit s p sel ver pl span s' Hw Ha Hne Hem Hfr _ _ Hl) as (p'&Hl').
    rewrite Hpend in Hl', Hne. unfold apublish. split; [done|].
    destruct (a_pending l) as [|x y] eqn:E; [done|]. split; [apply (ef_builder _ _ Hfr)|].
    by eexists p', _.
Qed.

Lemma refines_rotated s s' : winv s -> builder s = [] -> rotated (next_options s) s s' ->
  refines s' afresh.
Proof.
  intros Hw Hb (Hw'&Hfr&_&Ht&_). split; [done|].
  split; [rewrite (fe_builder _ _ Hfr); by rewrite Hb|].
  destruct (logged_turned _ _ _ Hw Ht (w_next _ (w_base _ Hw))) as (p'&Hl). by exists p', [].
Qed.

Lemma refines_prepared record s s' l : prepared record s s' -> refines s l ->
  exists l', aroom (vh_max_block_payload (volume s)) record l l' /\ refines s' l'.
Proof.
  intros (s1&H1&Hw1&H2) Hr. pose proof Hr as (_&Hpend&_). unfold aroom. rewrite <- Hpend.
  set (l1 := if _ <? _ then apublish l else l).
  assert (Hr1 : refines s1 l1).
  { unfold l1. destruct (_ <? _); [by apply (refines_published s)|by subst]. }
  destruct H2 as [->|(Hb&_&Hro)].
  - exists l1. split; [by left|done].
  - exists afresh. split; [right; split; [|done]|by apply (refines_rotated s1)].
    destruct Hr1 as (_&<-&_). done.
Qed.

Lemma refines_accepted record time flags s s' l :
  accepted record time flags s s' -> winv s' -> refines s l -> refines s' (aaccept record l).
Proof.
  intros [Hc Hst _ _ _] Hw' (_&Hpend&p&log&Hl). split; [done|].
  assert (Hf : builder (accept_record record time flags s) = builder s ++ record /\
    active (accept_record record time flags s) = active s /\
    volume (accept_record record time flags s) = volume s /\
    open_options (accept_record record time flags s) = open_options s)
    by (unfold accept_record; by destruct (len (builder s) =? 0)).
  destruct Hf as (Hb&Ha&Hv&Ho). split; [by rewrite (c_builder _ _ Hc), Hb, Hpend|].
  exists p, log. apply (logged_kept s); [|done].
  assert (Hcat : partitions (accept_record record time flags s) = partitions s /\
    corrupt_slots (accept_record record time flags s) = corrupt_slots s)
    by (unfold accept_record; by destruct (len (builder s) =? 0)).
  split; [by rewrite (core_active _ _ Hc)|..|by rewrite Hst]; core_rw Hc; try done.
  - rewrite (c_partitions _ _ Hc). apply Hcat.
  - rewrite (c_corrupt _ _ Hc). apply Hcat.
Qed.

Lemma refines_appended record t s s' l : appended record t s s' -> refines s l ->
  exists l', aroom (vh_max_block_payload (volume s)) record l l' /\
    refines s' (aaccept (view_data record) l').
Proof.
  intros ((s2&f&Hp&Hac)&Hw'&_) Hr. destruct (refines_prepared _ _ _ _ Hp Hr) as (l'&Hro&Hr2).
  exists l'. split; [done|]. by eapply refines_accepted.
Qed.

Lemma refines_settled s s' l : settled s s' -> refines s l -> refines s' (apublish l).
Proof.
  intros [Hw' _ Hb _ _ _ _ _ _ (s1&Hp&Hk)] Hr.
  pose proof (refines_published _ _ _ Hp Hr) as (_&Hb1&p&log&Hl).
  destruct Hp as (_&Hfr&_). rewrite (ef_builder _ _ Hfr) in Hb1.
  split; [done|]. split; [congruence|]. exists p, log. by apply (logged_kept s1).
Qed.

(** Every call that succeeds is a step of the abstract log. *)
Lemma run_call_refines c s l :
  refines s l -> call_ok c -> writable s = true -> closed s = false ->
  wp (run_call now c) (fun _ s' => exists l',
      astep (vh_max_block_payload (volume s)) c l l' /\ refines s' l')
    (fun _ s' => winv s') s.
Proof.
  intros Hr Hc Hwr Hcl. pose proof Hr as (Hw&_). destruct c; simpl in *.
  - eapply wp_conseq; [by apply append_impl_spec|..]; [|by intros ? ? (?&_)].
    intros ? s' Hap. destruct (refines_appended _ _ _ _ _ Hap Hr) as (l'&?&?).
    eexists. split; [by constructor|done].
  - unfold append_checked. apply wp_if; intros _; [done|].
    eapply wp_conseq; [by apply append_impl_spec|..]; [|by intros ? ? (?&_)].
    intros ? s' Hap. destruct (refines_appended _ _ _ _ _ Hap Hr) as (l'&?&?).
    eexists. split; [by constructor|done].
  - unfold publish. apply wp_bind, wp_check_writer; [|done]. intros _ _ Hf.
    eapply wp_conseq; [by apply emit_spec|..]; [|by intros ? ? ((?&_)&_)].
    intros ? s' Hp. exists (apublish l). split; [constructor|]. by apply (refines_published s).
  - eapply wp_conseq; [by apply checkpoint_spec|..]; [|by intros ? ? (?&_)].
    intros ? s' Hs. exists (apublish l). split; [constructor|]. by apply (refines_settled s).
  - eapply wp_conseq; [by apply close_spec|..]; [|by intros ? ? (?&_)].
    intros ? s' [Hs _]. exists (apublish l). split; [constructor|]. by apply (refines_settled s).
  - eapply wp_conseq; [by apply rotate_spec|..]; [|by intros ? ? (?&_)].
    intros ? s' (Hw'&_&Hb&_&_&s1&Hw1&Ho1&Ht&_). exists afresh. split; [constructor|].
    split; [done|]. split; [done|].
    destruct (logged_turned _ _ _ Hw1 Ht Ho1) as (p'&Hl). by exists p', [].
  - eapply wp_conseq; [by apply set_next_spec|..]; [|by intros ? ? ->].
    intros ? s' [Hw' ->]. exists l. split; [constructor|]. destruct Hr as (_&Hp&p&log&Hl).
    split; [done|]. split; [done|]. exists p, log. by apply (logged_kept s).
Qed.
End Refine.
