(* ===== verification/RingRead.v ===== *)
(** * Reading blocks back

    [read_block] (src/ring_store.cpp 757-852) on a frame that is on the media
    returns the bytes its payload decodes to, and nothing else: a failure
    means that a read failed. The blocks of the log come back in order. *)

From S2P Require Import Prelude Status Hoare Crc32c Layout Format FormatFacts Codec PackBitsFacts.
From S2P Require Import Lz4 Lz4Facts Storage RingTypes RingWriter RingReader RingOpen RingRules.
From S2P Require Import RingGeometry RingInv RingHealth RingWriterFacts RingCalls RingDisk.
From S2P Require Import RingScan RingLog RingRefine.

Section Read.
Context {T : Type} `{!Storage T, !StorageModel T, !ReliableReads T}.
Implicit Types s : Impl T.

(** The media a read starts from. *)
Record stable s (v : VolumeHeader) (o : OpenOptions) (c : bytes) : Prop := {
  sb_wf : st_wf (storage s);
  sb_volume : volume s = v;
  sb_options : open_options s = o;
  sb_contents : contents (storage s) = c }.

Lemma stable_moved s s' v o c : stable s v o c -> moved s s' -> stable s' v o c.
Proof. intros [] Hm. destruct (moved_facts _ _ Hm) as (?&?&?&?). split; congruence. Qed.

Section One.
Context (v : VolumeHeader) (o : OpenOptions) (c : bytes) (p : PartitionState).
Local Abbreviation h := (ps_header p).
Context (Hg : geometry_ok v (len c)) (Hb : len c < 2 ^ 63) (Hok : bytes_ok c).
Context (Hslot : 0 <= ph_slot h < vh_partition_count v).
Context (Hh : header_at v o c h).

Lemma read_header_spec s : stable s v o c ->
  wp (read_partition_header (ph_slot h))
    (fun h' s' => moved s s' /\ ph_generation h' = ph_generation h /\ ph_options h' = ph_options h)
    (fun _ s' => lost s s') s.
Proof.
  intros [Hwf Hv Ho Hc]. pose proof (pbase_range v _ h Hg Hb Hslot).
  pose proof (index_begin_range v _ Hg Hb) as (?&?&?). destruct Hh as (h'&Hacc&Hgen&Hopt).
  unfold read_partition_header. apply wp_bind, wp_get. rewrite Hv, Ho.
  apply wp_bind, wp_read; [done|lia|done|rewrite Hc|..].
  - unfold kPartitionHeaderRegionSize, kPartitionFooterRegionSize, kPartitionHeaderEncodedSize in *.
    lia.
  - intros s1 Hm1. rewrite Hc, Hacc. apply wp_lift_result; [|done]. by intros ? [= <-].
  - done.
Qed.

(** Any doubt raised while the header still matches is a failed read. *)
Lemma classify_spec {A} fallback s (Q : A -> Impl T -> Prop) s0 :
  stable s v o c -> lost s0 s ->
  wp (classify_snapshot_failure p fallback) Q (fun _ s' => lost s0 s') s.
Proof.
  intros Hs Hl. unfold classify_snapshot_failure. apply wp_bind, wp_attempt.
  eapply wp_conseq; [by apply read_header_spec|..]; simpl.
  - intros h' s1 (Hm&Hgen&_). rewrite Hgen, Z.eqb_refl. simpl. apply wp_throw.
    destruct Hl as [Hm0 Hn]. split; [by eapply moved_trans|done].
  - intros e s1 [Hm _]. destruct Hl as [Hm0 Hn].
    assert (lost s0 s1) by (split; [by eapply moved_trans|done]).
    by apply wp_if; intros _; apply wp_throw.
Qed.

Lemma recheck_spec message s : stable s v o c ->
  wp (recheck_generation p message) (fun _ s' => moved s s') (fun _ s' => lost s s') s.
Proof.
  intros Hs. unfold recheck_generation. apply wp_bind, wp_attempt.
  eapply wp_conseq; [by apply read_header_spec|..]; simpl.
  - intros h' s1 (Hm&Hgen&_). rewrite Hgen, Z.eqb_refl. by apply wp_ret.
  - intros e s1 Hl. apply classify_spec; [|done]. by eapply stable_moved, Hl.
Qed.

(** The entry a sealed index holds for a frame, with or without its writer. *)
Definition entry_for (off : Z) (b : BlockHeader) (e : IndexEntry) : Prop :=
  e = scanned_entry off b \/ e = strip_writer (scanned_entry off b).

Lemma entry_accepted seq off wh wl f e : frame_at v h c seq off wh wl f -> entry_for off (fst f) e ->
  block_identity_bad v p e (fst f) = false /\ block_metadata_bad v p e (fst f) = false.
Proof.
  intros [_ _ _ Hch _] He. apply block_bad_spec in Hch. destruct Hch as [? ? ? ? ? ? ? ? ? ? Hco Hno].
  unfold block_identity_bad, block_metadata_bad. cbv zeta.
  assert (Hcomp : (negb (bh_compression (fst f) =? CompressionId_none) &&
    (negb (bh_compression (fst f) =? po_compression (ph_options h)) ||
     negb (bh_compression_version (fst f) =? po_compression_version (ph_options h)))) = false) by lia.
  assert (Hnone : ((bh_compression (fst f) =? CompressionId_none) &&
    (negb (bh_stored_size (fst f) =? bh_raw_size (fst f)) ||
     negb (bh_compression_version (fst f) =? 1))) = false) by lia.
  rewrite Hcomp, Hnone, (Z.add_comm (bh_stored_size _)).
  destruct He as [-> | ->]; cbn [scanned_entry strip_writer ie_sequence ie_writer_id_high
    ie_writer_id_low ie_frame_size ie_frame_span ie_record_count ie_raw_size ie_min_time_ns
    ie_max_time_ns ie_flags]; split; lia.
Qed.

Lemma read_block_spec seq off wh wl f raw e s :
  stable s v o c -> 0 <= off <= index_begin v -> frame_at v h c seq off wh wl f ->
  decodes o f raw -> entry_for off (fst f) e ->
  wp (read_block p e)
    (fun r s' => moved s s' /\ r = (block_metadata v p e (fst f), raw))
    (fun _ s' => lost s s') s.
Proof.
  intros Hs Ho Hf Hd He. destruct (entry_accepted _ _ _ _ _ _ Hf He) as [Hid Hmd].
  pose proof Hf as [Hdec Hpay Hcrc Hch Hsp]. apply block_bad_spec in Hch.
  destruct (decode_at v _ h Hg Hb Hslot c off (fst f) Hok ltac:(lia) Ho Hdec) as [Hwf Hv].
  pose proof (frame_size_facts v _ h Hg Hb _ _ _ _ _ _ Hwf Hv Hch Hsp ltac:(lia) ltac:(lia))
    as (?&?&?).
  pose proof (pbase_range v _ h Hg Hb Hslot). pose proof (index_begin_range v _ Hg Hb) as (?&?&?).
  pose proof (eq_refl : kBlockHeaderEncodedSize = 128). unfold kPartitionFooterRegionSize in *.
  assert (Heo : ie_offset e = off) by (by destruct He as [-> | ->]).
  unfold read_block. apply wp_bind. eapply wp_conseq; [by apply recheck_spec| |done].
  intros ? s1 Hm1. pose proof (stable_moved _ _ _ _ _ Hs Hm1) as [Hwf1 Hv1 Ho1 Hc1].
  apply wp_bind, wp_get. rewrite Hv1, Ho1, Heo. cbv zeta.
  rewrite (u64_small (partition_base v (ph_slot h) + off)) by zlia.
  rewrite (u64_small (partition_base v (ph_slot h) + off + kBlockHeaderEncodedSize)) by zlia.
  apply wp_bind, wp_read; [done|lia|lia|rewrite Hc1; lia|..].
  2:{ intros e' s2 _ Hl. exact (lost_trans _ _ _ Hm1 Hl). }
  intros s2 Hm2. rewrite Hc1, Hdec, Hid, Hmd, Hsp.
  pose proof (stable_moved _ _ _ _ _ (Build_stable _ _ _ _ Hwf1 Hv1 Ho1 Hc1) Hm2) as Hs2.
  pose proof (sb_contents _ _ _ _ Hs2) as Hc2.
  apply wp_bind, wp_read; [apply Hs2|lia|lia|rewrite Hc2; lia|..].
  2:{ intros e' s3 _ Hl. exact (lost_trans _ _ _ Hm1 (lost_trans _ _ _ Hm2 Hl)). }
  intros s3 Hm3. rewrite Hc2, Hpay. apply wp_bind.
  eapply wp_conseq; [apply recheck_spec; by eapply stable_moved| |].
  2:{ intros e' s4 Hl.
    exact (lost_trans _ _ _ Hm1 (lost_trans _ _ _ Hm2 (lost_trans _ _ _ Hm3 Hl))). }
  intros ? s4 Hm4. simpl. rewrite Hcrc, Z.eqb_refl. simpl. apply wp_bind.
  unfold decodes in Hd. rewrite Hd. apply wp_lift_result; [|done]. intros ? [= <-]. apply wp_ret.
  split; [|done]. exact (moved_trans _ _ _ Hm1 (moved_trans _ _ _ Hm2 (moved_trans _ _ _ Hm3 Hm4))).
Qed.
End One.
End Read.
