(* ===== verification/RingCrash.v ===== *)
(** * What a checkpoint protects

    Once [checkpoint] returned [Ok], the durable image holds every published
    block: a reader started on that image finds all of them with the
    sequential scan, in order, and reads each one back byte for byte. *)

From S2P Require Import Prelude Status Hoare Crc32c Layout Format FormatFacts Codec PackBitsFacts.
From S2P Require Import Lz4 Lz4Facts Storage RingTypes RingWriter RingReader RingOpen RingRules.
From S2P Require Import RingGeometry RingInv RingHealth RingWriterFacts RingCalls RingDisk.
From S2P Require Import RingScan RingLog RingRefine RingRead.

(** The [k]-th entry of a log and its frame. *)
Lemma log_entry_at v h c : forall log seq off wh wl k e,
  frames_at v h c seq off wh wl log -> log_entries off log !! k = Some e ->
  exists f seq' off' wh' wl', log !! k = Some f /\ frame_at v h c seq' off' wh' wl' f /\
    e = scanned_entry off' (fst f) /\ off' = log_end off (take k log).
Proof.
  induction log as [|f log IH]; intros seq off wh wl [|k] e Hf He; try done; cbn in *.
  - destruct Hf as [Hf _]. injection He as <-. by exists f, seq, off, wh, wl.
  - destruct Hf as [_ Hf]. by eapply IH.
Qed.

Lemma frames_take v h c k : forall log seq off wh wl,
  frames_at v h c seq off wh wl log -> frames_at v h c seq off wh wl (take k log).
Proof.
  induction k as [|k IH]; intros [|f log] seq off wh wl H; try done. cbn in *.
  destruct H as [Hf H]. split; [done|by apply IH].
Qed.

Section Crash.
Context {T : Type} `{!Storage T, !StorageModel T, !ReliableReads T}.
Implicit Types s : Impl T.

(** A reader on the image [c] finds the blocks [raws] in the partition [p]. *)
Definition recoverable (v : VolumeHeader) (o : OpenOptions) (c : bytes) (p : PartitionState)
    (raws : list bytes) : Prop :=
  length (ps_active_index p) = length raws /\
  forall s, stable s v o c -> rr_ok (storage s) ->
    wp (scan_partition (ps_header p) 0)
      (fun r s' => moved s s' /\ ps_active_index p `prefix_of` sc_entries r) (fun _ _ => False) s /\
    forall k e raw, ps_active_index p !! k = Some e -> raws !! k = Some raw ->
      wp (read_block p e) (fun r s' => moved s s' /\ snd r = raw) (fun _ _ => False) s.

Lemma logged_recoverable s p log raws : winv s -> logged s p log raws ->
  recoverable (volume s) (open_options s) (contents (storage s)) p raws.
Proof.
  intros Hw [Ha Hi He Hh Hf Hr]. destruct (w_active _ Hw) as (p'&Ha'&Hps&_).
  rewrite Ha in Ha'. injection Ha' as <-. pose proof (w_st _ (w_base _ Hw)) as Hwf.
  pose proof (w_geo _ (w_base _ Hw)) as Hg. pose proof (st_size_bound _ Hwf) as Hb.
  pose proof (st_size_contents _ Hwf) as Hsz. pose proof (ho_slot _ _ _ (po_header _ _ _ Hps)) as Hsl.
  pose proof (index_begin_range _ _ Hg Hb) as (?&?&?). pose proof (st_bytes_ok _ Hwf) as Hok.
  unfold kPartitionHeaderRegionSize in *.
  assert (Hend : forall k, 4096 <= log_end 4096 (take k log) <= index_begin (volume s)).
  { intros k. apply (frames_end _ _ _ Hg Hb Hsl (contents (storage s)) _ Hok) with
      (seq := 0) (wh := 0) (wl := 0); [lia|lia|]. by apply frames_take. }
  assert (H32 : len log <= 2 ^ 32).
  { pose proof (po_room _ _ _ Hps) as Hroom. rewrite Hi, len_log_entries in Hroom.
    pose proof (vh_wf_index_region_size _ (g_wf _ _ Hg)).
    assert (vh_index_region_size (volume s) / kIndexEntryEncodedSize < 2 ^ 32)
      by (unfold kIndexEntryEncodedSize; apply Z.div_lt_upper_bound; zlia). lia. }
  unfold recoverable. rewrite Hi. split.
  { pose proof (len_log_entries 4096 log) as Hl. unfold len in Hl.
    apply Forall2_length in Hr. lia. }
  intros s2 Hs2 Hrr. pose proof Hs2 as [Hwf2 Hv2 Ho2 Hc2].
  assert (Hsz2 : st_size (storage s2) = st_size (storage s)) by (by apply st_size_eq).
  split.
  - eapply wp_conseq.
    { apply scan_partition_spec; [done|by rewrite Hv2, Hsz2|by rewrite Hv2]. }
    + intros r s3 (Hm&log'&Hlim&Hsn). split; [done|]. rewrite Hv2, Hc2 in Hsn.
      rewrite (sn_entries _ _ _ _ _ _ _ _ _ _ _ Hsn). cbn [app].
      destruct (sn_complete _ _ _ _ _ _ _ _ _ _ _ Hsn log) as [more ->]; [lia|done| |].
      { unfold scan_bound. simpl. specialize (Hend (length log)).
        rewrite firstn_all in Hend. unfold kPartitionHeaderRegionSize. lia. }
      rewrite log_entries_app. by eexists.
    + intros e s3 [[_ Hl]|[_ Hl]]; [done|]. apply Hl. unfold scan_bound, kPartitionHeaderRegionSize. simpl. rewrite Hv2. lia.
  - intros k e raw Hk Hraw. destruct (log_entry_at _ _ _ _ _ _ _ _ _ _ Hf Hk)
      as (f&seq&off&wh&wl&Hlk&Hfr&->&Hoff).
    eapply wp_conseq.
    { apply (read_block_spec (volume s) (open_options s) (contents (storage s)) p) with
        (seq := seq) (off := off) (wh := wh) (wl := wl) (f := f) (raw := raw); try done.
      - by rewrite <- Hsz.
      - by rewrite <- Hsz.
      - rewrite Hoff. specialize (Hend k). lia.
      - by eapply Forall2_lookup_lr.
      - by left. }
    + intros r s3 [Hm ->]. done.
    + intros ? s3 [_ Hn]. done.
Qed.
End Crash.
