(* ===== verification/RingStored.v ===== *)
(** * Partitions on the media

    A partition is [stored] when its header, its frames and, once sealed, its
    index and footer are on the media as the catalog says. Writes to other
    partitions leave it alone, and its index is read back. *)

From S2P Require Import Prelude Status Hoare Crc32c Layout Format FormatFacts Codec PackBitsFacts.
From S2P Require Import Lz4 Lz4Facts Storage RingTypes RingWriter RingReader RingOpen RingRules.
From S2P Require Import RingGeometry RingInv RingHealth RingWriterFacts RingCalls RingDisk.
From S2P Require Import RingScan RingLog RingRefine RingRead RingCrash.

Definition entries_of (log : list frame) : list IndexEntry :=
  log_entries kPartitionHeaderRegionSize log.
Definition end_of (log : list frame) : Z := log_end kPartitionHeaderRegionSize log.

(** ** Slots do not overlap *)

Lemma other_slot {A} v backend i j off (d c : list A) o n : geometry_ok v backend -> backend < 2 ^ 63 ->
  0 <= i < vh_partition_count v -> 0 <= j < vh_partition_count v -> i <> j -> backend <= len c ->
  0 <= off -> off + len d <= vh_partition_size v ->
  0 <= o -> 0 <= n -> o + n <= vh_partition_size v ->
  slice (partition_base v j + o) n (splice (partition_base v i + off) d c) =
  slice (partition_base v j + o) n c.
Proof.
  intros Hg Hb Hi Hj Hne Hc Ho Hd Ho' Hn Hon. rewrite !(partition_base_eq _ _ Hg Hb) by done.
  pose proof (partition_range _ _ Hg i Hi). pose proof (partition_range _ _ Hg j Hj).
  pose proof (len_nonneg d). pose proof (vh_wf_partition_size _ (g_wf _ _ Hg)).
  unfold kVolumePrefixSize in *.
  destruct (decide (j < i)).
  - assert (j * vh_partition_size v + vh_partition_size v <= i * vh_partition_size v) by nia.
    apply slice_splice_before; lia.
  - assert (i * vh_partition_size v + vh_partition_size v <= j * vh_partition_size v) by nia.
    apply slice_splice_after; lia.
Qed.

(** ** The rest of the media

    The two volume headers, and the slots no partition of the ring uses:
    nothing in such a slot is taken for a partition of this volume. *)

Definition header_copy (off : Z) (c : bytes) : result VolumeHeader :=
  decode_volume_header (slice off kVolumeHeaderEncodedSize c).

Section Rest.
Context (v : VolumeHeader) (o : OpenOptions).

Definition slot_header (slot : Z) (c : bytes) : bytes :=
  slice (partition_base v slot) kPartitionHeaderEncodedSize c.
Definition slot_footer (slot : Z) (c : bytes) : bytes :=
  slice (partition_base v slot + footer_offset v) kPartitionFooterEncodedSize c.
Definition slot_block (slot : Z) (c : bytes) : bytes :=
  slice (partition_base v slot + kPartitionHeaderRegionSize) kBlockHeaderEncodedSize c.

(** The evidence [open] looks for in a slot without a valid header. *)
Definition evidence (slot : Z) (c : bytes) : bool :=
  let is_zero := forallb (fun b => b =? 0) (slot_header slot c) in
  if negb is_zero && negb (header_evidence v (slot_header slot c))
  then footer_evidence v slot (slot_footer slot c) || block_evidence v slot (slot_block slot c)
  else negb is_zero && header_evidence v (slot_header slot c).

(** A footer that no partition in the slot will take for its own. *)
Definition footer_foreign (slot : Z) (bytes : bytes) : bool :=
  match decode_partition_footer bytes with
  | Ok _ => negb (footer_evidence v slot bytes)
  | Err e => negb (is_io_class (code e))
  end.
Definition unclaimed (slot : Z) (c : bytes) : bool :=
  match accept_partition_header v o slot (slot_header slot c) with
  | Ok _ => false
  | Err e => negb (is_io_error (code e))
  end && negb (evidence slot c) && footer_foreign slot (slot_footer slot c).

(** The footer region of a partition that is not sealed. *)
Definition footer_open (h : PartitionHeader) (c : bytes) : Prop :=
  exists e, accept_footer v h (slot_footer (ph_slot h) c) = Err e /\ is_io_class (code e) = false.

Record rest_ok (c : bytes) (slots : list Z) : Prop := {
  rs_copies : header_copy 0 c = Ok v /\ header_copy kVolumeHeaderCopySize c = Ok v;
  rs_vacant : forall slot, 0 <= slot < vh_partition_count v -> slot ∉ slots ->
    unclaimed slot c = true }.

Lemma foreign_open h c : footer_foreign (ph_slot h) (slot_footer (ph_slot h) c) = true ->
  footer_open h c.
Proof.
  unfold footer_foreign, footer_open, footer_evidence, accept_footer. intros H.
  destruct (decode_partition_footer _) as [f|e]; cbn [mbind result_bind].
  - eexists. assert (Hb : footer_bad v h f = true).
    { unfold footer_bad. apply negb_true_iff in H. lia. }
    rewrite Hb. done.
  - exists e. split; [done|]. by apply negb_true_iff.
Qed.

Lemma footer_open_ext h c c' : slot_footer (ph_slot h) c' = slot_footer (ph_slot h) c ->
  footer_open h c -> footer_open h c'.
Proof. unfold footer_open. by intros ->. Qed.

(** A footer of another generation. *)
Lemma stale_open h h' c f : accept_footer v h' (slot_footer (ph_slot h) c) = Ok f ->
  ph_generation h' <> ph_generation h -> footer_open h c.
Proof.
  unfold footer_open, accept_footer. intros H Hne. apply result_bind_Ok in H as (f'&->&H).
  destruct (footer_bad v h' f') eqn:Hb; [done|]. eexists. cbn [mbind result_bind].
  assert (Hb' : footer_bad v h f' = true) by (unfold footer_bad in *; lia). rewrite Hb'. done.
Qed.

Section Writes.
Context (backend : Z) (Hg : geometry_ok v backend) (Hb : backend < 2 ^ 63).

Lemma unclaimed_ext slot c c' : 0 <= slot < vh_partition_count v ->
  (forall off n, 0 <= off -> 0 <= n -> off + n <= vh_partition_size v ->
     slice (partition_base v slot + off) n c' = slice (partition_base v slot + off) n c) ->
  unclaimed slot c' = unclaimed slot c.
Proof.
  intros Hs He. pose proof (index_begin_range v backend Hg Hb) as (?&?&?).
  pose proof (regions _ _ Hg Hb) as (_&?&?&_).
  unfold kPartitionHeaderRegionSize, kPartitionFooterRegionSize in *.
  unfold unclaimed, evidence, footer_foreign, slot_footer, slot_block.
  assert (E : slot_header slot c' = slot_header slot c).
  { unfold slot_header. rewrite <- (Z.add_0_r (partition_base _ _)).
    apply He; unfold kPartitionHeaderEncodedSize; lia. }
  rewrite E, !He; [done|..]; unfold kPartitionFooterEncodedSize, kBlockHeaderEncodedSize,
    kPartitionHeaderRegionSize; lia.
Qed.

(** A write inside one slot leaves the rest of the media as it is. *)
Lemma rest_write c slot off d slots slots' : backend <= len c -> rest_ok c slots ->
  0 <= slot < vh_partition_count v -> 0 <= off -> off + len d <= vh_partition_size v ->
  slot ∈ slots' -> (forall i, i ∈ slots -> i ∈ slots') ->
  rest_ok (splice (partition_base v slot + off) d c) slots'.
Proof.
  intros Hc [Hcp Hv] Hs Ho Hd Hin Hsub. pose proof (len_nonneg d).
  pose proof (partition_base_eq _ _ Hg Hb slot Hs) as Hbase. pose proof (partition_range _ _ Hg slot Hs).
  unfold kVolumePrefixSize in *. split.
  - assert (He : forall x, 0 <= x <= 4096 ->
      header_copy x (splice (partition_base v slot + off) d c) = header_copy x c).
    { intros x Hx. unfold header_copy. f_equal. apply slice_splice_before;
        unfold kVolumeHeaderEncodedSize; lia. }
    rewrite !He; [exact Hcp|unfold kVolumeHeaderCopySize; lia..].
  - intros i Hi Hni. transitivity (unclaimed i c); [|apply Hv; naive_solver].
    apply unclaimed_ext; [exact Hi|]. intros off' n ? ? ?.
    apply (other_slot v backend); (assumption || lia || congruence).
Qed.
End Writes.
End Rest.

Section Stored.
Context (v : VolumeHeader) (o : OpenOptions).

Record sealed_at (c : bytes) (p : PartitionState) (log : list frame) : Prop := {
  sa_offset : pf_index_offset (ps_footer p) = index_begin v;
  sa_size : pf_index_size (ps_footer p) = len log * kIndexEntryEncodedSize;
  sa_crc : pf_index_crc (ps_footer p) = crc32c (encode_index (entries_of log));
  sa_count : pf_block_count (ps_footer p) = len log;
  sa_end : pf_data_end (ps_footer p) = end_of log;
  sa_index : slice (partition_base v (ph_slot (ps_header p)) + index_begin v)
    (len log * kIndexEntryEncodedSize) c = encode_index (entries_of log);
  sa_footer : slice (partition_base v (ph_slot (ps_header p)) + footer_offset v)
    kPartitionFooterEncodedSize c = encode_partition_footer (ps_footer p);
  sa_accept : accept_footer v (ps_header p) (encode_partition_footer (ps_footer p)) = Ok (ps_footer p);
  sa_summary : pf_flags (ps_footer p) = scanned_flags (entries_of log) /\
    pf_min_time_ns (ps_footer p) = scanned_min (entries_of log) /\
    pf_max_time_ns (ps_footer p) = scanned_max (entries_of log) }.

Record stored (c : bytes) (p : PartitionState) (log : list frame) (raws : list bytes) : Prop := {
  sr_slot : 0 <= ph_slot (ps_header p) < vh_partition_count v;
  sr_header : header_at v o c (ps_header p);
  sr_generation : 0 < ph_generation (ps_header p);
  sr_frames : frames_at v (ps_header p) c 0 kPartitionHeaderRegionSize 0 0 log;
  sr_raws : Forall2 (decodes o) log raws;
  sr_count : len log <= vh_index_region_size v / kIndexEntryEncodedSize;
  sr_open : ps_sealed p = false ->
    ps_active_index p = entries_of log /\ ps_data_end p = end_of log;
  sr_sealed : ps_sealed p = true -> sealed_at c p log }.

Section Media.
Context (backend : Z) (Hg : geometry_ok v backend) (Hb : backend < 2 ^ 63).

Lemma stored_places c p log raws : bytes_ok c -> backend <= len c -> stored c p log raws ->
  kPartitionHeaderRegionSize <= end_of log <= index_begin v /\
  len log * kIndexEntryEncodedSize <= vh_index_region_size v /\ len log <= 2 ^ 32.
Proof.
  intros Hok Hl []. pose proof (index_begin_range v backend Hg Hb) as (?&?&?).
  pose proof (vh_wf_index_region_size _ (g_wf _ _ Hg)). split.
  - apply (frames_end v backend (ps_header p) Hg Hb sr_slot0 c log Hok Hl 0 _ 0 0); [|done].
    unfold kPartitionHeaderRegionSize in *. lia.
  - unfold kIndexEntryEncodedSize in *.
    pose proof (Z.mul_div_le (vh_index_region_size v) 48). zlia.
Qed.

(** Only the partition's own bytes matter. *)
Lemma stored_ext c c' p log raws : bytes_ok c -> backend <= len c ->
  (forall off n, 0 <= off -> 0 <= n -> off + n <= vh_partition_size v ->
     slice (partition_base v (ph_slot (ps_header p)) + off) n c' =
     slice (partition_base v (ph_slot (ps_header p)) + off) n c) ->
  stored c p log raws -> stored c' p log raws.
Proof.
  intros Hok Hl He Hs. destruct (stored_places c p log raws Hok Hl Hs) as (He1&He2&_).
  pose proof Hs as [Hslot Hh Hgen Hf Hr Hn Ho Hse]. pose proof (index_begin_range v backend Hg Hb) as (?&?&?).
  pose proof (regions _ _ Hg Hb) as (_&?&?&_). pose proof (len_nonneg log).
  unfold kPartitionHeaderRegionSize, kPartitionFooterRegionSize in *.
  split; try done.
  - destruct Hh as (h'&Ha&?&?). exists h'. split; [|done].
    rewrite <- (Z.add_0_r (partition_base _ _)), He, Z.add_0_r; try done;
      unfold kPartitionHeaderEncodedSize; lia.
  - apply (frames_ext v backend (ps_header p) Hg Hb Hslot c c' log Hok Hl);
      [unfold kPartitionHeaderRegionSize; lia| |done].
    intros off n ? ? ?. apply He; unfold end_of, kPartitionHeaderRegionSize in *; lia.
  - intros Hsl. destruct (Hse Hsl) as [? ? ? ? ? Hi Hft ? ?]. unfold kIndexEntryEncodedSize in *.
    split; try assumption.
    + unfold kIndexEntryEncodedSize. rewrite He by lia. done.
    + rewrite He; [done|..]; unfold kPartitionFooterEncodedSize; lia.
Qed.

(** ** The index comes back *)

Lemma entry_strip i off e : entry_ok v i off e -> entry_ok v i off (strip_writer e).
Proof. intros [[] ? ? ? ? ? ? ? ? ?]. split; cbn; done. Qed.
Lemma index_strip es : forall i off data_end,
  index_ok v i off es data_end -> index_ok v i off (map strip_writer es) data_end.
Proof.
  induction es as [|e es IH]; intros i off d H; cbn in *; [done|]. destruct H as [He H].
  split; [by apply entry_strip|]. by apply IH.
Qed.

Lemma check_index_ok es : worst_span v <= UINT32_MAX -> forall i off data_end,
  0 <= off -> index_ok v i off es data_end -> check_index v i off es = Ok data_end.
Proof.
  intros Hsp. pose proof (worst_span_bounds _ _ Hg). pose proof (regions _ _ Hg Hb) as (?&?&?&?).
  pose proof (vh_wf_index_region_size _ (g_wf _ _ Hg)).
  unfold kPartitionFooterRegionSize, kBlockHeaderEncodedSize, UINT32_MAX in *.
  pose proof (quantum_pos _ _ Hg).
  induction es as [|e es IH]; intros i off d Ho H'; cbn [check_index index_ok] in *; [by subst|].
  destruct H' as [He Hes]. pose proof (entry_span _ _ _ _ He ltac:(done)) as (?&_&Hm).
  pose proof (g_payload _ _ Hg).
  destruct He as [[] ? Hof ? ? [? ?] [? ?] Hal ? _]. unfold kBlockHeaderEncodedSize in *.
  assert (Hbad : index_entry_bad v i off e = false).
  { unfold index_entry_bad, kBlockHeaderEncodedSize.
    rewrite (u32_small (128 + _)), u64_small by zlia. lia. }
  rewrite Hbad, Hal, Z.eqb_refl. cbn [negb]. rewrite u64_small by zlia. apply IH; [lia|done].
Qed.

Lemma log_index_ok c p log raws : bytes_ok c -> backend <= len c -> stored c p log raws ->
  index_ok v 0 kPartitionHeaderRegionSize (entries_of log) (end_of log).
Proof.
  intros Hok Hl Hs. destruct (stored_places c p log raws Hok Hl Hs) as (?&?&?).
  apply (frames_index_ok v backend (ps_header p) Hg Hb (sr_slot _ _ _ _ Hs) c log Hok Hl 0 _ 0 0);
    [unfold kPartitionHeaderRegionSize in *; lia|lia|lia|apply Hs].
Qed.

Lemma index_entries_valid es : forall i off d, index_ok v i off es d ->
  Forall (fun e => IndexEntry_wf e /\ index_entry_valid e) es.
Proof.
  induction es as [|e es IH]; intros i off d H; cbn in *; [constructor|]. destruct H as [He H].
  constructor; [|by eapply IH]. pose proof (entry_span _ _ _ _ He (quantum_pos _ _ Hg)) as (?&?&_).
  destruct He as [Hwf ? ? ? ? ? ? ? ? ?]. split; [exact Hwf|]. unfold index_entry_valid. unfold kBlockHeaderEncodedSize in *. lia.
Qed.

Lemma accept_own_index c p log raws : bytes_ok c -> backend <= len c -> worst_span v <= UINT32_MAX ->
  stored c p log raws -> ps_sealed p = true ->
  accept_index v (ps_footer p) (encode_index (entries_of log)) =
    Ok (map strip_writer (entries_of log)).
Proof.
  intros Hok Hl Hsp Hs Hse. destruct (sr_sealed _ _ _ _ Hs Hse) as [_ _ Hcrc Hcnt Hend _ _ _ _].
  pose proof (log_index_ok c p log raws Hok Hl Hs) as Hi.
  unfold accept_index. rewrite Hcrc, Z.eqb_refl. cbn [negb].
  rewrite decode_encode_index by (by eapply index_entries_valid). cbn [mbind result_bind].
  assert (Hlen : len (map strip_writer (entries_of log)) = len log)
    by (unfold len; rewrite length_map; pose proof (len_log_entries kPartitionHeaderRegionSize log) as Hx;
        unfold len in Hx; exact Hx).
  rewrite Hlen, Hcnt, Z.eqb_refl. cbn [negb].
  rewrite (check_index_ok _ Hsp 0 _ (end_of log)); [|done|by apply index_strip].
  cbn [mbind result_bind]. by rewrite Hend, Z.eqb_refl.
Qed.

(** ** The footer that [seal_active_only] writes is accepted *)

Lemma summary_range es : Forall (fun e => IndexEntry_wf e /\ index_entry_valid e) es ->
  is_u32 (scanned_flags es) /\ is_i64 (scanned_min es) /\ is_i64 (scanned_max es) /\
  (es <> [] -> scanned_min es <= scanned_max es).
Proof.
  induction es as [|e es IH] using rev_ind; intros H; [split_and!; (done || zlia)|].
  apply Forall_app in H as [H He]. apply Forall_cons in He as [[[] (_&_&Ht)] _].
  destruct (IH H) as (Hf&Hmin&Hmax&Hle). rewrite scanned_flags_snoc, scanned_min_snoc, scanned_max_snoc.
  split; [by apply (lor_range _ _ 32); [lia|..]|].
  destruct (Z.eqb_spec (len es) 0) as [|Hne]; [split_and!; done|].
  assert (es <> []) by (intros ->; done). specialize (Hle ltac:(done)). split_and!; zlia.
Qed.

Lemma own_footer_accepted p : pstate_ok v o p ->
  let f := make_footer v p (encode_index (ps_active_index p)) in
  accept_footer v (ps_header p) (encode_partition_footer f) = Ok f /\
  pf_flags f = scanned_flags (ps_active_index p) /\
  pf_min_time_ns f = scanned_min (ps_active_index p) /\
  pf_max_time_ns f = scanned_max (ps_active_index p).
Proof.
  intros [Hh Hi Hroom _ [Sf Sh Smin Smax]] f. pose proof (index_entries_valid _ _ _ _ Hi) as Hv.
  destruct (summary_range _ Hv) as (Rf&Rmin&Rmax&Rle).
  pose proof (index_begin_range v backend Hg Hb) as (?&?&?). pose proof (regions _ _ Hg Hb) as (?&?&?&?).
  pose proof (quantum_pos _ _ Hg) as Hq. pose proof (g_wf _ _ Hg) as Hvw.
  pose proof (vh_wf_index_region_size _ Hvw). pose proof (g_header_mod _ _ Hg) as Hhq.
  destruct (index_ok_bounds v 0 kPartitionHeaderRegionSize _ _ Hq Hhq ltac:(lia) Hi) as [Hde Hdm].
  pose proof (len_nonneg (ps_active_index p)) as Hn. set (es := ps_active_index p) in *.
  assert (Hil : len (encode_index es) = len es * 48) by apply encode_index_len.
  unfold kIndexEntryEncodedSize in Hroom.
  assert (Hcap : len es * 48 <= vh_index_region_size v).
  { pose proof (Z.mul_div_le (vh_index_region_size v) 48). lia. }
  assert (Hsum : pf_flags f = scanned_flags es /\ pf_min_time_ns f = scanned_min es /\
    pf_max_time_ns f = scanned_max es).
  { unfold f, make_footer. cbn [pf_flags pf_min_time_ns pf_max_time_ns]. rewrite Sh.
    split; [exact Sf|]. fold es. destruct (Z.eqb_spec (len es) 0) as [E|Hne]; cbn [negb].
    - rewrite (len_zero_nil _ E). done.
    - assert (es <> []) by (intros E; rewrite E in Hne; done). split; [by apply Smin|by apply Smax]. }
  split; [|exact Hsum]. destruct Hsum as (Ef&Emin&Emax).
  assert (Ecount : pf_block_count f = len es) by (apply u32_small; zlia).
  assert (Esize : pf_index_size f = len es * 48).
  { change (pf_index_size f) with (u32 (len (encode_index es))). rewrite Hil. apply u32_small. zlia. }
  unfold accept_footer. rewrite decode_encode_footer.
  - cbn [mbind result_bind].
    assert (Hbad : footer_bad v (ps_header p) f = false).
    { unfold footer_bad. rewrite Ecount, Esize, Emin, Emax.
      change (pf_volume_id_high f) with (vh_volume_id_high v).
      change (pf_volume_id_low f) with (vh_volume_id_low v).
      change (pf_slot f) with (ph_slot (ps_header p)).
      change (pf_generation f) with (ph_generation (ps_header p)).
      change (pf_index_offset f) with (index_begin v).
      change (pf_data_end f) with (ps_data_end p). unfold kIndexEntryEncodedSize.
      rewrite !Z.eqb_refl, Hdm. cbn [negb orb].
      assert (He : len es = 0 -> ps_data_end p = kPartitionHeaderRegionSize).
      { intros E. rewrite (len_zero_nil _ E) in Hi. by cbn in Hi. }
      assert (Hm : len es <> 0 -> scanned_min es <= scanned_max es)
        by (intros E; apply Rle; intros E'; rewrite E' in E; done).
      destruct (Z.eqb_spec (len es) 0); simpl; lia. }
    by rewrite Hbad.
  - destruct Hh as [? ? [? ?] ? ?]. destruct Hvw. split; try done; try (rewrite ?Ef, ?Emin, ?Emax; done).
    + unfold f. cbn. zlia.
    + rewrite Ecount. zlia.
    + change (is_u64 (index_begin v)). unfold kPartitionHeaderRegionSize, kPartitionFooterRegionSize in *. zlia.
    + rewrite Esize. zlia.
    + change (is_u64 (ps_data_end p)). unfold kPartitionHeaderRegionSize, kPartitionFooterRegionSize in *. zlia.
    + apply crc32c_range. apply encode_index_ok.
  - split; [rewrite Ecount; exact Esize|]. rewrite Ecount, Emin, Emax. intros E. apply Rle.
    intros E'. by rewrite E' in E.
Qed.
End Media.
End Stored.
