(* ===== verification/RingQuery.v ===== *)
(** * Queries

    [query_blocks] and [scan_blocks] (src/ring_store.cpp 854-1004, 1475-1483)
    over a catalog of stored partitions: the visitor sees every block of the
    wanted time range, in generation and then sequence order, with its
    metadata and its bytes, until it declines. *)

From S2P Require Import Prelude Status Hoare Crc32c Layout Format FormatFacts Codec PackBitsFacts.
From S2P Require Import Lz4 Lz4Facts Storage RingTypes RingWriter RingReader RingOpen RingRules.
From S2P Require Import RingGeometry RingInv RingHealth RingWriterFacts RingCalls RingDisk.
From S2P Require Import RingScan RingLog RingRefine RingRead RingCrash RingStored.

(** A catalogued partition with the frames and the decoded blocks behind it,
    and the times of the records in each block. *)
Record part := mkPart {
  pt_state : PartitionState;
  pt_log : list frame;
  pt_raws : list bytes;
  pt_times : list (list Z) }.

(** ** The events a reader is owed *)

Definition block_event (v : VolumeHeader) (p : PartitionState) (off : Z) (f : frame) (raw : bytes)
    : BlockEvent :=
  mkBlockEvent ev_data (block_metadata v p (scanned_entry off (fst f)) (fst f)) raw Status_Ok.
Fixpoint log_events (v : VolumeHeader) (p : PartitionState) (off : Z) (log : list frame)
    (raws : list bytes) : list BlockEvent :=
  match log, raws with
  | f :: log, raw :: raws =>
      block_event v p off f raw :: log_events v p (off + bh_frame_span (fst f)) log raws
  | _, _ => []
  end.

(** The block index keeps a block whose time range meets the query's. *)
Definition wanted (all_blocks : bool) (range : TimeRange) (e : BlockEvent) : bool :=
  all_blocks || ranges_intersect (md_min_time_ns (be_metadata e)) (md_max_time_ns (be_metadata e)) range.
Definition in_domain (all_blocks : bool) (range : TimeRange) (p : PartitionState) : bool :=
  all_blocks || (tr_time_domain_id range =? 0) ||
  (po_time_domain_id (ph_options (ps_header p)) =? tr_time_domain_id range).
Definition part_events (v : VolumeHeader) (all_blocks : bool) (range : TimeRange) (x : part)
    : list BlockEvent :=
  if in_domain all_blocks range (pt_state x)
  then List.filter (wanted all_blocks range)
         (log_events v (pt_state x) kPartitionHeaderRegionSize (pt_log x) (pt_raws x))
  else [].
Definition ring_events (v : VolumeHeader) (all_blocks : bool) (range : TimeRange) (R : list part)
    : list BlockEvent :=
  concat (map (part_events v all_blocks range) R).

Section Query.
Context {T : Type} `{!Storage T, !StorageModel T, !ReliableReads T}.
Context {V : Type} (visitor : BlockEvent -> V -> bool * V).
Implicit Types s : Impl T.

Fixpoint visit_all (es : list BlockEvent) (u : V) : bool * V :=
  match es with
  | [] => (true, u)
  | e :: es => let '(go, u) := visitor e u in if (go : bool) then visit_all es u else (false, u)
  end.

Lemma visit_all_app a b u : visit_all (a ++ b) u =
  let '(go, u) := visit_all a u in if (go : bool) then visit_all b u else (false, u).
Proof.
  revert u. induction a as [|e a IH]; intros u; [done|]. cbn. destruct (visitor e u) as [[] u1];
    [apply IH|done].
Qed.

Section Media.
Context (v : VolumeHeader) (o : OpenOptions) (c : bytes).
Context (Hg : geometry_ok v (len c)) (Hb : len c < 2 ^ 63) (Hok : bytes_ok c).
Context (Hspan : worst_span v <= UINT32_MAX).

(** A query step shows exactly [es] and moves nothing. *)
Definition delivers (m : prog (Impl T * V) unit) (es : list BlockEvent) : Prop :=
  forall s u, stable s v o c -> rr_ok (storage s) ->
    exists s', moved s s' /\
      m (s, u) = (if fst (visit_all es u) then Ok tt else Err Status_Ok,
                  (s', snd (visit_all es u))).

Lemma moved_rr s s' : moved s s' -> rr_ok (storage s) -> rr_ok (storage s').
Proof. intros (st&->&_&H). exact H. Qed.

Lemma delivers_ret : delivers (mret tt) [].
Proof. intros s u [Hwf _ _ _] _. exists s. split; [by apply moved_refl|done]. Qed.
Lemma delivers_bind m1 m2 e1 e2 : delivers m1 e1 -> delivers m2 e2 ->
  delivers (m1 ;; m2) (e1 ++ e2).
Proof.
  intros H1 H2 s u Hs Hr. destruct (H1 s u Hs Hr) as (s1&Hm1&E1).
  destruct (H2 s1 (snd (visit_all e1 u))) as (s2&Hm2&E2);
    [by eapply stable_moved|by eapply moved_rr|].
  unfold mbind, prog_bind. rewrite E1, visit_all_app. destruct (visit_all e1 u) as [[] u1]; simpl in *.
  - exists s2. split; [by eapply moved_trans|done].
  - exists s1. done.
Qed.

(** A reading step on the store that cannot fail. *)
Definition reads {A} (m : prog (Impl T) A) (Q : A -> Prop) : Prop :=
  forall s, stable s v o c -> rr_ok (storage s) ->
    wp m (fun a s' => moved s s' /\ Q a) (fun _ _ => False) s.

Lemma reads_of {A} (m : prog (Impl T) A) (Q : A -> Prop) :
  (forall s, stable s v o c -> wp m (fun a s' => moved s s' /\ Q a) (fun _ s' => lost s s') s) ->
  reads m Q.
Proof.
  intros H s Hs Hr. eapply wp_conseq; [by apply H|done|]. by intros ? ? [_ Hn].
Qed.

Lemma delivers_read {A} (m : prog (Impl T) A) (Q : A -> Prop) k es :
  reads m Q -> (forall a, Q a -> delivers (k a) es) -> delivers (on_store m ≫= k) es.
Proof.
  intros Hm Hk s u Hs Hr. specialize (Hm s Hs Hr). unfold wp in Hm.
  unfold mbind, prog_bind, on_store. simpl. destruct (m s) as [[a|] s1]; [|done].
  destruct Hm as [Hm1 Ha].
  destruct (Hk a Ha s1 u) as (s2&Hm2&E); [by eapply stable_moved|by eapply moved_rr|].
  exists s2. split; [by eapply moved_trans|done].
Qed.
Lemma delivers_attempt {A} (m : prog (Impl T) A) (Q : A -> Prop) k es :
  reads m Q -> (forall a, Q a -> delivers (k (Ok a)) es) ->
  delivers (attempt (on_store m) ≫= k) es.
Proof.
  intros Hm Hk s u Hs Hr. specialize (Hm s Hs Hr). unfold wp in Hm.
  unfold mbind, prog_bind, attempt, on_store. simpl. destruct (m s) as [[a|] s1]; [|done].
  destruct Hm as [Hm1 Ha].
  destruct (Hk a Ha s1 u) as (s2&Hm2&E); [by eapply stable_moved|by eapply moved_rr|].
  exists s2. split; [by eapply moved_trans|done].
Qed.
Lemma delivers_visit e : delivers (visit visitor e) [e].
Proof.
  intros s u [Hwf _ _ _] _. exists s. split; [by apply moved_refl|].
  unfold visit. simpl. by destruct (visitor e u) as [[] u1].
Qed.

(** ** One partition *)

Section Partition.
Context (p : PartitionState) (log : list frame) (raws : list bytes).
Context (Hst : stored v o c p log raws).

Definition catalog : list IndexEntry :=
  if ps_sealed p then map strip_writer (entries_of log) else entries_of log.

Lemma load_index_spec : ps_sealed p = true ->
  reads (load_index p) (fun es => es = map strip_writer (entries_of log)).
Proof.
  intros Hse. apply reads_of. intros s Hs. pose proof Hs as [Hwf Hv Ho Hc].
  destruct (sr_sealed _ _ _ _ _ _ Hst Hse) as [Hof Hsz _ _ _ Hix _ _ _].
  destruct (stored_places v o _ Hg Hb c p log raws Hok ltac:(lia) Hst) as (?&?&?).
  pose proof (pbase_range v _ (ps_header p) Hg Hb (sr_slot _ _ _ _ _ _ Hst)).
  pose proof (regions _ _ Hg Hb) as (?&?&?&?). pose proof (len_nonneg log).
  pose proof (worst_span_bounds _ _ Hg). pose proof (g_payload _ _ Hg).
  unfold load_index. rewrite Hse. cbn [negb]. rewrite Hof, Hsz.
  unfold kPartitionHeaderRegionSize, kPartitionFooterRegionSize, kBlockHeaderEncodedSize,
    kIndexEntryEncodedSize in *.
  apply wp_if; intros Hz.
  - apply wp_ret. split; [by apply moved_refl|]. apply Z.eqb_eq in Hz.
    by rewrite (len_zero_nil log) by lia.
  - apply wp_bind, wp_get. rewrite Hv. rewrite u64_small by zlia.
    apply wp_bind, wp_read; [done|lia|lia|rewrite Hc; lia|..].
    + intros s1 Hm. rewrite Hc, Hix.
      rewrite (accept_own_index v o _ Hg Hb c p log raws Hok ltac:(lia) Hspan Hst Hse).
      apply wp_lift_result; [|done]. by intros ? [= <-].
    + intros e s1 _ Hl. done.
Qed.

Lemma acquire_spec : reads (acquire_index p) (fun a => a = mkAcquired catalog false false false 0).
Proof.
  intros s Hs Hr. pose proof (sb_wf _ _ _ _ Hs). unfold acquire_index, catalog.
  destruct (ps_sealed p) eqn:Hse.
  - apply wp_bind, wp_attempt. eapply wp_conseq; [by apply load_index_spec| |done].
    intros es s1 [Hm ->]. by apply wp_ret.
  - destruct (sr_open _ _ _ _ _ _ Hst Hse) as [Hi He].
    assert (Hc : negb (len (ps_active_index p) =? 0) || (ps_data_end p =? kPartitionHeaderRegionSize) = true).
    { rewrite Hi, He. destruct log as [|f l]; [done|]. unfold entries_of. cbn [log_entries].
      rewrite len_cons. pose proof (len_nonneg (log_entries (kPartitionHeaderRegionSize + bh_frame_span (fst f)) l)).
      rewrite (proj2 (Z.eqb_neq _ _)) by lia. done. }
    rewrite Hc. apply wp_ret. split; [by apply moved_refl|]. by rewrite Hi.
Qed.

Lemma header_spec : reads (read_partition_header (ph_slot (ps_header p)))
  (fun h => ph_generation h = ph_generation (ps_header p)).
Proof.
  apply reads_of. intros s Hs. eapply wp_conseq;
    [apply (read_header_spec v o c p); [done|done|apply Hst|apply Hst|done]| |done].
  by intros h s' (?&?&_).
Qed.

Lemma entries_spec all_blocks range options : forall l rs seq off wh wl es,
  frames_at v (ps_header p) c seq off wh wl l -> Forall2 (decodes o) l rs ->
  0 <= off <= index_begin v ->
  es = log_entries off l \/ es = map strip_writer (log_entries off l) ->
  delivers (query_entries visitor all_blocks range options p es)
    (List.filter (wanted all_blocks range) (log_events v p off l rs)).
Proof.
  induction l as [|f l IH]; intros rs seq off wh wl es Hf Hr Ho Hes.
  { assert (es = []) as -> by (by destruct Hes). inversion Hr; subst. apply delivers_ret. }
  apply Forall2_cons_inv_l in Hr as (raw&rs'&Hd&Hr&->). destruct Hf as [Hf Hfs].
  assert (exists e es', es = e :: es' /\ entry_for off (fst f) e /\
    ie_min_time_ns e = bh_min_time_ns (fst f) /\ ie_max_time_ns e = bh_max_time_ns (fst f) /\
    (es' = log_entries (off + bh_frame_span (fst f)) l \/
     es' = map strip_writer (log_entries (off + bh_frame_span (fst f)) l)) /\
    block_metadata v p e (fst f) = block_metadata v p (scanned_entry off (fst f)) (fst f))
    as (e&es'&->&Hef&Hmin&Hmax&Hes'&Hmd).
  { destruct Hes as [-> | ->]; cbn [log_entries map]; eexists _, _; (split; [reflexivity|]).
    - split; [by left|]. split_and!; try done. by left.
    - split; [by right|]. split_and!; try done. by right. }
  pose proof (sr_slot _ _ _ _ _ _ Hst) as Hsl. pose proof Hf as [Hdec _ _ Hch Hsp].
  destruct (decode_at v _ (ps_header p) Hg Hb Hsl c off (fst f) Hok ltac:(lia) Ho Hdec) as [Hwf Hv].
  pose proof (frame_size_facts v _ (ps_header p) Hg Hb _ _ _ _ _ _ Hwf Hv
    (proj1 (block_bad_spec _ _ _ _ _ _ _ _) Hch) Hsp ltac:(lia) ltac:(lia)) as (?&?&_).
  unfold kBlockHeaderEncodedSize in *.
  specialize (IH rs' _ (off + bh_frame_span (fst f)) _ _ es' Hfs Hr ltac:(lia) Hes').
  cbn [query_entries log_events List.filter]. rewrite Hmin, Hmax. unfold wanted at 1.
  change (md_min_time_ns (be_metadata (block_event v p off f raw))) with (bh_min_time_ns (fst f)).
  change (md_max_time_ns (be_metadata (block_event v p off f raw))) with (bh_max_time_ns (fst f)).
  rewrite <- negb_orb. destruct (all_blocks || _); cbn [negb]; [|done].
  apply (delivers_attempt _ (fun r => r = (block_metadata v p e (fst f), raw))).
  - apply reads_of. intros s Hs. by eapply read_block_spec; try done; apply Hst.
  - intros ? ->. rewrite Hmd.
    apply (delivers_bind _ _ [block_event v p off f raw]); [apply delivers_visit|done].
Qed.

Lemma partition_spec all_blocks range options times :
  delivers (query_partition visitor all_blocks range options p)
    (part_events v all_blocks range (mkPart p log raws times)).
Proof.
  unfold query_partition, part_events, in_domain. cbn [pt_state pt_log pt_raws].
  rewrite <- !negb_orb, <- orb_assoc. destruct (all_blocks || _); cbn [negb]; [|apply delivers_ret].
  destruct (stored_places v o _ Hg Hb c p log raws Hok ltac:(lia) Hst) as (?&_&_).
  apply (delivers_read _ (fun a => a = mkAcquired catalog false false false 0)); [apply acquire_spec|].
  intros ? ->. apply (delivers_attempt _ (fun h => ph_generation h = ph_generation (ps_header p)));
    [apply header_spec|]. intros h ->. rewrite Z.eqb_refl. cbn [negb].
  assert (Hpre : invalid_prefix p (mkAcquired catalog false false false 0) = false).
  { unfold invalid_prefix, catalog. simpl. rewrite orb_false_r. destruct (ps_sealed p) eqn:Hse; [|done].
    rewrite (sa_count _ _ _ _ (sr_sealed _ _ _ _ _ _ Hst Hse)).
    assert (Hl : len (map strip_writer (entries_of log)) = len log)
      by (pose proof (len_log_entries kPartitionHeaderRegionSize log) as Hx; unfold len in *;
          rewrite length_map; exact Hx).
    rewrite Hl, Z.eqb_refl. done. }
  rewrite Hpre.
  change (delivers (mret tt ;; query_entries visitor all_blocks range options p catalog)
    (List.filter (wanted all_blocks range) (log_events v p kPartitionHeaderRegionSize log raws))).
  apply (delivers_bind _ _ []); [apply delivers_ret|].
  eapply entries_spec; [apply Hst|apply Hst|unfold kPartitionHeaderRegionSize in *; lia|].
  unfold catalog, entries_of. destruct (ps_sealed p); auto.
Qed.
End Partition.

(** ** The whole catalog *)

Lemma partitions_spec all_blocks range options R :
  Forall (fun x => stored v o c (pt_state x) (pt_log x) (pt_raws x)) R ->
  delivers (query_partitions visitor all_blocks range options (map pt_state R))
    (ring_events v all_blocks range R).
Proof.
  induction 1 as [|x R Hx HR IH]; [apply delivers_ret|]. cbn [query_partitions map].
  unfold ring_events. cbn [map concat].
  apply delivers_bind; [|exact IH]. destruct x. by apply partition_spec.
Qed.
End Media.
End Query.
