(* ===== verification/RingWhole.v ===== *)
(** * The ring as a whole

    The catalog of a writer is a list of stored partitions in generation
    order, in distinct slots; every partition but the last is sealed. Every
    call keeps this: publishing extends the last partition, rotation seals it,
    drops the partition whose slot comes next and starts a new one there. *)

From S2P Require Import Prelude Status Hoare Crc32c Layout Format FormatFacts Codec PackBitsFacts.
From S2P Require Import Lz4 Lz4Facts Storage RingTypes RingWriter RingReader RingOpen RingRules.
From S2P Require Import RingGeometry RingInv RingHealth RingWriterFacts RingCalls RingDisk.
From S2P Require Import RingScan RingLog RingRefine RingRead RingCrash RingStored RingQuery.
From Stdlib Require Import Sorted.

Definition part_slot (x : part) : Z := ph_slot (ps_header (pt_state x)).
Definition part_generation (x : part) : Z := ph_generation (ps_header (pt_state x)).

(** ** Lists of partitions *)

Lemma insert_largest p l :
  Forall (fun q => ph_generation (ps_header q) <= ph_generation (ps_header p)) l ->
  insert_by_generation p l = l ++ [p].
Proof.
  induction 1 as [|q l Hq Hl IH]; [done|]. cbn [insert_by_generation].
  rewrite (proj2 (Z.ltb_ge _ _)) by done. by rewrite IH.
Qed.
Definition by_generation (p q : PartitionState) : Prop :=
  ph_generation (ps_header p) < ph_generation (ps_header q).
Lemma sort_of_sorted l : StronglySorted by_generation l -> sort_by_generation l = l.
Proof.
  unfold sort_by_generation.
  assert (H : forall l acc, StronglySorted by_generation (acc ++ l) ->
    foldl (fun acc p => insert_by_generation p acc) acc l = acc ++ l).
  { clear l. induction l as [|p l IH]; intros acc Hs; cbn; [by rewrite app_nil_r|].
    assert (Hs' : StronglySorted by_generation ((acc ++ [p]) ++ l)) by (by rewrite <- app_assoc).
    rewrite insert_largest; [rewrite IH by done; by rewrite <- app_assoc|].
    clear IH Hs'. induction acc as [|q acc IH]; [constructor|]. cbn in Hs.
    apply StronglySorted_inv in Hs as [Hs Hq]. constructor; [|by apply IH].
    rewrite Forall_app in Hq. destruct Hq as [_ Hq]. apply Forall_cons in Hq as [Hq _].
    unfold by_generation in Hq. lia. }
  intros Hs. by apply (H l []).
Qed.

Lemma sorted_filter {A} (R : A -> A -> Prop) f l : StronglySorted R l -> StronglySorted R (List.filter f l).
Proof.
  induction 1 as [|x l Hl IH Hx]; [constructor|]. cbn. destruct (f x); [|done]. constructor; [done|].
  apply Forall_forall. intros y Hy. rewrite Forall_forall in Hx. apply Hx.
  apply list_elem_of_In, filter_In in Hy as [Hy _]. by apply list_elem_of_In.
Qed.
Lemma sorted_snoc {A} (R : A -> A -> Prop) l x :
  StronglySorted R l -> Forall (fun y => R y x) l -> StronglySorted R (l ++ [x]).
Proof.
  induction 1 as [|y l Hl IH Hy]; intros Hx; [by repeat constructor|].
  apply Forall_cons in Hx as [Hyx Hx]. cbn. constructor; [by apply IH|].
  apply Forall_app. split; [done|by constructor].
Qed.
Lemma sorted_snoc_inv {A} (R : A -> A -> Prop) l x : StronglySorted R (l ++ [x]) ->
  StronglySorted R l /\ Forall (fun y => R y x) l.
Proof.
  induction l as [|y l IH]; intros H; [split; constructor|]. cbn in H.
  apply StronglySorted_inv in H as [H Hy]. destruct (IH H) as [? ?]. apply Forall_app in Hy as [? Hyx].
  apply Forall_cons in Hyx as [Hyx _]. split; by constructor.
Qed.

Lemma update_first_snoc {A} (p : A -> bool) f l x :
  Forall (fun y => p y = false) l -> p x = true ->
  update_first p f (l ++ [x]) = l ++ [f x].
Proof.
  intros Hl Hx. induction Hl as [|y l Hy _ IH]; cbn; [by rewrite Hx|]. by rewrite Hy, IH.
Qed.

(** ** The times of the records of a block *)

Definition covers (lo hi : Z) (ts : list Z) : Prop :=
  Forall (fun t => lo <= t <= hi) ts /\ lo ∈ ts /\ hi ∈ ts.
Definition timed (f : frame) (ts : list Z) : Prop :=
  covers (bh_min_time_ns (fst f)) (bh_max_time_ns (fst f)) ts /\
  bh_record_count (fst f) = len ts.
Definition part_timed (x : part) : Prop := Forall2 timed (pt_log x) (pt_times x).

Section Ring.
Context {T : Type} `{!Storage T, !StorageModel T}.
Implicit Types s : Impl T.

Definition part_stored s (x : part) : Prop :=
  stored (volume s) (open_options s) (contents (storage s)) (pt_state x) (pt_log x) (pt_raws x).

Record ring s (R : list part) (x : part) : Prop := {
  rg_winv : winv s;
  rg_parts : partitions s = map pt_state (R ++ [x]);
  rg_corrupt : corrupt_slots s = [];
  rg_stored : Forall (part_stored s) (R ++ [x]);
  rg_times : Forall part_timed (R ++ [x]);
  rg_sorted : StronglySorted by_generation (partitions s);
  rg_slots : NoDup (map part_slot (R ++ [x]));
  rg_active : active s = Some (pt_state x);
  rg_open : ps_sealed (pt_state x) = false;
  rg_sealed : Forall (fun y => ps_sealed (pt_state y) = true) R;
  rg_rest : rest_ok (volume s) (open_options s) (contents (storage s)) (map part_slot (R ++ [x]));
  rg_footer : footer_open (volume s) (ps_header (pt_state x)) (contents (storage s)) }.

Lemma ring_facts s R x : ring s R x ->
  geometry_ok (volume s) (st_size (storage s)) /\ st_size (storage s) < 2 ^ 63 /\
  st_size (storage s) = len (contents (storage s)) /\ bytes_ok (contents (storage s)) /\
  worst_span (volume s) <= UINT32_MAX.
Proof.
  intros Hr. pose proof (w_base _ (rg_winv _ _ _ Hr)) as [Hwf Hg Hsp _ _ _].
  split_and!; [done|by apply st_size_bound|by apply st_size_contents|by apply st_bytes_ok|done].
Qed.

(** Only the last partition is the active one. *)
Lemma ring_not_active s R x : ring s R x -> is_active s (pt_state x) = true /\
  Forall (fun y => is_active s (pt_state y) = false) R.
Proof.
  intros Hr. pose proof (rg_active _ _ _ Hr) as Ha. unfold active in Ha.
  apply find_some in Ha as [_ Ha]. split; [done|]. pose proof (rg_sorted _ _ _ Hr) as Hs.
  rewrite (rg_parts _ _ _ Hr), map_app in Hs. apply sorted_snoc_inv in Hs as [_ Hs].
  apply Forall_map in Hs. eapply Forall_impl; [exact Hs|]. intros y Hy. unfold by_generation in Hy. simpl in Hy.
  unfold is_active in *. rewrite andb_true_iff, !Z.eqb_eq in Ha. destruct Ha as [Ha _].
  rewrite (proj2 (Z.eqb_neq _ _)) by lia. done.
Qed.

Lemma ring_update s R x f : ring s R x ->
  partitions (update_active f s) = map pt_state R ++ [f (pt_state x)].
Proof.
  intros Hr. destruct (ring_not_active _ _ _ Hr) as [Hx HR]. unfold update_active. simpl.
  rewrite (rg_parts _ _ _ Hr), map_app. apply update_first_snoc; [|done]. by apply Forall_map.
Qed.

(** A step that leaves catalog and media alone. *)
Lemma ring_same s s' R x : ring s R x -> winv s' -> volume s' = volume s ->
  open_options s' = open_options s -> partitions s' = partitions s ->
  corrupt_slots s' = corrupt_slots s -> active s' = active s ->
  contents (storage s') = contents (storage s) -> ring s' R x.
Proof.
  intros [] Hw E1 E2 E3 E4 E5 E6. split; unfold part_stored; rewrite ?E1, ?E2, ?E3, ?E4, ?E5, ?E6;
    assumption.
Qed.

Lemma ring_logged s R x : ring s R x -> logged s (pt_state x) (pt_log x) (pt_raws x).
Proof.
  intros []. apply Forall_app in rg_stored0 as [_ Hx]. apply Forall_cons in Hx as [[] _].
  destruct (sr_open rg_open0) as [? ?]. split; done.
Qed.

(** The parts of the ring other than the one in [slot] survive a write there. *)
Lemma stored_elsewhere s s' slot off d y :
  geometry_ok (volume s) (st_size (storage s)) -> st_size (storage s) < 2 ^ 63 ->
  st_size (storage s) = len (contents (storage s)) -> bytes_ok (contents (storage s)) ->
  volume s' = volume s -> open_options s' = open_options s ->
  contents (storage s') = splice (partition_base (volume s) slot + off) d (contents (storage s)) ->
  0 <= slot < vh_partition_count (volume s) -> part_slot y <> slot ->
  0 <= off -> off + len d <= vh_partition_size (volume s) ->
  part_stored s y -> part_stored s' y.
Proof.
  intros Hg Hb Hsz Hok Hv Ho Hc Hs Hne Hoff Hd Hy. unfold part_stored. rewrite Hv, Ho, Hc.
  eapply (stored_ext _ _ _ Hg Hb); [exact Hok|lia| |exact Hy]. intros o n ? ? ?.
  eapply other_slot; try done; [apply Hy|lia].
Qed.

Lemma ring_others s R x : ring s R x -> Forall (fun y => part_slot y <> part_slot x) R.
Proof.
  intros Hr. pose proof (rg_slots _ _ _ Hr) as Hn. rewrite map_app in Hn.
  apply NoDup_app in Hn as (_&Hn&_). apply Forall_forall. intros y Hy E.
  apply (Hn (part_slot y)); [by apply list_elem_of_fmap_2|]. rewrite E. by left.
Qed.

Lemma ring_part s R x : ring s R x -> part_stored s x /\ Forall (part_stored s) R.
Proof.
  intros []. apply Forall_app in rg_stored0 as [? Hx]. by apply Forall_cons in Hx as [? _].
Qed.

(** ** Publishing *)

Lemma ring_emit s R x sel ver payload span s' ts : ring s R x -> winv s' -> builder s <> [] ->
  covers (builder_min_time s) (builder_max_time s) ts -> builder_records s = len ts ->
  emitted s (pt_state x) sel ver payload span s' -> emit_frame s s' ->
  exists x', ring s' R x' /\ part_slot x' = part_slot x /\ part_generation x' = part_generation x /\
    pt_raws x' = pt_raws x ++ [builder s] /\ pt_times x' = pt_times x ++ [ts].
Proof.
  intros Hr Hw' Hne Hts Hrec Hem Hfr. pose proof (rg_winv _ _ _ Hr) as Hw. pose proof (rg_active _ _ _ Hr) as Ha.
  destruct (ring_facts _ _ _ Hr) as (Hg&Hb&Hsz&Hok&_). destruct (ring_part _ _ _ Hr) as [Hx HR].
  destruct (logged_emit s (pt_state x) sel ver payload span s' Hw Ha Hne Hem Hfr _ _ (ring_logged _ _ _ Hr))
    as (p'&Hl').
  pose proof (lg_active _ _ _ _ Hl') as Ha'. pose proof (et_active _ _ _ _ _ _ _ Hem) as Hp'.
  rewrite Ha' in Hp'. set (push := push_block _ _ _) in Hp'. injection Hp' as Hp'.
  assert (Hkeep : ps_header p' = ps_header (pt_state x) /\ ps_sealed p' = ps_sealed (pt_state x)).
  { rewrite Hp'. unfold push, push_block. cbv zeta. case_match; done. }
  destruct Hkeep as [Hh Hse]. destruct (et_catalog _ _ _ _ _ _ _ Hem) as [Hcat Hcor].
  fold push in Hcat. rewrite (ring_update _ _ _ _ Hr), <- Hp' in Hcat.
  destruct (w_active _ Hw') as (q&Hq&Hps&_). rewrite Ha' in Hq. injection Hq as <-.
  pose proof (em_bounds _ _ _ _ _ _ (et_emission _ _ _ _ _ _ _ Hem)).
  pose proof (emission_facts s _ sel ver payload span Hw Ha Hne (et_emission _ _ _ _ _ _ _ Hem))
    as (_&_&[Hroom _]&_&_&Hde&_).
  pose proof (em_len _ _ _ _ _ _ (et_emission _ _ _ _ _ _ _ Hem)).
  pose proof (index_begin_range _ _ Hg Hb) as (?&?&?). pose proof (len_nonneg payload).
  exists (mkPart p' (pt_log x ++ [(make_block s (pt_state x) sel ver payload span, payload)])
    (pt_raws x ++ [builder s]) (pt_times x ++ [ts])).
  unfold part_slot, part_generation. cbn [pt_state pt_raws]. rewrite Hh. split; [|done].
  split; rewrite ?map_app; cbn [map pt_state]; try done.
  - by rewrite Hcor, (rg_corrupt _ _ _ Hr).
  - apply Forall_app. split.
    + pose proof (ring_others _ _ _ Hr) as Ho. rewrite Forall_forall in HR, Ho |- *. intros y Hy.
      apply (stored_elsewhere s s' (part_slot x) (ps_data_end (pt_state x))
        (encode_block_header (make_block s (pt_state x) sel ver payload span) ++ payload) y
        Hg Hb Hsz Hok (ef_volume _ _ Hfr) (ef_options _ _ Hfr) (et_contents _ _ _ _ _ _ _ Hem)
        (sr_slot _ _ _ _ _ _ Hx) (Ho y Hy)); [| |by apply HR].
      * unfold kPartitionHeaderRegionSize in *. lia.
      * rewrite len_app, encode_block_len.
        unfold kPartitionFooterRegionSize, kBlockHeaderEncodedSize in *. lia.
    + constructor; [|done]. unfold part_stored. cbn [pt_state pt_log pt_raws]. destruct Hl'.
      split; try done.
      * rewrite Hh, (ef_volume _ _ Hfr). apply Hx.
      * rewrite Hh. apply Hx.
      * rewrite <- (len_log_entries kPartitionHeaderRegionSize), <- lg_index. apply Hps.
      * intros Hs. rewrite Hse, (rg_open _ _ _ Hr) in Hs. done.
  - pose proof (rg_times _ _ _ Hr) as Htm. apply Forall_app in Htm as [Htr Htx].
    apply Forall_cons in Htx as [Htx _]. apply Forall_app. split; [done|]. constructor; [|done].
    apply Forall2_app; [done|]. by constructor.
  - rewrite Hcat. pose proof (rg_sorted _ _ _ Hr) as Hs. rewrite (rg_parts _ _ _ Hr), map_app in Hs.
    apply sorted_snoc_inv in Hs as [Hs1 Hs2]. apply sorted_snoc; [done|].
    eapply Forall_impl; [exact Hs2|]. intros y. unfold by_generation. simpl. by rewrite Hh.
  - pose proof (rg_slots _ _ _ Hr) as Hs. rewrite map_app in Hs. unfold part_slot in *. cbn in *.
    by rewrite Hh.
  - by rewrite Hse, (rg_open _ _ _ Hr).
  - exact (rg_sealed _ _ _ Hr).
  - rewrite (ef_volume _ _ Hfr), (ef_options _ _ Hfr), (et_contents _ _ _ _ _ _ _ Hem).
    pose proof (rg_rest _ _ _ Hr) as Hrest. rewrite map_app in Hrest. cbn [map] in Hrest.
    unfold part_slot at 2. cbn [pt_state]. rewrite Hh. fold (part_slot x).
    apply (rest_write _ _ _ Hg Hb _ _ _ _ (map part_slot R ++ [part_slot x]));
      [lia|exact Hrest|exact (sr_slot _ _ _ _ _ _ Hx)|..].
    + unfold kPartitionHeaderRegionSize in *. lia.
    + rewrite len_app, encode_block_len.
      unfold kPartitionFooterRegionSize, kBlockHeaderEncodedSize in *. lia.
    + apply elem_of_app. right. by left.
    + auto.
  - rewrite Hh, (ef_volume _ _ Hfr), (et_contents _ _ _ _ _ _ _ Hem).
    apply (footer_open_ext _ _ (contents (storage s))); [|exact (rg_footer _ _ _ Hr)].
    pose proof (regions _ _ Hg Hb) as (_&?&?&_). pose proof (pbase_range _ _ _ Hg Hb (sr_slot _ _ _ _ _ _ Hx)).
    apply slice_splice_after; rewrite ?len_app, ?encode_block_len;
      unfold kPartitionHeaderRegionSize, kPartitionFooterRegionSize, kBlockHeaderEncodedSize,
        kPartitionFooterEncodedSize in *; lia.
Qed.

(** ** Rotation *)

Section Seal.
Context (s s1 : Impl T) (R : list part) (x : part).
Context (Hr : ring s R x) (Hse : sealed s (pt_state x) s1).
Local Abbreviation v := (volume s).
Local Abbreviation c := (contents (storage s)).
Local Abbreviation base := (partition_base v (ph_slot (ps_header (pt_state x)))).
Local Abbreviation idx := (encode_index (ps_active_index (pt_state x))).
Local Abbreviation footer := (make_footer v (pt_state x) idx).

(** The index and the footer lie behind the data, inside the partition. *)
Lemma seal_places :
  idx = encode_index (entries_of (pt_log x)) /\ len idx = len (pt_log x) * 48 /\
  kPartitionHeaderRegionSize <= end_of (pt_log x) <= index_begin v /\
  0 <= base /\ base + vh_partition_size v <= len c /\
  index_begin v + len idx <= footer_offset v /\
  footer_offset v + 4096 = vh_partition_size v /\
  len idx < 2 ^ 32 /\ 0 <= len (pt_log x) < 2 ^ 32 /\
  kPartitionHeaderRegionSize <= index_begin v /\
  len (splice (base + index_begin v) idx c) = len c.
Proof.
  destruct (ring_part _ _ _ Hr) as [Hx _]. destruct (ring_facts _ _ _ Hr) as (Hg&Hb&Hsz&Hok&_).
  destruct (sr_open _ _ _ _ _ _ Hx (rg_open _ _ _ Hr)) as [Hi He].
  destruct (stored_places _ _ _ Hg Hb _ _ _ _ Hok ltac:(lia) Hx) as (Hend&Hidx&H32).
  pose proof (regions _ _ Hg Hb) as (?&?&?&?). pose proof (len_nonneg (pt_log x)).
  pose proof (vh_wf_index_region_size _ (g_wf _ _ Hg)).
  pose proof (pbase_range _ _ (ps_header (pt_state x)) Hg Hb (sr_slot _ _ _ _ _ _ Hx)).
  assert (Hil : len idx = len (pt_log x) * 48).
  { rewrite encode_index_len, Hi. unfold entries_of. by rewrite len_log_entries. }
  unfold kPartitionHeaderRegionSize, kPartitionFooterRegionSize, kIndexEntryEncodedSize in *.
  assert (Hle : base + index_begin v + len idx <= len c) by lia.
  split_and!; try done; try lia; try zlia; [by rewrite Hi|]. apply len_splice; lia.
Qed.

Lemma seal_others : Forall (part_stored s1) R.
Proof.
  destruct seal_places as (_&_&?&?&?&?&?&_&_&?&Hlc). destruct (ring_part _ _ _ Hr) as [Hx HR].
  destruct (ring_facts _ _ _ Hr) as (Hg&Hb&Hsz&Hok&_). pose proof (ring_others _ _ _ Hr) as Hne.
  pose proof (c_volume _ _ (se_core _ _ _ Hse)) as Hv.
  pose proof (c_options _ _ (se_core _ _ _ Hse)) as Ho. simpl in Hv, Ho.
  assert (Hfl : len (encode_partition_footer footer) = 256) by apply encode_footer_len.
  pose proof (len_nonneg idx). unfold kPartitionHeaderRegionSize in *.
  rewrite Forall_forall in HR, Hne |- *. intros y Hy. specialize (HR y Hy). specialize (Hne y Hy).
  unfold part_stored. rewrite Hv, Ho, (se_contents _ _ _ Hse).
  eapply (stored_ext _ _ _ Hg Hb); [exact Hok|lia| |exact HR]. intros off n ? ? ?.
  assert (Hd : ph_slot (ps_header (pt_state x)) <> ph_slot (ps_header (pt_state y)))
    by (intros E; by apply Hne).
  rewrite (other_slot _ _ _ _ _ _ _ _ _ Hg Hb (sr_slot _ _ _ _ _ _ Hx) (sr_slot _ _ _ _ _ _ HR) Hd)
    by lia.
  apply (other_slot _ _ _ _ _ _ _ _ _ Hg Hb (sr_slot _ _ _ _ _ _ Hx) (sr_slot _ _ _ _ _ _ HR) Hd); lia.
Qed.

Lemma seal_rest :
  rest_ok (volume s1) (open_options s1) (contents (storage s1)) (map part_slot (R ++ [x])).
Proof.
  destruct seal_places as (_&_&?&?&?&?&?&_&_&?&Hlc). destruct (ring_part _ _ _ Hr) as [Hx _].
  destruct (ring_facts _ _ _ Hr) as (Hg&Hb&Hsz&Hok&_).
  pose proof (c_volume _ _ (se_core _ _ _ Hse)) as Hv.
  pose proof (c_options _ _ (se_core _ _ _ Hse)) as Ho. simpl in Hv, Ho.
  assert (Hin : part_slot x ∈ map part_slot (R ++ [x]))
    by (apply list_elem_of_fmap_2, elem_of_app; right; by left).
  assert (Hfl : len (encode_partition_footer footer) = 256) by apply encode_footer_len.
  pose proof (len_nonneg idx). unfold kPartitionHeaderRegionSize in *.
  rewrite Hv, Ho, (se_contents _ _ _ Hse).
  apply (rest_write v _ _ Hg Hb _ _ _ _ (map part_slot (R ++ [x]))); try lia; auto;
    [|exact (sr_slot _ _ _ _ _ _ Hx)].
  apply (rest_write v _ _ Hg Hb _ _ _ _ (map part_slot (R ++ [x]))); try lia; auto;
    [exact (rg_rest _ _ _ Hr)|exact (sr_slot _ _ _ _ _ _ Hx)].
Qed.

(** What precedes the index is untouched. *)
Lemma seal_before off n : 0 <= off -> 0 <= n -> off + n <= index_begin v ->
  slice (base + off) n (contents (storage s1)) = slice (base + off) n c.
Proof.
  intros ? ? ?. destruct seal_places as (_&_&?&?&?&?&?&_&_&?&Hlc). pose proof (len_nonneg idx).
  rewrite (se_contents _ _ _ Hse). rewrite !slice_splice_before; [done|lia..].
Qed.

Lemma seal_own_footer :
  accept_footer v (ps_header (pt_state x)) (encode_partition_footer footer) = Ok footer /\
  pf_flags footer = scanned_flags (ps_active_index (pt_state x)) /\
  pf_min_time_ns footer = scanned_min (ps_active_index (pt_state x)) /\
  pf_max_time_ns footer = scanned_max (ps_active_index (pt_state x)).
Proof.
  destruct (ring_facts _ _ _ Hr) as (Hg&Hb&_). destruct (w_active _ (rg_winv _ _ _ Hr)) as (p&Ha&Hps&_).
  rewrite (rg_active _ _ _ Hr) in Ha. injection Ha as <-.
  exact (own_footer_accepted v _ _ Hg Hb _ Hps).
Qed.

Lemma seal_index : sealed_at v (contents (storage s1)) (seal_fn footer (pt_state x)) (pt_log x).
Proof.
  destruct seal_places as (Hie&Hil&?&?&?&?&?&?&?&?&Hlc). rewrite (se_contents _ _ _ Hse).
  destruct (sr_open _ _ _ _ _ _ (proj1 (ring_part _ _ _ Hr)) (rg_open _ _ _ Hr)) as [Hi He].
  assert (Hfl : len (encode_partition_footer footer) = 256) by apply encode_footer_len.
  unfold kPartitionHeaderRegionSize in *.
  split; cbn [seal_fn ps_header ps_footer set]; try done; unfold kIndexEntryEncodedSize.
  - change (pf_index_size footer) with (u32 (len idx)). rewrite u32_small; [done|zlia].
  - change (pf_index_crc footer) with (crc32c idx). by rewrite Hie.
  - change (pf_block_count footer) with (u32 (len (ps_active_index (pt_state x)))).
    rewrite Hi. unfold entries_of. rewrite len_log_entries. apply u32_small. zlia.
  - rewrite <- Hie, slice_splice_before, <- Hil by lia. apply slice_splice_same; lia.
  - unfold kPartitionFooterEncodedSize. rewrite <- Hfl. apply slice_splice_same; [lia|].
    rewrite Hlc, Hfl. lia.
  - exact (proj1 seal_own_footer).
  - rewrite <- Hi. exact (proj2 seal_own_footer).
Qed.

Lemma ring_seal :
  let x1 := mkPart (seal_fn footer (pt_state x)) (pt_log x) (pt_raws x) (pt_times x) in
  partitions s1 = map pt_state (R ++ [x1]) /\ corrupt_slots s1 = [] /\
  Forall (part_stored s1) (R ++ [x1]) /\
  rest_ok (volume s1) (open_options s1) (contents (storage s1)) (map part_slot (R ++ [x])).
Proof.
  pose proof (se_core _ _ _ Hse) as Hc. split_and!; cycle -1.
  { exact seal_rest. }
  - rewrite (c_partitions _ _ Hc), (ring_update _ _ _ _ Hr), map_app. done.
  - rewrite (c_corrupt _ _ Hc). exact (rg_corrupt _ _ _ Hr).
  - apply Forall_app. split; [apply seal_others|]. constructor; [|done].
    destruct seal_places as (_&_&?&_&?&_&_&_&_&?&_). destruct (ring_part _ _ _ Hr) as [Hx _].
    destruct (ring_facts _ _ _ Hr) as (Hg&Hb&Hsz&Hok&_).
    pose proof (c_volume _ _ Hc) as Hv. pose proof (c_options _ _ Hc) as Ho. simpl in Hv, Ho.
    destruct Hx as [Hsl Hh Hgn Hf Hra Hcn _ _]. unfold part_stored, kPartitionHeaderRegionSize in *.
    rewrite Hv, Ho. cbn [pt_state pt_log pt_raws].
    split; cbn [seal_fn ps_header ps_sealed set]; try done.
    + destruct Hh as (h'&Hacc&?&?). exists h'. split; [|done].
      rewrite <- (Z.add_0_r base), seal_before, Z.add_0_r; [done|..]; unfold kPartitionHeaderEncodedSize; lia.
    + apply (frames_ext _ _ _ Hg Hb Hsl c _ _ Hok); [lia|unfold kPartitionHeaderRegionSize; lia| |done].
      intros off n ? ? ?. unfold end_of, kPartitionHeaderRegionSize in *. apply seal_before; lia.
    + intros _. apply seal_index.
Qed.
End Seal.

Definition elsewhere (slot : Z) (y : part) : bool := negb (part_slot y =? slot).

Lemma filter_states slot L :
  List.filter (fun p => negb (ph_slot (ps_header p) =? slot)) (map pt_state L) =
  map pt_state (List.filter (elsewhere slot) L).
Proof.
  induction L as [|y L IH]; [done|]. cbn. unfold elsewhere at 1, part_slot. rewrite IH.
  by destruct (negb _).
Qed.
Lemma NoDup_filter_slots slot L : NoDup (map part_slot L) ->
  NoDup (map part_slot (List.filter (elsewhere slot) L)).
Proof.
  induction L as [|y L IH]; [done|]. cbn [map List.filter]. intros Hn.
  apply NoDup_cons in Hn as [Hy Hn]. destruct (elsewhere slot y); [|by apply IH]. cbn.
  apply NoDup_cons. split; [|by apply IH]. intros Hin. apply Hy.
  apply list_elem_of_fmap in Hin as (z&->&Hz). apply list_elem_of_fmap_2.
  by apply list_elem_of_In, filter_In in Hz as [Hz%list_elem_of_In _].
Qed.

Definition fresh_part (v : VolumeHeader) (slot g : Z) (o : PartitionOptions) : part :=
  mkPart (new_partition_state (make_partition_header v slot g o)) [] [] [].

(** Whatever a sealed ring or an unused slot left in the footer region of
    [slot], a younger partition does not take it for its footer. *)
Lemma slot_footer_open s1 L slot g o : Forall (part_stored s1) L ->
  Forall (fun y => ps_sealed (pt_state y) = true) L ->
  rest_ok (volume s1) (open_options s1) (contents (storage s1)) (map part_slot L) ->
  Forall (fun y => part_generation y < g) L -> 0 <= slot < vh_partition_count (volume s1) ->
  footer_open (volume s1) (make_partition_header (volume s1) slot g o) (contents (storage s1)).
Proof.
  intros Hst Hse Hrest Hgen Hslot. destruct (decide (slot ∈ map part_slot L)) as [Hin|Hni].
  - apply list_elem_of_fmap in Hin as (y&->&Hy). rewrite Forall_forall in Hst, Hse, Hgen.
    pose proof (sr_sealed _ _ _ _ _ _ (Hst y Hy) (Hse y Hy)) as Hs.
    apply (stale_open _ _ (ps_header (pt_state y)) _ (ps_footer (pt_state y))).
    + change (ph_slot (make_partition_header _ (part_slot y) _ _)) with (ph_slot (ps_header (pt_state y))).
      unfold slot_footer. rewrite (sa_footer _ _ _ _ Hs). exact (sa_accept _ _ _ _ Hs).
    + specialize (Hgen y Hy). unfold part_generation in Hgen. change (ph_generation (make_partition_header _ _ g _)) with g. lia.
  - apply foreign_open. pose proof (rs_vacant _ _ _ _ Hrest slot Hslot Hni) as H.
    unfold unclaimed in H. apply andb_true_iff in H as [_ H]. exact H.
Qed.

(** A new partition takes the place of the one in its slot. *)
Lemma ring_create s1 L slot g o s2 s' : wbase s1 -> created slot g o s1 s2 ->
  partitions s1 = map pt_state L -> corrupt_slots s1 = [] -> Forall (part_stored s1) L ->
  Forall part_timed L -> Forall (fun y => ps_sealed (pt_state y) = true) L ->
  rest_ok (volume s1) (open_options s1) (contents (storage s1)) (map part_slot L) ->
  StronglySorted by_generation (map pt_state L) -> NoDup (map part_slot L) ->
  Forall (fun y => part_generation y < g) L -> g <> 0 ->
  0 <= slot < vh_partition_count (volume s1) -> is_u64 g -> options_ok (open_options s1) o ->
  core_eq s2 s' -> contents (storage s') = contents (storage s2) -> winv s' ->
  ring s' (List.filter (elsewhere slot) L) (fresh_part (volume s1) slot g o).
Proof.
  intros Hb1 Hcr Hp Hc0 Hst Htm Hse Hrest Hso Hnd Hgen Hg0 Hslot Hgu Ho Hce Hcont Hw'.
  pose proof (logged_created _ _ _ _ _ Hb1 Hcr Hslot Hgu Ho) as Hl.
  pose proof (w_geo _ Hb1) as Hg. pose proof (st_size_bound _ (w_st _ Hb1)) as Hb.
  pose proof (st_size_contents _ (w_st _ Hb1)) as Hsz. pose proof (st_bytes_ok _ (w_st _ Hb1)) as Hok.
  pose proof (c_volume _ _ Hce) as Hv. pose proof (c_options _ _ Hce) as Hoo.
  pose proof (cr_volume _ _ _ _ _ Hcr) as Hv2. pose proof (cr_options _ _ _ _ _ Hcr) as Ho2.
  set (new := new_partition_state _) in *.
  assert (Hsorted : StronglySorted by_generation
    (map pt_state (List.filter (elsewhere slot) L) ++ [new])).
  { rewrite <- filter_states. apply sorted_snoc; [by apply sorted_filter|].
    rewrite filter_states. apply Forall_map, Forall_forall. intros y Hy.
    apply list_elem_of_In, filter_In in Hy as [Hy%list_elem_of_In _].
    rewrite Forall_forall in Hgen. by apply Hgen. }
  assert (Hparts : partitions s' = map pt_state (List.filter (elsewhere slot) L) ++ [new]).
  { rewrite (c_partitions _ _ Hce), (cr_partitions _ _ _ _ _ Hcr), Hp, filter_states.
    by apply sort_of_sorted. }
  assert (Helse : Forall (fun y => part_slot y <> slot) (List.filter (elsewhere slot) L)).
  { apply Forall_forall. intros y Hy. apply list_elem_of_In, filter_In in Hy as [_ Hy].
    unfold elsewhere in Hy. apply negb_true_iff, Z.eqb_neq in Hy. done. }
  assert (Hstored : Forall (part_stored s') (List.filter (elsewhere slot) L)).
  { rewrite Forall_forall in Hst, Helse |- *. intros y Hy. pose proof (Helse y Hy) as Hne.
    apply list_elem_of_In, filter_In in Hy as [Hy%list_elem_of_In _].
    apply (stored_elsewhere s1 s' slot 0 (encode_partition_header
      (make_partition_header (volume s1) slot g o) (vh_partition_size (volume s1))
      (vh_index_region_size (volume s1))) y Hg Hb Hsz Hok); try done; try congruence.
    - by rewrite Z.add_0_r, Hcont, (cr_contents _ _ _ _ _ Hcr).
    - rewrite encode_partition_len. pose proof (index_begin_range _ _ Hg Hb) as (?&?&?).
      unfold kPartitionHeaderEncodedSize, kPartitionHeaderRegionSize, kPartitionFooterRegionSize in *. lia.
    - by apply Hst. }
  set (bytes := encode_partition_header (make_partition_header (volume s1) slot g o)
    (vh_partition_size (volume s1)) (vh_index_region_size (volume s1))).
  assert (Hw : contents (storage s') =
    splice (partition_base (volume s1) slot + 0) bytes (contents (storage s1)))
    by (rewrite Z.add_0_r, Hcont; apply (cr_contents _ _ _ _ _ Hcr)).
  assert (Hfits : 0 + len bytes <= vh_partition_size (volume s1)).
  { unfold bytes. rewrite encode_partition_len. pose proof (index_begin_range _ _ Hg Hb) as (?&?&?).
    unfold kPartitionHeaderEncodedSize, kPartitionHeaderRegionSize, kPartitionFooterRegionSize in *. lia. }
  split; rewrite ?map_app; try done.
  - rewrite (c_corrupt _ _ Hce), (cr_corrupt _ _ _ _ _ Hcr), Hc0. done.
  - apply Forall_app. split; [done|]. constructor; [|done].
    destruct (logged_core _ _ _ _ _ Hce Hcont Hl). split; try done.
    + rewrite Hv, Hv2. done.
    + change (0 < g). zlia.
    + pose proof (g_index _ _ Hg). rewrite Hv, Hv2. apply Z.div_pos; [|done].
      unfold kIndexEntryEncodedSize in *. lia.
  - apply Forall_app. split; [|by repeat constructor]. rewrite Forall_forall in Htm |- *.
    intros y Hy. apply list_elem_of_In, filter_In in Hy as [Hy%list_elem_of_In _]. by apply Htm.
  - by rewrite Hparts.
  - apply NoDup_app. split; [by apply NoDup_filter_slots|]. split; [|apply NoDup_singleton].
    intros z Hz Hz'. apply list_elem_of_singleton in Hz'. subst z.
    apply list_elem_of_fmap in Hz as (y&Hy&Hin). rewrite Forall_forall in Helse.
    apply (Helse y Hin). by rewrite <- Hy.
  - rewrite (core_active _ _ Hce). apply Hl.
  - rewrite Forall_forall in Hse |- *. intros y Hy.
    apply list_elem_of_In, filter_In in Hy as [Hy%list_elem_of_In _]. by apply Hse.
  - rewrite Hv, Hv2, Hoo, Ho2, Hw. apply (rest_write _ _ _ Hg Hb _ _ _ _ (map part_slot L));
      [lia|exact Hrest|exact Hslot|lia|exact Hfits|apply elem_of_app; right; by left|].
    intros i Hi. apply elem_of_app. destruct (decide (i = slot)) as [->|Hne]; [right; by left|left].
    apply list_elem_of_fmap in Hi as (y&->&Hy). apply list_elem_of_fmap_2, list_elem_of_In, filter_In.
    split; [by apply list_elem_of_In|]. unfold elsewhere. apply negb_true_iff. by apply Z.eqb_neq.
  - rewrite Hv, Hv2, Hw. apply (footer_open_ext _ _ (contents (storage s1))).
    + pose proof (regions _ _ Hg Hb) as (_&?&?&_). pose proof (index_begin_range _ _ Hg Hb) as (?&?&?).
      pose proof (partition_range _ _ Hg slot Hslot). pose proof (partition_base_eq _ _ Hg Hb slot Hslot).
      change (slot_footer (volume s1) slot (splice (partition_base (volume s1) slot + 0) bytes
        (contents (storage s1))) = slot_footer (volume s1) slot (contents (storage s1))).
      assert (Hbl : len bytes = kPartitionHeaderEncodedSize) by apply encode_partition_len.
      unfold kPartitionHeaderRegionSize, kPartitionFooterRegionSize, kPartitionHeaderEncodedSize,
        kVolumePrefixSize in *. apply slice_splice_after; lia.
    + by apply (slot_footer_open s1 L).
Qed.

Lemma ring_turn o s R x s' : ring s R x -> turned o s s' -> winv s' ->
  options_ok (open_options s) o ->
  let slot := u32 (part_slot x + 1) mod vh_partition_count (volume s) in
  exists x1, part_slot x1 = part_slot x /\ part_generation x1 = part_generation x /\
    pt_raws x1 = pt_raws x /\ pt_times x1 = pt_times x /\
    ring s' (List.filter (elsewhere slot) (R ++ [x1]))
      (fresh_part (volume s) slot (part_generation x + 1) o).
Proof.
  intros Hr (p&s1&s2&Ha&Hse&Hcr&Hgm&->) Hw' Ho. pose proof (rg_winv _ _ _ Hr) as Hw.
  rewrite (rg_active _ _ _ Hr) in Ha. injection Ha as <-.
  destruct (ring_seal _ _ _ _ Hr Hse) as (Hp1&Hc1&Hst1&Hre1).
  set (x1 := mkPart _ _ _ _) in *. pose proof (sealed_base _ _ _ Hw Hse) as Hb1.
  pose proof (c_volume _ _ (se_core _ _ _ Hse)) as Hv1. pose proof (c_options _ _ (se_core _ _ _ Hse)) as Ho1.
  simpl in Hv1, Ho1. destruct (w_active _ Hw) as (p'&Ha'&Hps&_).
  rewrite (rg_active _ _ _ Hr) in Ha'. injection Ha' as <-.
  pose proof (ho_generation _ _ _ (po_header _ _ _ Hps)) as [Hgu _].
  pose proof (rg_sorted _ _ _ Hr) as Hso. rewrite (rg_parts _ _ _ Hr), map_app in Hso.
  pose proof (sorted_snoc_inv _ _ _ Hso) as [Hs0 Hlt]. cbn zeta.
  exists x1. split_and!; [done..|]. rewrite <- Hv1 in *.
  eapply (ring_create s1 (R ++ [x1]) _ _ o s2); try done.
  - pose proof (rg_times _ _ _ Hr) as Htm. apply Forall_app in Htm as [? Htx].
    apply Forall_app. split; [done|]. apply Forall_cons in Htx as [Htx _]. by constructor.
  - apply Forall_app. split; [exact (rg_sealed _ _ _ Hr)|by constructor].
  - rewrite map_app in Hre1 |- *. exact Hre1.
  - rewrite map_app. apply sorted_snoc; [exact Hs0|exact Hlt].
  - pose proof (rg_slots _ _ _ Hr) as Hn. rewrite map_app in Hn |- *. exact Hn.
  - apply Forall_app. apply Forall_map in Hlt. split.
    + eapply Forall_impl; [exact Hlt|]. intros y. unfold by_generation, part_generation. simpl. lia.
    + constructor; [|done]. unfold x1, part_generation. simpl. lia.
  - unfold part_generation. zlia.
  - eapply next_slot_range, (w_geo _ Hb1).
  - unfold part_generation, UINT64_MAX in *. zlia.
  - by rewrite Ho1.
Qed.
End Ring.
