(* ===== verification/RingVolume.v ===== *)
(** * The abstract volume, and the store as a refinement of it

    What a client may rely on across partitions: the sealed partitions in
    generation order, the current one, and the pending bytes. [vstep] says
    what each call does to that. A rotation drops at most the partition whose
    slot is reused, never the one just sealed. *)

From S2P Require Import Prelude Status Hoare Crc32c Layout Format FormatFacts Codec PackBitsFacts.
From S2P Require Import Lz4 Lz4Facts Storage RingTypes RingWriter RingReader RingOpen RingRules.
From S2P Require Import RingGeometry RingInv RingHealth RingWriterFacts RingCalls RingDisk.
From S2P Require Import RingScan RingLog RingRefine RingRead RingCrash RingStored RingQuery.
From S2P Require Import RingWhole.

(** A block: its bytes and the times of its records, in append order. *)
Record ablock := mkAblock { ab_data : bytes; ab_times : list Z }.
Record apart := mkApart { ap_slot : Z; ap_generation : Z; ap_blocks : list ablock }.
Record avol := mkAvol { av_old : list apart; av_cur : apart; av_pending : ablock }.

Definition vpublish (a : avol) : avol :=
  match ab_data (av_pending a) with
  | [] => a
  | _ => mkAvol (av_old a) (mkApart (ap_slot (av_cur a)) (ap_generation (av_cur a))
           (ap_blocks (av_cur a) ++ [av_pending a])) (mkAblock [] [])
  end.
Definition next_slot (count slot : Z) : Z := if slot + 1 =? count then 0 else slot + 1.
Definition vrotate (count : Z) (a : avol) : avol :=
  let slot := next_slot count (ap_slot (av_cur a)) in
  mkAvol (List.filter (fun q => negb (ap_slot q =? slot)) (av_old a) ++ [av_cur a])
    (mkApart slot (ap_generation (av_cur a) + 1) []) (av_pending a).
Definition vaccept (record : bytes) (time : Z) (a : avol) : avol :=
  mkAvol (av_old a) (av_cur a)
    (mkAblock (ab_data (av_pending a) ++ record) (ab_times (av_pending a) ++ [time])).

(** Before accepting: publish when the record does not fit the block, rotate
    when the current partition is full. *)
Definition vroom (max count : Z) (record : ByteView) (a a' : avol) : Prop :=
  let a1 := if max - len (ab_data (av_pending a)) <? view_size record then vpublish a else a in
  a' = a1 \/ (ab_data (av_pending a1) = [] /\ a' = vrotate count a1).

Inductive vstep (max count : Z) : call -> avol -> avol -> Prop :=
| vstep_append r t f a a' : vroom max count r a a' ->
    vstep max count (call_append r t f) a (vaccept (view_data r) t a')
| vstep_append_checked r t e f a a' : vroom max count r a a' ->
    vstep max count (call_append_checked r t e f) a (vaccept (view_data r) t a')
| vstep_publish a : vstep max count call_publish a (vpublish a)
| vstep_checkpoint a : vstep max count call_checkpoint a (vpublish a)
| vstep_close a : vstep max count call_close a (vpublish a)
| vstep_rotate o a : vstep max count (call_rotate o) a (vrotate count (vpublish a))
| vstep_set_next o a : vstep max count (call_set_next o) a a.

Definition abstract_part (x : part) : apart :=
  mkApart (part_slot x) (part_generation x) (zip_with mkAblock (pt_raws x) (pt_times x)).

Section Volume.
Context {T : Type} `{!Storage T, !StorageModel T}.
Variable now : nat -> Z.
Implicit Types s : Impl T.

(** The pending block and the summary the writer keeps of it. *)
Definition pends s (b : ablock) : Prop :=
  builder s = ab_data b /\ (builder s = [] -> ab_times b = []) /\
  (builder s <> [] -> covers (builder_min_time s) (builder_max_time s) (ab_times b) /\
     builder_records s = len (ab_times b)).

Definition vrefines s (a : avol) : Prop :=
  exists R x, ring s R x /\ av_old a = map abstract_part R /\ av_cur a = abstract_part x /\
    pends s (av_pending a).

Lemma pends_same s s' b : pends s b -> builder s' = builder s ->
  builder_min_time s' = builder_min_time s -> builder_max_time s' = builder_max_time s ->
  builder_records s' = builder_records s -> pends s' b.
Proof. unfold pends. intros H -> -> -> ->. done. Qed.
Lemma pends_nil s : builder s = [] -> pends s (mkAblock [] []).
Proof. intros H. unfold pends. by rewrite H. Qed.
Lemma pends_nil_inv s b : builder s = [] -> pends s b -> b = mkAblock [] [].
Proof. intros H (H1&H2&_). destruct b as [d ts]. simpl in *. rewrite H2, <- H1, H by done. done. Qed.

Lemma part_lengths s R x y : ring s R x -> y ∈ R ++ [x] -> length (pt_raws y) = length (pt_times y).
Proof.
  intros Hr Hy. pose proof (rg_stored _ _ _ Hr) as Hs. pose proof (rg_times _ _ _ Hr) as Ht.
  rewrite Forall_forall in Hs, Ht. pose proof (Forall2_length _ _ _ (sr_raws _ _ _ _ _ _ (Hs y Hy))).
  pose proof (Forall2_length _ _ _ (Ht y Hy)). congruence.
Qed.

Lemma next_slot_eq v backend slot : geometry_ok v backend -> 0 <= slot < vh_partition_count v ->
  u32 (slot + 1) mod vh_partition_count v = next_slot (vh_partition_count v) slot /\
  next_slot (vh_partition_count v) slot <> slot.
Proof.
  intros Hg Hs. pose proof (g_count _ _ Hg). pose proof (vh_wf_partition_count _ (g_wf _ _ Hg)).
  unfold next_slot. rewrite u32_small by zlia. destruct (Z.eqb_spec (slot + 1) (vh_partition_count v)) as [E|E].
  - rewrite E, Z_mod_same_full. lia.
  - rewrite Z.mod_small by lia. lia.
Qed.

Lemma abstract_filter slot R :
  map abstract_part (List.filter (elsewhere slot) R) =
  List.filter (fun q => negb (ap_slot q =? slot)) (map abstract_part R).
Proof.
  induction R as [|y R IH]; [done|]. cbn. unfold elsewhere at 1. destruct (negb _); cbn; by rewrite IH.
Qed.

Lemma vrefines_published s s' a : published s s' -> vrefines s a -> vrefines s' (vpublish a).
Proof.
  intros (Hw'&Hfr&[[Hb ->]|(Hne&p&sel&ver&pl&span&Ha&Hem)]) (R&x&Hr&Eo&Ec&Ep); unfold vpublish;
    pose proof Ep as (Ed&_&Ets).
  - rewrite <- Ed, Hb. by exists R, x.
  - rewrite (rg_active _ _ _ Hr) in Ha. injection Ha as <-. destruct (Ets Hne) as [Hcv Hrec].
    destruct (ring_emit _ _ _ _ _ _ _ _ _ Hr Hw' Hne Hcv Hrec Hem Hfr) as (x'&Hr'&Es&Eg&Era&Eti).
    rewrite <- Ed. destruct (builder s) as [|b0 bs] eqn:Eb; [done|]. rewrite <- Eb in *.
    exists R, x'. split; [done|]. split; [done|].
    split; [|apply pends_nil, (ef_builder _ _ Hfr)].
    rewrite Ec. unfold abstract_part. cbn [ap_slot ap_generation ap_blocks av_cur].
    rewrite Es, Eg, Era, Eti. f_equal. rewrite zip_with_app.
    + cbn. do 2 f_equal. rewrite Ed. by destruct (av_pending a).
    + eapply part_lengths; [exact Hr|]. apply elem_of_app. right. by left.
Qed.

Lemma vrefines_turned o s s' a : turned o s s' -> winv s' -> options_ok (open_options s) o ->
  builder s = [] -> builder s' = [] -> vrefines s a ->
  vrefines s' (vrotate (vh_partition_count (volume s)) a).
Proof.
  intros Ht Hw' Ho Hb Hb' (R&x&Hr&Eo&Ec&Ep).
  destruct (ring_turn _ _ _ _ _ Hr Ht Hw' Ho) as (x1&Es&Eg&Era&Eti&Hr').
  destruct (ring_facts _ _ _ Hr) as (Hg&_&_&_&_). destruct (ring_part _ _ _ Hr) as [Hx _].
  destruct (next_slot_eq _ _ _ Hg (sr_slot _ _ _ _ _ _ Hx)) as [En Hne].
  change (ph_slot (ps_header (pt_state x))) with (part_slot x) in En, Hne.
  cbv zeta in Hr'. rewrite En in Hr'.
  eexists _, _. split; [exact Hr'|]. unfold vrotate. cbn [av_old av_cur av_pending].
  rewrite Eo, Ec, (pends_nil_inv _ _ Hb Ep). cbn [abstract_part ap_slot ap_generation].
  split_and!; [|done|by apply pends_nil]. rewrite List.filter_app, map_app, abstract_filter. f_equal.
  cbn [List.filter]. unfold elsewhere. rewrite (proj2 (Z.eqb_neq _ _)).
  - cbn [negb map]. f_equal. unfold abstract_part. congruence.
  - rewrite Es. intros E. by apply Hne.
Qed.

Lemma vrefines_same s s' a : vrefines s a -> winv s' -> volume s' = volume s ->
  open_options s' = open_options s -> partitions s' = partitions s ->
  corrupt_slots s' = corrupt_slots s -> active s' = active s ->
  contents (storage s') = contents (storage s) -> pends s' (av_pending a) -> vrefines s' a.
Proof.
  intros (R&x&Hr&Eo&Ec&Ep) Hw Ev Eo' Epa Eco Ea Ect Eb. exists R, x.
  split; [by eapply ring_same|]. by split_and!.
Qed.

Lemma vrefines_prepared record s s' a : prepared record s s' -> vrefines s a ->
  exists a', vroom (vh_max_block_payload (volume s)) (vh_partition_count (volume s)) record a a' /\
    vrefines s' a'.
Proof.
  intros (s1&H1&Hw1&H2) Hr. pose proof Hr as (R&x&_&_&_&Ed&_). unfold vroom. rewrite <- Ed.
  set (a1 := if _ <? _ then vpublish a else a).
  assert (Hr1 : vrefines s1 a1 /\ volume s1 = volume s).
  { unfold a1. destruct (_ <? _); [|by subst]. split; [by apply (vrefines_published s)|apply H1]. }
  destruct Hr1 as [Hr1 Hv1]. destruct H2 as [->|(Hb&_&Hw'&Hfr&_&Ht&_)].
  - exists a1. split; [by left|done].
  - exists (vrotate (vh_partition_count (volume s)) a1). split; [right; split; [|done]|].
    + destruct Hr1 as (?&?&_&_&_&Hp). by rewrite (pends_nil_inv _ _ Hb Hp).
    + rewrite <- Hv1. apply (vrefines_turned (next_options s1) s1); try done;
        [apply (w_next _ (w_base _ Hw1))|by rewrite (fe_builder _ _ Hfr)].
Qed.

(** Accepting a record extends the pending block. *)
Lemma covers_snoc lo hi ts t : covers lo hi ts -> covers (Z.min lo t) (Z.max hi t) (ts ++ [t]).
Proof.
  intros (Hf&Hl&Hh). split_and!.
  - apply Forall_app. split; [|constructor; [lia|done]]. eapply Forall_impl; [exact Hf|]. simpl. lia.
  - apply elem_of_app. destruct (Z.min_spec lo t) as [[_ ->]|[_ ->]]; [by left|right; by left].
  - apply elem_of_app. destruct (Z.max_spec hi t) as [[_ ->]|[_ ->]]; [right; by left|by left].
Qed.

Lemma pends_accept record t f s s' b : winv s -> winv s' -> pends s b ->
  core_eq (accept_record record t f s) s' ->
  pends s' (mkAblock (ab_data b ++ record) (ab_times b ++ [t])).
Proof.
  intros Hw Hw' (Ed&E0&E1) Hc. destruct (w_active _ Hw) as (p&_&_&_&Hbo).
  destruct (w_active _ Hw') as (p'&_&_&_&Hbo'). pose proof (g_wf _ _ (w_geo _ (w_base _ Hw))) as Hwf.
  pose proof (vh_wf_max_block_payload _ Hwf). destruct Hbo as (_&Hmax&Hn&Hz), Hbo' as (_&_&Hn'&Hz').
  pose proof (c_builder _ _ Hc) as Hb. pose proof (c_records _ _ Hc) as Hr.
  pose proof (c_min _ _ Hc) as Hmi. pose proof (c_max _ _ Hc) as Hma.
  assert (Hrec : builder_records s' = u32 (builder_records s + 1))
    by (rewrite Hr; unfold accept_record; by destruct (len (builder s) =? 0)).
  assert (Hbu : builder s' = builder s ++ record)
    by (rewrite Hb; unfold accept_record; by destruct (len (builder s) =? 0)).
  unfold accept_record in Hmi, Hma. pose proof (len_nonneg (builder s)).
  destruct (builder s) as [|b0 bs] eqn:Eb.
  - rewrite (Hz eq_refl), u32_small in Hrec by zlia. simpl in Hmi, Hma.
    unfold pends. cbn [ab_data ab_times]. rewrite E0, <- Ed, Hrec, Hmi, Hma, Hbu by done.
    split_and!; [done|intros E; rewrite Hbu in Hz'; specialize (Hz' E); lia|]. intros _.
    split; [|done]. split_and!; [repeat constructor; lia|by left|by left].
  - destruct (E1 ltac:(done)) as [Hcv Hcnt]. rewrite <- Eb in *.
    destruct (Hn ltac:(by rewrite Eb)) as (_&?&_).
    assert (Hne : builder s' <> []) by (rewrite Hbu, Eb; done).
    destruct (Hn' Hne) as (_&Hr1&_).
    assert (Hx : builder_records s' = builder_records s + 1).
    { rewrite Hrec in Hr1 |- *. destruct (decide (builder_records s + 1 = 2 ^ 32)) as [E|E].
      - rewrite E in Hr1. change (u32 (2 ^ 32)) with 0 in Hr1. lia.
      - apply u32_small. zlia. }
    assert (Hlz : (len (builder s) =? 0) = false) by (apply Z.eqb_neq; lia). rewrite Hlz in Hmi, Hma.
    simpl in Hmi, Hma. unfold pends. cbn [ab_data ab_times].
    rewrite Hbu, Hmi, Hma, Hx, Hcnt, len_app, len_cons, len_nil, Ed.
    split_and!; [done|intros E; by rewrite Hbu, Ed in Hne|]. intros _. split; [by apply covers_snoc|lia].
Qed.

Lemma vrefines_appended record t s s' a : appended record t s s' -> vrefines s a ->
  exists a', vroom (vh_max_block_payload (volume s)) (vh_partition_count (volume s)) record a a' /\
    vrefines s' (vaccept (view_data record) t a').
Proof.
  intros ((s2&f&Hp&Hac)&Hw'&_) Hr. destruct (vrefines_prepared _ _ _ _ Hp Hr) as (a'&Hro&Hr2).
  exists a'. split; [done|]. destruct Hac as [Hc Hst _ _ _]. destruct Hr2 as (R&x&Hrg&Eo&Ec&Ep).
  assert (Hf : let s3 := accept_record (view_data record) t f s2 in active s3 = active s2 /\
    volume s3 = volume s2 /\ open_options s3 = open_options s2 /\ partitions s3 = partitions s2 /\
    corrupt_slots s3 = corrupt_slots s2)
    by (unfold accept_record; by destruct (len (builder s2) =? 0)).
  destruct Hf as (Fa&Fv&Fo&Fp&Fc). exists R, x. split_and!; try done.
  - apply (ring_same s2); try done; core_rw Hc; try done.
    + by rewrite (c_partitions _ _ Hc).
    + by rewrite (c_corrupt _ _ Hc).
    + by rewrite (core_active _ _ Hc).
    + by rewrite Hst.
  - eapply pends_accept; [apply Hrg|done|done|exact Hc].
Qed.

Lemma vrefines_settled s s' a : settled s s' -> vrefines s a -> vrefines s' (vpublish a).
Proof.
  intros [Hw' _ Hb _ _ _ _ _ _ (s1&Hp&[])] Hr. pose proof (vrefines_published _ _ _ Hp Hr) as Hr1.
  apply (vrefines_same s1); try done. destruct Hp as (_&Hfr&_), Hr1 as (?&?&_&_&_&Hpe).
  rewrite (pends_nil_inv _ _ (ef_builder _ _ Hfr) Hpe). by apply pends_nil.
Qed.

(** Every call that succeeds is a step of the abstract volume. *)
Lemma run_call_vrefines c s a : vrefines s a -> call_ok c -> writable s = true -> closed s = false ->
  wp (run_call now c) (fun _ s' => exists a',
      vstep (vh_max_block_payload (volume s)) (vh_partition_count (volume s)) c a a' /\
      vrefines s' a')
    (fun _ s' => winv s') s.
Proof.
  intros Hr Hc Hwr Hcl. assert (Hw : winv s) by (destruct Hr as (?&?&[]&_); done).
  assert (Happ : forall r t f e, record_ok r t -> wp (append_impl now r t f e) (fun _ s' => exists a',
      vroom (vh_max_block_payload (volume s)) (vh_partition_count (volume s)) r a a' /\
      vrefines s' (vaccept (view_data r) t a')) (fun _ s' => winv s') s).
  { intros. eapply wp_conseq; [by apply append_impl_spec|..]; [|by intros ? ? (?&_)].
    intros ? s' Hap. by apply (vrefines_appended _ _ s). }
  destruct c; simpl in *.
  - eapply wp_conseq; [by apply Happ| |done]. intros ? s' (a'&?&?).
    eexists. split; [by constructor|done].
  - unfold append_checked. apply wp_if; intros _; [done|].
    eapply wp_conseq; [by apply Happ| |done]. intros ? s' (a'&?&?).
    eexists. split; [by constructor|done].
  - unfold publish. apply wp_bind, wp_check_writer; [|done]. intros _ _ Hf.
    eapply wp_conseq; [by apply emit_spec|..]; [|by intros ? ? ((?&_)&_)].
    intros ? s' Hp. exists (vpublish a). split; [constructor|]. by apply (vrefines_published s).
  - eapply wp_conseq; [by apply checkpoint_spec|..]; [|by intros ? ? (?&_)].
    intros ? s' Hs. exists (vpublish a). split; [constructor|]. by apply (vrefines_settled s).
  - eapply wp_conseq; [by apply close_spec|..]; [|by intros ? ? (?&_)].
    intros ? s' [Hs _]. exists (vpublish a). split; [constructor|]. by apply (vrefines_settled s).
  - eapply wp_conseq; [by apply rotate_spec|..]; [|by intros ? ? (?&_)].
    intros ? s' (Hw'&_&Hb&_&_&s1&Hw1&Ho1&Ht&s0&Hp&->). eexists. split; [constructor|].
    pose proof (vrefines_published _ _ _ Hp Hr) as Hr0. destruct Hp as (Hw0&Hfr&_).
    rewrite <- (ef_volume _ _ Hfr).
    change (volume s0) with (volume (s0 <| next_options := next |>)).
    apply (vrefines_turned next); try done; [apply (ef_builder _ _ Hfr)|].
    apply (vrefines_same s0); try done. destruct Hr0 as (?&?&_&_&_&Hpe).
    by apply (pends_same s0).
  - eapply wp_conseq; [by apply set_next_spec|..]; [|by intros ? ? ->].
    intros ? s' [Hw' ->]. exists a. split; [constructor|].
    apply (vrefines_same s); try done. destruct Hr as (?&?&_&_&_&Hpe). by apply (pends_same s).
Qed.
End Volume.
