(* ===== verification/RingOpenFacts.v ===== *)
(** * Opening a volume

    What [open] (src/ring_store.cpp 1070-1324) accepts and what it leaves: a
    writer opened on any media satisfies the writer invariant, and the newest
    partition's recovered index is the longest valid chain of frames. *)

From Stdlib Require Import Sorted.
From S2P Require Import Prelude Status Hoare Crc32c Layout Format FormatFacts Codec PackBitsFacts.
From S2P Require Import Lz4 Lz4Facts Storage RingTypes RingWriter RingReader RingOpen RingRules.
From S2P Require Import RingGeometry RingInv RingHealth RingWriterFacts RingCalls RingDisk.
From S2P Require Import RingScan RingLog RingRefine RingRead RingStored.

(** ** Accepted partition headers *)

(** What the decoder accepts is in range and names a real codec version. *)
Definition scan_options_ok (st : FeatureScan) : Prop :=
  PartitionOptions_wf (fs_options st) /\ po_compression_version (fs_options st) <> 0.

Section DecodePartition.
Context (data : bytes) (Hok : bytes_ok data) (Hl : len data = 1024).

Lemma check_kind_options f st st' : is_u16 (fd_version f) ->
  check_kind data f st = Ok st' -> scan_options_ok st -> scan_options_ok st'.
Proof.
  intros Hv H [[] ?]. unfold check_kind in H.
  repeat (case_match; try discriminate H); injection H as <-; bool_facts;
    try (split; [by split|done]).
  - split; [split; cbn; try done; apply u16_range|]. cbn. tauto.
  - split; [split; cbn; try done|done].
    match goal with H : fd_config_offset f = 512 |- _ => rewrite H end. ranges.
Qed.

Lemma decode_feature_options ao al d st st' : 0 <= d -> d + 40 <= 1024 ->
  decode_feature data ao al d st = Ok st' -> scan_options_ok st -> scan_options_ok st'.
Proof.
  intros Hd Hd' H Hst. unfold decode_feature in H. case_match; [done|].
  apply result_bind_Ok in H as (ranges&_&H). apply result_bind_Ok in H as (st1&H1&H).
  injection H as <-. eapply check_kind_options in H1; [exact H1| |exact Hst].
  cbn. apply get16_range; lia || done.
Qed.

Lemma decode_features_options ao al count : forall i st st',
  0 <= i -> i + Z.of_nat count <= 8 ->
  decode_features data 128 40 ao al i count st = Ok st' -> scan_options_ok st -> scan_options_ok st'.
Proof.
  induction count as [|count IH]; intros i st st' Hi Hn H Hst; cbn [decode_features] in H.
  - injection H as <-. done.
  - apply result_bind_Ok in H as (st1&H1&H). eapply IH in H; [done|lia|lia|].
    eapply decode_feature_options in H1; [done|lia|lia|done].
Qed.

Lemma decode_partition_wf h : decode_partition_header data = Ok h ->
  PartitionHeader_wf h /\ po_compression_version (ph_options h) <> 0.
Proof.
  intros H. unfold decode_partition_header in H. apply result_bind_Ok in H as (_&_&H).
  destruct (_ || _) in H; [done|]. cbv zeta in H. destruct (_ || _) eqn:E in H; [done|].
  apply result_bind_Ok in H as (st&Hst&H). do 2 (case_match; [done|]). injection H as <-.
  bool_facts. assert (Hc := get16_range data 88 ltac:(lia) ltac:(lia) Hok).
  match goal with H : get16 data 90 = _ |- _ => rewrite H in Hst end.
  match goal with H : get32 data 92 = _ |- _ => rewrite H in Hst end.
  assert (scan_options_ok st) as [? ?].
  { eapply (decode_features_options _ _ _ 0); [lia| |exact Hst|]; [zlia|].
    split; [|cbn; lia]. split; cbn; try ranges; unfold CompressionId_none; zlia. }
  split; [|done]. split; cbn; try done; ranges.
Qed.
End DecodePartition.

Lemma accept_header_ok v backend o slot data h :
  geometry_ok v backend -> bytes_ok data -> len data = kPartitionHeaderEncodedSize ->
  0 <= slot < vh_partition_count v -> accept_partition_header v o slot data = Ok h ->
  ph_generation h <> 0 -> header_ok v o h /\ ph_slot h = slot.
Proof.
  intros Hg Hok Hl Hs H Hgen. unfold accept_partition_header in H.
  apply result_bind_Ok in H as (h'&Hd&H). apply result_bind_Ok in H as ([]&Hid&H).
  apply result_bind_Ok in H as ([]&Hval&H). apply result_bind_Ok in H as ([]&_&H). injection H as <-.
  destruct (decode_partition_wf data Hok Hl _ Hd) as [Hwf Hv].
  unfold check_header_identity in Hid. case_match; [done|]. bool_facts.
  split; [|lia]. destruct Hwf. split; try lia; done.
Qed.

(** ** Lists of partitions *)

Abbreviation gen p := (ph_generation (ps_header p)).

Lemma newest_ge l p : In p l -> gen p <= newest_generation l.
Proof.
  unfold newest_generation.
  assert (H : forall acc, acc <= foldl (fun x p => Z.max x (gen p)) acc l /\
    (In p l -> gen p <= foldl (fun x p => Z.max x (gen p)) acc l)).
  { induction l as [|q l IH]; intros acc; simpl; [split; [lia|done]|].
    destruct (IH (Z.max acc (gen q))) as [H1 H2]. split; [lia|]. intros [->|Hin]; [lia|auto]. }
  apply H.
Qed.

Lemma newest_app l p : newest_generation (l ++ [p]) = Z.max (newest_generation l) (gen p).
Proof. unfold newest_generation. by rewrite foldl_app. Qed.

Lemma newest_map_header f l : (forall p, ps_header (f p) = ps_header p) ->
  newest_generation (map f l) = newest_generation l.
Proof.
  intros Hf. unfold newest_generation. generalize 0. induction l as [|p l IH]; intros x; simpl; [done|].
  by rewrite Hf, IH.
Qed.

Lemma trim_header n p : ps_header (trim_index n p) = ps_header p.
Proof. unfold trim_index. by destruct (_ && _). Qed.

Lemma map_gen_trim n l : map (fun p => gen p) (map (trim_index n) l) = map (fun p => gen p) l.
Proof. rewrite map_map. apply map_ext. intros p. by rewrite trim_header. Qed.

(** *** Sorting *)

Lemma insert_sorted p l : Sorted (fun a b => gen a <= gen b) l ->
  Sorted (fun a b => gen a <= gen b) (insert_by_generation p l).
Proof.
  induction l as [|x l IH]; simpl; intros H; [by repeat constructor|].
  apply Sorted_inv in H as [Hs Hx]. destruct (Z.ltb_spec (gen p) (gen x)).
  - constructor; [by constructor|constructor; lia].
  - constructor; [by apply IH|]. destruct l as [|y l]; simpl; [constructor; lia|].
    apply HdRel_inv in Hx. case_match; constructor; lia.
Qed.

Lemma sort_sorted l : Sorted (fun a b => gen a <= gen b) (sort_by_generation l).
Proof.
  unfold sort_by_generation. assert (H : Sorted (fun a b => gen a <= gen b) (@nil PartitionState))
    by constructor. revert H. generalize (@nil PartitionState).
  induction l as [|p l IH]; intros acc Hacc; simpl; [done|]. by apply IH, insert_sorted.
Qed.

Lemma insert_perm p l : insert_by_generation p l ≡ₚ p :: l.
Proof.
  induction l as [|x l IH]; simpl; [done|]. case_match; [done|]. rewrite IH. apply Permutation_swap.
Qed.
Lemma sort_perm l : sort_by_generation l ≡ₚ l.
Proof.
  unfold sort_by_generation. rewrite <- (app_nil_l l) at 2. generalize (@nil PartitionState).
  induction l as [|p l IH]; intros acc; simpl; [by rewrite app_nil_r|].
  rewrite IH, insert_perm. apply Permutation_middle.
Qed.

(** The last of a sorted list is the newest. *)
Lemma sorted_last l p : Sorted (fun a b => gen a <= gen b) l -> last l = Some p ->
  forall q, In q l -> gen q <= gen p.
Proof.
  intros Hs Hl q Hq. apply Sorted_StronglySorted in Hs; [|intros ? ? ?; lia].
  induction Hs as [|x l Hs IH Hx]; [done|]. destruct l as [|y l].
  - injection Hl as <-. destruct Hq as [<-|[]]. lia.
  - rewrite last_cons_cons in Hl. destruct Hq as [<-|Hq]; [|by apply IH].
    rewrite Forall_forall in Hx. apply Hx. by apply last_Some_elem_of.
Qed.

Lemma trim_historical_gens l : map (fun p => gen p) (trim_historical l) = map (fun p => gen p) l.
Proof.
  induction l as [|p [|q l] IH]; [done..|]. cbn [trim_historical map] in *. f_equal; [|apply IH].
  by destruct (ps_sealed p).
Qed.
Lemma trim_historical_last l : last (trim_historical l) = last l.
Proof.
  induction l as [|p [|q l] IH]; [done..|].
  change (trim_historical (p :: q :: l)) with
    ((if negb (ps_sealed p) then p <| ps_active_index := [] |> else p) :: trim_historical (q :: l)).
  rewrite last_cons_cons, <- IH. by destruct (trim_historical (q :: l)) eqn:E; destruct l.
Qed.

(** ** Operations that only read *)

Create HintDb reads.

Section Reads.
Context {T : Type} `{!Storage T, !StorageModel T, !ReliableReads T}.
Implicit Types s : Impl T.

Definition reads {A} (m : prog (Impl T) A) : Prop :=
  forall s, st_wf (storage s) -> wp m (fun _ s' => moved s s') (fun _ s' => moved s s') s.

Lemma moved_wf s s' : moved s s' -> st_wf (storage s').
Proof. intros Hm. by destruct (moved_facts _ _ Hm) as (_&_&?&_). Qed.

Lemma reads_bind {A B} (m : prog (Impl T) A) (k : A -> prog (Impl T) B) :
  reads m -> (forall a, reads (k a)) -> reads (m ≫= k).
Proof.
  intros Hm Hk s Hs. apply wp_bind. eapply wp_conseq; [by apply Hm|simpl|done].
  intros a s1 Hm1. eapply wp_conseq; [apply Hk, (moved_wf s), Hm1|..]; simpl;
    intros ? s2 Hm2; by eapply moved_trans.
Qed.
Lemma reads_ret {A} (a : A) : reads (mret a).
Proof. intros s Hs. by apply moved_refl. Qed.
Lemma reads_throw {A} st : reads (throw st : prog (Impl T) A).
Proof. intros s Hs. by apply moved_refl. Qed.
Lemma reads_throw_error {A} c m : reads (throw_error c m : prog (Impl T) A).
Proof. intros s Hs. by apply moved_refl. Qed.
Lemma reads_get : reads get.
Proof. intros s Hs. by apply moved_refl. Qed.
Lemma reads_lift {A} (r : result A) : reads (lift_result r).
Proof. intros s Hs. destruct r; by apply moved_refl. Qed.
Lemma reads_if {A} (b : bool) (m n : prog (Impl T) A) : reads m -> reads n -> reads (if b then m else n).
Proof. by destruct b. Qed.
Lemma reads_when b m : reads m -> reads (when b m).
Proof. destruct b; [done|intros _; apply reads_ret]. Qed.
Lemma reads_attempt {A} (m : prog (Impl T) A) : reads m -> reads (attempt m).
Proof. intros Hm s Hs. by apply wp_attempt, Hm. Qed.
Lemma reads_storage_read off n : reads (storage_read off n).
Proof.
  intros s Hs. apply wp_storage_read. intros status buf st Hr.
  apply read_exact_same in Hr as [Hm Hrr]; [|done].
  assert (moved s (s <| storage := st |>)) by (by exists st). by destruct (status_ok status).
Qed.
End Reads.

#[export] Hint Resolve reads_ret reads_throw reads_throw_error reads_get reads_lift
  reads_storage_read : reads.

Ltac reads_step :=
  lazymatch goal with
  | |- reads (mbind _ _) => apply reads_bind; [|intros ?]
  | |- reads (if _ then _ else _) => apply reads_if
  | |- reads (when _ _) => apply reads_when
  | |- reads (attempt _) => apply reads_attempt
  | |- reads (match ?x with _ => _ end) => destruct x
  | |- _ => solve [auto with reads]
  end; cbv beta zeta.
Ltac reads_auto := repeat reads_step.

Section ReadsOps.
Context {T : Type} `{!Storage T, !StorageModel T, !ReliableReads T}.

Lemma reads_header slot : reads (T:=T) (read_partition_header slot).
Proof. unfold read_partition_header. reads_auto. Qed.
Lemma reads_footer h : reads (T:=T) (read_footer h).
Proof. unfold read_footer. reads_auto. Qed.
#[local] Hint Resolve reads_header reads_footer : reads.
Lemma reads_scan_loop fuel h limit : forall cursor i wh wl es,
  reads (T:=T) (scan_loop fuel h limit cursor i wh wl es).
Proof. induction fuel as [|fuel IH]; intros; cbn [scan_loop]; reads_auto; auto. Qed.
#[local] Hint Resolve reads_scan_loop : reads.
Lemma reads_scan h limit : reads (T:=T) (scan_partition h limit).
Proof. unfold scan_partition. reads_auto. Qed.
Lemma reads_load_index p : reads (T:=T) (load_index p).
Proof. unfold load_index. reads_auto. Qed.
Lemma reads_classify {A} p st : reads (T:=T) (A:=A) (classify_snapshot_failure p st).
Proof. unfold classify_snapshot_failure. reads_auto. Qed.
#[local] Hint Resolve reads_scan reads_load_index reads_classify : reads.
Lemma reads_recheck p m : reads (T:=T) (recheck_generation p m).
Proof. unfold recheck_generation. reads_auto. Qed.
#[local] Hint Resolve reads_recheck : reads.
Lemma reads_read_block p e : reads (T:=T) (read_block p e).
Proof. unfold read_block. reads_auto. Qed.
#[local] Hint Resolve reads_read_block : reads.
Lemma reads_verify_blocks p es : reads (T:=T) (verify_blocks p es).
Proof. induction es as [|e es IH]; cbn [verify_blocks]; reads_auto; auto. Qed.
#[local] Hint Resolve reads_verify_blocks : reads.
Lemma reads_verify_sealed p f : reads (T:=T) (verify_sealed p f).
Proof. unfold verify_sealed. reads_auto. Qed.
Lemma reads_damaged_evidence v slot raw : reads (T:=T) (damaged_evidence v slot raw).
Proof. unfold damaged_evidence. reads_auto. Qed.
End ReadsOps.
#[export] Hint Resolve reads_header reads_footer reads_scan reads_load_index reads_read_block
  reads_verify_blocks reads_verify_sealed reads_damaged_evidence : reads.

(** ** Recovering one partition *)

(** The newest partition without a footer, as the scan left it. *)
Record recovered (v : VolumeHeader) (c : bytes) (p : PartitionState) (log : list frame) : Prop := {
  rc_index : ps_active_index p = log_entries kPartitionHeaderRegionSize log;
  rc_end : ps_data_end p = log_end kPartitionHeaderRegionSize log;
  rc_frames : len log <= 2 ^ 32 ->
    frames_at v (ps_header p) c 0 kPartitionHeaderRegionSize 0 0 log;
  rc_longest : forall log', len log' <= 2 ^ 32 ->
    frames_at v (ps_header p) c 0 kPartitionHeaderRegionSize 0 0 log' -> log' `prefix_of` log;
  rc_count : ps_block_count p = u32 (len log);
  rc_summary : summary_ok p }.

Lemma summarize_entry_fields p e :
  ps_header (summarize_entry p e) = ps_header p /\ ps_sealed (summarize_entry p e) = ps_sealed p /\
  ps_active_index (summarize_entry p e) = ps_active_index p /\
  ps_data_end (summarize_entry p e) = ps_data_end p /\
  ps_block_count (summarize_entry p e) = ps_block_count p /\
  ps_aggregate_flags (summarize_entry p e) = Z.lor (ps_aggregate_flags p) (ie_flags e) /\
  ps_has_time (summarize_entry p e) = true /\
  ps_min_time_ns (summarize_entry p e) =
    (if ps_has_time p then Z.min (ps_min_time_ns p) (ie_min_time_ns e) else ie_min_time_ns e) /\
  ps_max_time_ns (summarize_entry p e) =
    (if ps_has_time p then Z.max (ps_max_time_ns p) (ie_max_time_ns e) else ie_max_time_ns e).
Proof. unfold summarize_entry. simpl. destruct (ps_has_time p); by split_and!. Qed.

(** Folding over [es] summarises them after the entries already folded. *)
Lemma summarize_fold es : forall p seen,
  ps_aggregate_flags p = scanned_flags seen -> ps_has_time p = negb (len seen =? 0) ->
  (seen <> [] -> ps_min_time_ns p = scanned_min seen /\ ps_max_time_ns p = scanned_max seen) ->
  let q := foldl summarize_entry p es in
  ps_header q = ps_header p /\ ps_sealed q = ps_sealed p /\ ps_active_index q = ps_active_index p /\
  ps_data_end q = ps_data_end p /\ ps_block_count q = ps_block_count p /\
  ps_aggregate_flags q = scanned_flags (seen ++ es) /\
  ps_has_time q = negb (len (seen ++ es) =? 0) /\
  (seen ++ es <> [] -> ps_min_time_ns q = scanned_min (seen ++ es) /\
                       ps_max_time_ns q = scanned_max (seen ++ es)).
Proof.
  induction es as [|e es IH]; intros p seen Hf Hh Ht; cbn [foldl]; [by rewrite app_nil_r|].
  destruct (summarize_entry_fields p e) as (E1&E2&E3&E4&E5&E6&E7&E8&E9).
  rewrite (cons_middle e seen es), app_assoc.
  rewrite <- E1, <- E2, <- E3, <- E4, <- E5. apply IH.
  - by rewrite E6, Hf, scanned_flags_snoc.
  - rewrite E7. symmetry. apply negb_true_iff, Z.eqb_neq. len_lia.
  - intros _. rewrite E8, E9, Hh, scanned_min_snoc, scanned_max_snoc.
    destruct (Z.eqb_spec (len seen) 0); simpl; [done|].
    destruct Ht as [-> ->]; [intros E; by rewrite E in *|done].
Qed.

Lemma summarize_spec p :
  let q := summarize p in
  ps_header q = ps_header p /\ ps_sealed q = ps_sealed p /\ ps_active_index q = ps_active_index p /\
  ps_data_end q = ps_data_end p /\ ps_block_count q = u32 (len (ps_active_index p)) /\ summary_ok q.
Proof.
  unfold summarize.
  destruct (summarize_fold (ps_active_index p)
    (p <| ps_aggregate_flags := 0 |> <| ps_has_time := false |>
       <| ps_block_count := u32 (len (ps_active_index p)) |>) []) as (E1&E2&E3&E4&E5&E6&E7&E8);
    try done. cbv zeta.
  set (q := foldl _ _ _) in *. split_and!; try done.
  split; rewrite ?E3; try done; intros Hne; by apply E8.
Qed.

Section Recover.
Context {T : Type} `{!Storage T, !StorageModel T, !ReliableReads T}.
Implicit Types s : Impl T.

Lemma recover_spec h s :
  st_wf (storage s) -> geometry_ok (volume s) (st_size (storage s)) ->
  0 <= ph_slot h < vh_partition_count (volume s) ->
  wp (recover_partition h)
    (fun p s' => moved s s' /\ ps_header p = h /\
       (ps_sealed p = false -> exists log, recovered (volume s) (contents (storage s)) p log))
    (fun _ s' => moved s s') s.
Proof.
  intros Hwf Hg Hs. unfold recover_partition. apply wp_bind, wp_get. cbv zeta.
  apply wp_bind, wp_attempt. eapply wp_conseq; [by apply reads_footer|simpl..].
  - intros footer s1 Hm1. apply wp_bind.
    eapply wp_conseq; [apply (reads_when _ _ (reads_verify_sealed _ _)), (moved_wf _ _ Hm1)|..]; simpl.
    + intros ? s2 Hm2. split; [by eapply moved_trans|done].
    + intros ? s2 Hm2. by eapply moved_trans.
  - intros e s1 Hm1. destruct (moved_facts _ _ Hm1) as (Hv1&_&Hwf1&Hc1).
    apply wp_if; intros _; [done|]. apply wp_bind.
    assert (Hsz : st_size (storage s1) = st_size (storage s)) by (by apply st_size_eq).
    eapply wp_conseq; [apply scan_partition_spec; [done|by rewrite Hv1, Hsz|by rewrite Hv1]|..].
    2:{ intros e' s2 [[Hm2 _]|[Hm2 _]]; by eapply moved_trans. }
    intros r s2 (Hm2&log&Hlim&Hsn). rewrite Hv1, Hc1 in *. apply wp_bind.
    eapply wp_conseq; [apply (reads_when _ _ (reads_verify_blocks _ _)), (moved_wf _ _ Hm2)|..]; simpl.
    2:{ intros ? s3 Hm3. by do 2 (eapply moved_trans; [done|]). }
    intros ? s3 Hm3. split; [by do 2 (eapply moved_trans; [done|])|].
    destruct (summarize_spec ((new_partition_state h) <| ps_active_index := sc_entries r |>
      <| ps_data_end := sc_data_end r |>)) as (E1&_&E3&E4&E5&E6).
    unfold recovered_state. set (q := summarize _) in *. clearbody q.
    change (ps_header q = h) in E1. change (ps_active_index q = sc_entries r) in E3.
    change (ps_data_end q = sc_data_end r) in E4.
    change (ps_block_count q = u32 (len (sc_entries r))) in E5.
    split; [exact E1|]. intros _. exists log. destruct Hsn as [S1 S2 S3 S4 S5]. simpl in S1.
    split; rewrite ?E1, ?E3, ?E4, ?E5, ?S1, ?S2; try done.
    + intros Hn. apply S4; [done|lia].
    + simpl. intros log' Hl Hf. apply S5; [done|done|].
      pose proof (st_size_bound _ Hwf) as Hb.
      pose proof (index_begin_range _ _ Hg Hb) as (?&?&?).
      eapply (frames_end _ _ h Hg Hb Hs (contents (storage s)) log' (st_bytes_ok _ Hwf)); [|
        |exact Hf]; [rewrite (st_size_contents _ Hwf); lia|unfold kPartitionHeaderRegionSize in *; lia].
    + by rewrite len_log_entries.
Qed.
End Recover.

(** ** The slot loop *)

(** The catalog while the slots are visited. *)
Record catalog (v : VolumeHeader) (o : OpenOptions) (c : bytes) (l : list PartitionState) : Prop := {
  ct_headers : Forall (fun p => header_ok v o (ps_header p) /\ header_at v o c (ps_header p)) l;
  ct_distinct : NoDup (map (fun p => gen p) l);
  ct_newest : forall p, In p l -> ps_sealed p = false -> gen p = newest_generation l ->
    exists log, recovered v c p log }.

Lemma catalog_push v o c l p : catalog v o c l ->
  header_ok v o (ps_header p) /\ header_at v o c (ps_header p) ->
  ~ In (gen p) (map (fun p => gen p) l) ->
  (ps_sealed p = false -> exists log, recovered v c p log) -> catalog v o c (push_recovered p l).
Proof.
  intros [Hh Hd Hn] Hp Hg Hr. unfold push_recovered.
  set (n := newest_generation (l ++ [p])). split.
  - apply Forall_forall. intros x Hx. apply list_elem_of_In, in_map_iff in Hx as (q&<-&Hq).
    rewrite trim_header. rewrite Forall_forall in Hh.
    apply in_app_or in Hq as [Hq|[<-|[]]]; [by apply Hh, list_elem_of_In|done].
  - rewrite map_gen_trim, map_app. apply NoDup_app. split_and!; [done| |apply NoDup_singleton].
    intros x Hx Hx'. apply list_elem_of_In in Hx, Hx'. destruct Hx' as [<-|[]]. by apply Hg.
  - intros x Hx Hs Hgen. apply in_map_iff in Hx as (q&<-&Hq).
    rewrite newest_map_header in Hgen by apply trim_header. rewrite trim_header in Hgen.
    unfold trim_index in *. fold n in Hgen. rewrite Hgen, Z.eqb_refl in Hs |- *.
    rewrite andb_false_r in Hs |- *. apply in_app_or in Hq as [Hq|[<-|[]]]; [|by apply Hr].
    apply Hn; [done|done|]. pose proof (newest_ge l q Hq). unfold n in Hgen.
    rewrite newest_app in Hgen. lia.
Qed.

Section Slots.
Context {T : Type} `{!Storage T, !StorageModel T, !ReliableReads T}.
Implicit Types s : Impl T.

(** What the loop leaves alone. *)
Record visiting s s' : Prop := {
  vs_moved : moved s (s' <| partitions := partitions s |> <| corrupt_slots := corrupt_slots s |>);
  vs_storage : st_wf (storage s') }.

Lemma visiting_of_moved s s' : moved s s' -> visiting s s'.
Proof.
  intros Hm. split; [|by apply (moved_wf s)]. destruct Hm as (st&->&Hm). by exists st.
Qed.
Lemma visiting_trans a b c : visiting a b -> visiting b c -> visiting a c.
Proof.
  intros [(st&E&Hm&Hr) Hwf] [(st'&E'&Hm'&Hr') Hwf']. split; [|done].
  exists st'. assert (Hst : storage b = st) by (by apply (f_equal storage) in E).
  assert (Hc : c <| partitions := partitions a |> <| corrupt_slots := corrupt_slots a |> =
    (c <| partitions := partitions b |> <| corrupt_slots := corrupt_slots b |>)
      <| partitions := partitions a |> <| corrupt_slots := corrupt_slots a |>) by done.
  rewrite Hc, E'. split; [|split; [|rewrite Hst in *; auto]].
  - transitivity ((b <| partitions := partitions a |> <| corrupt_slots := corrupt_slots a |>)
      <| storage := st' |>); [done|]. by rewrite E.
  - rewrite Hst in Hm'. by eapply same_media_trans.
Qed.
Lemma visiting_partitions s f : st_wf (storage s) -> visiting s (s <| partitions ::= f |>).
Proof. intros. split; [|done]. exists (storage s). by destruct s. Qed.
Lemma visiting_corrupt s f : st_wf (storage s) -> visiting s (s <| corrupt_slots ::= f |>).
Proof. intros. split; [|done]. exists (storage s). by destruct s. Qed.

Lemma visiting_facts s s' : visiting s s' ->
  volume s' = volume s /\ open_options s' = open_options s /\
  contents (storage s') = contents (storage s).
Proof. intros [Hm _]. by destruct (moved_facts _ _ Hm) as (?&?&_&?). Qed.

Lemma visiting_fields s s' : visiting s s' ->
  s' = s <| storage := storage s' |> <| partitions := partitions s' |>
         <| corrupt_slots := corrupt_slots s' |>.
Proof.
  intros [(st&E&_) _]. assert (Hst : storage s' = st) by (by apply (f_equal storage) in E).
  rewrite Hst. transitivity ((s' <| partitions := partitions s |> <| corrupt_slots := corrupt_slots s |>)
    <| partitions := partitions s' |> <| corrupt_slots := corrupt_slots s' |>); [by destruct s'|].
  by rewrite E.
Qed.

(** The loop invariant, relative to the state [s0] before it. *)
Record slots_inv s0 (gens : list Z) s : Prop := {
  si_visiting : visiting s0 s;
  si_catalog : catalog (volume s0) (open_options s0) (contents (storage s0)) (partitions s);
  si_gens : forall p, In p (partitions s) -> gen p ∈ gens }.

Lemma damaged_slot_spec slot st s : st_wf (storage s) ->
  wp (damaged_slot slot st) (fun _ s' => visiting s s' /\ partitions s' = partitions s)
    (fun _ s' => visiting s s') s.
Proof.
  intros Hwf. unfold damaged_slot. apply wp_if; intros _.
  { apply wp_throw. by apply visiting_of_moved, moved_refl. }
  apply wp_bind, wp_get. cbv zeta. apply wp_bind.
  eapply wp_conseq; [by apply reads_storage_read|cbv beta..].
  2:{ intros. by apply visiting_of_moved. }
  intros raw s1 Hm1. apply wp_bind.
  eapply wp_conseq; [apply reads_damaged_evidence, (moved_wf _ _ Hm1)|cbv beta..].
  2:{ intros ? s2 Hm2. by eapply visiting_of_moved, moved_trans. }
  intros ev s2 Hm2. assert (Hm : moved s s2) by (by eapply moved_trans).
  pose proof (visiting_of_moved _ _ Hm) as Hv.
  assert (Hp : partitions s2 = partitions s) by (by destruct Hm as (st'&->&_)).
  repeat (apply wp_if; intros _); try (apply wp_throw; done); try (apply wp_ret; done).
  apply wp_modify. split; [|done]. eapply visiting_trans; [exact Hv|].
  apply visiting_corrupt, (moved_wf _ _ Hm).
Qed.

Lemma open_slot_spec slot gens s0 s :
  st_wf (storage s0) -> geometry_ok (volume s0) (st_size (storage s0)) ->
  0 <= slot < vh_partition_count (volume s0) -> slots_inv s0 gens s ->
  wp (open_slot slot gens) (fun gens' s' => slots_inv s0 gens' s') (fun _ s' => visiting s0 s') s.
Proof.
  intros Hwf Hg Hslot [Hvi Hct Hgn]. destruct (visiting_facts _ _ Hvi) as (Hv&Ho&Hc).
  pose proof (vs_storage _ _ Hvi) as Hwfs.
  assert (Hsz : st_size (storage s) = st_size (storage s0)) by (by apply st_size_eq).
  pose proof (st_size_bound _ Hwf) as Hb. pose proof (st_size_contents _ Hwf) as Hlen.
  pose proof (partition_range _ _ Hg _ Hslot). pose proof (partition_base_eq _ _ Hg Hb _ Hslot) as Hbase.
  pose proof (index_begin_range _ _ Hg Hb) as (?&?&?).
  unfold open_slot. apply wp_bind, wp_attempt. unfold read_partition_header. apply wp_bind, wp_get.
  rewrite Hv, Ho. apply wp_bind.
  unfold kVolumePrefixSize, kPartitionFooterRegionSize, kPartitionHeaderRegionSize in *.
  apply wp_read; [done|lia|done|rewrite Hc; unfold kPartitionHeaderEncodedSize; lia|..]; cbv beta.
  2:{ intros e s1 _ [Hm1 _]. eapply wp_bind, wp_conseq; [apply damaged_slot_spec, (moved_wf _ _ Hm1)|..];
        cbv beta; [intros ? s2 [Hv2 Hp2]; apply wp_ret|intros ? s2 Hv2].
      - assert (visiting s0 s2) by (eapply visiting_trans; [exact Hvi|];
          eapply visiting_trans; [by apply visiting_of_moved|done]).
        assert (Hp1 : partitions s1 = partitions s) by (by destruct Hm1 as (?&->&_)).
        split; [done|by rewrite Hp2, Hp1|by rewrite Hp2, Hp1].
      - eapply visiting_trans; [exact Hvi|]. eapply visiting_trans; [by apply visiting_of_moved|done]. }
  intros s1 Hm1. destruct (moved_facts _ _ Hm1) as (Hv1&Ho1&Hwf1&Hc1). rewrite Hc.
  assert (Hvi1 : visiting s0 s1) by (eapply visiting_trans; [exact Hvi|by apply visiting_of_moved]).
  assert (Hp1 : partitions s1 = partitions s) by (by destruct Hm1 as (?&->&_)).
  set (data := slice _ _ (contents (storage s0))).
  destruct (accept_partition_header _ _ _ data) as [h|e] eqn:Eh; simpl.
  2:{ eapply wp_bind, wp_conseq; [by apply damaged_slot_spec|..]; cbv beta.
      - intros ? s2 [Hv2 Hp2]. split; [by eapply visiting_trans|by rewrite Hp2, Hp1|by rewrite Hp2, Hp1].
      - intros ? s2 Hv2. by eapply visiting_trans. }
  unfold lift_result. simpl. change (wp _ _ _ s1) with (wp (if ph_generation h =? 0
    then throw_error StatusCode.corrupt "partition generation zero is reserved" else
    if bool_decide (ph_generation h ∈ gens)
    then throw_error StatusCode.corrupt "duplicate partition generation" else
    state ← recover_partition h;
    modify (fun s => s <| partitions ::= push_recovered state |>);;
    mret (ph_generation h :: gens)) (fun gens' s' => slots_inv s0 gens' s')
    (fun _ s' => visiting s0 s') s1).
  apply wp_if; intros Hz; [by apply wp_throw_error|]. apply Z.eqb_neq in Hz.
  apply wp_if; intros Hdup; [by apply wp_throw_error|]. apply bool_decide_eq_false in Hdup.
  destruct (accept_header_ok (volume s0) _ (open_options s0) slot data h Hg) as [Hho Hhs]; try done.
  { apply Forall_slice, (st_bytes_ok _ Hwf). }
  { unfold data. rewrite len_slice; unfold kPartitionHeaderEncodedSize; lia. }
  apply wp_bind. eapply wp_conseq.
  { apply recover_spec; [done| |by rewrite Hv1, Hv, Hhs].
    rewrite Hv1, Hv. replace (st_size (storage s1)) with (st_size (storage s0)); [done|].
    symmetry. apply st_size_eq; [done|done|congruence]. }
  2:{ intros e s2 Hm2. eapply visiting_trans; [exact Hvi1|by apply visiting_of_moved]. }
  cbv beta. intros p s2 (Hm2&Hph&Hrec). apply wp_bind, wp_modify, wp_ret.
  assert (Hp2 : partitions s2 = partitions s) by (destruct Hm2 as (?&->&_); done).
  assert (Hgp : gen p = ph_generation h) by (by rewrite Hph).
  split.
  - eapply visiting_trans; [eapply visiting_trans; [exact Hvi1|by apply visiting_of_moved]|].
    apply visiting_partitions, (moved_wf _ _ Hm2).
  - simpl. rewrite Hp2. apply catalog_push; [done|rewrite Hph; split; [done|]| |].
    + exists h. rewrite Hhs. done.
    + rewrite Hgp. intros Hin. apply in_map_iff in Hin as (q&Hq&Hin). apply Hdup.
      rewrite <- Hq. by apply Hgn.
    + intros Hse. rewrite Hv1, Hv, Hc1, Hc in Hrec. by apply Hrec.
  - simpl. rewrite Hp2. unfold push_recovered. intros q Hq. apply in_map_iff in Hq as (r&<-&Hr).
    rewrite trim_header. apply in_app_or in Hr as [Hr|[<-|[]]]; [right; by apply Hgn|].
    rewrite Hgp. left.
Qed.
End Slots.

(** ** The writer that [open] starts *)

Section OpenWriter.
Context {T : Type} `{!Storage T, !StorageModel T, !ReliableReads T}.
Variable now : nat -> Z.
Implicit Types s : Impl T.

Lemma open_slots_spec slots : forall gens s0 s,
  st_wf (storage s0) -> geometry_ok (volume s0) (st_size (storage s0)) ->
  Forall (fun x => 0 <= x < vh_partition_count (volume s0)) slots -> slots_inv s0 gens s ->
  wp (open_slots slots gens) (fun _ s' => exists gens', slots_inv s0 gens' s')
    (fun _ s' => visiting s0 s') s.
Proof.
  induction slots as [|slot slots IH]; intros gens s0 s Hwf Hg Hsl Hi; cbn [open_slots].
  - apply wp_ret. by exists gens.
  - apply Forall_cons in Hsl as [Hslot Hsl]. apply wp_bind.
    eapply wp_conseq; [by apply (open_slot_spec slot gens s0)| |done].
    intros gens' s1 Hi1. by apply (IH gens').
Qed.

(** What [initial_impl] and the slot loop leave of a new store. *)
Record pristine s : Prop := {
  pr_builder : builder s = [] /\ builder_records s = 0;
  pr_faulted : faulted s = false;
  pr_dirty : dirty s = false;
  pr_undurable : have_undurable_records s = false;
  pr_metrics : durable_records (metrics s) = accepted_records (metrics s) /\
    durable_blocks (metrics s) = published_blocks (metrics s) }.

Lemma visiting_pristine s s' : visiting s s' -> pristine s -> pristine s'.
Proof. intros Hv Hp. rewrite (visiting_fields _ _ Hv). by destruct Hp. Qed.

Lemma visiting_wbase s s' : visiting s s' -> wbase s -> wbase s'.
Proof.
  intros Hv Hb. destruct (visiting_facts _ _ Hv) as (E1&E2&E3).
  assert (Hsz : st_size (storage s') = st_size (storage s))
    by (apply st_size_eq; [apply Hb|apply Hv|done]).
  pose proof (vs_storage _ _ Hv) as Hwf. rewrite (visiting_fields _ _ Hv). destruct Hb.
  split; simpl; rewrite ?Hsz; done.
Qed.

(** The catalog after [select_newest]. *)
Definition selected s : list PartitionState := trim_historical (sort_by_generation (partitions s)).

Lemma selected_nodup v o c s : catalog v o c (partitions s) -> NoDup (map (fun p => gen p) (selected s)).
Proof.
  intros [_ Hd _]. unfold selected. rewrite trim_historical_gens.
  eapply NoDup_Permutation_proper; [|exact Hd]. apply Permutation_map, sort_perm.
Qed.

Lemma selected_last v o c s p : catalog v o c (partitions s) -> last (selected s) = Some p ->
  In p (partitions s) /\ header_ok v o (ps_header p) /\ header_at v o c (ps_header p) /\
  (ps_sealed p = false -> exists log, recovered v c p log).
Proof.
  intros [Hh _ Hn] Hl. unfold selected in Hl. rewrite trim_historical_last in Hl.
  assert (Hin : In p (partitions s)).
  { apply (Permutation_in _ (sort_perm _)), list_elem_of_In. by apply last_Some_elem_of. }
  split; [done|]. rewrite Forall_forall in Hh.
  destruct (Hh p) as [Hh1 Hh2]; [by apply list_elem_of_In|]. split; [done|]. split; [done|].
  intros Hs. apply Hn; [done|done|]. apply Z.le_antisymm; [by apply newest_ge|].
  assert (Hmax : forall q, In q (partitions s) -> gen q <= gen p).
  { intros q Hq. apply (sorted_last _ _ (sort_sorted (partitions s)) Hl).
    apply (Permutation_in _ (Permutation_sym (sort_perm _))). done. }
  assert (Hp0 : 0 <= gen p).
  { pose proof (ho_generation _ _ _ Hh1) as [Hu _]. zlia. }
  unfold newest_generation. clear -Hmax Hp0. revert Hp0. generalize 0 as x.
  induction (partitions s) as [|q l IH]; intros x Hx; simpl; [done|].
  apply IH; [intros r Hr; apply Hmax; by right|]. pose proof (Hmax q ltac:(by left)). lia.
Qed.

Lemma find_newest l p g slot : NoDup (map (fun p => gen p) l) -> last l = Some p -> gen p = g ->
  ph_slot (ps_header p) = slot ->
  List.find (fun q => (gen q =? g) && (ph_slot (ps_header q) =? slot)) l = Some p.
Proof.
  intros Hnd Hl <- <-. assert (Hin : In p l) by (apply list_elem_of_In; by apply last_Some_elem_of).
  apply find_unique; [done|by rewrite !Z.eqb_refl|]. intros q Hq Hb.
  assert (Hgq : gen q = gen p) by lia. clear Hl Hb. induction l as [|x l IH]; [done|].
  simpl in Hnd. apply NoDup_cons in Hnd as [Hx Hnd].
  destruct Hin as [->|Hin], Hq as [->|Hq]; [done| | |by apply IH].
  - exfalso. apply Hx. rewrite <- Hgq. apply list_elem_of_In. by apply (in_map (fun p => gen p)).
  - exfalso. apply Hx. rewrite Hgq. apply list_elem_of_In. by apply (in_map (fun p => gen p)).
Qed.

(** The index of the active partition fits its region. *)
Definition index_within s : Prop :=
  forall p, active s = Some p ->
    len (ps_active_index p) <= vh_index_region_size (volume s) / kIndexEntryEncodedSize.

Lemma recovered_pstate v backend o c p log :
  geometry_ok v backend -> backend < 2 ^ 63 -> bytes_ok c -> backend <= len c ->
  header_ok v o (ps_header p) -> recovered v c p log ->
  len (ps_active_index p) <= vh_index_region_size v / kIndexEntryEncodedSize -> pstate_ok v o p.
Proof.
  intros Hg Hb Hok Hl Hh [Ri Re Rf _ Rc Rs] Hcap. pose proof (vh_wf_index_region_size _ (g_wf _ _ Hg)).
  pose proof (index_begin_range _ _ Hg Hb) as (?&?&?).
  assert (Hlog : len log < 2 ^ 32).
  { rewrite Ri, len_log_entries in Hcap. unfold kIndexEntryEncodedSize in *.
    assert (vh_index_region_size v / 48 < 2 ^ 32) by (apply Z.div_lt_upper_bound; zlia). lia. }
  split; try done.
  - rewrite Ri, Re. apply (frames_index_ok v backend (ps_header p) Hg Hb) with (c := c) (wh := 0) (wl := 0);
      try done; try (apply Hh); try (unfold kPartitionHeaderRegionSize in *; lia). apply Rf. lia.
  - rewrite Rc, Ri, len_log_entries. apply u32_small. pose proof (len_nonneg log). zlia.
Qed.

(** What a writable [open] returns, from the store [s0] before the slot loop:
    either a fresh partition that is durable and empty, or the newest
    partition as the scan recovered it, the media untouched. *)
Record opened s0 s' : Prop := {
  od_volume : volume s' = volume s0;
  od_options : open_options s' = open_options s0;
  od_writable : writable s' = writable s0;
  od_closed : closed s' = closed s0;
  od_pristine : pristine s';
  od_health : health_ok s0 -> health_ok s';
  od_winv : index_within s' -> winv s';
  od_active :
    (durable (storage s') = contents (storage s') /\ exists p, logged s' p [] []) \/
    (contents (storage s') = contents (storage s0) /\ exists p log, active s' = Some p /\
       header_at (volume s0) (open_options s0) (contents (storage s0)) (ps_header p) /\
       recovered (volume s0) (contents (storage s0)) p log) }.

Lemma create_opened slot g o s0 s s' :
  wbase s -> pristine s -> volume s = volume s0 -> open_options s = open_options s0 ->
  writable s = writable s0 -> closed s = closed s0 ->
  0 <= slot < vh_partition_count (volume s) -> is_u64 g -> g <> 0 ->
  options_ok (open_options s) o -> created slot g o s s' -> (health_ok s0 -> health_ok s') ->
  opened s0 s'.
Proof.
  intros Hb [[Hb1 Hb2] Hf Hd Hu [Hm1 Hm2]] Hv Ho Hwr Hcl Hs Hg Hg0 Hopt Hcr Hhe.
  pose proof (logged_created _ _ _ _ _ Hb Hcr Hs Hg Hopt) as Hl.
  assert (Hw : winv s') by (eapply created_winv; try done).
  destruct Hcr as [? ? ? ? ? ? ? ? ? ? [? ?] ? ? ? (?&?&?&?) ? ? ?].
  split; try congruence; try done.
  - split; [split|..]; try congruence. split; congruence.
  - left. split; [done|]. by eexists.
Qed.

Definition select_state s : Impl T :=
  match last (selected s) with
  | Some newest => s <| partitions := selected s |>
      <| active_generation := gen newest |> <| active_slot := ph_slot (ps_header newest) |>
  | None => s <| partitions := selected s |>
  end.

Lemma select_newest_eq s : select_newest s = (Ok tt, select_state s).
Proof.
  unfold select_newest, select_state, selected, modify, mbind, prog_bind. simpl.
  by destruct (last _).
Qed.

Lemma select_fields s :
  storage (select_state s) = storage s /\ volume (select_state s) = volume s /\
  open_options (select_state s) = open_options s /\ writable (select_state s) = writable s /\
  closed (select_state s) = closed s /\ partitions (select_state s) = selected s /\
  (pristine s -> pristine (select_state s)) /\ (wbase s -> wbase (select_state s)).
Proof.
  unfold select_state. destruct (last (selected s)); split_and!; try done; intros []; by split.
Qed.
Lemma select_health s0 s : visiting s0 s -> health_ok s0 -> health_ok (select_state s).
Proof.
  intros Hv Hh. rewrite (visiting_fields _ _ Hv). unfold select_state. by destruct (last _).
Qed.

Lemma recovered_opened gens s0 s p : wbase s -> pristine s -> slots_inv s0 gens s ->
  last (selected s) = Some p -> ps_sealed p = false -> opened s0 (select_state s).
Proof.
  intros Hb Hpr [Hv Hct _] Hl Hs. destruct (visiting_facts _ _ Hv) as (Ev&Eo&Ec).
  destruct (select_fields s) as (Es&Ev'&Eo'&Ewr&Ecl&Ep&Hpr'&Hb'). specialize (Hpr' Hpr). specialize (Hb' Hb).
  destruct (selected_last _ _ _ _ _ Hct Hl) as (_&Hh&Hat&Hrec). destruct (Hrec Hs) as (log&Hlog).
  assert (Ha : active (select_state s) = Some p).
  { unfold active, is_active. rewrite Ep. unfold select_state. rewrite Hl. simpl.
    apply find_newest; [by apply (selected_nodup _ _ _ _ Hct)|done..]. }
  pose proof (visiting_fields _ _ Hv) as Hf.
  split; try congruence.
  - rewrite Ewr, Hf. done.
  - rewrite Ecl, Hf. done.
  - by apply select_health.
  - intros Hi. specialize (Hi p Ha). destruct Hpr' as [[Pb Pr] Pf Pd Pu Pm]. split.
    + done.
    + exists p. split; [done|]. split.
      { rewrite Ev', Eo', Ev, Eo. pose proof (st_size_bound _ (w_st _ Hb)).
        apply (recovered_pstate _ (st_size (storage s)) _ (contents (storage s)) _ log).
        - rewrite <- Ev. apply Hb.
        - done.
        - apply (st_bytes_ok _ (w_st _ Hb)).
        - rewrite (st_size_contents _ (w_st _ Hb)). lia.
        - done.
        - by rewrite Ec.
        - by rewrite Ev', Ev in Hi. }
      split; [done|]. unfold builder_ok. rewrite Pb, Pr. split_and!; [constructor| |done|done].
      rewrite len_nil. pose proof (g_payload _ _ (w_geo _ Hb')). lia.
    + intros _. by rewrite Pu, Pb, Pd.
    + done.
  - right. split; [congruence|]. by exists p, log.
Qed.

Lemma start_writer_spec gens s0 s :
  wbase s -> pristine s -> slots_inv s0 gens s -> writable s0 = true ->
  next_options s = oo_next_partition (open_options s) -> oo_writable (open_options s) = true ->
  wp (start_writer now) (fun _ s' => opened s0 s') (fun _ _ => True) (select_state s).
Proof.
  intros Hb Hpr Hsl Hwr Hnx How. pose proof (si_visiting _ _ _ Hsl) as Hv.
  destruct (visiting_facts _ _ Hv) as (Ev&Eo&_). pose proof (visiting_fields _ _ Hv) as Hf.
  destruct (select_fields s) as (Es&Ev'&Eo'&Ewr&Ecl&Ep&Hpr'&Hb'). specialize (Hpr' Hpr). specialize (Hb' Hb).
  pose proof (w_next _ Hb) as Hopt. rewrite Hnx in Hopt. rewrite <- Eo' in Hopt.
  assert (Ewr0 : writable s = writable s0) by (by rewrite Hf).
  assert (Ecl0 : closed s = closed s0) by (by rewrite Hf).
  assert (Hcreate : forall slot g, 0 <= slot < vh_partition_count (volume (select_state s)) ->
    is_u64 g -> g <> 0 -> wp (create_partition now slot g (oo_next_partition (open_options (select_state s))))
      (fun _ s' => opened s0 s') (fun _ _ => True) (select_state s)).
  { intros slot g H1 H2 H3. apply wp_conseq with
      (Q := fun _ s' => created slot g (oo_next_partition (open_options (select_state s))) (select_state s) s' /\
                        (health_ok s0 -> health_ok s')) (E := fun _ _ => True); [| |done].
    - eapply wp_conseq; [apply wp_and; [apply create_partition_spec; try done; apply Hb'|]|by intros ? ? H; exact H|done].
      apply wp_implies. intros Hh. apply keeps_create_partition. by apply (select_health s0).
    - intros ? s' [Hcr Hhe]. eapply create_opened; [exact Hb'|exact Hpr'|..|exact Hcr|exact Hhe]; (done || congruence). }
  pose proof (w_geo _ Hb') as Hg. pose proof (g_count _ _ Hg).
  unfold start_writer. apply wp_bind, wp_get. cbv zeta. rewrite Eo', How. cbn [negb].
  apply wp_if; intros _; [done|]. rewrite Ep.
  destruct (last (selected s)) as [p|] eqn:El.
  - destruct (selected_last _ _ _ _ _ (si_catalog _ _ _ Hsl) El) as (_&Hh&_).
    apply wp_if; intros Hs; [|apply wp_ret; by apply (recovered_opened gens _ _ p)].
    apply wp_if; intros Hmax; [done|]. apply Z.eqb_neq in Hmax.
    destruct (ho_generation _ _ _ Hh) as [Hu _]. unfold UINT64_MAX in Hmax.
    assert (Hgen : u64 (gen p + 1) = gen p + 1) by (apply u64_small; zlia). rewrite Hgen.
    rewrite <- Eo'. apply Hcreate; [|zlia|zlia].
    by apply (next_slot_range _ (st_size (storage (select_state s)))).
  - rewrite <- Eo'. apply Hcreate; [lia|zlia|lia].
Qed.

Lemma open_body_spec s0 :
  wbase s0 -> pristine s0 -> partitions s0 = [] -> writable s0 = true ->
  next_options s0 = oo_next_partition (open_options s0) -> oo_writable (open_options s0) = true ->
  wp (open_body now) (fun _ s' => opened s0 s') (fun _ _ => True) s0.
Proof.
  intros Hb Hpr Hp Hwr Hnx How. unfold open_body. apply wp_bind, wp_get. apply wp_bind.
  eapply wp_conseq; [apply open_slots_spec|..|done]; [apply Hb|apply Hb|..].
  - apply Forall_forall. intros x Hx. apply elem_of_seqZ in Hx. lia.
  - split; [apply visiting_of_moved, moved_refl, Hb| |by rewrite Hp].
    rewrite Hp. split; [constructor|constructor|done].
  - intros _ s1 (gens&Hsl). pose proof (si_visiting _ _ _ Hsl) as Hv.
    apply wp_bind. unfold wp at 1. rewrite select_newest_eq.
    pose proof (visiting_fields _ _ Hv) as Hf. destruct (visiting_facts _ _ Hv) as (_&Eo&_).
    apply (start_writer_spec gens s0); [by apply (visiting_wbase s0)|by apply (visiting_pristine s0)|done..| |].
    + rewrite Eo, <- Hnx, Hf. done.
    + by rewrite Eo.
Qed.

(** ** The whole of [open] *)

Lemma read_copy off st io st' : st_wf st -> 0 <= off < 2 ^ 32 ->
  read_exact off (View (zeroed kVolumeHeaderEncodedSize)) st = (io, st') ->
  same_media st st' /\
  (forall v, copy_status io = Ok v -> header_copy off (contents st) = Ok v /\ VolumeHeader_wf v).
Proof.
  intros Hwf Hoff H. pose proof (eq_refl : kVolumeHeaderEncodedSize = 256) as Hk.
  assert (Hz : len (zeroed kVolumeHeaderEncodedSize) = kVolumeHeaderEncodedSize) by done.
  destruct (read_exact_spec off (zeroed kVolumeHeaderEncodedSize) st Hwf) as (s&buf&t'&E&Hm&Hl&Hs);
    [lia|rewrite Hz; zlia|]. rewrite H in E. injection E as -> ->. split; [done|].
  intros v Hv. unfold copy_status in Hv. destruct (status_ok s) eqn:Es; [|done].
  destruct (Hs eq_refl) as [Hin ->]. rewrite Hz in *. split; [done|].
  apply decode_volume_inv in Hv; [tauto| |]; [apply Forall_slice, (st_bytes_ok _ Hwf)|].
  rewrite len_slice; lia.
Qed.

Lemma choose_volume_inv a b v : choose_volume a b = Ok v -> copy_status a = Ok v \/ copy_status b = Ok v.
Proof.
  unfold choose_volume. intros H.
  destruct (_ && _) in H; [done|].
  destruct (copy_status a), (copy_status b); repeat (case_match; try done); simplify_eq; auto.
Qed.

(** The arguments of a writable [open] as their C++ types have them. *)
Record open_arguments_ok (o : OpenOptions) (random : result (Z * Z)) : Prop := {
  oa_writable : oo_writable o = true;
  oa_codecs : Forall CodecLaws (oo_compression_codecs o);
  oa_next : partition_arguments_ok (oo_next_partition o);
  oa_id : is_u64 (oo_writer_id_high o) /\ is_u64 (oo_writer_id_low o);
  oa_random : random_id_ok random }.

Lemma writer_id_ok o random h l : open_arguments_ok o random -> writer_id o random = Ok (h, l) ->
  is_u64 h /\ is_u64 l /\ ~ (h = 0 /\ l = 0).
Proof.
  intros [_ _ _ [Hh Hl] Hr] H. unfold writer_id in H. destruct (_ || _) eqn:E.
  - case_match; [done|]. injection H as <- <-. split_and!; [done|done|]. lia.
  - by rewrite H in Hr.
Qed.

(** [open] got past the header: the store the slot loop starts from. *)
Definition starts (o : OpenOptions) (st : T) (s0 : Impl T) : Prop :=
  exists v id st0, s0 = initial_impl v o id st0 /\ same_media st st0 /\
    (header_copy 0 (contents st) = Ok v \/ header_copy kVolumeHeaderCopySize (contents st) = Ok v) /\
    geometry_ok v (st_size st).

Lemma open_spec o random st s st' :
  st_wf st -> open_arguments_ok o random -> open now o random st = (Ok s, st') ->
  st' = storage s /\ exists s0, starts o st s0 /\
    (worst_span (volume s0) <= UINT32_MAX -> opened s0 s).
Proof.
  intros Hwf Ha H. pose proof Ha as [Hwr Hcod [Hpw Hpv] Hid Hrand]. unfold open in H.
  destruct (_ && _) in H; [done|].
  destruct (read_exact 0 _ st) as [a st1] eqn:E1. destruct (read_copy 0 st a st1 Hwf ltac:(lia) E1) as [Hm1 Hc1].
  destruct (read_exact kVolumeHeaderCopySize _ st1) as [b st2] eqn:E2.
  destruct (read_copy kVolumeHeaderCopySize st1 b st2 ltac:(apply Hm1)) as [Hm2 Hc2];
    [unfold kVolumeHeaderCopySize; lia|done|].
  assert (Hm : same_media st st2) by (by eapply same_media_trans).
  destruct (choose_volume a b) as [v|] eqn:Ec; [|done].
  assert (Hv : (header_copy 0 (contents st) = Ok v \/
    header_copy kVolumeHeaderCopySize (contents st) = Ok v) /\ VolumeHeader_wf v).
  { assert (Hco : contents st1 = contents st) by apply Hm1. rewrite Hco in Hc2.
    apply choose_volume_inv in Ec as [Ec|Ec]; [apply Hc1 in Ec|apply Hc2 in Ec]; tauto. }
  destruct Hv as [Hv Hvwf].
  destruct (validate_volume_geometry v _) as [[]|] eqn:Eg; [|done].
  apply validate_geometry_spec in Eg; [|done]. rewrite Hwr in H.
  destruct (writer_id o random) as [[h l]|] eqn:Eid; [|done]. cbn in H.
  destruct (validate_partition_options o _) as [[]|] eqn:Eo; [|done]. cbn in H.
  destruct (writer_id_ok _ _ _ _ Ha Eid) as (?&?&?).
  set (s0 := initial_impl v o (h, l) st2) in *.
  destruct (open_body now s0) as [[[]|] s1] eqn:Eb; [|done]. injection H as -> <-. split; [done|].
  assert (Hsz : st_size st2 = st_size st) by (apply st_size_eq; [done|apply Hm|apply Hm]).
  exists s0. split; [exists v, (h, l), st2; split_and!; [done|done|done|by rewrite <- Hsz]|].
  intros Hspan. pose proof (open_body_spec s0) as Hsp. unfold wp in Hsp. rewrite Eb in Hsp.
  apply Hsp; try done; split; cbn; try done; try (by split_and!). apply Hm.
Qed.
End OpenWriter.
