(* ===== verification/RingFormatFacts.v ===== *)
(** * Formatting a volume

    What [format] (src/ring_store.cpp 1012-1068) leaves on the media when it
    returns [Ok]: two durable copies of one header, which [open] decodes and
    whose geometry it accepts; and what a damaged copy costs. *)

From S2P Require Import Prelude Status Hoare Crc32c Layout Format FormatFacts Codec PackBitsFacts.
From S2P Require Import Lz4 Lz4Facts Storage RingTypes RingWriter RingReader RingOpen RingRules.
From S2P Require Import RingGeometry RingInv RingHealth RingWriterFacts RingCalls RingDisk.
From S2P Require Import RingScan RingLog RingRefine RingRead RingStored RingOpenFacts.

(** The image after a successful [format]. *)
Definition formatted (v : VolumeHeader) (c : bytes) : bytes :=
  splice kVolumeHeaderCopySize (encode_volume_header v) (splice 0 (encode_volume_header v) c).

Lemma geometry_header_valid v backend : geometry_ok v backend -> volume_header_valid v.
Proof.
  intros []. unfold volume_header_valid, kPartitionHeaderRegionSize, kPartitionFooterRegionSize,
    kIndexEntryEncodedSize in *. lia.
Qed.

Lemma formatted_copies v c : VolumeHeader_wf v -> volume_header_valid v -> kVolumePrefixSize <= len c ->
  header_copy 0 (formatted v c) = Ok v /\
  header_copy kVolumeHeaderCopySize (formatted v c) = Ok v /\
  len (formatted v c) = len c /\
  (forall off n, kVolumePrefixSize <= off -> 0 <= n -> off + n <= len c ->
    slice off n (formatted v c) = slice off n c).
Proof.
  intros Hwf Hv Hc. pose proof (decode_encode_volume v Hwf Hv) as Hd. unfold header_copy, formatted.
  pose proof (encode_volume_len v) as Hl. set (e := encode_volume_header v) in *. clearbody e.
  unfold kVolumePrefixSize, kVolumeHeaderCopySize, kVolumeHeaderEncodedSize in *.
  assert (Hs : len (splice 0 e c) = len c) by (rewrite len_splice; lia).
  split_and!.
  - rewrite slice_splice_before by lia. by rewrite slice_spliced by lia.
  - by rewrite slice_spliced by lia.
  - rewrite len_splice; lia.
  - intros off n ? ? ?. rewrite !slice_splice_after by lia. done.
Qed.

Lemma format_header_err size o random e : random_id_ok random ->
  format_header size o random = Err e -> status_ok e = false.
Proof.
  intros Hr H. unfold format_header, format_geometry, format_volume_id in H.
  destruct random as [[h l]|e0]; cbn in Hr, H; repeat (case_match; simplify_eq/=); done.
Qed.

Section Format.
Context {T : Type} `{!Storage T, !StorageModel T}.

(** [format] that returned [Ok]. *)
Lemma format_spec o random (st st' : T) status :
  st_wf st -> VolumeOptions_wf o -> random_id_ok random ->
  format o random st = (status, st') -> status_ok status = true ->
  exists v, format_header (st_size st) o random = Ok v /\ geometry_ok v (st_size st) /\
  st_wf st' /\ contents st' = formatted v (contents st) /\ durable st' = contents st'.
Proof.
  intros Hwf Ho Hr H Hok. pose proof (st_size_bound _ Hwf). pose proof (st_size_contents _ Hwf) as Hsz.
  assert (0 <= st_size st) by (rewrite Hsz; apply len_nonneg).
  unfold format in H. destruct (st_writable st); [|injection H as <- _; vm_compute in Hok; discriminate Hok].
  destruct (format_header (st_size st) o random) as [v|e] eqn:Eh; cbn [negb] in H;
    [|injection H as <- <-; by rewrite (format_header_err _ _ _ _ Hr Eh) in Hok].
  exists v. split; [done|]. assert (Hg : geometry_ok v (st_size st))
    by (eapply format_header_geometry; [|done..]; zlia). split; [done|].
  pose proof (encode_volume_len v) as Hl. pose proof (encode_volume_ok v) as Hbo.
  unfold kVolumeHeaderEncodedSize in Hl. unfold formatted. cbv zeta in H.
  set (e := encode_volume_header v) in *. clearbody e.
  destruct (write_exact_spec 0 e st) as (s1&t1&k1&E1&_&Hw1&Hk1); [done..|lia|zlia|].
  rewrite E1 in H. destruct (status_ok s1) eqn:Es1; cbn [negb] in H; [|congruence].
  rewrite Hk1, takeZ_all in Hw1 by (done || lia). destruct Hw1 as (Hwf1&_&_&_&Hin1&Hc1).
  destruct (write_exact_spec kVolumeHeaderCopySize e t1) as (s2&t2&k2&E2&_&Hw2&Hk2);
    [done..|unfold kVolumeHeaderCopySize; lia|unfold kVolumeHeaderCopySize; zlia|].
  rewrite E2 in H. destruct (status_ok s2) eqn:Es2; cbn [negb] in H; [|congruence].
  rewrite Hk2, takeZ_all in Hw2 by (done || lia). destruct Hw2 as (Hwf2&_&_&_&Hin2&Hc2).
  destruct (flush_spec t2 status st' Hwf2 H) as (Hwf'&Hc'&_&_&Hd'). rewrite Hok in Hd'.
  split; [done|]. split; congruence.
Qed.
End Format.
