(* ===== verification/RingReopen.v ===== *)
(** * Opening the media of a ring

    [open] (src/ring_store.cpp 1070-1324) on media that hold a ring finds the
    ring again: every sealed partition through its footer, the open one
    through the scan, unused slots as unused, with and without strict
    verification. *)

From stdpp Require Import sorting.
From Stdlib Require Import Sorted Permutation.
From S2P Require Import Prelude Status Hoare Crc32c Layout Format FormatFacts Codec PackBitsFacts.
From S2P Require Import Lz4 Lz4Facts Storage RingTypes RingWriter RingReader RingOpen RingRules.
From S2P Require Import RingGeometry RingInv RingHealth RingWriterFacts RingCalls RingDisk.
From S2P Require Import RingScan RingLog RingRefine RingRead RingCrash RingStored RingQuery.
From S2P Require Import RingWhole RingVolume RingOpenFacts.

(** No valid frame follows the log: the scan stops where the writer did. *)
Definition chain_ends (v : VolumeHeader) (h : PartitionHeader) (c : bytes) (log : list frame) : Prop :=
  forall f, ~ frames_at v h c 0 kPartitionHeaderRegionSize 0 0 (log ++ [f]).

(** Headers that differ only in what a reader of frames does not look at. *)
Record same_identity (h h' : PartitionHeader) : Prop := {
  sid_slot : ph_slot h' = ph_slot h;
  sid_generation : ph_generation h' = ph_generation h;
  sid_options : ph_options h' = ph_options h }.

Lemma accept_footer_identity v h h' d : same_identity h h' -> accept_footer v h' d = accept_footer v h d.
Proof. intros [E1 E2 _]. unfold accept_footer, footer_bad. by rewrite E1, E2. Qed.
Lemma block_bad_identity v h h' lim cur sq wh wl b : same_identity h h' ->
  block_bad v h' lim cur sq wh wl b = block_bad v h lim cur sq wh wl b.
Proof. intros [E1 E2 E3]. unfold block_bad. by rewrite E1, E2, E3. Qed.
Lemma frames_identity v h h' c log : same_identity h h' -> forall sq off wh wl,
  frames_at v h c sq off wh wl log -> frames_at v h' c sq off wh wl log.
Proof.
  intros Hs. induction log as [|f log IH]; intros sq off wh wl H; [done|]. destruct H as [Hf H].
  split; [|by apply IH]. destruct Hf. rewrite <- (sid_slot _ _ Hs) in *.
  split; try assumption. by rewrite (block_bad_identity _ _ _ _ _ _ _ _ _ Hs).
Qed.

Lemma same_entries_strip es : same_entries es (map strip_writer es) = true.
Proof.
  induction es as [|e es IH]; [done|]. cbn. rewrite IH. unfold same_index_entry. cbn.
  by rewrite !Z.eqb_refl.
Qed.

(** The last frame of a chain. *)
Lemma frames_last v h c f : forall log sq off wh wl, frames_at v h c sq off wh wl (log ++ [f]) ->
  exists sq' wh' wl', frame_at v h c sq' (log_end off log) wh' wl' f.
Proof.
  induction log as [|g log IH]; intros sq off wh wl H; cbn in *; [|by destruct H as [_ H%IH]].
  destruct H as [H _]. by exists sq, wh, wl.
Qed.

Section Recover.
Context {T : Type} `{!Storage T, !StorageModel T, !ReliableReads T}.
Context (v : VolumeHeader) (o : OpenOptions) (c : bytes).
Context (Hg : geometry_ok v (len c)) (Hb : len c < 2 ^ 63) (Hok : bytes_ok c).
Context (Hspan : worst_span v <= UINT32_MAX).
Implicit Types s : Impl T.

(** A step that only reads and cannot fail while the reads are answered. *)
Local Abbreviation sure := (RingQuery.reads v o c).

Lemma sure_ret {A} (a : A) (Q : A -> Prop) : Q a -> sure (mret a) Q.
Proof. intros H s [Hwf _ _ _] _. apply wp_ret. split; [by apply moved_refl|done]. Qed.
Lemma sure_bind {A B} (m : prog (Impl T) A) (k : A -> prog (Impl T) B) Q Q' :
  sure m Q -> (forall a, Q a -> sure (k a) Q') -> sure (m ≫= k) Q'.
Proof.
  intros Hm Hk s Hs Hr. apply wp_bind. eapply wp_conseq; [by apply Hm| |done].
  intros a s1 [Hm1 Ha]. eapply wp_conseq; [apply (Hk a Ha); [by eapply stable_moved|by eapply moved_rr]| |done].
  intros b s2 [Hm2 Hbq]. split; [by eapply moved_trans|done].
Qed.
Lemma sure_conseq {A} (m : prog (Impl T) A) (Q Q' : A -> Prop) :
  sure m Q -> (forall a, Q a -> Q' a) -> sure m Q'.
Proof.
  intros Hm H s Hs Hr. eapply wp_conseq; [by apply Hm| |done]. intros a s1 [? ?]. auto.
Qed.
Lemma sure_read off n : 0 <= off -> 0 <= n -> off + n <= len c ->
  sure (storage_read off n) (fun d => d = slice off n c).
Proof.
  intros. apply reads_of. intros s [Hwf _ _ Hc].
  apply wp_read; [done|done|done|by rewrite Hc|intros s1 Hm; by rewrite Hc|done].
Qed.
Lemma sure_get {B} (k : Impl T -> prog (Impl T) B) Q :
  (forall s0, volume s0 = v -> open_options s0 = o -> sure (k s0) Q) -> sure (get ≫= k) Q.
Proof. intros H s Hs Hr. apply wp_bind, wp_get. apply (H s); try done; apply Hs. Qed.
Lemma sure_when b (m : prog (Impl T) unit) : sure m (fun _ => True) -> sure (when b m) (fun _ => True).
Proof. intros H. destruct b; [exact H|]. by apply sure_ret. Qed.
(** A read whose status is looked at. *)
Lemma sure_attempt {A B} (m : prog (Impl T) A) (k : result A -> prog (Impl T) B) Q Q' :
  sure (attempt m) Q -> (forall r, Q r -> sure (k r) Q') -> sure (attempt m ≫= k) Q'.
Proof. apply sure_bind. Qed.
Lemma sure_lift {A} (r : result A) : sure (attempt (lift_result r)) (fun x => x = r).
Proof. intros s [Hwf _ _ _] _. unfold wp, attempt, lift_result. split; [by apply moved_refl|done]. Qed.
Lemma sure_attempt_bind {A B} (m : prog (Impl T) A) (k : A -> prog (Impl T) B) Q Q' :
  sure m Q -> (forall a, Q a -> sure (attempt (k a)) Q') -> sure (attempt (m ≫= k)) Q'.
Proof.
  intros Hm Hk s Hs Hr. apply wp_attempt, wp_bind. eapply wp_conseq; [by apply Hm| |done].
  intros a s1 [Hm1 Ha]. specialize (Hk a Ha s1 (stable_moved _ _ _ _ _ Hs Hm1) (moved_rr _ _ Hm1 Hr)).
  unfold wp, attempt in *. destruct (k a s1) as [[b|e] s2]; destruct Hk as [Hm2 Hq];
    (split; [by eapply moved_trans|done]).
Qed.

(** *** Header and footer of a slot *)

Lemma slot_places slot : 0 <= slot < vh_partition_count v ->
  0 <= partition_base v slot /\ partition_base v slot + vh_partition_size v <= len c /\
  0 <= footer_offset v /\ footer_offset v + 4096 = vh_partition_size v /\
  4096 <= index_begin v <= footer_offset v.
Proof.
  intros Hs. pose proof (partition_base_eq _ _ Hg Hb slot Hs). pose proof (partition_range _ _ Hg slot Hs).
  pose proof (regions _ _ Hg Hb) as (?&?&?&?). pose proof (index_begin_range _ _ Hg Hb) as (?&?&?).
  pose proof (vh_wf_index_region_size _ (g_wf _ _ Hg)).
  unfold kVolumePrefixSize, kPartitionHeaderRegionSize, kPartitionFooterRegionSize in *. zlia.
Qed.

Lemma header_read slot : 0 <= slot < vh_partition_count v ->
  sure (attempt (read_partition_header slot))
    (fun r => r = accept_partition_header v o slot (slot_header v slot c)).
Proof.
  intros Hs. destruct (slot_places slot Hs) as (?&?&?&?&?). unfold read_partition_header.
  apply (sure_attempt_bind _ _ (fun s0 => volume s0 = v /\ open_options s0 = o)).
  { intros s [Hwf Hv Ho _] _. apply wp_get. split; [by apply moved_refl|done]. }
  intros s0 [-> ->]. eapply sure_attempt_bind.
  { apply sure_read; unfold kPartitionHeaderEncodedSize; lia. }
  intros d ->. apply sure_lift.
Qed.

Lemma footer_read h : 0 <= ph_slot h < vh_partition_count v ->
  sure (attempt (read_footer h)) (fun r => r = accept_footer v h (slot_footer v (ph_slot h) c)).
Proof.
  intros Hs. destruct (slot_places _ Hs) as (?&?&?&?&?). unfold read_footer.
  apply (sure_attempt_bind _ _ (fun s0 => volume s0 = v)).
  { intros s [Hwf Hv Ho _] _. apply wp_get. split; [by apply moved_refl|done]. }
  intros s0 ->. rewrite u64_small by zlia. eapply sure_attempt_bind.
  { apply sure_read; unfold kPartitionFooterEncodedSize; lia. }
  intros d ->. apply sure_lift.
Qed.

(** *** The scan of a stored partition *)

Section Partition.
Context (p : PartitionState) (log : list frame) (raws : list bytes) (h : PartitionHeader).
Context (Hst : stored v o c p log raws) (Hid : same_identity (ps_header p) h).

Lemma reopen_slot : 0 <= ph_slot h < vh_partition_count v.
Proof. rewrite (sid_slot _ _ Hid). apply Hst. Qed.
Lemma reopen_frames : frames_at v h c 0 kPartitionHeaderRegionSize 0 0 log.
Proof. eapply frames_identity; [exact Hid|apply Hst]. Qed.
Lemma reopen_short : len log + 1 <= 2 ^ 32 /\ kPartitionHeaderRegionSize <= end_of log <= index_begin v.
Proof.
  destruct (stored_places v o _ Hg Hb c p log raws Hok ltac:(lia) Hst) as (?&?&_).
  pose proof (vh_wf_index_region_size _ (g_wf _ _ Hg)). unfold kIndexEntryEncodedSize in *. zlia.
Qed.

Lemma scan_exact limit :
  scan_bound v limit = end_of log \/ scan_bound v limit = index_begin v /\ chain_ends v h c log ->
  sure (scan_partition h limit) (fun r => sc_entries r = entries_of log /\ sc_data_end r = end_of log).
Proof.
  intros Hlim. pose proof reopen_frames as Hf. destruct reopen_short as [Hn He].
  assert (Hin : kPartitionHeaderRegionSize <= scan_bound v limit <= index_begin v)
    by (destruct Hlim as [->|[-> _]]; lia).
  intros s [Hwf Hv Ho Hc] Hr.
  assert (Hsz : st_size (storage s) = len c) by (rewrite <- Hc; by apply st_size_contents).
  eapply wp_conseq; [apply scan_partition_spec; [done|by rewrite Hv, Hsz|rewrite Hv; apply reopen_slot]|..].
  2:{ rewrite Hv. intros e s1 [[_ Hl]|[_ Hl]]; [by apply Hl|by apply Hl]. }
  rewrite Hv, Hc. intros r s1 (Hm&log'&_&Hsn). split; [done|]. destruct Hsn as [S1 S2 S3 S4 S5].
  destruct (S5 log ltac:(lia) Hf) as [rest ->].
  { destruct Hlim as [->|[-> _]]; unfold end_of in *; lia. }
  destruct rest as [|f rest]; [rewrite app_nil_r in *; by rewrite S1, S2|]. exfalso.
  assert (Hpre : (log ++ [f]) `prefix_of` (log ++ f :: rest))
    by (exists rest; by rewrite <- app_assoc).
  assert (Hf1 : frames_at v h c 0 kPartitionHeaderRegionSize 0 0 (log ++ [f]))
    by (apply S4; [done|len_lia]).
  destruct Hlim as [E|[_ He']]; [|by apply (He' f)].
  specialize (S3 _ Hpre). rewrite log_end_app, E in S3. cbn in S3. fold (end_of log) in S3.
  destruct (frames_last _ _ _ _ _ _ _ _ _ Hf1) as (sq&wh&wl&Hfr).
  fold (end_of log) in Hfr. pose proof Hfr as [Hd _ _ Hch Hsp]. pose proof reopen_slot as Hsl.
  unfold kPartitionHeaderRegionSize in *.
  destruct (decode_at v _ h Hg Hb Hsl c (end_of log) (fst f) Hok ltac:(lia) ltac:(lia) Hd) as [Hwf' Hv'].
  pose proof (frame_size_facts v _ h Hg Hb _ _ _ _ _ _ Hwf' Hv'
    (proj1 (block_bad_spec _ _ _ _ _ _ _ _) Hch) Hsp ltac:(lia) ltac:(lia)) as (?&?&?).
  unfold kBlockHeaderEncodedSize in *. lia.
Qed.

(** Strict verification reads every block. *)
Lemma verify_blocks_sure p' : ps_header p' = h -> header_at v o c h -> forall l rs sq off wh wl es,
  frames_at v h c sq off wh wl l -> Forall2 (decodes o) l rs -> 0 <= off <= index_begin v ->
  es = log_entries off l \/ es = map strip_writer (log_entries off l) ->
  sure (verify_blocks p' es) (fun _ => True).
Proof.
  intros Hp Hh. induction l as [|f l IH]; intros rs sq off wh wl es Hf Hr Ho Hes.
  { assert (es = []) as -> by (by destruct Hes). by apply sure_ret. }
  apply Forall2_cons_inv_l in Hr as (raw&rs'&Hd&Hr&->). destruct Hf as [Hf Hfs].
  assert (exists e es', es = e :: es' /\ entry_for off (fst f) e /\
    (es' = log_entries (off + bh_frame_span (fst f)) l \/
     es' = map strip_writer (log_entries (off + bh_frame_span (fst f)) l))) as (e&es'&->&He&Hes').
  { destruct Hes as [-> | ->]; cbn [log_entries map]; eexists _, _; (split; [reflexivity|]).
    - split; [by left|by left].
    - split; [by right|by right]. }
  pose proof reopen_slot as Hsl. pose proof Hf as [Hdec _ _ Hch Hsp].
  destruct (decode_at v _ h Hg Hb Hsl c off (fst f) Hok ltac:(lia) Ho Hdec) as [Hwf Hv].
  pose proof (frame_size_facts v _ h Hg Hb _ _ _ _ _ _ Hwf Hv
    (proj1 (block_bad_spec _ _ _ _ _ _ _ _) Hch) Hsp ltac:(lia) ltac:(lia)) as (?&?&_).
  unfold kBlockHeaderEncodedSize in *. cbn [verify_blocks].
  eapply (sure_bind _ _ (fun _ => True)).
  - apply reads_of. intros s Hs. eapply wp_conseq.
    + eapply (read_block_spec v o c p'); try rewrite Hp; try done.
    + intros r s1 [? _]. done.
    + done.
  - intros _ _. eapply IH; [exact Hfs|exact Hr|lia|exact Hes'].
Qed.

Context (Hacc : accept_partition_header v o (ph_slot (ps_header p))
  (slot_header v (ph_slot (ps_header p)) c) = Ok h).

Lemma reopen_header : header_at v o c h.
Proof. exists h. rewrite (sid_slot _ _ Hid). split; [exact Hacc|done]. Qed.

Lemma reopen_generation : 0 < ph_generation h.
Proof. rewrite (sid_generation _ _ Hid). apply Hst. Qed.

Lemma sealed_stored : ps_sealed p = true -> stored v o c (sealed_state h (ps_footer p)) log raws.
Proof.
  intros Hs. destruct (sr_sealed _ _ _ _ _ _ Hst Hs) as [? ? ? ? ? Hi Hf Ha ?].
  split; cbn [sealed_state ps_header ps_sealed set new_partition_state];
    [exact reopen_slot|exact reopen_header|exact reopen_generation|exact reopen_frames|apply Hst|apply Hst|done|]. intros _.
  split; cbn [sealed_state ps_header ps_footer set new_partition_state];
    rewrite ?(sid_slot _ _ Hid); try assumption.
  by rewrite (accept_footer_identity _ _ _ _ Hid).
Qed.

Lemma recovered_stored r : sc_entries r = entries_of log -> sc_data_end r = end_of log ->
  stored v o c (recovered_state h r) log raws /\ ps_header (recovered_state h r) = h /\
  ps_sealed (recovered_state h r) = false.
Proof.
  intros He Hend.
  destruct (summarize_spec ((new_partition_state h) <| ps_active_index := sc_entries r |>
    <| ps_data_end := sc_data_end r |>)) as (E1&E2&E3&E4&_). fold (recovered_state h r) in *.
  cbn [ps_header ps_sealed ps_active_index ps_data_end set new_partition_state] in *.
  split; [|done]. rewrite He in E3. rewrite Hend in E4.
  split; rewrite ?E1; [exact reopen_slot|exact reopen_header|exact reopen_generation|exact reopen_frames|apply Hst|apply Hst|done|].
  rewrite E2. done.
Qed.

Lemma verify_sealed_sure : ps_sealed p = true ->
  sure (verify_sealed (sealed_state h (ps_footer p)) (ps_footer p)) (fun _ => True).
Proof.
  intros Hs. pose proof (sealed_stored Hs) as Hst'.
  destruct (sr_sealed _ _ _ _ _ _ Hst Hs) as [_ _ _ _ Hend _ _ _ (Hf&Hmin&Hmax)].
  destruct reopen_short as [_ Hle]. unfold kPartitionHeaderRegionSize in Hle.
  unfold verify_sealed. eapply sure_bind; [eapply load_index_spec; done|]. intros es ->.
  eapply sure_bind; [apply scan_exact; left; rewrite Hend; unfold scan_bound;
    by rewrite (proj2 (Z.eqb_neq _ _)) by lia|]. intros r [E1 E2]. cbv zeta. rewrite E1, E2, Hend.
  assert (Hl : len (entries_of log) = len (map strip_writer (entries_of log)))
    by (unfold len; by rewrite length_map).
  rewrite <- Hl, !Z.eqb_refl. cbn [negb orb].
  rewrite same_entries_strip. cbn [negb]. rewrite Hf, Hmin, Hmax, !Z.eqb_refl. cbn [negb orb].
  apply (verify_blocks_sure (sealed_state h (ps_footer p)) eq_refl reopen_header log raws 0
    kPartitionHeaderRegionSize 0 0); [exact reopen_frames|apply Hst|unfold kPartitionHeaderRegionSize; lia|by right].
Qed.

Lemma recover_sure : (ps_sealed p = false -> footer_open v (ps_header p) c /\ chain_ends v h c log) ->
  sure (recover_partition h) (fun p' => ps_header p' = h /\ ps_sealed p' = ps_sealed p /\
    stored v o c p' log raws).
Proof.
  intros Hop. unfold recover_partition. apply sure_get. intros s0 _ ->. cbv zeta.
  eapply sure_bind; [apply footer_read, reopen_slot|]. intros x ->.
  rewrite (accept_footer_identity _ _ _ _ Hid), (sid_slot _ _ Hid).
  destruct (ps_sealed p) eqn:Hs.
  - destruct (sr_sealed _ _ _ _ _ _ Hst Hs) as [_ _ _ _ _ _ Hf Ha _].
    unfold slot_footer. rewrite Hf, Ha. eapply sure_bind; [apply sure_when, verify_sealed_sure, Hs|].
    intros _ _. apply sure_ret. split; [done|]. split; [done|by apply sealed_stored].
  - destruct (Hop eq_refl) as [(e&->&He) Hends]. rewrite He.
    eapply sure_bind; [apply scan_exact; right; done|]. intros r [E1 E2].
    destruct (recovered_stored r E1 E2) as (Hst'&Hh'&Hs'). cbv zeta.
    destruct (sr_open _ _ _ _ _ _ Hst' Hs') as [Ei _].
    eapply sure_bind; [apply sure_when|].
    + rewrite Ei. destruct reopen_short as [_ Hle]. unfold kPartitionHeaderRegionSize in Hle.
      apply (verify_blocks_sure (recovered_state h r) Hh' reopen_header log raws 0
        kPartitionHeaderRegionSize 0 0);
        [exact reopen_frames|apply Hst|unfold kPartitionHeaderRegionSize; lia|by left].
    + intros _ _. by apply sure_ret.
Qed.
End Partition.

(** *** A slot no partition uses *)

Lemma damaged_sure slot e : 0 <= slot < vh_partition_count v -> is_io_error (code e) = false ->
  evidence v slot c = false -> sure (damaged_slot slot e) (fun _ => True).
Proof.
  intros Hs He Hev. destruct (slot_places slot Hs) as (?&?&?&?&?). unfold damaged_slot. rewrite He.
  apply sure_get. intros s0 -> ->. cbv zeta. eapply sure_bind.
  { apply sure_read; unfold kPartitionHeaderEncodedSize; lia. }
  intros raw ->. fold (slot_header v slot c).
  apply (sure_bind _ _ (fun b => b = evidence v slot c)); [|intros ? ->; rewrite Hev; by apply sure_ret].
  unfold damaged_evidence, evidence. cbv zeta. destruct (_ && _); [|by apply sure_ret].
  unfold kPartitionHeaderRegionSize in *. rewrite !u64_small by zlia.
  eapply sure_bind; [apply sure_read; unfold kPartitionFooterEncodedSize; lia|]. intros ft ->.
  eapply sure_bind; [apply sure_read; unfold kBlockHeaderEncodedSize; lia|]. intros bl ->.
  by apply sure_ret.
Qed.

(** ** All slots *)

(** What the media of a ring hold: the partitions [L] in generation order,
    all but the youngest sealed, and nothing else of this volume. *)
Record image (L : list part) : Prop := {
  im_stored : Forall (fun y => stored v o c (pt_state y) (pt_log y) (pt_raws y)) L;
  im_times : Forall part_timed L;
  im_slots : NoDup (map part_slot L);
  im_sorted : StronglySorted by_generation (map pt_state L);
  im_open : Forall (fun y => ps_sealed (pt_state y) = false ->
    (forall z, z ∈ L -> part_generation z <= part_generation y) /\
    footer_open v (ps_header (pt_state y)) c /\
    chain_ends v (ps_header (pt_state y)) c (pt_log y)) L;
  im_rest : rest_ok v o c (map part_slot L) }.

(** The same partition as [open] catalogues it. *)
Record reopened (y y' : part) : Prop := {
  re_identity : same_identity (ps_header (pt_state y)) (ps_header (pt_state y'));
  re_sealed : ps_sealed (pt_state y') = ps_sealed (pt_state y);
  re_log : pt_log y' = pt_log y;
  re_raws : pt_raws y' = pt_raws y;
  re_times : pt_times y' = pt_times y;
  re_stored : stored v o c (pt_state y') (pt_log y') (pt_raws y') }.

Context (L : list part) (HL : image L).

Lemma generation_inj y z : y ∈ L -> z ∈ L -> part_generation y = part_generation z -> y = z.
Proof.
  pose proof (im_sorted _ HL) as Hs. clear HL. induction L as [|x l IH]; [by intros ?%elem_of_nil|].
  cbn in Hs. apply StronglySorted_inv in Hs as [Hs Hx]. rewrite Forall_forall in Hx.
  unfold by_generation in Hx.
  intros [->|Hy]%elem_of_cons [->|Hz]%elem_of_cons E; [done| | |by apply IH].
  - specialize (Hx (pt_state z) ltac:(by apply list_elem_of_fmap_2)). unfold part_generation in E. lia.
  - specialize (Hx (pt_state y) ltac:(by apply list_elem_of_fmap_2)). unfold part_generation in E. lia.
Qed.

Definition at_slot (slot : Z) : option part := List.find (fun y => part_slot y =? slot) L.

Lemma at_slot_Some slot y : at_slot slot = Some y <-> y ∈ L /\ part_slot y = slot.
Proof.
  unfold at_slot. split.
  - intros H. apply find_some in H as [H1 H2]. split; [by apply list_elem_of_In|lia].
  - intros [Hy <-]. apply find_unique; [by apply list_elem_of_In|by rewrite Z.eqb_refl|].
    intros z Hz E. pose proof (im_slots _ HL) as Hn. apply list_elem_of_In in Hz.
    apply list_elem_of_lookup_1 in Hy as [i Hi]. apply list_elem_of_lookup_1 in Hz as [j Hj].
    assert (i = j) as ->; [|congruence].
    eapply (NoDup_lookup _ _ _ (part_slot y) Hn); rewrite list_lookup_fmap; [by rewrite Hi|].
    rewrite Hj. cbn. f_equal. lia.
Qed.
Lemma at_slot_None slot : at_slot slot = None -> slot ∉ map part_slot L.
Proof.
  intros H Hin. apply list_elem_of_fmap in Hin as (y&->&Hy).
  by rewrite (proj2 (at_slot_Some (part_slot y) y)) in H.
Qed.

(** The youngest partition is never trimmed. *)
Lemma push_kept l p : Forall (fun q => ps_sealed q = false -> forall r, In r (l ++ [p]) ->
    ph_generation (ps_header r) <= ph_generation (ps_header q)) (l ++ [p]) ->
  Forall (fun q => 0 < ph_generation (ps_header q)) (l ++ [p]) -> push_recovered p l = l ++ [p].
Proof.
  intros H Hpos. unfold push_recovered. set (k := l ++ [p]) in *. rewrite <- (map_id k) at 3.
  apply map_ext_in. intros q Hq. rewrite Forall_forall in H. specialize (H q ltac:(by apply list_elem_of_In)).
  unfold trim_index. destruct (ps_sealed q) eqn:Es; cbn [negb andb]; [done|].
  assert (E : ph_generation (ps_header q) = newest_generation k).
  { apply Z.le_antisymm; [by apply newest_ge|]. specialize (H eq_refl).
    rewrite Forall_forall in Hpos. specialize (Hpos q ltac:(by apply list_elem_of_In)).
    clear -H Hpos. unfold newest_generation. assert (H0 : 0 <= ph_generation (ps_header q)) by lia.
    revert H H0. generalize 0 as x. clear Hpos. induction k as [|r k IH]; intros x Hx H0; simpl; [done|].
    apply IH; [intros ? ?; apply Hx; by right|]. pose proof (Hx r ltac:(by left)). lia. }
  by rewrite E, Z.eqb_refl.
Qed.

Lemma reopened_catalog ys ys' y y' : Forall (fun z => z ∈ L) ys -> y ∈ L ->
  Forall2 reopened ys ys' -> reopened y y' ->
  push_recovered (pt_state y') (map pt_state ys') = map pt_state (ys' ++ [y']).
Proof.
  intros Hys Hy H2 Hre. rewrite map_app. cbn [map].
  assert (Hall : Forall (fun z => z ∈ L) (ys ++ [y])) by (apply Forall_app; by repeat constructor).
  assert (H2' : Forall2 reopened (ys ++ [y]) (ys' ++ [y'])) by (apply Forall2_app; [done|constructor; [done|constructor]]).
  assert (Hback : forall q, In q (map pt_state (ys' ++ [y'])) -> exists z z', z ∈ L /\ reopened z z' /\ q = pt_state z').
  { intros q Hq. apply in_map_iff in Hq as (z'&<-&Hz'). apply list_elem_of_In, list_elem_of_lookup_1 in Hz' as [i Hi].
    destruct (Forall2_lookup_r _ _ _ _ _ H2' Hi) as (z&Hz&Hzz). exists z, z'. split_and!; [|done|done].
    rewrite Forall_forall in Hall. by apply Hall, list_elem_of_lookup_2 with i. }
  rewrite map_app in Hback. cbn [map] in Hback.
  apply push_kept; apply Forall_forall; intros q Hq%list_elem_of_In; destruct (Hback q Hq) as (z&z'&Hz&Hzz&->).
  - intros Hs r Hr. destruct (Hback r Hr) as (w&w'&Hw&Hww&->).
    pose proof (im_open _ HL) as Ho. rewrite Forall_forall in Ho.
    rewrite (re_sealed _ _ Hzz) in Hs. destruct (Ho z Hz Hs) as [Hmax _]. specialize (Hmax w Hw).
    unfold part_generation in Hmax.
    rewrite (sid_generation _ _ (re_identity _ _ Hzz)), (sid_generation _ _ (re_identity _ _ Hww)). done.
  - apply (re_stored _ _ Hzz).
Qed.

(** The state of the slot loop after the slots of [ys]. *)
Record visited s0 (ys : list part) (gens : list Z) s : Prop := {
  vi_visiting : visiting s0 s;
  vi_reads : rr_ok (storage s);
  vi_corrupt : corrupt_slots s = [];
  vi_parts : exists ys', Forall2 reopened ys ys' /\ partitions s = map pt_state ys';
  vi_in : Forall (fun y => y ∈ L) ys;
  vi_gens : forall g, g ∈ gens -> exists y, y ∈ ys /\ part_generation y = g }.

Lemma visited_stable s0 ys gens s : stable s0 v o c -> visited s0 ys gens s -> stable s v o c.
Proof.
  intros [? ? ? ?] [Hv _ _ _ _ _]. destruct (visiting_facts _ _ Hv) as (?&?&?).
  split; [by apply Hv|congruence..].
Qed.

Lemma visited_moved s0 ys gens s s' : visited s0 ys gens s -> moved s s' -> visited s0 ys gens s'.
Proof.
  intros [Hv Hr Hc Hp Hi Hgn] Hm. pose proof (moved_rr _ _ Hm Hr).
  assert (Hvs : visiting s0 s') by (eapply visiting_trans; [exact Hv|by apply visiting_of_moved]).
  assert (Hp' : partitions s' = partitions s /\ corrupt_slots s' = corrupt_slots s)
    by (by destruct Hm as (st&->&_)). destruct Hp' as [E1 E2].
  split; try assumption; by rewrite ?E1, ?E2.
Qed.

(** The header [open] reads for a stored partition. *)
Lemma own_header y : y ∈ L -> exists h,
  accept_partition_header v o (part_slot y) (slot_header v (part_slot y) c) = Ok h /\
  same_identity (ps_header (pt_state y)) h.
Proof.
  intros Hy. pose proof (im_stored _ HL) as Hst. rewrite Forall_forall in Hst. specialize (Hst y Hy).
  destruct (sr_header _ _ _ _ _ _ Hst) as (h&Hacc&Hgen&Hopt). exists h. split; [exact Hacc|].
  split; [|done|done]. unfold accept_partition_header in Hacc.
  apply result_bind_Ok in Hacc as (h'&_&H). apply result_bind_Ok in H as ([]&Hid&H).
  apply result_bind_Ok in H as ([]&_&H). apply result_bind_Ok in H as ([]&_&H). injection H as <-.
  unfold check_header_identity in Hid. case_match; [done|]. lia.
Qed.

Lemma open_slot_image slot gens ys s0 s : stable s0 v o c -> visited s0 ys gens s ->
  0 <= slot < vh_partition_count v -> slot ∉ map part_slot ys ->
  wp (open_slot slot gens)
    (fun gens' s' => visited s0 (ys ++ option_list (at_slot slot)) gens' s') (fun _ _ => False) s.
Proof.
  intros Hs0 Hvi Hslot Hnew. pose proof (visited_stable _ _ _ _ Hs0 Hvi) as Hs.
  unfold open_slot. apply wp_bind.
  eapply wp_conseq; [apply header_read; [done|done|apply Hvi]| |done].
  intros r s1 [Hm1 ->]. pose proof (visited_moved _ _ _ _ _ Hvi Hm1) as Hvi1.
  pose proof (visited_stable _ _ _ _ Hs0 Hvi1) as Hs1.
  destruct (at_slot slot) as [y|] eqn:Ey; cbn [option_list].
  - apply at_slot_Some in Ey as [Hy Hys]. destruct (own_header y Hy) as (h&Hacc&Hid).
    rewrite Hys in Hacc. rewrite Hacc.
    pose proof (im_stored _ HL) as Hst. rewrite Forall_forall in Hst. specialize (Hst y Hy).
    pose proof (sr_generation _ _ _ _ _ _ Hst) as Hg0.
    rewrite (proj2 (Z.eqb_neq (ph_generation h) 0)) by (rewrite (sid_generation _ _ Hid); lia).
    rewrite bool_decide_false; cycle 1.
    { intros Hin. destruct (vi_gens _ _ _ _ Hvi _ Hin) as (z&Hz&Eg). apply Hnew.
      pose proof (vi_in _ _ _ _ Hvi) as Hi. rewrite Forall_forall in Hi.
      assert (z = y) as <-; [|rewrite <- Hys; by apply list_elem_of_fmap_2].
      apply generation_inj; [by apply Hi|done|]. rewrite Eg. apply (sid_generation _ _ Hid). }
    apply wp_bind. eapply wp_conseq;
      [apply (recover_sure (pt_state y) (pt_log y) (pt_raws y) h Hst Hid);
        [by unfold part_slot in Hys; rewrite Hys| |done|apply Hvi1]| |done].
    { intros Hse. pose proof (im_open _ HL) as Ho. rewrite Forall_forall in Ho.
      destruct (Ho y Hy Hse) as (_&?&Hce). split; [done|]. intros f Hf. apply (Hce f).
      destruct Hid. eapply frames_identity; [|exact Hf]. by split. }
    intros p' s2 (Hm2&Hh'&Hse'&Hst'). apply wp_bind, wp_modify, wp_ret.
    pose proof (visited_moved _ _ _ _ _ Hvi1 Hm2) as [Vv Vr Vc (ys'&Vp2&Vp) Vi Vg].
    set (y' := mkPart p' (pt_log y) (pt_raws y) (pt_times y)).
    assert (Hre : reopened y y') by (split; try done; by rewrite <- Hh' in Hid).
    split; cbn [storage corrupt_slots partitions set].
    + eapply visiting_trans; [exact Vv|]. apply visiting_partitions, Vv.
    + exact Vr.
    + exact Vc.
    + exists (ys' ++ [y']). split; [apply Forall2_app; [done|constructor; [done|constructor]]|].
      rewrite Vp. change p' with (pt_state y'). by apply (reopened_catalog ys ys' y y').
    + apply Forall_app. split; [done|]. by constructor.
    + intros g [->|Hin]%elem_of_cons.
      * exists y. split; [apply elem_of_app; right; by left|]. symmetry. apply (sid_generation _ _ Hid).
      * destruct (Vg g Hin) as (z&Hz&E). exists z. split; [apply elem_of_app; by left|done].
  - rewrite app_nil_r. apply at_slot_None in Ey.
    pose proof (rs_vacant _ _ _ _ (im_rest _ HL) slot Hslot Ey) as Hu. unfold unclaimed in Hu.
    destruct (accept_partition_header _ _ _ _) as [?|e]; [done|].
    rewrite !andb_true_iff, !negb_true_iff in Hu. destruct Hu as [[He Hev] _]. apply wp_bind.
    eapply wp_conseq; [apply damaged_sure; try done; apply Hvi1| |done].
    intros _ s2 [Hm2 _]. apply wp_ret. by eapply visited_moved.
Qed.

Lemma open_slots_image s0 slots : stable s0 v o c -> forall gens ys s, visited s0 ys gens s ->
  Forall (fun i => 0 <= i < vh_partition_count v) slots -> NoDup (map part_slot ys ++ slots) ->
  wp (open_slots slots gens)
    (fun _ s' => exists gens', visited s0 (ys ++ omap at_slot slots) gens' s') (fun _ _ => False) s.
Proof.
  intros Hs0. induction slots as [|slot slots IH]; intros gens ys s Hvi Hin Hnd; cbn [open_slots omap list_omap].
  - apply wp_ret. exists gens. by rewrite app_nil_r.
  - apply Forall_cons in Hin as [Hslot Hin]. apply NoDup_app in Hnd as (Hn1&Hn2&Hn3).
    apply NoDup_cons in Hn3 as [Hn3 Hn4]. apply wp_bind.
    eapply wp_conseq; [apply (open_slot_image slot gens ys s0); try done| |done].
    { intros Hx. apply (Hn2 _ Hx). by left. }
    intros gens' s1 Hvi1. specialize (IH gens' _ s1 Hvi1 Hin). rewrite <- app_assoc in IH.
    assert (Happ : option_list (at_slot slot) ++ omap at_slot slots =
      match at_slot slot with Some y => y :: omap at_slot slots | None => omap at_slot slots end)
      by (by destruct (at_slot slot)). rewrite Happ in IH. apply IH.
    rewrite map_app, <- app_assoc. apply NoDup_app. split; [done|].
    destruct (at_slot slot) as [y|] eqn:Ey; cbn [option_list map app].
    + apply at_slot_Some in Ey as [_ Ey]. subst slot. split; [done|]. by apply NoDup_cons.
    + split; [|done]. intros x Hx Hx'. apply (Hn2 x Hx). by right.
Qed.

(** ** The catalog after the loop *)

Lemma all_slots : omap at_slot (seqZ 0 (vh_partition_count v)) ≡ₚ L.
Proof.
  pose proof (im_slots _ HL) as Hn. apply NoDup_Permutation.
  - assert (Hs : NoDup (seqZ 0 (vh_partition_count v))) by apply NoDup_seqZ.
    induction (seqZ 0 (vh_partition_count v)) as [|i l IH]; [constructor|].
    apply NoDup_cons in Hs as [Hi Hs]. cbn. destruct (at_slot i) as [y|] eqn:Ey; [|by apply IH].
    apply NoDup_cons. split; [|by apply IH]. intros Hy. apply Hi.
    apply list_elem_of_omap in Hy as (j&Hj&Ej). apply at_slot_Some in Ey as [_ <-], Ej as [_ Ej].
    by rewrite Ej.
  - by apply NoDup_fmap_1 in Hn.
  - intros y. rewrite list_elem_of_omap. split.
    + intros (i&_&[Hy _]%at_slot_Some). done.
    + intros Hy. exists (part_slot y). split; [|by apply at_slot_Some].
      pose proof (im_stored _ HL) as Hst. rewrite Forall_forall in Hst.
      apply elem_of_seqZ. pose proof (sr_slot _ _ _ _ _ _ (Hst y Hy)). unfold part_slot. lia.
Qed.

Lemma reopened_sorted L' : Forall2 reopened L L' -> StronglySorted by_generation (map pt_state L').
Proof.
  intros H. pose proof (im_sorted _ HL) as Hs. clear HL. induction H as [|y y' l l' Hy H IH]; [constructor|].
  cbn in *. apply StronglySorted_inv in Hs as [Hs Hx]. constructor; [by apply IH|].
  rewrite Forall_forall in Hx |- *. intros q Hq. apply list_elem_of_fmap in Hq as (z'&->&Hz').
  apply list_elem_of_lookup_1 in Hz' as [i Hi]. destruct (Forall2_lookup_r _ _ _ _ _ H Hi) as (z&Hz&Hzz).
  specialize (Hx (pt_state z) ltac:(eapply list_elem_of_fmap_2, list_elem_of_lookup_2; exact Hz)).
  unfold by_generation in *.
  rewrite (sid_generation _ _ (re_identity _ _ Hy)), (sid_generation _ _ (re_identity _ _ Hzz)). done.
Qed.

(** A list has one order by generation when generations differ. *)
Lemma sort_unique l m : StronglySorted by_generation m -> l ≡ₚ m -> sort_by_generation l = m.
Proof.
  intros Hm Hp. apply (StronglySorted_unique_strong (fun a b => gen a <= gen b)).
  - intros x y Hx Hy H1 H2. assert (E : gen x = gen y) by lia. clear H1 H2.
    assert (Hxm : x ∈ m) by (rewrite <- Hp, <- (sort_perm l); done). clear Hx Hp.
    induction Hm as [|z m Hm IH Hz]; [by apply elem_of_nil in Hy|]. rewrite Forall_forall in Hz.
    unfold by_generation in Hz. apply elem_of_cons in Hxm as [->|Hxm], Hy as [->|Hy]; [done| | |].
    + specialize (Hz y Hy). lia.
    + specialize (Hz x Hxm). lia.
    + by apply IH.
  - apply Sorted_StronglySorted; [intros ? ? ?; lia|apply sort_sorted].
  - clear Hp. induction Hm as [|z m Hm IH Hz]; constructor; [done|].
    eapply Forall_impl; [exact Hz|]. unfold by_generation. simpl. lia.
  - by rewrite sort_perm.
Qed.

Lemma trim_sealed l p : Forall (fun q => ps_sealed q = true) l -> trim_historical (l ++ [p]) = l ++ [p].
Proof.
  induction 1 as [|q l Hq Hl IH]; [done|]. cbn [app]. destruct (l ++ [p]) as [|r k] eqn:E;
    [by destruct l|]. cbn [trim_historical] in *. rewrite Hq. cbn [negb]. by rewrite IH.
Qed.

Lemma image_sealed R x : L = R ++ [x] -> Forall (fun y => ps_sealed (pt_state y) = true) R.
Proof.
  intros E. pose proof (im_open _ HL) as Ho. pose proof (im_sorted _ HL) as Hs. rewrite E in Ho, Hs.
  rewrite map_app in Hs. apply sorted_snoc_inv in Hs as [_ Hs]. rewrite Forall_forall in Ho. rewrite Forall_forall in Hs.
  apply Forall_forall. intros y Hy. destruct (ps_sealed (pt_state y)) eqn:Ey; [done|]. exfalso.
  destruct (Ho y ltac:(apply elem_of_app; by left) Ey) as [Hmax _].
  specialize (Hmax x ltac:(apply elem_of_app; right; by left)).
  specialize (Hs (pt_state y) ltac:(by apply list_elem_of_fmap_2)).
  unfold part_generation, by_generation in *. lia.
Qed.

Lemma catalogued s0 gens s : visited s0 (omap at_slot (seqZ 0 (vh_partition_count v))) gens s ->
  exists L', Forall2 reopened L L' /\ selected s = map pt_state L'.
Proof.
  intros [_ _ _ (ys'&H2&Hp) _ _].
  destruct (Permutation_Forall2 all_slots H2) as (L'&Hperm&HL'). exists L'. split; [done|].
  unfold selected. rewrite Hp, (sort_unique _ (map pt_state L'));
    [|by apply reopened_sorted|by apply Permutation_map].
  destruct L' as [|x' R' _] using rev_ind; [done|]. rewrite map_app. apply trim_sealed.
  apply Forall2_app_inv_r in HL' as (R&x&HR&Hx&E). inversion Hx as [|? ? ? ? Hxx Hx']; subst.
  inversion Hx'; subst. pose proof (image_sealed _ _ E) as Hse.
  clear -Hse HR. induction HR as [|y y' l l' Hy _ IH]; cbn; [constructor|].
  apply Forall_cons in Hse as [? ?]. constructor; [by rewrite (re_sealed _ _ Hy)|by apply IH].
Qed.

(** The slot loop finds all of them. *)
Lemma open_slots_catalogue s0 : stable s0 v o c -> rr_ok (storage s0) -> partitions s0 = [] ->
  corrupt_slots s0 = [] ->
  exists gens s1 L', open_slots (seqZ 0 (vh_partition_count v)) [] s0 = (Ok tt, s1) /\
    visited s0 (omap at_slot (seqZ 0 (vh_partition_count v))) gens s1 /\
    Forall2 reopened L L' /\ selected s1 = map pt_state L'.
Proof.
  intros Hs0 Hrr Hp0 Hc0. assert (Hvi0 : visited s0 [] [] s0).
  { split; [apply visiting_of_moved, moved_refl; apply Hs0|done|done|by exists []|constructor|].
    by intros ? ?%elem_of_nil. }
  assert (Hin : Forall (fun i => 0 <= i < vh_partition_count v) (seqZ 0 (vh_partition_count v)))
    by (apply Forall_forall; intros i Hi%elem_of_seqZ; lia).
  pose proof (open_slots_image s0 _ Hs0 [] [] s0 Hvi0 Hin (NoDup_seqZ _ _)) as Hlo.
  unfold wp in Hlo. destruct (open_slots _ _ s0) as [[[]|e] s1]; [|done].
  destruct Hlo as (gens&Hvi). destruct (catalogued _ _ _ Hvi) as (L'&HL'&Hsel).
  by exists gens, s1, L'.
Qed.
End Recover.

(** ** The store that [open] returns *)

Section Open.
Context {T : Type} `{!Storage T, !StorageModel T, !ReliableReads T}.
Variable now : nat -> Z.
Implicit Types s : Impl T.

(** The youngest partition is not sealed: [open] continues it. *)
Definition open_tail (L : list part) : bool :=
  match last L with Some x => negb (ps_sealed (pt_state x)) | None => false end.
(** Where the next partition goes otherwise. *)
Definition next_place (v : VolumeHeader) (L : list part) : Z * Z :=
  match last L with
  | Some x => (u32 (part_slot x + 1) mod vh_partition_count v, part_generation x + 1)
  | None => (0, 1)
  end.

Section Image.
Context (v : VolumeHeader) (o : OpenOptions) (c : bytes) (L L' : list part).
Context (Hg : geometry_ok v (len c)) (Hb : len c < 2 ^ 63) (Hok : bytes_ok c).
Context (HL : image v o c L) (HL' : Forall2 (reopened v o c) L L').

Lemma reopened_slots : map part_slot L' = map part_slot L.
Proof.
  clear HL. induction HL' as [|y y' l l' Hy Hll IH]; [done|]. cbn [map]. f_equal; [|exact (IH Hll)].
  apply (sid_slot _ _ (re_identity _ _ _ _ _ Hy)).
Qed.
Lemma reopened_stored : Forall (fun y => stored v o c (pt_state y) (pt_log y) (pt_raws y)) L'.
Proof. clear HL. induction HL' as [|y y' l l' Hy Hll IH]; constructor; [apply Hy|exact (IH Hll)]. Qed.
Lemma reopened_timed : Forall part_timed L'.
Proof.
  pose proof (im_times _ _ _ _ HL) as Ht. clear HL. induction HL' as [|y y' l l' Hy Hll IH]; [constructor|].
  apply Forall_cons in Ht as [Hty Ht]. constructor; [|exact (IH Hll Ht)].
  unfold part_timed in *. by rewrite (re_log _ _ _ _ _ Hy), (re_times _ _ _ _ _ Hy).
Qed.
Lemma reopened_last : match last L, last L' with
  | Some x, Some x' => reopened v o c x x'
  | None, None => True
  | _, _ => False
  end.
Proof.
  clear HL. induction HL' as [|y y' l l' Hy H IH]; [done|]. specialize (IH H).
  destruct H; [done|]. by rewrite !last_cons_cons.
Qed.
Lemma reopened_all_sealed : open_tail L = false -> Forall (fun y => ps_sealed (pt_state y) = true) L'.
Proof.
  intros Ht. assert (Hall : Forall (fun y => ps_sealed (pt_state y) = true) L).
  { unfold open_tail in Ht. destruct L as [|x R _] using rev_ind; [constructor|].
    rewrite last_snoc in Ht. apply negb_false_iff in Ht. apply Forall_app. split; [|by constructor].
    by apply (image_sealed v o c (R ++ [x]) HL R x). }
  clear HL Ht. induction HL' as [|y y' l l' Hy Hll IH]; [constructor|].
  apply Forall_cons in Hall as [Hs Hall]. constructor; [by rewrite (re_sealed _ _ _ _ _ Hy)|by apply IH].
Qed.

(** Continuing the youngest partition. *)
Lemma reopen_continue s R' x' : L' = R' ++ [x'] -> open_tail L = true -> stable s v o c ->
  corrupt_slots s = [] -> selected s = map pt_state L' ->
  index_within (select_state s) /\ (winv (select_state s) -> ring (select_state s) R' x').
Proof.
  intros E Ht [Hwf Hv Ho Hc] Hco Hsel. destruct (select_fields s) as (Es&Ev&Eo&_&_&Ep&_).
  pose proof reopened_last as Hl. pose proof reopened_stored as Hst. pose proof reopened_slots as Hsl.
  pose proof (reopened_sorted v o c L HL L' HL') as Hso. pose proof reopened_timed as Htm.
  unfold open_tail in Ht. destruct (last L) as [x|] eqn:Elast; [|done]. apply negb_true_iff in Ht.
  rewrite E in Hl, Hst, Hsl, Hso, Hsel, Htm. rewrite last_snoc in Hl.
  assert (Hxs : ps_sealed (pt_state x') = false) by (by rewrite (re_sealed _ _ _ _ _ Hl)).
  assert (Hlast : last (selected s) = Some (pt_state x')) 
    by (rewrite Hsel, map_app; cbn [map]; apply last_snoc).
  assert (Hact : active (select_state s) = Some (pt_state x')).
  { unfold active, is_active. rewrite Ep. unfold select_state. rewrite Hlast. simpl.
    apply find_newest; [|done..]. rewrite Hsel.
    clear -Hso. induction Hso as [|p l Hs IH Hp]; [constructor|]. cbn. apply NoDup_cons. split; [|done].
    rewrite Forall_forall in Hp. intros Hin. apply list_elem_of_fmap in Hin as (q&Eq&Hq).
    specialize (Hp q Hq). unfold by_generation in Hp. lia. }
  assert (Hxst := Hst). apply Forall_app in Hxst as [_ Hxst]. apply Forall_cons in Hxst as [Hxst _].
  split.
  - intros q Hq. rewrite Hact in Hq. injection Hq as <-. rewrite Ev, Hv.
    destruct (sr_open _ _ _ _ _ _ Hxst Hxs) as [-> _]. unfold entries_of. rewrite len_log_entries. apply Hxst.
  - intros Hw. split; rewrite ?Ev, ?Eo, ?Es, ?Hv, ?Ho, ?Hc; try assumption.
    + by rewrite Ep.
    + unfold select_state. rewrite Hlast. exact Hco.
    + unfold part_stored. rewrite Ev, Eo, Es, Hv, Ho, Hc. exact Hst.
    + by rewrite Ep, Hsel.
    + rewrite Hsl. apply HL.
    + assert (Hin : L = removelast L ++ [x]).
      { destruct L as [|z l _] using rev_ind; [done|]. rewrite last_snoc in Elast. injection Elast as ->.
        by rewrite removelast_last. }
      pose proof (image_sealed v o c L HL _ _ Hin) as Hse.
      assert (H2 : Forall2 (reopened v o c) (removelast L) R').
      { rewrite Hin, E in HL'. by apply Forall2_app_inv in HL' as [? _]; [|
          apply Forall2_length in HL'; rewrite !length_app in HL'; cbn in HL'; lia]. }
      clear -Hse H2. induction H2 as [|y y' l l' Hy _ IH]; [constructor|].
      apply Forall_cons in Hse as [? ?]. constructor; [by rewrite (re_sealed _ _ _ _ _ Hy)|by apply IH].
    + rewrite Hsl. apply HL.
    + pose proof (im_open _ _ _ _ HL) as Hop. rewrite Forall_forall in Hop.
      destruct (Hop x ltac:(by apply last_Some_elem_of) Ht) as (_&(e&He&Hio)&_). exists e.
      pose proof (re_identity _ _ _ _ _ Hl) as Hid.
      by rewrite (accept_footer_identity _ _ _ _ Hid), (sid_slot _ _ Hid).
Qed.

Lemma image_below : Forall (fun y => part_generation y < snd (next_place v L)) L'.
Proof.
  pose proof (reopened_sorted v o c L HL L' HL') as Hso. pose proof reopened_last as Hl.
  unfold next_place. destruct L' as [|x' R' _] using rev_ind; [constructor|].
  rewrite last_snoc in Hl. destruct (last L) as [x|]; [|done]. cbn [snd].
  pose proof (sid_generation _ _ (re_identity _ _ _ _ _ Hl)) as Eg. unfold part_generation.
  rewrite map_app in Hso. apply sorted_snoc_inv in Hso as [_ Hlt]. apply Forall_app. split.
  - apply Forall_forall. intros y Hy. rewrite Forall_forall in Hlt.
    specialize (Hlt (pt_state y) ltac:(by apply list_elem_of_fmap_2)). unfold by_generation in Hlt. lia.
  - constructor; [lia|constructor].
Qed.

(** Starting the next partition. *)
Lemma reopen_restart s s' slot g nxt : open_tail L = false -> stable s v o c ->
  corrupt_slots s = [] -> selected s = map pt_state L' -> (slot, g) = next_place v L ->
  wbase (select_state s) -> created slot g nxt (select_state s) s' -> winv s' ->
  0 <= slot < vh_partition_count v -> is_u64 g -> g <> 0 -> options_ok o nxt ->
  ring s' (List.filter (elsewhere slot) L') (fresh_part v slot g nxt).
Proof.
  intros Ht [Hwf Hv Ho Hc] Hco Hsel Hnp Hb1 Hcr Hw Hslot Hgu Hg0 Hopt.
  destruct (select_fields s) as (Es&Ev&Eo&_&_&Ep&_).
  assert (Hco' : corrupt_slots (select_state s) = [])
    by (unfold select_state; by destruct (last (selected s))).
  pose proof reopened_slots as Hsl. pose proof image_below as Hlt. rewrite <- Hnp in Hlt. cbn [snd] in Hlt.
  assert (Ev' : volume (select_state s) = v) by congruence.
  assert (Eo' : open_options (select_state s) = o) by congruence.
  assert (Ec' : contents (storage (select_state s)) = c) by congruence.
  rewrite <- Ev'. apply (ring_create (select_state s) L' slot g nxt s' s'); try done.
  - congruence.
  - unfold part_stored. rewrite Ev', Eo', Ec'. exact reopened_stored.
  - exact reopened_timed.
  - by apply reopened_all_sealed.
  - rewrite Ev', Eo', Ec', Hsl. apply HL.
  - by apply (reopened_sorted v o c L HL).
  - rewrite Hsl. apply HL.
  - by rewrite Ev'.
  - by rewrite Eo'.
Qed.
End Image.

(** The media [c] with the header of a new partition. *)
Definition begun (v : VolumeHeader) (slot g : Z) (o : PartitionOptions) (c : bytes) : bytes :=
  splice (partition_base v slot) (encode_partition_header (make_partition_header v slot g o)
    (vh_partition_size v) (vh_index_region_size v)) c.

(** The outcome of a writable [open] on the media of [L]. *)
Definition resumes (v : VolumeHeader) (o : OpenOptions) (c : bytes) (L : list part) s' : Prop :=
  if open_tail L then
    exists R' x', Forall2 (reopened v o c) L (R' ++ [x']) /\ ring s' R' x' /\ contents (storage s') = c
  else
    exists L', Forall2 (reopened v o c) L L' /\
      ring s' (List.filter (elsewhere (fst (next_place v L))) L')
        (fresh_part v (fst (next_place v L)) (snd (next_place v L)) (oo_next_partition o)) /\
      contents (storage s') = begun v (fst (next_place v L)) (snd (next_place v L)) (oo_next_partition o) c /\
      durable (storage s') = contents (storage s').

Section Body.
Context (v : VolumeHeader) (o : OpenOptions) (c : bytes) (L : list part) (s0 : Impl T).
Context (Hg : geometry_ok v (len c)) (Hb : len c < 2 ^ 63) (Hok : bytes_ok c).
Context (Hspan : worst_span v <= UINT32_MAX) (HL : image v o c L).
Context (Hs0 : stable s0 v o c) (Hrr : rr_ok (storage s0)) (Hb0 : wbase s0) (Hpr : pristine s0).
Context (Hp0 : partitions s0 = []) (Hc0 : corrupt_slots s0 = []) (Hwr : writable s0 = true).
Context (Hnx : next_options s0 = oo_next_partition o) (How : oo_writable o = true).

Lemma open_body_resumes r s' : open_body now s0 = (r, s') ->
  match r with
  | Ok _ => resumes v o c L s'
  | Err _ => open_tail L = false
  end.
Proof.
  intros Hrun. pose proof Hs0 as [Hwf Hv Ho Hc].
  pose proof (open_body_spec now s0 Hb0 Hpr Hp0 Hwr) as Hspec. rewrite Ho in Hspec.
  specialize (Hspec Hnx How). unfold wp in Hspec. rewrite Hrun in Hspec.
  unfold open_body, mbind, prog_bind, get in Hrun. cbn [fst] in Hrun. rewrite Hv in Hrun.
  destruct (open_slots_catalogue v o c Hg Hb Hok Hspan L HL s0 Hs0 Hrr Hp0 Hc0)
    as (gens&s1&L'&Eloop&Hvi&HL'&Hsel). rewrite Eloop, select_newest_eq in Hrun.
  pose proof (visited_stable _ _ _ _ _ _ _ _ Hs0 Hvi) as Hs1. pose proof (vi_corrupt _ _ _ _ _ _ _ _ Hvi) as Hco1.
  pose proof (vi_visiting _ _ _ _ _ _ _ _ Hvi) as Hvis.
  destruct (select_fields s1) as (Es&Ev&Eo&_&_&Ep&_&Hwb).
  specialize (Hwb (visiting_wbase _ _ Hvis Hb0)).
  pose proof Hs1 as [Hwf1 Hv1 Ho1 Hc1].
  assert (Hco' : corrupt_slots (select_state s1) = [])
    by (unfold select_state; by destruct (last (selected s1))).
  unfold start_writer, mbind, prog_bind, get in Hrun. rewrite Eo, Ho1, How, Hco' in Hrun.
  cbn [negb] in Hrun. change (negb (len (@nil Z) =? 0)) with false in Hrun. cbn iota in Hrun.
  rewrite Ep, Hsel, Ev, Hv1 in Hrun. pose proof (reopened_last v o c L L' HL') as Hl.
  assert (Hopt : options_ok o (oo_next_partition o)).
  { pose proof (w_next _ Hb0) as H. by rewrite Ho, Hnx in H. }
  pose proof (g_count _ _ Hg) as Hcnt.
  assert (Hcreate : forall slot g, (slot, g) = next_place v L -> open_tail L = false ->
    0 <= slot < vh_partition_count v -> is_u64 g -> g <> 0 ->
    create_partition now slot g (oo_next_partition o) (select_state s1) = (r, s') ->
    match r with Ok _ => resumes v o c L s' | Err _ => open_tail L = false end).
  { intros slot g Hnp Ht H1 H2 H3 Hcr. destruct r as [[]|]; [|done].
    assert (Hopt' : options_ok (open_options (select_state s1)) (oo_next_partition o)) by (by rewrite Eo, Ho1).
    assert (H1' : 0 <= slot < vh_partition_count (volume (select_state s1))) by (by rewrite Ev, Hv1).
    pose proof (create_partition_spec now slot g _ _ (w_st _ Hwb) (w_geo _ Hwb) H1' H3 Hopt') as Hx.
    unfold wp in Hx. rewrite Hcr in Hx.
    assert (Hw' : winv s').
    { eapply created_winv; try done; destruct (visiting_pristine _ _ Hvis Hpr) as [[P1 P2] P3 P4 P5 P6];
        unfold select_state; destruct (last (selected s1)); done. }
    unfold resumes. rewrite Ht. exists L'. split; [done|]. rewrite <- Hnp. cbn [fst snd].
    split; [by apply (reopen_restart v o c L L' HL HL' s1)|]. split; [|apply Hx].
    rewrite (cr_contents _ _ _ _ _ Hx), Ev, Hv1, Es, Hc1. done. }
  destruct (last L) as [x|] eqn:El.
  - destruct (last L') as [x'|] eqn:El'; [|done].
    assert (Hml : last (map pt_state L') = Some (pt_state x')).
    { destruct L' as [|z l _] using rev_ind; [done|]. rewrite last_snoc in El'. injection El' as ->.
      rewrite map_app. apply last_snoc. }
    rewrite Hml in Hrun. destruct (ps_sealed (pt_state x')) eqn:Hxs.
    + assert (Ht : open_tail L = false).
      { unfold open_tail. by rewrite El, <- (re_sealed _ _ _ _ _ Hl), Hxs. }
      destruct (Z.eqb_spec (ph_generation (ps_header (pt_state x'))) UINT64_MAX) as [|Hne].
      { injection Hrun as <- <-. exact Ht. }
      pose proof (sid_generation _ _ (re_identity _ _ _ _ _ Hl)) as Eg.
      pose proof (sid_slot _ _ (re_identity _ _ _ _ _ Hl)) as Esl.
      pose proof (re_stored _ _ _ _ _ Hl) as Hxst. pose proof (sr_generation _ _ _ _ _ _ Hxst) as Hpos.
      assert (Hgu : is_u64 (ph_generation (ps_header (pt_state x')))).
      { destruct (own_header v o c L HL x ltac:(by apply last_Some_elem_of)) as (h&Hacc&Hid).
        destruct (accept_header_ok v _ o (part_slot x) (slot_header v (part_slot x) c) h Hg)
          as [Hho _]; [| | |exact Hacc| |].
        - by apply Forall_slice.
        - destruct (slot_places v c Hg Hb (part_slot x)) as (?&?&?&?&?).
          { unfold part_slot. rewrite <- Esl. apply Hxst. }
          unfold slot_header. rewrite len_slice; unfold kPartitionHeaderEncodedSize; lia.
        - unfold part_slot. rewrite <- Esl. apply Hxst.
        - rewrite (sid_generation _ _ Hid), <- Eg. lia.
        - rewrite Eg, <- (sid_generation _ _ Hid). apply (ho_generation _ _ _ Hho). }
      unfold UINT64_MAX in Hne. rewrite u64_small in Hrun by zlia.
      eapply Hcreate; [|exact Ht|..|exact Hrun]; [|by apply (next_slot_range _ (len c))|zlia|lia].
      unfold next_place, part_slot, part_generation. by rewrite El, Eg, Esl.
    + injection Hrun as <- <-. cbn iota in Hspec.
      assert (Ht : open_tail L = true).
      { unfold open_tail. by rewrite El, <- (re_sealed _ _ _ _ _ Hl), Hxs. }
      destruct L' as [|z l _] using rev_ind; [done|]. rewrite last_snoc in El'. injection El' as ->.
      destruct (reopen_continue v o c L (l ++ [x']) HL HL' s1 l x' eq_refl Ht Hs1 Hco1 Hsel) as [Hiw Hring].
      unfold resumes. rewrite Ht. exists l, x'. split; [done|]. split; [|by rewrite Es].
      apply Hring. by apply (od_winv _ _ Hspec).
  - destruct L' as [|z l]; [|by destruct (last (z :: l)) eqn:Ez; [|apply last_None in Ez]].
    change (last (map pt_state [])) with (@None PartitionState) in Hrun. cbn iota in Hrun.
    assert (Ht : open_tail L = false) by (unfold open_tail; by rewrite El).
    eapply Hcreate; [|exact Ht|..|exact Hrun]; [unfold next_place; by rewrite El|lia|zlia|lia].
Qed.
End Body.

(** ** The whole of [open] *)

Lemma same_header_refl v : same_volume_header v v = true.
Proof. unfold same_volume_header. by rewrite !Z.eqb_refl. Qed.

Lemma read_copy_reliable off st : st_wf st -> rr_ok st -> 0 <= off ->
  off + kVolumeHeaderEncodedSize <= len (contents st) ->
  exists e st', read_exact off (View (zeroed kVolumeHeaderEncodedSize)) st =
    ((e, slice off kVolumeHeaderEncodedSize (contents st)), st') /\ status_ok e = true /\
    same_media st st' /\ rr_ok st'.
Proof.
  intros Hwf Hr Ho Hin. assert (Hz : len (zeroed kVolumeHeaderEncodedSize) = kVolumeHeaderEncodedSize) by done.
  pose proof (st_size_bound _ Hwf). rewrite (st_size_contents _ Hwf) in *.
  destruct (read_exact_reliable off (zeroed kVolumeHeaderEncodedSize) st Hwf Hr Ho ltac:(by rewrite Hz))
    as (buf&st'&e&E&He&Hr').
  destruct (read_exact_spec off (zeroed kVolumeHeaderEncodedSize) st Hwf Ho ltac:(rewrite Hz; lia))
    as (e2&b2&t2&E2&Hm&_&Hs). rewrite E in E2. injection E2 as <- <- <-.
  destruct (Hs He) as [_ ->]. rewrite Hz in E. by exists e, st'.
Qed.

(** The two copies of a header lie in the image. *)
Lemma copies_fit v backend : geometry_ok v backend -> 8192 <= backend.
Proof.
  intros Hg. pose proof (g_fits _ _ Hg). pose proof (g_backend _ _ Hg). pose proof (g_count _ _ Hg).
  pose proof (g_data _ _ Hg). pose proof (vh_wf_index_region_size _ (g_wf _ _ Hg)).
  pose proof (g_quantum _ _ Hg).
  unfold kVolumePrefixSize, kPartitionHeaderRegionSize, kPartitionFooterRegionSize in *.
  assert (0 <= vh_partition_count v * vh_partition_size v) by (apply Z.mul_nonneg_nonneg; zlia). lia.
Qed.

Lemma choose_same v e1 e2 i j c : status_ok e1 = true -> status_ok e2 = true ->
  header_copy i c = Ok v -> header_copy j c = Ok v ->
  choose_volume (e1, slice i kVolumeHeaderEncodedSize c) (e2, slice j kVolumeHeaderEncodedSize c) = Ok v.
Proof.
  unfold header_copy. generalize (slice i kVolumeHeaderEncodedSize c), (slice j kVolumeHeaderEncodedSize c).
  intros d1 d2 H1 H2 D1 D2. unfold choose_volume, copy_status. cbn [fst]. rewrite H1, H2, D1, D2. cbn [negb andb].
  by rewrite same_header_refl.
Qed.

(** The writer checks of [open]. *)
Definition open_identity (o : OpenOptions) (random : result (Z * Z)) : result (Z * Z) :=
  if oo_writable o then
    id ← writer_id o random; _ ← validate_partition_options o (oo_next_partition o); Ok id
  else Ok (0, 0).

(** [open] up to the slot loop. *)
Lemma open_prefix v o random st id :
  st_wf st -> rr_ok st -> (oo_writable o = true -> st_writable st = true) ->
  open_identity o random = Ok id -> geometry_ok v (st_size st) -> header_copy 0 (contents st) = Ok v ->
  header_copy kVolumeHeaderCopySize (contents st) = Ok v ->
  exists st2, same_media st st2 /\ rr_ok st2 /\
    open now o random st = match open_body now (initial_impl v o id st2) with
      | (Ok _, s) => (Ok s, storage s)
      | (Err status, s) => (Err status, storage s)
      end.
Proof.
  intros Hwf Hrr Hwr Hid Hg Hc1 Hc2. pose proof (st_size_contents _ Hwf) as Hsz.
  pose proof (copies_fit _ _ Hg) as Hfit.
  destruct (read_copy_reliable 0 st Hwf Hrr ltac:(lia)) as (e1&st1&E1&He1&Hm1&Hr1).
  { unfold kVolumeHeaderEncodedSize. lia. }
  assert (Hct1 : contents st1 = contents st) by apply Hm1.
  destruct (read_copy_reliable kVolumeHeaderCopySize st1) as (e2&st2&E2&He2&Hm2&Hr2);
    [apply Hm1|done|unfold kVolumeHeaderCopySize; lia|
     rewrite Hct1; unfold kVolumeHeaderCopySize, kVolumeHeaderEncodedSize; lia|].
  rewrite Hct1 in E2. pose proof (same_media_trans _ _ _ Hm1 Hm2) as Hm. exists st2.
  split; [exact Hm|]. split; [exact Hr2|]. unfold open.
  assert (Hro : oo_writable o && negb (st_writable st) = false)
    by (destruct (oo_writable o); [by rewrite Hwr|done]). rewrite Hro.
  rewrite E1, E2, (choose_same v _ _ _ _ _ He1 He2 Hc1 Hc2).
  assert (Hsz2 : st_size st2 = st_size st) by (apply st_size_eq; [exact Hwf|apply Hm|apply Hm]).
  rewrite Hsz2, (proj2 (validate_geometry_spec v (st_size st) (g_wf _ _ Hg)) Hg).
  unfold open_identity in Hid. by rewrite Hid.
Qed.

Lemma open_resumes v o random st L id r st' :
  st_wf st -> rr_ok st -> st_writable st = true -> open_arguments_ok o random ->
  writer_id o random = Ok id -> validate_partition_options o (oo_next_partition o) = Ok tt ->
  geometry_ok v (st_size st) -> worst_span v <= UINT32_MAX -> image v o (contents st) L ->
  open now o random st = (r, st') ->
  match r with
  | Ok s => resumes v o (contents st) L s /\ st' = storage s
  | Err _ => open_tail L = false
  end.
Proof.
  intros Hwf Hrr Hwr Ha Hid Hval Hg Hsp HL H. pose proof Ha as [How Hcod [Hpw Hpv] _ _].
  pose proof (st_size_contents _ Hwf) as Hsz. pose proof (st_size_bound _ Hwf) as Hb.
  destruct (rs_copies _ _ _ _ (im_rest _ _ _ _ HL)) as [Hc1 Hc2].
  assert (Hoi : open_identity o random = Ok id)
    by (unfold open_identity; rewrite How, Hid; cbn [mbind result_bind]; by rewrite Hval).
  destruct (open_prefix v o random st id Hwf Hrr (fun _ => Hwr) Hoi Hg Hc1 Hc2) as (st2&Hm&Hr2&E).
  rewrite H in E. clear H. destruct Hm as (Hwf2&Hct2&_).
  assert (Hsz2 : st_size st2 = st_size st) by (by apply st_size_eq).
  destruct id as [ih il]. destruct (writer_id_ok _ _ _ _ Ha Hid) as (?&?&?).
  assert (Hs0 : stable (initial_impl v o (ih, il) st2) v o (contents st)) by (by split).
  assert (Hb0 : wbase (initial_impl v o (ih, il) st2)).
  { split; cbn [storage volume open_options initial_impl next_options writer_id_high writer_id_low fst snd];
      [done|by rewrite Hsz2|done|done|by split_and!|by split_and!]. }
  assert (Hpr : pristine (initial_impl v o (ih, il) st2)) by (by split).
  destruct (open_body now _) as [r0 s1] eqn:Eb. rewrite Hsz in Hg, Hb.
  pose proof (open_body_resumes v o (contents st) L _ Hg Hb (st_bytes_ok _ Hwf) Hsp HL Hs0 Hr2 Hb0 Hpr
    eq_refl eq_refl How eq_refl How r0 s1 Eb) as Hx.
  destruct r0 as [[]|]; injection E as -> ->; [by split|done].
Qed.
End Open.

(** ** From a ring to its image *)

(** What [open] needs to know of the options is the codec registry. *)
Section Options.
Context (v : VolumeHeader) (o o' : OpenOptions).
Context (Hco : oo_compression_codecs o' = oo_compression_codecs o).

Lemma codec_for_same id version : codec_for o' id version = codec_for o id version.
Proof. unfold codec_for. by rewrite Hco. Qed.
Lemma validate_same p : validate_partition_options o' p = validate_partition_options o p.
Proof. unfold validate_partition_options. by rewrite codec_for_same. Qed.
Lemma accept_header_same slot d : accept_partition_header v o' slot d = accept_partition_header v o slot d.
Proof.
  unfold accept_partition_header. destruct (decode_partition_header d) as [h|]; cbn [mbind result_bind]; [|done].
  by rewrite validate_same.
Qed.
Lemma stored_same c p log raws : stored v o c p log raws -> stored v o' c p log raws.
Proof.
  intros [Hs (h&Ha&Hh) Hgn Hf Hr Hn Ho Hse]. split; try assumption.
  - exists h. by rewrite accept_header_same.
  - eapply Forall2_impl; [exact Hr|]. intros f raw. unfold decodes, decode_payload. by rewrite codec_for_same.
Qed.
Lemma rest_same c slots : rest_ok v o c slots -> rest_ok v o' c slots.
Proof.
  intros [Hc Hv]. split; [exact Hc|]. intros slot Hs Hn. specialize (Hv slot Hs Hn).
  unfold unclaimed in *. by rewrite accept_header_same.
Qed.
End Options.

(** No header of a block of this partition stands behind its last block. *)
Definition tail_clear (v : VolumeHeader) (p : PartitionState) (c : bytes) : bool :=
  let h := ps_header p in
  match decode_block_header
    (slice (partition_base v (ph_slot h) + ps_data_end p) kBlockHeaderEncodedSize c) with
  | Ok b => negb ((bh_generation b =? ph_generation h) && (bh_slot b =? ph_slot h))
  | Err _ => true
  end.

Lemma clear_ends v p c log : ps_data_end p = end_of log -> tail_clear v p c = true ->
  chain_ends v (ps_header p) c log.
Proof.
  intros He H f Hf. destruct (frames_last _ _ _ _ _ _ _ _ _ Hf) as (sq&wh&wl&[Hd _ _ Hb _]).
  fold (end_of log) in Hd. unfold tail_clear in H. rewrite He, Hd in H. unfold block_bad in Hb. lia.
Qed.

Lemma reopened_abstract v o c L L' : Forall2 (reopened v o c) L L' ->
  map abstract_part L' = map abstract_part L.
Proof.
  induction 1 as [|y y' l l' Hy _ IH]; [done|]. cbn [map]. f_equal; [|exact IH].
  destruct Hy as [[E1 E2 _] _ _ E3 E4 _]. unfold abstract_part, part_slot, part_generation.
  by rewrite E1, E2, E3, E4.
Qed.

Section RingImage.
Context {T : Type} `{!Storage T, !StorageModel T}.
Implicit Types s : Impl T.

Lemma ring_image s R x o : ring s R x ->
  oo_compression_codecs o = oo_compression_codecs (open_options s) ->
  tail_clear (volume s) (pt_state x) (contents (storage s)) = true ->
  image (volume s) o (contents (storage s)) (R ++ [x]) /\ open_tail (R ++ [x]) = true.
Proof.
  intros Hr Hco Ht. destruct (ring_part _ _ _ Hr) as [Hx _].
  destruct (sr_open _ _ _ _ _ _ Hx (rg_open _ _ _ Hr)) as [_ He].
  split; [|unfold open_tail; by rewrite last_snoc, (rg_open _ _ _ Hr)].
  split; try apply Hr.
  - eapply Forall_impl; [apply (rg_stored _ _ _ Hr)|]. intros y Hy. by apply (stored_same _ (open_options s)).
  - rewrite <- (rg_parts _ _ _ Hr). apply Hr.
  - apply Forall_app. split.
    + eapply Forall_impl; [apply (rg_sealed _ _ _ Hr)|]. intros y Hy Hs. congruence.
    + constructor; [|constructor]. intros _. split; [|split; [apply Hr|by apply clear_ends]].
      pose proof (rg_sorted _ _ _ Hr) as Hs. rewrite (rg_parts _ _ _ Hr), map_app in Hs.
      apply sorted_snoc_inv in Hs as [_ Hs]. rewrite Forall_forall in Hs.
      intros z [Hz|Hz]%elem_of_app; [|by apply list_elem_of_singleton in Hz as ->].
      specialize (Hs (pt_state z) ltac:(by apply list_elem_of_fmap_2)). unfold by_generation in Hs.
      unfold part_generation. lia.
  - eapply rest_same; [exact Hco|apply Hr].
Qed.
End RingImage.
