(* ===== verification/RingReadOnly.v ===== *)
(** * Read-only stores

    A read-only [open] of the media of a ring catalogues every partition, and
    a query over such a catalog shows exactly its blocks. [catalogued_store]
    is what a reader relies on; a writer's store and a read-only one both
    provide it. *)

From Stdlib Require Import Sorted Permutation.
From S2P Require Import Prelude Status Hoare Crc32c Layout Format FormatFacts Codec Storage.
From S2P Require Import RingTypes RingWriter RingReader RingOpen RingRules RingGeometry RingInv.
From S2P Require Import RingHealth RingWriterFacts RingCalls RingDisk RingScan RingLog RingRead.
From S2P Require Import RingCrash RingStored RingQuery RingWhole RingVolume.
From S2P Require Import RingOpenFacts RingReopen.

Section Catalog.
Context {T : Type} `{!Storage T, !StorageModel T}.
Implicit Types s : Impl T.

(** The catalog of [s] is [L], oldest first, and all of it is on the media. *)
Record catalogued_store s (L : list part) : Prop := {
  cs_wf : st_wf (storage s);
  cs_geometry : geometry_ok (volume s) (len (contents (storage s)));
  cs_span : worst_span (volume s) <= UINT32_MAX;
  cs_parts : partitions s = map pt_state L;
  cs_corrupt : corrupt_slots s = [];
  cs_sorted : StronglySorted by_generation (map pt_state L);
  cs_stored : Forall (part_stored s) L }.

Lemma ring_catalogued s R x : ring s R x -> catalogued_store s (R ++ [x]).
Proof.
  intros Hr. destruct (ring_facts _ _ _ Hr) as (Hg&Hb&Hsz&Hok&Hsp). rewrite Hsz in Hg.
  pose proof (w_st _ (w_base _ (rg_winv _ _ _ Hr))). pose proof (rg_sorted _ _ _ Hr) as Hso.
  rewrite (rg_parts _ _ _ Hr) in Hso. split; try assumption; apply Hr.
Qed.

Section Query.
Context `{!ReliableReads T} {V : Type} (visitor : BlockEvent -> V -> bool * V).

Lemma query_catalogued all_blocks range options s u L :
  catalogued_store s L -> rr_ok (storage s) ->
  all_blocks = true \/ (tr_begin_ns range < tr_end_ns range /\ tr_time_domain_id range <> 0) ->
  exists s', moved s s' /\ query visitor all_blocks range options s u =
    (Status_Ok, (s', snd (visit_all visitor (ring_events (volume s) all_blocks range L) u))).
Proof.
  intros [Hwf Hg Hsp Hp Hc Hso Hst] Hrr Hq.
  assert (Hb : len (contents (storage s)) < 2 ^ 63)
    by (rewrite <- (st_size_contents _ Hwf); by apply st_size_bound).
  assert (Hs : stable s (volume s) (open_options s) (contents (storage s))) by (by split).
  destruct (partitions_spec visitor _ _ _ Hg Hb (st_bytes_ok _ Hwf) Hsp all_blocks range options L
    Hst s u Hs Hrr) as (s'&Hm&E). exists s'. split; [done|].
  unfold query, query_body.
  assert (H1 : negb all_blocks && (tr_end_ns range <=? tr_begin_ns range) = false)
    by (destruct all_blocks, Hq as [?|[? ?]]; simpl; lia || done).
  assert (H2 : negb all_blocks && (tr_time_domain_id range =? 0) = false)
    by (destruct all_blocks, Hq as [?|[? ?]]; simpl; lia || done).
  rewrite H1, H2. unfold mbind, prog_bind, get. cbv zeta. cbn [fst].
  rewrite Hp, (sort_of_sorted _ Hso), Hc.
  cbn [report_corrupt_slots mret prog_ret]. rewrite E.
  destruct (visit_all _ _ u) as [[] u']; done.
Qed.
End Query.

(** The blocks of a catalog in the order a scan shows them. *)
Lemma scan_blocks_data v range s L : Forall (part_stored s) L ->
  map be_data (ring_events v true range L) = concat (map pt_raws L).
Proof.
  intros Hst. unfold ring_events. induction L as [|y L IH]; [done|]. apply Forall_cons in Hst as [Hy HL].
  cbn [map concat]. rewrite map_app, IH by done. f_equal.
  apply sr_raws in Hy. destruct y as [p log raws times]. cbn [pt_state pt_log pt_raws] in *.
  unfold part_events, in_domain. cbn [orb pt_state pt_log pt_raws]. clear -Hy.
  revert Hy. generalize kPartitionHeaderRegionSize. revert raws.
  induction log as [|f log IH]; intros raws off H; inversion H; subst; [done|].
  cbn. f_equal. by apply IH.
Qed.

(** Every event of a ring is a block. *)
Lemma ring_events_data v all_blocks range L :
  Forall (fun e => be_kind e = ev_data /\ be_detail e = Status_Ok) (ring_events v all_blocks range L).
Proof.
  unfold ring_events. apply Forall_concat, Forall_forall. intros es Hes.
  apply list_elem_of_fmap in Hes as (y&->&_). unfold part_events. destruct (in_domain _ _ _); [|constructor].
  apply Forall_forall. intros e He. apply list_elem_of_In, List.filter_In in He as [He _].
  revert He. generalize kPartitionHeaderRegionSize. generalize (pt_raws y). generalize (pt_log y).
  intros log. induction log as [|f log IH]; intros [|r raws] off; cbn; try done.
  intros [<-|He]; [done|by eapply IH].
Qed.
End Catalog.

Section ReadOnly.
Context {T : Type} `{!Storage T, !StorageModel T, !ReliableReads T}.
Variable now : nat -> Z.

(** A read-only [open] of the media of a ring. *)
Lemma open_readonly v o random (st : T) L :
  st_wf st -> rr_ok st -> oo_writable o = false -> geometry_ok v (st_size st) ->
  worst_span v <= UINT32_MAX -> image v o (contents st) L ->
  exists s L', open now o random st = (Ok s, storage s) /\ catalogued_store s L' /\
    Forall2 (reopened v o (contents st)) L L' /\ volume s = v /\ rr_ok (storage s) /\
    contents (storage s) = contents st.
Proof.
  intros Hwf Hrr Hro Hg Hsp HL. pose proof (st_size_contents _ Hwf) as Hsz.
  pose proof (st_size_bound _ Hwf) as Hb.
  destruct (rs_copies _ _ _ _ (im_rest _ _ _ _ HL)) as [Hc1 Hc2].
  assert (Hoi : open_identity o random = Ok (0, 0)) by (unfold open_identity; by rewrite Hro).
  destruct (open_prefix now v o random st (0, 0) Hwf Hrr ltac:(by rewrite Hro) Hoi Hg Hc1 Hc2)
    as (st2&Hm&Hr2&E). destruct Hm as (Hwf2&Hct2&_).
  set (s0 := initial_impl v o (0, 0) st2) in E.
  assert (Hs0 : stable s0 v o (contents st)) by (by split). rewrite Hsz in Hg, Hb.
  destruct (open_slots_catalogue v o (contents st) Hg Hb (st_bytes_ok _ Hwf) Hsp L HL s0 Hs0 Hr2
    eq_refl eq_refl) as (gens&s1&L'&Eloop&Hvi&HL'&Hsel).
  pose proof (visited_stable _ _ _ _ _ _ _ _ Hs0 Hvi) as [Hwf1 Hv1 Ho1 Hc1'].
  destruct (select_fields s1) as (Es&Ev&Eo&_&_&Ep&_).
  unfold open_body, mbind, prog_bind, get in E. change (volume s0) with v in E.
  rewrite Eloop, select_newest_eq in E. unfold start_writer, mbind, prog_bind, get in E.
  rewrite Eo, Ho1, Hro in E. cbn [negb mret prog_ret] in E.
  exists (select_state s1), L'. split; [exact E|].
  assert (Hco : corrupt_slots (select_state s1) = []).
  { pose proof (vi_corrupt _ _ _ _ _ _ _ _ Hvi). unfold select_state. by destruct (last (selected s1)). }
  split; [split|]; rewrite ?Es, ?Ev, ?Hv1, ?Hc1'; try assumption.
  - by rewrite Ep.
  - by apply (reopened_sorted v o (contents st) L HL).
  - unfold part_stored. rewrite Ev, Eo, Es, Hv1, Ho1, Hc1'. exact (reopened_stored v o (contents st) L L' HL').
  - split_and!; try done. apply (vi_reads _ _ _ _ _ _ _ _ Hvi).
Qed.
End ReadOnly.

(** ** The media a checkpoint leaves *)

(** The bytes of every block of an abstract volume, in the order of a scan. *)
Definition volume_blocks (a : avol) : list bytes :=
  concat (map (fun p => map ab_data (ap_blocks p)) (av_old a ++ [av_cur a])).

Section Settled.
Context {T : Type} `{!Storage T, !StorageModel T}.
Implicit Types s : Impl T.

(** What [open] finds behind a checkpoint: [L] on the durable image. *)
Record settled_media s a o (L : list part) : Prop := {
  sm_image : image (volume s) o (durable (storage s)) L;
  sm_tail : open_tail L = true;
  sm_geometry : geometry_ok (volume s) (len (durable (storage s)));
  sm_span : worst_span (volume s) <= UINT32_MAX;
  sm_volume : map abstract_part L = av_old a ++ [av_cur a];
  sm_pending : av_pending a = mkAblock [] [] }.

Lemma checkpoint_media now s s1 a o : vrefines s a -> clean s -> checkpoint now s = (Ok tt, s1) ->
  oo_compression_codecs o = oo_compression_codecs (open_options s1) ->
  (forall p, active s1 = Some p -> tail_clear (volume s1) p (durable (storage s1)) = true) ->
  exists L, settled_media s1 (vpublish a) o L.
Proof.
  intros Hr Hcl H Hco Htail. pose proof Hr as (R0&x0&Hr0&_).
  pose proof (checkpoint_spec now s (rg_winv _ _ _ Hr0)) as Hx. unfold wp in Hx. rewrite H in Hx.
  pose proof (sd_durable _ _ Hx Hcl) as Hd.
  destruct (vrefines_settled _ _ _ Hx Hr) as (R&x&Hring&Hold&Hcur&Hpend).
  rewrite Hd in Htail. specialize (Htail _ (rg_active _ _ _ Hring)).
  destruct (ring_image _ _ _ o Hring Hco Htail) as [Him Htl].
  destruct (ring_facts _ _ _ Hring) as (Hg&_&Hsz&_&Hsp). rewrite Hsz in Hg.
  exists (R ++ [x]). split; try rewrite Hd; try assumption.
  - rewrite map_app, Hold, Hcur. done.
  - exact (pends_nil_inv _ _ (sd_builder _ _ Hx) Hpend).
Qed.

(** The blocks of the reopened partitions are those of the volume. *)
Lemma reopened_blocks v o c L L' a : Forall2 (reopened v o c) L L' -> Forall part_timed L' ->
  Forall (fun y => stored v o c (pt_state y) (pt_log y) (pt_raws y)) L' ->
  map abstract_part L = av_old a ++ [av_cur a] -> concat (map pt_raws L') = volume_blocks a.
Proof.
  intros H2 Ht Hs Ha. unfold volume_blocks. rewrite <- Ha, <- (reopened_abstract _ _ _ _ _ H2), map_map.
  f_equal. apply map_ext_in. intros y Hy%list_elem_of_In. unfold abstract_part. cbn [ap_blocks].
  rewrite Forall_forall in Ht. rewrite Forall_forall in Hs.
  pose proof (Forall2_length _ _ _ (sr_raws _ _ _ _ _ _ (Hs y Hy))) as E1.
  pose proof (Forall2_length _ _ _ (Ht y Hy)) as E2.
  assert (E : length (pt_raws y) = length (pt_times y)) by congruence. clear -E. revert E.
  generalize (pt_times y). induction (pt_raws y) as [|r rs IH]; intros [|t ts] E; try done.
  cbn in *. f_equal. apply IH. congruence.
Qed.

(** A read-only [open] of the image, and what a scan of the result shows. *)
Lemma settled_scan {T' V} `{!Storage T', !StorageModel T', !ReliableReads T'} now' (s : Impl T) a o L
    random (st : T') (visitor : BlockEvent -> V -> bool * V) options u :
  settled_media s a o L -> oo_writable o = false -> st_wf st -> rr_ok st ->
  contents st = durable (storage s) ->
  exists (s2 s3 : Impl T') es, open now' o random st = (Ok s2, storage s2) /\
    scan_blocks visitor options s2 u = (Status_Ok, (s3, snd (visit_all visitor es u))) /\
    moved s2 s3 /\ Forall (fun e => be_kind e = ev_data /\ be_detail e = Status_Ok) es /\
    map be_data es = volume_blocks a.
Proof.
  intros [Him Htl Hg Hsp Ha _] Hro Hwf Hrr Hc. rewrite <- Hc in Him, Hg.
  rewrite <- (st_size_contents _ Hwf) in Hg.
  destruct (open_readonly now' (volume s) o random st L Hwf Hrr Hro Hg Hsp Him)
    as (s2&L'&Eo&Hcs&H2&Hv&Hr2&_).
  destruct (query_catalogued visitor true TimeRange_default options s2 u L' Hcs Hr2 ltac:(by left))
    as (s3&Hm&Eq). exists s2, s3, (ring_events (volume s2) true TimeRange_default L').
  split; [exact Eo|]. split; [exact Eq|]. split; [exact Hm|]. split; [apply ring_events_data|].
  rewrite (scan_blocks_data _ _ s2) by apply Hcs.
  eapply reopened_blocks; [exact H2| | |exact Ha].
  - by apply (reopened_timed (volume s) o (contents st) L L' Him H2).
  - by apply (reopened_stored (volume s) o (contents st) L L' H2).
Qed.
End Settled.
