(* ===== verification/RingLife.v ===== *)
(** * Opening a volume for writing

    What a successful writable [open] gives: nothing pending, and on media
    without partitions the empty abstract volume. *)

From S2P Require Import Prelude Status Hoare Crc32c Layout Format FormatFacts Codec Storage.
From S2P Require Import RingTypes RingWriter RingReader RingOpen RingRules RingGeometry RingInv.
From S2P Require Import RingHealth RingWriterFacts RingCalls RingDisk RingScan RingLog RingRead.
From S2P Require Import RingCrash RingStored RingQuery RingWhole RingVolume RingOpenFacts.
From S2P Require Import RingReopen.

(** A writable [open] that returned [Ok] holds no pending records. *)
Lemma opened_pends {T} `{!Storage T, !StorageModel T, !ReliableReads T} now o random (st st' : T)
    (s : Impl T) v : st_wf st -> open_arguments_ok o random ->
  header_copy 0 (contents st) = Ok v -> header_copy kVolumeHeaderCopySize (contents st) = Ok v ->
  worst_span v <= UINT32_MAX ->
  open now o random st = (Ok s, st') -> pends s (mkAblock [] []).
Proof.
  intros Hwf Ha H0 H1 Hsp H. destruct (open_spec now o random st s st' Hwf Ha H) as (_&s0&Hst&Hop).
  destruct Hst as (w&id&st0&->&_&Hw&_). assert (w = v) as -> by (destruct Hw; congruence).
  apply pends_nil. apply (pr_builder _ (od_pristine _ _ (Hop Hsp))).
Qed.

(** The arguments with which a volume is opened for writing. *)
Definition open_ready (o : OpenOptions) (random : result (Z * Z)) : Prop :=
  open_arguments_ok o random /\ is_ok (writer_id o random) = true /\
  validate_partition_options o (oo_next_partition o) = Ok tt.

(** A volume without partitions opens as the empty one. *)
Lemma open_blank_volume {T} `{!Storage T, !StorageModel T, !ReliableReads T} now v o random
    (st st' : T) (s : Impl T) :
  st_wf st -> rr_ok st -> st_writable st = true -> open_ready o random ->
  geometry_ok v (st_size st) -> worst_span v <= UINT32_MAX ->
  header_copy 0 (contents st) = Ok v -> header_copy kVolumeHeaderCopySize (contents st) = Ok v ->
  (forall slot, 0 <= slot < vh_partition_count v -> unclaimed v o slot (contents st) = true) ->
  open now o random st = (Ok s, st') ->
  vrefines s (mkAvol [] (mkApart 0 1 []) (mkAblock [] [])).
Proof.
  intros Hwf Hrr Hw (Ha&Hi&Hval) Hg Hsp C0 C1 Hvac Ho.
  assert (Him : image v o (contents st) []).
  { split; try constructor; [by split|]. intros slot Hslot _. by apply Hvac. }
  destruct (writer_id o random) as [wid|] eqn:Ei; [|done].
  pose proof (open_resumes now _ _ _ _ _ _ _ _ Hwf Hrr Hw Ha Ei Hval Hg Hsp Him Ho) as [Hres _].
  destruct Hres as (L'&H2&Hring&_). apply Forall2_nil_inv_l in H2 as ->.
  exists [], (fresh_part v 0 1 (oo_next_partition o)). split; [exact Hring|]. split; [done|]. split; [done|].
  eapply opened_pends; [exact Hwf|exact Ha|exact C0|exact C1|exact Hsp|exact Ho].
Qed.
