(* ===== verification/RingSample.v ===== *)
(** * A concrete volume

    A freshly formatted two-partition volume in memory, opened for writing,
    evaluated by the kernel; the inputs the properties are instantiated at. *)

From S2P Require Import Prelude Status Hoare Crc32c Layout Format FormatFacts Codec PackBitsFacts.
From S2P Require Import Lz4 Lz4Facts Storage MemoryStorage MemoryStorageFacts RingTypes.
From S2P Require Import RingWriter RingReader RingOpen RingRules RingGeometry RingInv RingHealth.
From S2P Require Import RingWriterFacts RingCalls RingDisk RingScan RingLog RingRefine RingRead.
From S2P Require Import RingCrash RingStored RingQuery RingWhole RingVolume RingOpenFacts.
From S2P Require Import RingFormatFacts RingReopen.
From Stdlib Require Import Sorted.

Definition sample_volume_options : VolumeOptions :=
  mkVolumeOptions 9728 512 384 512 0 0 false 7.
Definition sample_partition_options : PartitionOptions :=
  mkPartitionOptions CompressionId_packbits 1 0 0 1 (-1) (-1).
Definition sample_open_options : OpenOptions :=
  mkOpenOptions true false sample_partition_options [] 0 0 false.
Definition sample_random : result (Z * Z) := Ok (11, 12).
Definition sample_clock (i : nat) : Z := 100 * Z.of_nat i.

Definition sample_formatted : MemoryStorage.t :=
  snd (format sample_volume_options sample_random (MemoryStorage.make 27648 true)).

Definition sample_opened : result (Impl MemoryStorage.t) * MemoryStorage.t :=
  open sample_clock sample_open_options sample_random sample_formatted.

Strategy expand [sample_opened].

Definition opened_store (r : result (Impl MemoryStorage.t)) : Impl MemoryStorage.t :=
  match r with
  | Ok s => s
  | Err _ => initial_impl (mkVolumeHeader 0 0 0 0 0 0 0 0 0) sample_open_options (0, 0)
               (MemoryStorage.make 0 true)
  end.
Definition sample_store : Impl MemoryStorage.t := opened_store (fst sample_opened).

Definition is_Ok {A} (r : result A) : bool := match r with Ok _ => true | Err _ => false end.
Lemma sample_opens : is_Ok (fst sample_opened) = true.
Proof. vm_compute. reflexivity. Qed.

Definition sample_header : VolumeHeader := mkVolumeHeader 11 12 27648 9728 2 512 384 512 7.

Lemma sample_blank_wf : st_wf (MemoryStorage.make 27648 true).
Proof. apply (MemoryFacts.ci_wf _), MemoryFacts.make_inv. lia. Qed.

Lemma sample_options_wf : VolumeOptions_wf sample_volume_options.
Proof. split; vm_compute; split; congruence. Qed.
Lemma sample_random_ok : random_id_ok sample_random.
Proof. vm_compute. split_and!; try congruence. by intros [? _]. Qed.

Lemma sample_partition_ok : partition_arguments_ok sample_partition_options.
Proof. split; [split; vm_compute; split; congruence|discriminate]. Qed.

Lemma sample_open_ok : open_arguments_ok sample_open_options sample_random.
Proof.
  split; [done|constructor|apply sample_partition_ok|split; vm_compute; split; congruence|].
  apply sample_random_ok.
Qed.

Lemma sample_format_ok : status_ok (fst (format sample_volume_options sample_random
  (MemoryStorage.make 27648 true))) = true.
Proof. vm_compute. reflexivity. Qed.

Lemma sample_formatted_wf : st_wf sample_formatted /\ st_size sample_formatted = 27648.
Proof.
  destruct (format_spec sample_volume_options sample_random (MemoryStorage.make 27648 true)
    sample_formatted _ sample_blank_wf sample_options_wf sample_random_ok (surjective_pairing _)
    sample_format_ok) as (v&_&_&Hwf&_). split; [done|]. vm_compute. reflexivity.
Qed.

Lemma opened_store_eq (r : result (Impl MemoryStorage.t) * MemoryStorage.t) :
  is_Ok (fst r) = true -> r = (Ok (opened_store (fst r)), snd r).
Proof. by destruct r as [[] ?]. Qed.

Lemma sample_open_eq : sample_opened = (Ok sample_store, snd sample_opened).
Proof. exact (opened_store_eq _ sample_opens). Qed.

Lemma sample_store_volume : volume sample_store = sample_header.
Proof. vm_compute. reflexivity. Qed.

Lemma sample_started : exists s0, starts sample_open_options sample_formatted s0 /\
  opened s0 sample_store /\ volume s0 = sample_header.
Proof.
  destruct (open_spec sample_clock sample_open_options sample_random sample_formatted sample_store
    (snd sample_opened) (proj1 sample_formatted_wf) sample_open_ok sample_open_eq)
    as (_&s0&Hs&Ho). pose proof Hs as (v&id&st0&->&_&Hc&_).
  assert (Hv : v = sample_header).
  { destruct Hc as [Hc|Hc]; vm_compute in Hc; injection Hc; intros; subst; reflexivity. }
  subst v. exists (initial_impl sample_header sample_open_options id st0).
  split; [done|]. split; [|done]. apply Ho. vm_compute. congruence.
Qed.

Lemma sample_index_within : index_within sample_store.
Proof.
  intros p Hp. assert (H : option_map (fun p => len (ps_active_index p)) (active sample_store) = Some 0)
    by (vm_compute; reflexivity).
  rewrite Hp in H. simpl in H. injection H as ->. vm_compute. congruence.
Qed.

Lemma sample_winv : winv sample_store.
Proof. destruct sample_started as (s0&_&Ho&_). apply (od_winv _ _ Ho), sample_index_within. Qed.

Lemma sample_writable : writable sample_store = true /\ closed sample_store = false /\
  faulted sample_store = false.
Proof. split_and!; vm_compute; reflexivity. Qed.

(** Slot 0 of the formatted image holds no partition. *)
Lemma sample_slot_blank : is_Ok (accept_partition_header sample_header sample_open_options 0
  (slice (partition_base sample_header 0) kPartitionHeaderEncodedSize (contents sample_formatted))) =
  false.
Proof. vm_compute. reflexivity. Qed.
Lemma sample_active_slot :
  option_map (fun p => ph_slot (ps_header p)) (active sample_store) = Some 0.
Proof. vm_compute. reflexivity. Qed.

Lemma sample_no_header c p : c = contents sample_formatted -> active sample_store = Some p ->
  ~ header_at sample_header sample_open_options c (ps_header p).
Proof.
  intros -> Ha (h&Hacc&_). pose proof sample_active_slot as Hs. rewrite Ha in Hs. injection Hs as Hs.
  rewrite Hs in Hacc. pose proof sample_slot_blank as Hb. rewrite Hacc in Hb. discriminate Hb.
Qed.

(** The new store is the empty log. *)
Lemma sample_refines : refines sample_store afresh.
Proof.
  destruct sample_started as (s0&Hs&Ho&Hv). split; [apply sample_winv|].
  split; [apply (pr_builder _ (od_pristine _ _ Ho))|].
  destruct (od_active _ _ Ho) as [[_ (p&Hl)]|[Hc (p&log&Ha&Hh&_)]]; [by exists p, []|exfalso].
  destruct Hs as (v&id&st0&->&Hm&_). rewrite Hv in Hh.
  cbn [initial_impl open_options storage] in Hh. destruct Hm as (_&Hm&_).
  exact (sample_no_header (contents st0) p Hm Ha Hh).
Qed.

(** After some traffic: one record pending, then published. *)
Definition sample_record : ByteView := View [1; 2; 3; 3; 3; 3; 3; 3].
Definition sample_call : call := call_append sample_record 5 0.
Definition sample_appended : Impl MemoryStorage.t := snd (run_call sample_clock sample_call sample_store).

Lemma sample_call_ok : call_ok sample_call.
Proof. split; [repeat constructor; vm_compute; congruence|vm_compute; split; congruence]. Qed.
Lemma sample_append_ok : is_Ok (fst (run_call sample_clock sample_call sample_store)) = true.
Proof. vm_compute. reflexivity. Qed.

Lemma ok_result {A} (r : result unit * A) : is_Ok (fst r) = true -> r = (Ok tt, snd r).
Proof. by destruct r as [[[]|] ?]. Qed.
Lemma sample_append_eq : run_call sample_clock sample_call sample_store = (Ok tt, sample_appended).
Proof. exact (ok_result _ sample_append_ok). Qed.

Lemma run_call_append now r t f (s : Impl MemoryStorage.t) :
  append_impl now r t f None s = run_call now (call_append r t f) s.
Proof. reflexivity. Qed.
Lemma sample_append_impl_eq :
  append_impl sample_clock sample_record 5 0 None sample_store = (Ok tt, sample_appended).
Proof. rewrite run_call_append. exact sample_append_eq. Qed.

Lemma first_append now r t f (s s' : Impl MemoryStorage.t) :
  refines s afresh -> call_ok (call_append r t f) -> writable s = true -> closed s = false ->
  view_size r <= vh_max_block_payload (volume s) ->
  run_call now (call_append r t f) s = (Ok tt, s') -> refines s' (mkAlog [] (view_data r)).
Proof.
  intros Hr Hok Hw Hc Hv E. pose proof (run_call_refines now _ _ _ Hr Hok Hw Hc) as H.
  unfold wp in H. rewrite E in H. destruct H as (l'&Hst&Hr'). inversion Hst as [? ? ? ? l1 Hro| | | | | |].
  subst. unfold aroom in Hro. cbn [a_pending afresh] in Hro.
  rewrite (proj2 (Z.ltb_ge _ _)) in Hro by (rewrite len_nil; lia).
  destruct Hro as [->|[_ ->]]; exact Hr'.
Qed.
Lemma sample_appended_refines : refines sample_appended (mkAlog [] (view_data sample_record)).
Proof.
  destruct sample_writable as (Hw&Hc&_).
  apply (first_append sample_clock sample_record 5 0 sample_store);
    [exact sample_refines|exact sample_call_ok|exact Hw|exact Hc| |exact sample_append_eq].
  rewrite sample_store_volume. vm_compute. congruence.
Qed.

Lemma sample_appended_open : writable sample_appended = true /\ closed sample_appended = false /\
  faulted sample_appended = false.
Proof. split_and!; vm_compute; reflexivity. Qed.

Lemma sample_clean : clean sample_store.
Proof.
  destruct sample_started as (s0&Hs&Ho&Hv). intros _ _.
  destruct (od_active _ _ Ho) as [[Hd _]|[Hc (p&log&Ha&Hh&_)]]; [exact Hd|exfalso].
  destruct Hs as (v&id&st0&->&Hm&_). rewrite Hv in Hh.
  cbn [initial_impl open_options storage] in Hh. destruct Hm as (_&Hm&_).
  exact (sample_no_header (contents st0) p Hm Ha Hh).
Qed.
Lemma call_clean now c (s : Impl MemoryStorage.t) : winv s -> call_ok c -> clean s ->
  winv (snd (run_call now c s)) /\ clean (snd (run_call now c s)).
Proof.
  intros Hw Hok Hc. pose proof (run_call_winv now c s Hw Hok) as H. unfold wp in H.
  destruct (run_call now c s) as [[] ?]; destruct H; auto.
Qed.
Lemma sample_appended_clean : clean sample_appended.
Proof. exact (proj2 (call_clean _ _ _ sample_winv sample_call_ok sample_clean)). Qed.

Definition sample_settled : Impl MemoryStorage.t := snd (checkpoint sample_clock sample_appended).
Lemma sample_checkpoint_ok : is_Ok (fst (checkpoint sample_clock sample_appended)) = true.
Proof. vm_compute. reflexivity. Qed.
Lemma sample_checkpoint_eq : checkpoint sample_clock sample_appended = (Ok tt, sample_settled).
Proof. exact (ok_result (checkpoint sample_clock sample_appended) sample_checkpoint_ok). Qed.

Definition sample_rotated : Impl MemoryStorage.t :=
  snd (rotate sample_clock sample_partition_options sample_appended).
Lemma sample_rotate_ok :
  is_Ok (fst (rotate sample_clock sample_partition_options sample_appended)) = true.
Proof. vm_compute. reflexivity. Qed.
Lemma sample_rotate_eq :
  rotate sample_clock sample_partition_options sample_appended = (Ok tt, sample_rotated).
Proof.
  exact (ok_result (rotate sample_clock sample_partition_options sample_appended) sample_rotate_ok).
Qed.

(** The same store on a backend whose next write fails. *)
Definition sample_rule : FaultRule := mkFaultRule op_write 4 0 StatusCode.io_error.
Definition break (s : Impl MemoryStorage.t) : Impl MemoryStorage.t :=
  s <| storage := MemoryStorage.add_fault sample_rule (storage s) |>.
Definition sample_broken : Impl MemoryStorage.t := break sample_appended.

Lemma break_winv s : winv s -> winv (break s).
Proof.
  intros Hw. pose proof (w_st _ (w_base _ Hw)) as Hwf. apply (winv_core s); [done|by split|..].
  - destruct Hwf. split; [|done]. split; try done. cbn. apply Forall_app. split; [done|].
    by repeat constructor.
  - done.
  - intros Hf. split; [by apply Hw|]. intros Hu. by apply (w_durable _ Hw).
Qed.

Definition error_of {A} (r : result A) : Status := match r with Ok _ => Status_Ok | Err e => e end.
Lemma err_result {A} (r : result unit * A) :
  is_Ok (fst r) = false -> r = (Err (error_of (fst r)), snd r).
Proof. by destruct r as [[[]|] ?]. Qed.

Definition sample_fault : Status := error_of (fst (emit_builder sample_broken)).
Definition sample_faulted : Impl MemoryStorage.t := snd (emit_builder sample_broken).
Lemma sample_emit_fails : is_Ok (fst (emit_builder sample_broken)) = false.
Proof. vm_compute. reflexivity. Qed.
Lemma sample_emit_eq : emit_builder sample_broken = (Err sample_fault, sample_faulted).
Proof. exact (err_result (emit_builder sample_broken) sample_emit_fails). Qed.
Lemma sample_broken_winv : winv sample_broken /\ faulted sample_broken = false.
Proof.
  split; [exact (break_winv sample_appended (proj1 sample_appended_refines))|].
  vm_compute. reflexivity.
Qed.
Lemma sample_faulted_open : writable sample_faulted = true /\ closed sample_faulted = false /\
  faulted sample_faulted = true.
Proof. split_and!; vm_compute; reflexivity. Qed.

(** The active partition after the checkpoint. *)
Definition sample_partition_state : PartitionState :=
  default (new_partition_state (make_partition_header sample_header 0 1 sample_partition_options))
    (active sample_settled).

Lemma checkpoint_refines now (s s' : Impl MemoryStorage.t) l : refines s l ->
  checkpoint now s = (Ok tt, s') -> refines s' (apublish l).
Proof.
  intros Hr E. pose proof (checkpoint_spec now s (proj1 Hr)) as H. unfold wp in H. rewrite E in H.
  by apply (refines_settled s).
Qed.
Lemma sample_settled_refines :
  refines sample_settled (mkAlog [view_data sample_record] []).
Proof.
  exact (checkpoint_refines sample_clock sample_appended sample_settled
    (mkAlog [] (view_data sample_record)) sample_appended_refines sample_checkpoint_eq).
Qed.
Lemma sample_settled_reliable : rr_ok (storage sample_settled).
Proof. vm_compute. reflexivity. Qed.
Lemma sample_slot_range :
  0 <= ph_slot (ps_header sample_partition_state) < vh_partition_count (volume sample_settled).
Proof. vm_compute. split; congruence. Qed.

Definition scan_of (r : result ScanResult) : ScanResult :=
  match r with Ok r => r | Err _ => mkScanResult [] 0 true end.
Definition sample_scan : ScanResult :=
  scan_of (fst (scan_partition (ps_header sample_partition_state) 0 sample_settled)).
Definition sample_scan_state : Impl MemoryStorage.t :=
  snd (scan_partition (ps_header sample_partition_state) 0 sample_settled).
Lemma ok_scan {A} (r : result ScanResult * A) : is_Ok (fst r) = true -> r = (Ok (scan_of (fst r)), snd r).
Proof. by destruct r as [[] ?]. Qed.
Lemma sample_scan_ok :
  is_Ok (fst (scan_partition (ps_header sample_partition_state) 0 sample_settled)) = true.
Proof. vm_compute. reflexivity. Qed.
Lemma sample_scan_eq : scan_partition (ps_header sample_partition_state) 0 sample_settled =
  (Ok sample_scan, sample_scan_state).
Proof.
  exact (ok_scan (scan_partition (ps_header sample_partition_state) 0 sample_settled) sample_scan_ok).
Qed.

(** ** The sample volume as a ring *)

Lemma fresh_ring {T} `{!Storage T, !StorageModel T} (s : Impl T) p : refines s afresh ->
  active s = Some p -> partitions s = [p] -> corrupt_slots s = [] -> ps_sealed p = false ->
  builder s = [] ->
  rest_ok (volume s) (open_options s) (contents (storage s)) [ph_slot (ps_header p)] ->
  footer_open (volume s) (ps_header p) (contents (storage s)) -> ring s [] (mkPart p [] [] []) /\
  vrefines s (mkAvol [] (mkApart (ph_slot (ps_header p)) (ph_generation (ps_header p)) [])
    (mkAblock [] [])).
Proof.
  intros (Hw&_&q&log&Hl) Ha Hp Hc Hs Hb Hre Hfo. destruct Hl. rewrite lg_active in Ha. injection Ha as <-.
  inversion lg_raws; subst log. destruct (w_active _ Hw) as (q'&Hq'&Hps&_).
  rewrite lg_active in Hq'. injection Hq' as <-.
  assert (Hr : ring s [] (mkPart q [] [] [])).
  { split; try done.
    - apply Forall_singleton. split; cbn [pt_state pt_log pt_raws]; try done; try congruence;
        [apply Hps|apply (po_header _ _ _) in Hps as [_ _ [Hu ?] _ _]; zlia|]. pose proof (g_index _ _ (w_geo _ (w_base _ Hw))).
      apply Z.div_pos; [|done]. unfold kIndexEntryEncodedSize in *. lia.
    - repeat constructor.
    - rewrite Hp. repeat constructor.
    - apply NoDup_singleton. }
  split; [done|]. exists [], (mkPart q [] [] []). split_and!; try done.
Qed.

Definition sample_fresh : PartitionState :=
  default (new_partition_state (make_partition_header sample_header 0 1 sample_partition_options))
    (active sample_store).
Definition sample_volume : avol :=
  mkAvol [] (mkApart (ph_slot (ps_header sample_fresh)) (ph_generation (ps_header sample_fresh)) [])
    (mkAblock [] []).
Lemma sample_ring : ring sample_store [] (mkPart sample_fresh [] [] []) /\
  vrefines sample_store sample_volume.
Proof.
  apply fresh_ring; [exact sample_refines|vm_compute; reflexivity..| |].
  - split; [split; vm_compute; reflexivity|]. intros slot Hs Hn.
    assert (slot = 1) as ->.
    { assert (slot <> 0) by (intros ->; apply Hn; by left). 
      assert (E : vh_partition_count (volume sample_store) = 2) by (vm_compute; reflexivity).
      rewrite E in Hs. lia. }
    vm_compute. reflexivity.
  - eexists. split; vm_compute; reflexivity.
Qed.
(** The sample store after one append and a checkpoint. *)
Lemma one_block_ring {T} `{!Storage T, !StorageModel T} now (s s1 s2 : Impl T) d time flags slot g :
  vrefines s (mkAvol [] (mkApart slot g []) (mkAblock [] [])) -> record_ok (View d) time ->
  writable s = true -> closed s = false -> writable s1 = true -> closed s1 = false -> d <> [] ->
  run_call now (call_append (View d) time flags) s = (Ok tt, s1) ->
  run_call now call_checkpoint s1 = (Ok tt, s2) ->
  exists R x, ring s2 R x /\ ap_blocks (abstract_part x) = [mkAblock d [time]].
Proof.
  intros Hr Hok Hw Hc Hw1 Hc1 Hd H1 H2.
  pose proof (run_call_vrefines now (call_append (View d) time flags) s _ Hr Hok Hw Hc) as X1. unfold wp in X1. rewrite H1 in X1.
  destruct X1 as (a1&Hs1&Hr1).
  pose proof (run_call_vrefines now call_checkpoint s1 _ Hr1 I Hw1 Hc1) as X2. unfold wp in X2.
  rewrite H2 in X2. destruct X2 as (a2&Hs2&Hr2). inversion Hs2; subst. inversion Hs1; subst.
  destruct Hr2 as (R&x&Hrg&_&Hcur&_). exists R, x. split; [done|]. rewrite <- Hcur.
  assert (Hb : ab_data (av_pending a') = [] /\ ab_times (av_pending a') = [] /\
    ap_blocks (av_cur a') = []).
  { match goal with H : vroom _ _ _ _ _ |- _ => rename H into Hro end.
    unfold vroom in Hro. cbn in Hro. destruct (_ <? _) in Hro; destruct Hro as [->|[_ ->]]; done. }
  destruct Hb as (E1&E2&E3). unfold vpublish, vaccept. cbn [av_pending ab_data view_data].
  rewrite E1, E2. destruct d as [|b0 d]; [done|]. cbn. by rewrite E3.
Qed.
Lemma sample_settled_ring : exists R x, ring sample_settled R x /\
  ap_blocks (abstract_part x) = [mkAblock (view_data sample_record) [5]].
Proof.
  apply (one_block_ring sample_clock sample_store sample_appended sample_settled
    (view_data sample_record) 5 0 _ _ (proj2 sample_ring) sample_call_ok (proj1 sample_writable)
    (proj1 (proj2 sample_writable))).
  - vm_compute. reflexivity.
  - vm_compute. reflexivity.
  - discriminate.
  - exact sample_append_eq.
  - exact sample_checkpoint_eq.
Qed.

(** The media of the sample store after a power cut behind its checkpoint. *)
Definition sample_crashed : MemoryStorage.t :=
  MemoryStorage.crash_discard_volatile (storage sample_settled).
Lemma crash_discard_wf m : MemoryFacts.mem_wf m ->
  MemoryFacts.mem_wf (MemoryStorage.crash_discard_volatile m).
Proof. intros []. split; simpl; try assumption; try reflexivity. by rewrite wf_len. Qed.
Lemma crash_discard_contents (m : MemoryStorage.t) :
  contents (MemoryStorage.crash_discard_volatile m) = durable m.
Proof. reflexivity. Qed.
Lemma sample_crashed_wf : st_wf sample_crashed.
Proof.
  destruct sample_settled_ring as (R&x&Hr&_). exact (crash_discard_wf _ (w_st _ (w_base _ (rg_winv _ _ _ Hr)))).
Qed.
Lemma call_keeps_volume {T} `{!Storage T, !StorageModel T} now c (s s' : Impl T) a :
  vrefines s a -> call_ok c -> writable s = true -> closed s = false ->
  run_call now c s = (Ok tt, s') -> exists a', vrefines s' a'.
Proof.
  intros Hr Hc Hw Hcl H. pose proof (run_call_vrefines now c s a Hr Hc Hw Hcl) as Hx.
  unfold wp in Hx. rewrite H in Hx. destruct Hx as (a'&_&Ha). by exists a'.
Qed.
Lemma sample_appended_volume : exists a, vrefines sample_appended a.
Proof.
  exact (call_keeps_volume sample_clock sample_call sample_store sample_appended sample_volume
    (proj2 sample_ring) sample_call_ok (proj1 sample_writable) (proj1 (proj2 sample_writable))
    sample_append_eq).
Qed.
Lemma sample_tail_clear p : active sample_settled = Some p ->
  tail_clear (volume sample_settled) p (durable (storage sample_settled)) = true.
Proof.
  assert (Hb : match active sample_settled with
    | Some q => tail_clear (volume sample_settled) q (durable (storage sample_settled))
    | None => true end = true) by (vm_compute; reflexivity).
  intros Hp. rewrite Hp in Hb. exact Hb.
Qed.
