(* ===== verification/RecordProfile.v ===== *)
(** * Record profiles

    src/record_profile.cpp and include/tfdb/record_profile.hpp: the framed
    record envelope, the checked append through it, and record queries, whose
    visitor is a closure over [keep_going] and [decode_status] passed to the
    block query. A visitor is a function of the event and its own state that
    answers whether to go on; the empty [std::function] is not a value of this
    type. *)

From S2P Require Import Prelude Status Crc32c Layout Format Codec Lz4 Storage RingTypes.
From S2P Require Import RingWriter RingReader.

Record RecordView := mkRecordView {
  rv_encoded : bytes;
  rv_payload : bytes;
  rv_index_time_ns : Z;
  rv_selector : Z;
  rv_flags : Z }.
Definition RecordView_default : RecordView := mkRecordView [] [] 0 0 0.

(** The interface a profile implements. *)
Record RecordProfile := mkRecordProfile {
  rp_id : Z;
  rp_version : Z;
  rp_decode_block : forall V : Type,
    ByteView -> (RecordView -> V -> bool * V) -> V -> Status * V }.

Record RecordQuery := mkRecordQuery {
  rq_time : TimeRange; rq_selectors : list Z; rq_block_options : QueryOptions }.

Record RecordEvent := mkRecordEvent {
  re_kind : BlockEventKind;
  re_block : BlockMetadata;
  re_record : RecordView;
  re_detail : Status }.

Definition kFramedRecordV1ProfileId : Z := 0x5446444252465631.

Module FramedRecordV1.
Definition header_size : Z := 32.

(** The bytes of one record; [payload] fits 32 bits with its header. *)
Definition encoded_record (time selector flags : Z) (payload : bytes) : bytes :=
  let encoded := zeroed (header_size + len payload) in
  let encoded := put32 encoded 0 (u32 (len encoded)) in
  let encoded := put16 encoded 4 header_size in
  let encoded := put16 encoded 6 flags in
  let encoded := put64 encoded 8 (u64 time) in
  let encoded := put64 encoded 16 selector in
  let encoded := put32 encoded 24 (u32 (len payload)) in
  let encoded := if negb (len payload =? 0) then splice header_size payload encoded
                 else encoded in
  put32 encoded 28 (crc32c encoded).

(** [output] is the out-parameter: [None] is a null pointer, and it changes
    only on success. *)
Definition encode (time selector flags : Z) (payload : ByteView) (output : option bytes)
    : Status * option bytes :=
  match output with
  | None => (Status_Error StatusCode.invalid_argument "null framed record output", None)
  | Some old =>
      if negb (view_valid payload)
      then (Status_Error StatusCode.invalid_argument "null non-empty framed payload", Some old) else
      if UINT32_MAX - header_size <? view_size payload
      then (Status_Error StatusCode.out_of_range "framed payload too large", Some old) else
      (Status_Ok, Some (encoded_record time selector flags (view_data payload)))
  end.

(** The sign of a stored time. *)
Definition decode_time (encoded_time : Z) : Z :=
  if Z.land encoded_time (Z.shiftl 1 63) =? 0 then encoded_time else
  let magnitude := u64 (u64 (Z.lnot encoded_time) + 1) in
  if magnitude =? Z.shiftl 1 63 then INT64_MIN else - magnitude.

(** One turn of the loop at [data = block.data() + offset]: the record and
    its frame size. *)
Definition decode_record (data : bytes) : result (RecordView * Z) :=
  if len data <? 32 then error StatusCode.corrupt "truncated FramedRecordV1 header" else
  let frame_size := get32 data 0 in
  let header_size := get16 data 4 in
  let payload_size := get32 data 24 in
  if negb (header_size =? 32) || (frame_size <? header_size) ||
     negb (frame_size =? u32 (header_size + payload_size)) || (len data <? frame_size)
  then error StatusCode.corrupt "invalid FramedRecordV1 bounds" else
  let encoded := takeZ frame_size data in
  if negb (crc32c_with_zeroed_field encoded 28 =? get32 data 28)
  then error StatusCode.corrupt "FramedRecordV1 frame CRC mismatch" else
  Ok (mkRecordView encoded (slice header_size payload_size data) (decode_time (get64 data 8))
        (get64 data 16) (get16 data 6), frame_size).

Section Decode.
Context {V : Type}.
Variable visitor : RecordView -> V -> bool * V.

(** Every accepted frame takes at least its header: the block length is
    enough fuel. *)
Fixpoint decode_loop (fuel : nat) (block : bytes) (offset : Z) (v : V) : option (Status * V) :=
  match fuel with
  | O => None
  | S fuel =>
      if offset <? len block then
        match decode_record (dropZ offset block) with
        | Err status => Some (status, v)
        | Ok (record, frame_size) =>
            let '(go, v) := visitor record v in
            if (go : bool) then decode_loop fuel block (offset + frame_size) v
            else Some (Status_Ok, v)
        end
      else Some (Status_Ok, v)
  end.

Definition decode_block (block : ByteView) (v : V) : Status * V :=
  if negb (view_valid block)
  then (Status_Error StatusCode.invalid_argument "null non-empty framed block", v) else
  default (Status_Error StatusCode.internal_error "decode bound exhausted", v)
    (decode_loop (S (length (view_data block))) (view_data block) 0 v).
End Decode.

Definition profile : RecordProfile :=
  mkRecordProfile kFramedRecordV1ProfileId 1 (fun V block visitor => decode_block visitor block).
End FramedRecordV1.

Section Records.
Context {T : Type} `{!Storage T}.
Variable now : nat -> Z.

(** The encoded record is appended under the contract it was encoded for. *)
Definition append_framed_record (time selector flags : Z) (payload : ByteView)
    : prog (Impl T) unit :=
  s ← get;
  active ← lift_result (active_partition_info s);
  if negb (po_record_format_id (pi_options active) =? kFramedRecordV1ProfileId) ||
     negb (po_record_format_version (pi_options active) =? 1)
  then throw_error StatusCode.invalid_argument "active partition is not FramedRecordV1" else
  match FramedRecordV1.encode time selector flags payload (Some []) with
  | (status, encoded) =>
      if negb (status_ok status) then throw status else
      let storage_flags := if negb (Z.land flags kRecordFlagUnsynchronizedTime =? 0)
                           then Z.lor 0 kRecordFlagUnsynchronizedTime else 0 in
      append_checked now (View (default [] encoded)) time
        (mkAppendContract kFramedRecordV1ProfileId 1 (po_time_domain_id (pi_options active)))
        storage_flags
  end.

Section RecordQueries.
Context {V : Type}.
Variable visitor : RecordEvent -> V -> bool * V.

(** What the closures of a record query share. *)
Record Captured := mkCaptured {
  keep_going : bool; decode_status : Status; user : V }.

(** Does the record belong to the query? *)
Definition record_selected (query : RecordQuery) (record : RecordView) : bool :=
  negb ((rv_index_time_ns record <? tr_begin_ns (rq_time query)) ||
        (tr_end_ns (rq_time query) <=? rv_index_time_ns record)) &&
  ((len (rq_selectors query) =? 0) || existsb (Z.eqb (rv_selector record)) (rq_selectors query)).

(** The inner closure: counts every record, shows the selected ones. *)
Definition record_visitor (query : RecordQuery) (block : BlockMetadata) (record : RecordView)
    (st : Z * (bool * V)) : bool * (Z * (bool * V)) :=
  let '(decoded_records, (keep, v)) := st in
  let decoded_records := u32 (decoded_records + 1) in
  if negb (record_selected query record) then (true, (decoded_records, (keep, v))) else
  let '(go, v) := visitor (mkRecordEvent ev_data block record Status_Ok) v in
  (go, (decoded_records, (go, v))).

(** The outer closure. *)
Definition block_visitor (query : RecordQuery) (profile : RecordProfile) (event : BlockEvent)
    (c : Captured) : bool * Captured :=
  if negb (bool_decide (be_kind event = ev_data)) then
    let '(go, v) := visitor (mkRecordEvent (be_kind event) (be_metadata event)
                               RecordView_default (be_detail event)) (user c) in
    (go, mkCaptured go (decode_status c) v)
  else if negb (md_record_format_id (be_metadata event) =? rp_id profile) ||
          negb (md_record_format_version (be_metadata event) =? rp_version profile)
  then (false, mkCaptured (keep_going c)
          (Status_Error StatusCode.unsupported "record profile does not match partition") (user c))
  else
    let '(status, (decoded_records, (keep, v))) :=
      rp_decode_block profile (Z * (bool * V)) (View (be_data event))
        (record_visitor query (be_metadata event)) (0, (keep_going c, user c)) in
    let status :=
      if status_ok status && keep &&
         negb (decoded_records =? md_record_count (be_metadata event))
      then Status_Error StatusCode.corrupt "block record count does not match profile decode"
      else status in
    (keep && status_ok status, mkCaptured keep status v).

Definition query_records (query : RecordQuery) (profile : RecordProfile) (s : Impl T) (v : V)
    : Status * (Impl T * V) :=
  if tr_end_ns (rq_time query) <=? tr_begin_ns (rq_time query)
  then (Status_Error StatusCode.invalid_argument "record query needs non-empty [begin,end)", (s, v))
  else
    let '(status, (s, c)) := query_blocks (block_visitor query profile) (rq_time query)
      (rq_block_options query) s (mkCaptured true Status_Ok v) in
    if negb (status_ok status) then (status, (s, user c)) else (decode_status c, (s, user c)).
End RecordQueries.
End Records.
Arguments mkCaptured {V}. Arguments keep_going {V}. Arguments decode_status {V}. Arguments user {V}.
