(* ===== verification/RecordFacts.v ===== *)
(** * Framed records

    The envelope of [FramedRecordV1] is a prefix code: [decode_record]
    accepts exactly the encodings, and a block is decoded into exactly the
    records it was concatenated from. *)

From S2P Require Import Prelude Status Crc32c Layout Format FormatFacts Codec Lz4 Storage.
From S2P Require Import RingTypes RingWriter RingReader RecordProfile.

Module FramedFacts.
Import FramedRecordV1.

(** The envelope laid out, with [crc] in its checksum field. *)
Definition image (time selector flags crc : Z) (payload : bytes) : bytes :=
  le_bytes 4 (header_size + len payload) ++ le_bytes 2 header_size ++ le_bytes 2 flags ++
  le_bytes 8 (u64 time) ++ le_bytes 8 selector ++ le_bytes 4 (len payload) ++
  le_bytes 4 crc ++ payload.

Lemma len_image t s f c p : len (image t s f c p) = 32 + len p.
Proof. unfold image. rewrite !len_app, !len_le_bytes. lia. Qed.

Lemma dropZ_zeroed k n : 0 <= k <= n -> dropZ k (zeroed n) = zeroed (n - k).
Proof. intros. unfold dropZ, zeroed. rewrite drop_replicate. f_equal. lia. Qed.

Lemma splice_mid {A} off (a x y b : list A) : len a = off -> len x = len y ->
  splice off y (a ++ x ++ b) = a ++ y ++ b.
Proof.
  intros <- Hl. rewrite splice_app_r, Z.sub_diag by lia. f_equal. unfold splice.
  rewrite takeZ_nonpos, Z.add_0_l, <- Hl, dropZ_app, dropZ_all, Z.sub_diag, dropZ_nonpos by lia. done.
Qed.

(** A store right behind what was written so far. *)
Lemma put_next n off pre k v : len pre = off -> Z.of_nat n <= k ->
  put n (pre ++ zeroed k) off v = (pre ++ le_bytes n v) ++ zeroed (k - Z.of_nat n).
Proof.
  intros Hp Hk. unfold put. replace (zeroed k) with (zeroed (Z.of_nat n) ++ zeroed (k - Z.of_nat n)).
  - rewrite splice_mid, <- app_assoc; [done|done|]. rewrite len_zeroed, len_le_bytes; lia.
  - unfold zeroed. rewrite <- replicate_add. f_equal. lia.
Qed.

Lemma zeroed_le_bytes : zeroed 4 = le_bytes 4 0.
Proof. reflexivity. Qed.

Definition payload_fits (p : bytes) : Prop := bytes_ok p /\ len p <= UINT32_MAX - header_size.

Lemma encoded_image t s f p : payload_fits p ->
  encoded_record t s f p = image t s f (crc32c (image t s f 0 p)) p.
Proof.
  intros [_ Hp]. pose proof (len_nonneg p). unfold encoded_record, UINT32_MAX, header_size in *. cbv zeta.
  rewrite len_zeroed by lia. rewrite !u32_small by zlia. unfold put16, put32, put64.
  change (zeroed (32 + len p)) with ([] ++ zeroed (32 + len p)).
  do 6 (rewrite put_next; [|rewrite ?len_app, ?len_le_bytes; done|lia]).
  set (pre := ((((([] ++ _) ++ _) ++ _) ++ _) ++ _) ++ _).
  assert (Hpre : len pre = 28) by (unfold pre; rewrite !len_app, !len_le_bytes; done).
  match goal with |- context [zeroed ?k] => replace k with (4 + len p) by lia end.
  assert (Hbody : (if negb (len p =? 0) then splice 32 p (pre ++ zeroed (4 + len p))
    else pre ++ zeroed (4 + len p)) = pre ++ le_bytes 4 0 ++ p).
  { replace (zeroed (4 + len p)) with (zeroed 4 ++ zeroed (len p))
      by (unfold zeroed; rewrite <- replicate_add; f_equal; lia).
    rewrite zeroed_le_bytes. destruct (Z.eqb_spec (len p) 0) as [E|E]; cbn [negb].
    - apply len_zero_nil in E. by subst p.
    - rewrite app_assoc, <- (app_nil_r (zeroed (len p))), splice_mid;
        [by rewrite app_nil_r, <- app_assoc|rewrite len_app, len_le_bytes; lia|].
      rewrite len_zeroed; lia. }
  rewrite Hbody. unfold put. rewrite splice_mid; [|done|by rewrite !len_le_bytes].
  unfold image, header_size. subst pre. rewrite !app_nil_l, <- !app_assoc. done.
Qed.

Lemma image_crc t s f c p : len p <= UINT32_MAX - header_size ->
  crc32c_with_zeroed_field (image t s f c p) 28 = crc32c (image t s f 0 p).
Proof.
  intros Hp. pose proof (len_nonneg p). unfold UINT32_MAX, header_size in *.
  rewrite crc32c_with_zeroed_field_splice; [|lia|rewrite len_image; lia|rewrite len_image; zlia].
  apply f_equal. unfold image. rewrite !app_assoc, <- (app_assoc _ (le_bytes 4 c) p).
  rewrite splice_mid; [|rewrite !len_app, !len_le_bytes; done|by rewrite len_le_bytes].
  by rewrite <- !app_assoc.
Qed.

Lemma image_ok t s f c p : bytes_ok p -> bytes_ok (image t s f c p).
Proof. intros. unfold image, bytes_ok. rewrite !Forall_app. split_and!; (apply le_bytes_ok || done). Qed.

(** ** One record *)

Record framed (r : RecordView) : Prop := {
  fm_encoded : rv_encoded r = encoded_record (rv_index_time_ns r) (rv_selector r) (rv_flags r)
                                (rv_payload r);
  fm_payload : payload_fits (rv_payload r);
  fm_time : is_i64 (rv_index_time_ns r);
  fm_selector : is_u64 (rv_selector r);
  fm_flags : is_u16 (rv_flags r) }.

Lemma framed_len r : framed r -> len (rv_encoded r) = 32 + len (rv_payload r).
Proof. intros [-> Hp]. rewrite encoded_image by done. apply len_image. Qed.
Lemma framed_ok r : framed r -> bytes_ok (rv_encoded r).
Proof. intros [-> Hp]. rewrite encoded_image by done. apply image_ok, Hp. Qed.

Lemma encode_fits t s f p : payload_fits p ->
  encode t s f (View p) (Some []) = (Status_Ok, Some (encoded_record t s f p)).
Proof.
  intros [_ Hp]. unfold encode, view_valid. rewrite orb_true_r. cbn [negb view_size view_data].
  by rewrite (proj2 (Z.ltb_ge _ _)) by lia.
Qed.

Lemma get_le_at n off a v b : len a = off -> bytes_ok a -> bytes_ok b ->
  get_le n (a ++ le_bytes n v ++ b) off = v mod 2 ^ (8 * Z.of_nat n).
Proof.
  intros <- Ha Hb. pose proof (len_nonneg a). pose proof (len_nonneg b).
  rewrite get_le_combine; [|lia|rewrite !len_app, len_le_bytes; lia|].
  - rewrite slice_app_r, Z.sub_diag, slice_app_l by (rewrite ?len_le_bytes; lia).
    rewrite <- (len_le_bytes n v) at 1. rewrite slice_all. apply le_combine_le_bytes.
  - unfold bytes_ok. rewrite !Forall_app. split_and!; [done|apply le_bytes_ok|done].
Qed.

Lemma land_sign e : is_u64 e -> Z.land e (Z.shiftl 1 63) = if e <? 2 ^ 63 then 0 else 2 ^ 63.
Proof.
  intros He. assert (H : Z.land e (Z.shiftl 1 63) = Z.shiftl (Z.land (Z.shiftr e 63) 1) 63).
  { apply Z_bits_ext. intros i Hi. rewrite Z.land_spec, !Z.shiftl_spec, Z.land_spec by lia.
    destruct (decide (i < 63)).
    - rewrite !(Z.testbit_neg_r _ (i - 63)) by lia. by rewrite !andb_false_r.
    - rewrite Z.shiftr_spec by lia. do 2 f_equal. lia. }
  rewrite H, Z.shiftr_div_pow2 by lia. destruct (Z.ltb_spec e (2 ^ 63)).
  - rewrite Z.div_small by zlia. done.
  - replace (e / 2 ^ 63) with 1; [done|]. apply Z.div_unique with (e - 2 ^ 63); zlia.
Qed.

Lemma decode_time_u64 t : is_i64 t -> decode_time (u64 t) = t.
Proof.
  intros Ht. unfold decode_time. rewrite land_sign by apply u64_range.
  assert (Hu : u64 t = if t <? 0 then t + 2 ^ 64 else t).
  { unfold u64. destruct (Z.ltb_spec t 0).
    - symmetry. apply Z.mod_unique with (-1); zlia.
    - apply Z.mod_small. zlia. }
  rewrite Hu. change (Z.shiftl 1 63) with (2 ^ 63). unfold INT64_MIN.
  destruct (Z.ltb_spec t 0).
  - rewrite (proj2 (Z.ltb_ge _ _)) by zlia.
    assert (Hn : u64 (Z.lnot (t + 2 ^ 64)) = - t - 1).
    { unfold u64, Z.lnot, Z.pred. symmetry. apply Z.mod_unique with (-1); zlia. }
    rewrite (proj2 (Z.eqb_neq (2 ^ 63) 0)) by lia. rewrite Hn, u64_small by zlia.
    destruct (Z.eqb_spec (- t - 1 + 1) (2 ^ 63)); lia.
  - by rewrite (proj2 (Z.ltb_lt _ _)) by zlia.
Qed.

Lemma u64_decode_time e : is_u64 e -> is_i64 (decode_time e) /\ u64 (decode_time e) = e.
Proof.
  intros He. assert (exists t, is_i64 t /\ u64 t = e) as (t&Ht&<-).
  { destruct (decide (e < 2 ^ 63)).
    - exists e. split; [zlia|apply u64_small; zlia].
    - exists (e - 2 ^ 64). split; [zlia|]. unfold u64. symmetry. apply Z.mod_unique with (-1); zlia. }
  by rewrite decode_time_u64.
Qed.

(** The fields of an envelope at the head of a buffer. *)
Lemma image_fields t s f c p rest : payload_fits p -> bytes_ok rest -> is_u64 s -> is_u16 f -> is_u32 c ->
  let data := image t s f c p ++ rest in
  get32 data 0 = 32 + len p /\ get16 data 4 = 32 /\ get16 data 6 = f /\ get64 data 8 = u64 t /\
  get64 data 16 = s /\ get32 data 24 = len p /\ get32 data 28 = c.
Proof.
  intros [Hp Hl] Hr Hs Hf Hc. cbv zeta. pose proof (len_nonneg p). pose proof (u64_range t).
  unfold UINT32_MAX, header_size in Hl.
  assert (Hget : forall n off a v b, image t s f c p ++ rest = a ++ le_bytes n v ++ b -> len a = off ->
    0 <= v < 2 ^ (8 * Z.of_nat n) -> get_le n (image t s f c p ++ rest) off = v).
  { intros n off a v b E Ha Hv. assert (Hok : bytes_ok (image t s f c p ++ rest))
      by (apply Forall_app; split; [by apply image_ok|done]).
    rewrite E in Hok |- *. apply Forall_app in Hok as [Ha' Hok]. apply Forall_app in Hok as [_ Hb'].
    rewrite get_le_at by done. by apply Z.mod_small. }
  unfold image, header_size in *. split_and!; unfold get16, get32, get64.
  - eapply (Hget 4%nat 0 []); [rewrite <- !app_assoc; reflexivity|done|zlia].
  - eapply (Hget 2%nat 4 (le_bytes 4 _)); [rewrite <- !app_assoc; reflexivity|apply len_le_bytes|zlia].
  - eapply (Hget 2%nat 6 (le_bytes 4 _ ++ le_bytes 2 _)); [rewrite <- !app_assoc; reflexivity|
      rewrite !len_app, !len_le_bytes; done|zlia].
  - eapply (Hget 8%nat 8 (le_bytes 4 _ ++ le_bytes 2 _ ++ le_bytes 2 _));
      [rewrite <- !app_assoc; reflexivity|rewrite !len_app, !len_le_bytes; done|zlia].
  - eapply (Hget 8%nat 16 (le_bytes 4 _ ++ le_bytes 2 _ ++ le_bytes 2 _ ++ le_bytes 8 _));
      [rewrite <- !app_assoc; reflexivity|rewrite !len_app, !len_le_bytes; done|zlia].
  - eapply (Hget 4%nat 24 (le_bytes 4 _ ++ le_bytes 2 _ ++ le_bytes 2 _ ++ le_bytes 8 _ ++ le_bytes 8 _));
      [rewrite <- !app_assoc; reflexivity|rewrite !len_app, !len_le_bytes; done|zlia].
  - eapply (Hget 4%nat 28 (le_bytes 4 _ ++ le_bytes 2 _ ++ le_bytes 2 _ ++ le_bytes 8 _ ++ le_bytes 8 _ ++
      le_bytes 4 _)); [rewrite <- !app_assoc; reflexivity|rewrite !len_app, !len_le_bytes; done|zlia].
Qed.

Lemma image_payload t s f c p rest : slice 32 (len p) (image t s f c p ++ rest) = p.
Proof.
  unfold image. rewrite !app_assoc. rewrite <- (app_assoc _ p rest).
  rewrite slice_app_r by (rewrite !len_app, !len_le_bytes; done).
  rewrite !len_app, !len_le_bytes. change (32 - _) with 0.
  rewrite slice_app_l, slice_all by lia. done.
Qed.

(** The decoder reads back what the encoder wrote, whatever follows it. *)
Lemma decode_framed r rest : framed r -> bytes_ok rest ->
  decode_record (rv_encoded r ++ rest) = Ok (r, len (rv_encoded r)).
Proof.
  intros Hr Hrest. pose proof (framed_len r Hr) as Hlen. pose proof Hr as [He Hp Ht Hs Hf].
  pose proof (encoded_image (rv_index_time_ns r) (rv_selector r) (rv_flags r) (rv_payload r) Hp) as Hi.
  rewrite <- He in Hi. set (c := crc32c _) in Hi.
  assert (Hc : is_u32 c) by (apply crc32c_range, image_ok, Hp).
  destruct (image_fields (rv_index_time_ns r) _ _ c _ rest Hp Hrest Hs Hf Hc) as (G0&G1&G2&G3&G4&G5&G6).
  pose proof (image_payload (rv_index_time_ns r) (rv_selector r) (rv_flags r) c (rv_payload r) rest) as Gp.
  pose proof (image_crc (rv_index_time_ns r) (rv_selector r) (rv_flags r) c (rv_payload r) (proj2 Hp)) as Gc.
  rewrite <- Hi in G0, G1, G2, G3, G4, G5, G6, Gp, Gc.
  pose proof (len_nonneg (rv_payload r)). pose proof (len_nonneg rest). destruct Hp as [_ Hp].
  unfold decode_record, UINT32_MAX, header_size in *. cbv zeta.
  rewrite G0, G1, G2, G3, G4, G5, G6, Gp, len_app, Hlen.
  rewrite u32_small by zlia.
  rewrite (proj2 (Z.ltb_ge _ 32)) by lia. rewrite Z.eqb_refl. cbn [negb orb].
  rewrite (proj2 (Z.ltb_ge (32 + _) 32)), Z.eqb_refl by lia. cbn [negb orb].
  rewrite (proj2 (Z.ltb_ge _ (32 + _))) by lia.
  rewrite takeZ_app, (takeZ_all _ (rv_encoded r)), Hlen, Z.sub_diag, takeZ_nonpos, app_nil_r by lia.
  rewrite Gc, Z.eqb_refl. cbn [negb]. rewrite decode_time_u64 by done. by destruct r.
Qed.

(** A buffer is the envelope of its own fields. *)
Lemma buffer_image data ps : bytes_ok data -> 0 <= ps -> 32 + ps <= len data ->
  get32 data 0 = 32 + ps -> get16 data 4 = 32 -> get32 data 24 = ps ->
  takeZ (32 + ps) data = image (decode_time (get64 data 8)) (get64 data 16) (get16 data 6)
    (get32 data 28) (slice 32 ps data).
Proof.
  intros Hok Hps Hl G0 G1 G5. assert (Hg : forall off n, 0 <= off -> off + Z.of_nat n <= 32 ->
    slice off (Z.of_nat n) data = le_bytes n (get_le n data off)) by (intros; apply slice_get_le; lia || done).
  destruct (u64_decode_time (get64 data 8)) as [_ Ht]; [apply get64_range; lia || done|].
  unfold image, header_size. rewrite len_slice, Ht by lia.
  assert (H0 : le_bytes 4 (32 + ps) = slice 0 4 data) by (rewrite <- G0; symmetry; by apply (Hg 0 4%nat)).
  assert (H1 : le_bytes 2 32 = slice 4 2 data) by (rewrite <- G1; symmetry; by apply (Hg 4 2%nat)).
  assert (H5 : le_bytes 4 ps = slice 24 4 data) by (rewrite <- G5; symmetry; by apply (Hg 24 4%nat)).
  rewrite H0, H1, H5. unfold get16, get32, get64. rewrite <- !Hg by lia. rewrite <- slice_0_takeZ.
  replace (32 + ps) with (4 + (2 + (2 + (8 + (8 + (4 + (4 + ps))))))) by lia.
  rewrite !slice_add by lia. reflexivity.
Qed.

Lemma decode_sound data r n : bytes_ok data -> decode_record data = Ok (r, n) ->
  framed r /\ n = len (rv_encoded r) /\ exists rest, data = rv_encoded r ++ rest.
Proof.
  intros Hok H. unfold decode_record in H. destruct (Z.ltb_spec (len data) 32); [done|]. cbv zeta in H.
  destruct (_ || _) eqn:E in H; [done|]. destruct (negb _) eqn:Ec in H; [done|].
  pose proof (get32_range data 24 ltac:(lia) ltac:(lia) Hok).
  pose proof (get32_range data 28 ltac:(lia) ltac:(lia) Hok).
  pose proof (get16_range data 6 ltac:(lia) ltac:(lia) Hok).
  pose proof (get64_range data 8 ltac:(lia) ltac:(lia) Hok) as Ht.
  pose proof (get64_range data 16 ltac:(lia) ltac:(lia) Hok).
  rewrite !orb_false_iff, !negb_false_iff, !Z.eqb_eq, !Z.ltb_ge in E. destruct E as (((E1&E2)&E3)&E4).
  rewrite negb_false_iff, Z.eqb_eq in Ec. rewrite E1 in *.
  assert (Hfs : get32 data 0 = 32 + get32 data 24).
  { rewrite E3 in E2 |- *. unfold u32 in *. destruct (decide (32 + get32 data 24 < 2 ^ 32)).
    - apply Z.mod_small. zlia.
    - rewrite <- (Z.mod_unique (32 + get32 data 24) (2 ^ 32) 1 (32 + get32 data 24 - 2 ^ 32)) in E2; zlia. }
  set (ps := get32 data 24) in *. rewrite Hfs in *. injection H as <- <-.
  assert (Hps : is_u32 ps) by done. pose proof (len_slice 32 ps data ltac:(lia) ltac:(zlia) ltac:(lia)) as Hlp.
  pose proof (get32_range data 0 ltac:(lia) ltac:(lia) Hok).
  assert (Hfit : payload_fits (slice 32 ps data)).
  { split; [by apply Forall_slice|]. rewrite Hlp. unfold UINT32_MAX, header_size. zlia. }
  pose proof (buffer_image data ps Hok ltac:(zlia) ltac:(lia) Hfs E1 eq_refl) as Hi.
  destruct (u64_decode_time (get64 data 8) Ht) as [Hti _]. rewrite Hi in Ec.
  rewrite image_crc in Ec by apply Hfit. split_and!.
  - split; cbn [rv_encoded rv_payload rv_index_time_ns rv_selector rv_flags]; try done.
    rewrite encoded_image by done. by rewrite Hi, Ec.
  - cbn [rv_encoded]. rewrite len_takeZ. zlia.
  - exists (dropZ (32 + ps) data). cbn [rv_encoded]. symmetry. apply takeZ_dropZ.
Qed.

(** ** Blocks of records *)

Section Blocks.
Context {V : Type}.
Variable visitor : RecordView -> V -> bool * V.

(** The visitor run over a list, until it declines. *)
Fixpoint visit_records (rs : list RecordView) (v : V) : bool * V :=
  match rs with
  | [] => (true, v)
  | r :: rs => let '(go, v) := visitor r v in if (go : bool) then visit_records rs v else (false, v)
  end.

Definition block_of (rs : list RecordView) : bytes := concat (map rv_encoded rs).

Lemma block_of_ok rs : Forall framed rs -> bytes_ok (block_of rs).
Proof.
  unfold block_of. induction 1; simpl; [constructor|]. apply Forall_app. split; [by apply framed_ok|done].
Qed.

Lemma dropZ_at {A} (a b : list A) : dropZ (len a) (a ++ b) = b.
Proof. rewrite dropZ_app, dropZ_all, Z.sub_diag, dropZ_nonpos by lia. done. Qed.

(** What a decode of [block] from [offset] showed the visitor. *)
Record decoded (rest : bytes) (v : V) (st : Status) (v' : V) (rs : list RecordView) (tail : bytes)
    : Prop := {
  dc_split : rest = block_of rs ++ tail;
  dc_framed : Forall framed rs;
  dc_visited : v' = snd (visit_records rs v);
  dc_ok : status_ok st = true -> tail = [] \/ fst (visit_records rs v) = false;
  dc_corrupt : status_ok st = false -> code st = StatusCode.corrupt /\
    fst (visit_records rs v) = true /\ tail <> [] /\ forall r n, decode_record tail <> Ok (r, n) }.

Lemma decode_record_err data e : decode_record data = Err e ->
  status_ok e = false /\ code e = StatusCode.corrupt.
Proof.
  unfold decode_record. intros H. destruct (_ <? _) in H; [injection H as <-; done|]. cbv zeta in H.
  destruct (_ || _) in H; [injection H as <-; done|].
  destruct (negb _) in H; [injection H as <-; done|discriminate H].
Qed.

Lemma decode_loop_spec block : bytes_ok block -> forall fuel offset v,
  0 <= offset <= len block -> len block - offset < Z.of_nat fuel ->
  exists st v' rs tail, decode_loop visitor fuel block offset v = Some (st, v') /\
    decoded (dropZ offset block) v st v' rs tail.
Proof.
  intros Hok. induction fuel as [|fuel IH]; intros offset v Ho Hf; [lia|]. cbn [decode_loop].
  destruct (Z.ltb_spec offset (len block)) as [Hlt|Hge]; cycle 1.
  { exists Status_Ok, v, [], []. split; [done|]. rewrite dropZ_all by lia. split; auto; done. }
  set (data := dropZ offset block).
  assert (Hd : bytes_ok data) by (by apply Forall_dropZ).
  assert (Hdl : len data = len block - offset) by (unfold data; rewrite len_dropZ; lia).
  destruct (decode_record data) as [[r n]|e] eqn:Er; cycle 1.
  { destruct (decode_record_err _ _ Er) as [He Hc]. exists e, v, [], data. split; [done|].
    split; try done; [congruence|]. intros _. split_and!; [done|done| |congruence].
    intros E. rewrite E, len_nil in Hdl. lia. }
  destruct (decode_sound _ _ _ Hd Er) as (Hr&->&rest&Hrest). pose proof (framed_len r Hr) as Hfl.
  pose proof (len_nonneg (rv_payload r)).
  assert (Hl : len data = len (rv_encoded r) + len rest) by (rewrite Hrest at 1; apply len_app).
  pose proof (len_nonneg rest).
  destruct (visitor r v) as [[] v1] eqn:Ev; cycle 1.
  { exists Status_Ok, v1, [r], rest. split; [done|]. split; try done.
    - by rewrite Hrest; unfold block_of; simpl; rewrite app_nil_r.
    - by constructor.
    - simpl. by rewrite Ev.
    - intros _. right. simpl. by rewrite Ev. }
  destruct (IH (offset + len (rv_encoded r)) v1) as (st&v'&rs&tail&Hloop&[Hs Hfr Hvis Hdok Hdc]); [lia|lia|].
  rewrite Hloop. exists st, v', (r :: rs), tail. split; [done|].
  assert (Hdrop : dropZ (offset + len (rv_encoded r)) block = rest).
  { rewrite <- dropZ_dropZ by lia. fold data. rewrite Hrest. apply dropZ_at. }
  rewrite Hdrop in Hs. split; cbn [visit_records]; rewrite ?Ev; try done.
  - unfold block_of in *. cbn. by rewrite <- app_assoc, <- Hs.
  - by constructor.
Qed.

Lemma decode_block_spec block v : bytes_ok block -> exists st v' rs tail,
  decode_block visitor (View block) v = (st, v') /\ decoded block v st v' rs tail.
Proof.
  intros Hok. pose proof (len_nonneg block).
  destruct (decode_loop_spec block Hok (S (length block)) 0 v) as (st&v'&rs&tail&Hl&Hd);
    [lia|unfold len; lia|]. rewrite dropZ_nonpos in Hd by lia.
  exists st, v', rs, tail. split; [|done]. unfold decode_block, view_valid. rewrite orb_true_r.
  cbn [negb view_data]. by rewrite Hl.
Qed.

(** A block of records is decoded into exactly those records. *)
Lemma decode_loop_framed rs : forall pre fuel v, bytes_ok pre -> Forall framed rs ->
  (length rs < fuel)%nat ->
  decode_loop visitor fuel (pre ++ block_of rs) (len pre) v =
    Some (Status_Ok, snd (visit_records rs v)).
Proof.
  induction rs as [|r rs IH]; intros pre fuel v Hp Hf Hl; (destruct fuel as [|fuel]; [simpl in Hl; lia|]).
  - cbn. unfold block_of. cbn. rewrite app_nil_r, Z.ltb_irrefl. done.
  - apply Forall_cons in Hf as [Hr Hf]. pose proof (framed_len _ Hr) as Hfl.
    pose proof (len_nonneg (rv_payload r)). cbn [decode_loop visit_records].
    replace (block_of (r :: rs)) with (rv_encoded r ++ block_of rs) by done.
    pose proof (len_nonneg (block_of rs)).
    rewrite (proj2 (Z.ltb_lt _ _)) by (rewrite !len_app; lia).
    rewrite dropZ_at, decode_framed by (done || by apply block_of_ok).
    destruct (visitor r v) as [[] v1]; [|done]. rewrite app_assoc, <- len_app.
    apply IH; [|done|simpl in Hl; lia]. apply Forall_app. split; [done|by apply framed_ok].
Qed.

Lemma decode_block_framed rs v : Forall framed rs ->
  decode_block visitor (View (block_of rs)) v = (Status_Ok, snd (visit_records rs v)).
Proof.
  intros Hf. unfold decode_block, view_valid. rewrite orb_true_r. cbn [negb view_data].
  pose proof (decode_loop_framed rs [] (S (length (block_of rs))) v) as H. cbn [app] in H.
  change (len (@nil Z)) with 0 in H. rewrite H; [done|constructor|done|].
  clear H. induction Hf as [|r rs Hr Hf IH]; [simpl; lia|]. pose proof (framed_len _ Hr) as Hl.
  pose proof (len_nonneg (rv_payload r)). unfold block_of, len in *. cbn. rewrite length_app. lia.
Qed.
End Blocks.

(** ** A record query over one block *)

Section Query.
Context {V : Type}.
Variable visitor : RecordEvent -> V -> bool * V.

(** The user's visitor over records of one block, until it declines. *)
Definition visit_events (block : BlockMetadata) : list RecordView -> V -> bool * V :=
  visit_records (fun r v => visitor (mkRecordEvent ev_data block r Status_Ok) v).

Lemma record_visitor_run query block rs : forall n v, 0 <= n -> n + len rs < 2 ^ 32 ->
  exists m, visit_records (record_visitor visitor query block) rs (n, (true, v)) =
    (fst (visit_events block (List.filter (record_selected query) rs) v),
     (m, visit_events block (List.filter (record_selected query) rs) v)) /\
    (fst (visit_events block (List.filter (record_selected query) rs) v) = true -> m = n + len rs).
Proof.
  induction rs as [|r rs IH]; intros n v Hn Hl.
  - exists n. rewrite len_nil. split; [done|lia].
  - rewrite len_cons in *. pose proof (len_nonneg rs).
    assert (Hu : u32 (n + 1) = n + 1) by (apply u32_small; zlia).
    cbn [visit_records record_visitor List.filter]. rewrite Hu.
    destruct (record_selected query r); cbn [negb].
    + unfold visit_events. cbn [visit_records].
      destruct (visitor _ v) as [[] v1]; [|by exists (n + 1)].
      destruct (IH (n + 1) v1) as (m&H1&H2); [lia|lia|]. exists m. rewrite H1.
      split; [done|]. intros Hx. specialize (H2 Hx). lia.
    + destruct (IH (n + 1) v) as (m&H1&H2); [lia|lia|]. exists m. rewrite H1.
      split; [done|]. intros Hx. specialize (H2 Hx). lia.
Qed.

Lemma block_visitor_framed query rs event (c : Captured) :
  Forall framed rs -> len rs < 2 ^ 32 -> be_kind event = ev_data ->
  be_data event = concat (map rv_encoded rs) ->
  md_record_format_id (be_metadata event) = kFramedRecordV1ProfileId ->
  md_record_format_version (be_metadata event) = 1 ->
  md_record_count (be_metadata event) = len rs -> keep_going c = true ->
  let r := visit_events (be_metadata event) (List.filter (record_selected query) rs) (user c) in
  block_visitor visitor query FramedRecordV1.profile event c =
    (fst r, mkCaptured (fst r) Status_Ok (snd r)).
Proof.
  intros Hf Hl Hk Hd Hi Hv Hc Hg. unfold block_visitor. rewrite Hk, Hi, Hv, Hd.
  rewrite bool_decide_eq_true_2 by done. cbn [negb rp_id rp_version profile]. rewrite Z.eqb_refl.
  cbn [negb orb]. unfold profile. cbn [rp_decode_block rp_version]. rewrite Z.eqb_refl, Hg. cbn [negb orb].
  pose proof (decode_block_framed (record_visitor visitor query (be_metadata event)) rs
    (0, (true, user c)) Hf) as Hb. unfold block_of in Hb. rewrite Hb.
  destruct (record_visitor_run query (be_metadata event) rs 0 (user c)) as (m&H1&H2); [lia|lia|].
  rewrite H1. cbn [snd]. destruct (visit_events _ _ _) as [go v]. cbn [fst snd] in *.
  destruct go; cbn [andb status_ok]; [|done]. rewrite H2, Hc, Z.add_0_l, Z.eqb_refl by done. done.
Qed.
End Query.
End FramedFacts.
