(* ===== verification/RingSession.v ===== *)
(** * One session of a writer, and the readers after it

    A writer on blank media appends records that fit one block, checkpoints
    and closes; a reader of the durable image gets the records back. Also
    the record query over any catalogued store. *)

From S2P Require Import Prelude Status Hoare Crc32c Layout Format FormatFacts Codec Storage.
From S2P Require Import RingTypes RingWriter RingReader RingOpen RingRules RingGeometry RingInv.
From S2P Require Import RingHealth RingWriterFacts RingCalls RingDisk RingScan RingLog RingRefine.
From S2P Require Import RingRead.
From S2P Require Import RingCrash RingStored RingQuery RingWhole RingVolume RingOpenFacts.
From S2P Require Import RingFormatFacts RingReopen RingReadOnly RingLife RecordProfile.
From S2P Require Import RecordFacts.

(** ** Record queries *)

Section Store.
Context {T : Type} `{!Storage T, !StorageModel T, !ReliableReads T}.
Implicit Types s : Impl T.

Lemma query_records_catalogued {V} (visitor : RecordEvent -> V -> bool * V) q s L u :
  catalogued_store s L -> rr_ok (storage s) ->
  tr_begin_ns (rq_time q) < tr_end_ns (rq_time q) -> tr_time_domain_id (rq_time q) <> 0 ->
  exists s', moved s s' /\
    let r := snd (visit_all (block_visitor visitor q FramedRecordV1.profile)
               (ring_events (volume s) false (rq_time q) L) (mkCaptured true Status_Ok u)) in
    query_records visitor q FramedRecordV1.profile s u = (decode_status r, (s', user r)).
Proof.
  intros Hc Hr Ht Hd. destruct (query_catalogued (block_visitor visitor q FramedRecordV1.profile) false
    (rq_time q) (rq_block_options q) s (mkCaptured true Status_Ok u) L Hc Hr) as (s'&Hm&E); [by right|].
  exists s'. split; [exact Hm|]. cbv zeta. unfold query_records, query_blocks.
  rewrite (proj2 (Z.leb_gt _ _)), E by done. reflexivity.
Qed.

Lemma catalogued_moved s s' L : moved s s' -> catalogued_store s L -> catalogued_store s' L.
Proof.
  intros (st&->&(Hwf&Hc&_)&_) [? ? ? ? ? ? Hst]. split; cbn; rewrite ?Hc; try done.
  unfold RingWhole.part_stored in *. cbn. by rewrite Hc.
Qed.
End Store.

(** ** The writer *)

Section Session.
Context {T : Type} `{!Storage T, !StorageModel T}.
Variable now : nat -> Z.
Implicit Types s : Impl T.

(** The media behind [from] are zero. *)
Definition blank_from (from : Z) (c : bytes) : Prop :=
  forall off n, from <= off -> 0 <= n -> off + n <= len c -> slice off n c = zeroed n.

(** [s] writes the first partition [x] of the volume on blank media: [pub] is
    published, [cur] is pending. *)
Record session (v : VolumeHeader) (o : OpenOptions) (pub : list ablock) (cur : ablock) s (x : part)
    : Prop := {
  se_ring : ring s [] x;
  se_part : abstract_part x = mkApart 0 1 pub;
  se_volume : volume s = v;
  se_options : open_options s = o;
  se_next : ph_options (ps_header (pt_state x)) = oo_next_partition o;
  se_index : len (ps_active_index (pt_state x)) = len pub;
  se_end : ps_data_end (pt_state x) <= kPartitionHeaderRegionSize + len pub * worst_span v;
  se_blank : blank_from (partition_base v 0 + ps_data_end (pt_state x)) (contents (storage s));
  se_pends : pends s cur;
  se_clean : clean s }.

Definition same_access s s' : Prop := writable s' = writable s /\ closed s' = closed s.

(** Room for another worst-case block behind [n] of them. *)
Definition fits (v : VolumeHeader) (n : Z) : Prop :=
  kPartitionHeaderRegionSize + (n + 1) * worst_span v <= index_begin v /\
  n + 1 <= vh_index_region_size v / kIndexEntryEncodedSize.

Lemma session_room v o pub cur s x : session v o pub cur s x -> fits v (len pub) -> room v (pt_state x).
Proof. intros [] [H1 H2]. split; [lia|]. rewrite se_index0. exact H2. Qed.

Lemma session_volume v o pub cur s x : session v o pub cur s x ->
  vrefines s (mkAvol [] (mkApart 0 1 pub) cur).
Proof. intros []. by exists [], x. Qed.

Lemma session_slot v o pub cur s x : session v o pub cur s x -> ph_slot (ps_header (pt_state x)) = 0.
Proof. intros []. unfold abstract_part in se_part0. by injection se_part0. Qed.

Lemma zip_blocks raws times pub : zip_with mkAblock raws times = pub -> length raws = length times ->
  raws = map ab_data pub /\ times = map ab_times pub.
Proof.
  intros <- Hl. revert times Hl. induction raws as [|r raws IH]; intros [|t times] Hl; try done.
  destruct (IH times ltac:(simpl in Hl; lia)) as [E1 E2]. cbn. rewrite <- E1, <- E2. done.
Qed.
Lemma session_blocks v o pub cur s x : session v o pub cur s x ->
  pt_raws x = map ab_data pub /\ pt_times x = map ab_times pub.
Proof.
  intros [Hr Hp _ _ _ _ _ _ _ _]. unfold abstract_part in Hp. injection Hp as _ _ Hz.
  apply zip_blocks; [exact Hz|]. eapply part_lengths; [exact Hr|by left].
Qed.

(** The active log of a session. *)
Lemma session_refines v o pub cur s x : session v o pub cur s x ->
  refines s (mkAlog (map ab_data pub) (ab_data cur)).
Proof.
  intros Hse. destruct (session_blocks _ _ _ _ _ _ Hse) as [Hr _]. destruct Hse as [Hri _ _ _ _ _ _ _ [Hb _] _].
  pose proof (rg_stored _ _ _ Hri) as Hs. apply Forall_cons in Hs as [[Hslot Hh _ Hf Hra _ Ho _] _].
  destruct (Ho (rg_open _ _ _ Hri)) as [Hi He].
  split; [apply (rg_winv _ _ _ Hri)|]. split; [exact Hb|]. exists (pt_state x), (pt_log x).
  split; try done; [apply (rg_active _ _ _ Hri)|]. cbn [a_blocks]. by rewrite <- Hr.
Qed.

Lemma ring_accepted s s' R x record t f : ring s R x -> winv s' -> accepted record t f s s' -> ring s' R x.
Proof.
  intros Hr Hw' [Hc Hst _ _ _].
  assert (Hf : let s3 := accept_record record t f s in active s3 = active s /\
    volume s3 = volume s /\ open_options s3 = open_options s /\ partitions s3 = partitions s /\
    corrupt_slots s3 = corrupt_slots s)
    by (unfold accept_record; by destruct (len (builder s) =? 0)).
  destruct Hf as (Fa&Fv&Fo&Fp&Fc). apply (ring_same s); try done; core_rw Hc; try done.
  - by rewrite (c_partitions _ _ Hc).
  - by rewrite (c_corrupt _ _ Hc).
  - by rewrite (core_active _ _ Hc).
  - by rewrite Hst.
Qed.

(** A record that fits the pending block stays in place. *)
Lemma append_session v o pub cur s x r t f e s' : session v o pub cur s x -> record_ok r t ->
  len (ab_data cur) + view_size r <= vh_max_block_payload v -> fits v (len pub) ->
  append_impl now r t f e s = (Ok tt, s') ->
  session v o pub (mkAblock (ab_data cur ++ view_data r) (ab_times cur ++ [t])) s' x /\ same_access s s'.
Proof.
  intros Hse Hr Hfit Hfits E. pose proof Hse as [Hri Hpt Hv Hoo Hnx Hix Hen Hbl Hp Hcn].
  pose proof (rg_winv _ _ _ Hri) as Hw.
  pose proof (append_impl_spec now r t f e s Hw Hr) as H. unfold wp in H. rewrite E in H.
  destruct H as ((s2&fl&(s1&H1&_&H2)&Hac)&Hw'&_&_&_&_&Hcn'). pose proof Hp as (Eb&_).
  rewrite Hv, Eb, (proj2 (Z.ltb_ge _ _)) in H1 by lia. subst s1.
  destruct H2 as [->|(_&Hfu&_)].
  - pose proof (ring_accepted _ _ _ _ _ _ _ Hri Hw' Hac) as Hri'.
    pose proof Hac as [Hco Hst _ _ _].
    assert (Hf : let s3 := accept_record (view_data r) t fl s in volume s3 = volume s /\
      open_options s3 = open_options s /\ writable s3 = writable s /\ closed s3 = closed s)
      by (unfold accept_record; by destruct (len (builder s) =? 0)).
    destruct Hf as (Fv&Fo&Fw&Fc).
    split; [|split; [by rewrite (c_writable _ _ Hco), Fw|by rewrite (c_closed _ _ Hco), Fc]].
    split; try done; try (by auto).
    + by rewrite (c_volume _ _ Hco), Fv.
    + by rewrite (c_options _ _ Hco), Fo.
    + by rewrite Hst.
    + by apply (pends_accept (view_data r) t fl s).
  - exfalso. apply (Hfu _ (rg_active _ _ _ Hri)). rewrite Hv. by eapply session_room.
Qed.

Lemma append_checked_impl r t c f s s' : append_checked now r t c f s = (Ok tt, s') ->
  append_impl now r t f (Some c) s = (Ok tt, s').
Proof. unfold append_checked. destruct (_ || _ || _); [done|]. done. Qed.

(** So does a framed record. *)
Lemma framed_session v o pub cur s x r s' : session v o pub cur s x -> FramedFacts.framed r ->
  len (ab_data cur) + len (rv_encoded r) <= vh_max_block_payload v -> fits v (len pub) ->
  append_framed_record now (rv_index_time_ns r) (rv_selector r) (rv_flags r) (View (rv_payload r)) s =
    (Ok tt, s') ->
  session v o pub (mkAblock (ab_data cur ++ rv_encoded r) (ab_times cur ++ [rv_index_time_ns r])) s' x /\
  same_access s s'.
Proof.
  intros Hse Hr Hfit Hfits E. unfold append_framed_record, mbind, prog_bind, get in E.
  destruct (lift_result _ s) as [[info|e] s0] eqn:Ei; [|done].
  assert (s0 = s) as -> by (unfold lift_result in Ei; by destruct (active_partition_info s); injection Ei).
  destruct (_ || _) in E; [done|]. rewrite FramedFacts.encode_fits in E by apply Hr.
  rewrite <- (FramedFacts.fm_encoded _ Hr) in E.
  change (negb (status_ok Status_Ok)) with false in E. cbv zeta iota in E. cbn [default] in E.
  apply append_checked_impl in E.
  change (rv_encoded r) with (view_data (View (rv_encoded r))).
  eapply append_session; [exact Hse| |exact Hfit|exact Hfits|exact E].
  split; [by apply FramedFacts.framed_ok|apply Hr].
Qed.

Lemma zero_block_invalid : decode_block_header (zeroed kBlockHeaderEncodedSize) = 
  Err (match decode_block_header (zeroed kBlockHeaderEncodedSize) with Err e => e | Ok _ => Status_Ok end).
Proof. vm_compute. reflexivity. Qed.

(** Behind the frame of a published block the media stay as they were. *)
Lemma emitted_tail s p sel ver payload span s1 :
  winv s -> active s = Some p -> builder s <> [] -> emitted s p sel ver payload span s1 ->
  exists p1, active s1 = Some p1 /\ ps_header p1 = ps_header p /\
    ps_data_end p1 <= ps_data_end p + worst_span (volume s) /\
    len (ps_active_index p1) = len (ps_active_index p) + 1 /\
    (blank_from (partition_base (volume s) (ph_slot (ps_header p)) + ps_data_end p) (contents (storage s)) ->
     blank_from (partition_base (volume s) (ph_slot (ps_header p)) + ps_data_end p1) (contents (storage s1))).
Proof.
  intros Hw Ha Hne Hem. pose proof (et_emission _ _ _ _ _ _ _ Hem) as He.
  destruct (emitted_place s p sel ver payload span s1 Hw Ha Hne Hem) as (Hb&Hd&Hin&Hlen).
  pose proof (em_bounds _ _ _ _ _ _ He) as Hsp.
  pose proof (emission_facts s p sel ver payload span Hw Ha Hne He) as (Hps&_&[Hr _]&Hg&Hsb&Hde&_&Hs32&_).
  pose proof (index_begin_range _ _ Hg Hsb) as (?&?&?). pose proof (len_nonneg payload).
  eexists. split; [apply (et_active _ _ _ _ _ _ _ Hem)|].
  unfold kPartitionHeaderRegionSize, kBlockHeaderEncodedSize, kPartitionFooterRegionSize in *.
  set (p1 := push_block _ _ _ _).
  assert (Hp1 : ps_header p1 = ps_header p /\ ps_data_end p1 = ps_data_end p + span /\
    len (ps_active_index p1) = len (ps_active_index p) + 1).
  { unfold p1, push_block.
    rewrite <- (u64_small (ps_data_end p + span)) by zlia. case_match; (split_and!; [done|done|]);
      cbn; rewrite len_app; done. }
  destruct Hp1 as (->&->&->). split; [done|]. split; [lia|]. split; [done|]. intros Hbl off n Ho Hn Hl.
  rewrite (et_contents _ _ _ _ _ _ _ Hem) in Hl |- *. cbv zeta in *.
  rewrite len_splice in Hl by lia.
  rewrite slice_splice_after by lia. apply Hbl; [|done|done].
  lia.
Qed.

(** What is published when the pending block is. *)
Definition publish_block (pub : list ablock) (cur : ablock) : list ablock :=
  match ab_data cur with [] => pub | _ => pub ++ [cur] end.

Lemma settled_session v o pub cur s x s1 : session v o pub cur s x -> settled s s1 ->
  exists x1, session v o (publish_block pub cur) (mkAblock [] []) s1 x1 /\
    durable (storage s1) = contents (storage s1).
Proof.
  intros Hse Hs. pose proof Hse as [Hri Hpt Hv Hoo Hnx Hix Hen Hbl Hp Hcn].
  pose proof (sd_durable _ _ Hs Hcn) as Hd. pose proof (sd_steps _ _ Hs) as (s0&Hpub&Hk).
  destruct (vrefines_settled _ _ _ Hs (session_volume _ _ _ _ _ _ Hse)) as (R&x1&Hring&Hold&Hcur&Hpend).
  assert (Hpb : vpublish (mkAvol [] (mkApart 0 1 pub) cur) =
    mkAvol [] (mkApart 0 1 (publish_block pub cur)) (mkAblock [] [])).
  { unfold vpublish, publish_block. destruct cur as [d ts]. cbn [av_pending ab_data].
    destruct d; [|done]. destruct Hp as (Hb&Ht&_). specialize (Ht Hb). cbn in Ht. by subst. }
  rewrite Hpb in Hold, Hcur, Hpend. destruct R as [|? ?]; [|done]. cbn [app av_cur av_pending] in *.
  pose proof (rg_active _ _ _ Hring) as Hx. rewrite (k_active _ _ Hk) in Hx.
  pose proof (session_slot _ _ _ _ _ _ Hse) as Hslot.
  assert (Hv1 : volume s0 = v) by (destruct Hpub as (_&Hfr&_); by rewrite (ef_volume _ _ Hfr)).
  assert (Ho1 : open_options s0 = o) by (destruct Hpub as (_&Hfr&_); by rewrite (ef_options _ _ Hfr)).
  exists x1. split; [|done].
  enough (H : ps_header (pt_state x1) = ps_header (pt_state x) /\
    len (ps_active_index (pt_state x1)) = len (publish_block pub cur) /\
    ps_data_end (pt_state x1) <= kPartitionHeaderRegionSize + len (publish_block pub cur) * worst_span v /\
    blank_from (partition_base v 0 + ps_data_end (pt_state x1)) (contents (storage s0))).
  { destruct H as (Hh&?&?&?). split; try done; [by rewrite (k_volume _ _ Hk)|by rewrite (k_options _ _ Hk)
      |by rewrite Hh|by rewrite (k_contents _ _ Hk)|by intros _ _]. }
  destruct Hp as (Eb&_). unfold publish_block. destruct Hpub as (_&_&[[Hb ->]|(Hnb&p&sel&ver&pl&span&Ha&Hem)]).
  - rewrite <- Eb, Hb. rewrite (rg_active _ _ _ Hri) in Hx. injection Hx as <-. done.
  - rewrite Eb in Hnb. destruct (ab_data cur) as [|b0 d] eqn:Ed; [done|].
    rewrite (rg_active _ _ _ Hri) in Ha. injection Ha as <-.
    destruct (emitted_tail _ _ _ _ _ _ _ (rg_winv _ _ _ Hri) (rg_active _ _ _ Hri) ltac:(congruence) Hem)
      as (p1&Ha1&Hh1&He1&Hi1&Hbl1). rewrite Ha1 in Hx. injection Hx as ->.
    rewrite Hv, Hslot in *. rewrite len_app, len_cons, len_nil. split; [done|]. split; [lia|]. split; [lia|].
    by apply Hbl1.
Qed.

(** A checkpoint publishes what is pending and leaves the store open. *)
Lemma checkpoint_session v o pub cur s x s1 : session v o pub cur s x -> checkpoint now s = (Ok tt, s1) ->
  (exists x1, session v o (publish_block pub cur) (mkAblock [] []) s1 x1) /\ same_access s s1.
Proof.
  intros Hse E. pose proof (rg_winv _ _ _ (se_ring _ _ _ _ _ _ Hse)) as Hw. split.
  - pose proof (checkpoint_spec now s Hw) as H. unfold wp in H. rewrite E in H.
    destruct (settled_session _ _ _ _ _ _ _ Hse H) as (x1&?&_). by exists x1.
  - enough (H : wp (checkpoint now) (fun _ s' => same_access s s') (fun _ _ => True) s)
      by (unfold wp in H; by rewrite E in H).
    unfold checkpoint. apply wp_bind, wp_check_writer; [|done]. intros _ _ Hf.
    apply wp_bind. eapply wp_conseq; [by apply emit_spec| |done]. intros [] s2 (Hw2&Hfr&_).
    apply wp_bind, wp_get, wp_if; intros _; [by split; destruct Hfr|].
    eapply wp_conseq; [apply sync_media_spec, (w_st _ (w_base _ Hw2))| |done].
    intros [] s3 [Hc _ _ _ _ _ _ _ _]. destruct Hfr. split; [rewrite (c_writable _ _ Hc)|rewrite (c_closed _ _ Hc)]; done.
Qed.

(** The media of a session that is settled. *)
Lemma session_media v o o' pub s x : session v o pub (mkAblock [] []) s x ->
  durable (storage s) = contents (storage s) ->
  oo_compression_codecs o' = oo_compression_codecs o ->
  settled_media s (mkAvol [] (mkApart 0 1 pub) (mkAblock [] [])) o' [x].
Proof.
  intros Hse Hd Hco. pose proof Hse as [Hri Hpt Hv Hoo Hnx Hix Hen Hbl Hp Hcn].
  destruct (ring_facts _ _ _ Hri) as (Hg&Hbd&Hsz&_&Hsp). pose proof Hg as Hgv. rewrite Hv in Hgv.
  pose proof (session_slot _ _ _ _ _ _ Hse) as Hslot.
  pose proof (ring_image _ _ _ o' Hri) as Him. 
  assert (Htail : tail_clear (volume s) (pt_state x) (contents (storage s)) = true).
  { unfold tail_clear. cbv zeta. rewrite Hv, Hslot, Hbl.
    - rewrite zero_block_invalid. done.
    - lia.
    - unfold kBlockHeaderEncodedSize. lia.
    - destruct (w_active _ (rg_winv _ _ _ Hri)) as (p&Ha&Hps&_). rewrite (rg_active _ _ _ Hri) in Ha.
      injection Ha as <-. pose proof (regions _ _ Hgv Hbd) as (?&?&?&?). pose proof (worst_span_bounds _ _ Hgv).
      destruct (index_ok_bounds v 0 kPartitionHeaderRegionSize (ps_active_index (pt_state x)) (ps_data_end (pt_state x)))
        as [[_ Hle] _]; [pose proof (g_quantum _ _ Hgv); lia|apply (g_header_mod _ _ Hgv)
          |pose proof (g_payload _ _ Hgv); unfold kBlockHeaderEncodedSize in *; lia|rewrite <- Hv; apply Hps|].
      rewrite <- Hsz. pose proof (partition_range _ _ Hgv 0 ltac:(pose proof (g_count _ _ Hgv); lia)).
      rewrite (partition_base_eq _ _ Hgv Hbd) by (pose proof (g_count _ _ Hgv); lia).
      pose proof (vh_wf_index_region_size _ (g_wf _ _ Hgv)).
      unfold kBlockHeaderEncodedSize, kPartitionFooterRegionSize in *. zlia. }
  destruct (Him ltac:(by rewrite Hoo) Htail) as [Him' Htl].
  rewrite Hsz in Hg. split; try rewrite Hd; try assumption; [|done].
  cbn. by rewrite Hpt.
Qed.

(** Closing publishes what is pending and settles the media. *)
Lemma close_session v o o' pub cur s x s1 : session v o pub cur s x ->
  writable s = true -> closed s = false -> oo_compression_codecs o' = oo_compression_codecs o ->
  close now s = (Ok tt, s1) ->
  exists x1, settled_media s1 (mkAvol [] (mkApart 0 1 (publish_block pub cur)) (mkAblock [] [])) o' [x1] /\
    st_wf (storage s1) /\ durable (storage s1) = contents (storage s1) /\
    ph_options (ps_header (pt_state x1)) = oo_next_partition o /\
    pt_raws x1 = map ab_data (publish_block pub cur) /\ pt_times x1 = map ab_times (publish_block pub cur).
Proof.
  intros Hse Hwr Hcl Hco E. pose proof (rg_winv _ _ _ (se_ring _ _ _ _ _ _ Hse)) as Hw.
  pose proof (close_spec now s Hw Hwr Hcl) as H. unfold wp in H. rewrite E in H. destruct H as [Hs _].
  destruct (settled_session _ _ _ _ _ _ _ Hse Hs) as (x1&H1&Hd). exists x1.
  split; [by eapply session_media|]. split; [apply (w_st _ (w_base _ (sd_winv _ _ Hs)))|]. split; [exact Hd|].
  split; [apply (se_next _ _ _ _ _ _ H1)|]. by eapply session_blocks.
Qed.
End Session.

(** ** Blank media *)

Definition rejects {A} (r : result A) : bool :=
  match r with Ok _ => false | Err e => negb (is_io_class (code e)) && negb (is_io_error (code e)) end.
Lemma zero_header_invalid : rejects (decode_partition_header (zeroed kPartitionHeaderEncodedSize)) = true.
Proof. vm_compute. reflexivity. Qed.
Lemma zero_footer_invalid : rejects (decode_partition_footer (zeroed kPartitionFooterEncodedSize)) = true.
Proof. vm_compute. reflexivity. Qed.

(** A zero slot holds nothing of the volume. *)
Lemma blank_unclaimed v o c slot : geometry_ok v (len c) -> len c < 2 ^ 63 ->
  blank_from kVolumePrefixSize c -> 0 <= slot < vh_partition_count v -> unclaimed v o slot c = true.
Proof.
  intros Hg Hb Hbl Hs. destruct (slot_places v c Hg Hb slot Hs) as (H0&H1&H2&H3&_).
  pose proof (partition_base_eq _ _ Hg Hb slot Hs) as Hbase.
  pose proof (partition_range _ _ Hg slot Hs) as [? _].
  assert (Hh : slot_header v slot c = zeroed kPartitionHeaderEncodedSize).
  { apply Hbl; unfold kPartitionHeaderEncodedSize, kVolumePrefixSize in *; lia. }
  assert (Hf : slot_footer v slot c = zeroed kPartitionFooterEncodedSize).
  { apply Hbl; unfold kPartitionFooterEncodedSize, kVolumePrefixSize in *; lia. }
  pose proof zero_header_invalid as Zh. pose proof zero_footer_invalid as Zf.
  unfold unclaimed, evidence, footer_foreign, footer_evidence. rewrite Hh, Hf.
  unfold accept_partition_header.
  destruct (decode_partition_header _) as [|eh]; [done|]. destruct (decode_partition_footer _) as [|ef]; [done|].
  cbn [mbind result_bind rejects] in *. apply andb_true_iff in Zh as [_ ->]. apply andb_true_iff in Zf as [-> _].
  assert (Hz : forallb (fun b => b =? 0) (zeroed kPartitionHeaderEncodedSize) = true) by (vm_compute; reflexivity).
  rewrite Hz. done.
Qed.

(** The header of the first partition leaves the rest blank. *)
Lemma splice_blank from off e c : 0 <= off -> off + len e <= from -> from <= len c ->
  blank_from from c -> blank_from from (splice off e c).
Proof.
  intros H0 H1 H2 Hbl x n Hx Hn Hl. pose proof (len_nonneg e). rewrite len_splice in Hl by lia.
  rewrite slice_splice_after by lia. by apply Hbl.
Qed.
Lemma begun_blank v o c : geometry_ok v (len c) -> len c < 2 ^ 63 -> blank_from kVolumePrefixSize c ->
  blank_from (partition_base v 0 + kPartitionHeaderRegionSize) (begun v 0 1 o c).
Proof.
  intros Hg Hb Hbl. pose proof (g_count _ _ Hg).
  pose proof (partition_base_eq _ _ Hg Hb 0 ltac:(lia)) as Hb0.
  pose proof (partition_range _ _ Hg 0 ltac:(lia)). pose proof (g_data _ _ Hg). pose proof (g_quantum _ _ Hg).
  pose proof (vh_wf_index_region_size _ (g_wf _ _ Hg)).
  unfold kPartitionHeaderRegionSize, kVolumePrefixSize, kPartitionFooterRegionSize in *.
  apply splice_blank; [zlia|rewrite encode_partition_len; unfold kPartitionHeaderEncodedSize; zlia|zlia|].
  intros x n Hx. apply Hbl. zlia.
Qed.

Section Blank.
Context {T : Type} `{!Storage T, !StorageModel T, !ReliableReads T}.
Variable now : nat -> Z.

(** [format] and a writable [open] on zero media start an empty session. *)
Lemma open_session vo id o random (st st1 st2 : T) status (s : Impl T) :
  st_wf st -> blank_from 0 (contents st) -> VolumeOptions_wf vo -> random_id_ok id ->
  format vo id st = (status, st1) -> status_ok status = true ->
  rr_ok st1 -> st_writable st1 = true -> open_ready o random ->
  (forall v, format_header (st_size st) vo id = Ok v -> worst_span v <= UINT32_MAX) ->
  open now o random st1 = (Ok s, st2) ->
  exists v, format_header (st_size st) vo id = Ok v /\ st2 = storage s /\
    session v o [] (mkAblock [] []) s (fresh_part v 0 1 (oo_next_partition o)) /\
    writable s = true /\ closed s = false /\ health_ok s.
Proof.
  intros Hwf Hbl Hvo Hid Hf Hs Hrr Hw Hor Hsp Ho.
  destruct (format_spec _ _ _ _ _ Hwf Hvo Hid Hf Hs) as (v&Hfh&Hg&Hwf1&Hc&_). specialize (Hsp v Hfh).
  pose proof (copies_fit _ _ Hg) as Hfit. pose proof (st_size_bound _ Hwf) as Hbd.
  rewrite (st_size_contents _ Hwf) in Hfit, Hbd.
  destruct (formatted_copies v (contents st) (g_wf _ _ Hg) (geometry_header_valid _ _ Hg))
    as (C0&C1&Hl&Hrest); [unfold kVolumePrefixSize; lia|]. rewrite <- Hc in C0, C1, Hl, Hrest.
  assert (Hbl1 : blank_from kVolumePrefixSize (contents st1)).
  { intros off n H1 H2 H3. rewrite Hl in H3. rewrite Hrest by done.
    apply Hbl; unfold kVolumePrefixSize in *; lia. }
  assert (Hg1 : geometry_ok v (st_size st1))
    by (rewrite (st_size_contents _ Hwf1), Hl, <- (st_size_contents _ Hwf); exact Hg).
  pose proof Hg1 as Hgl. rewrite (st_size_contents _ Hwf1) in Hgl. rewrite <- Hl in Hbd.
  assert (Hvac : forall slot, 0 <= slot < vh_partition_count v -> unclaimed v o slot (contents st1) = true)
    by (intros; by apply blank_unclaimed).
  pose proof Hor as (Ha&Hi&Hval).
  assert (Him : image v o (contents st1) []).
  { split; try constructor; [by split|]. intros slot Hslot _. by apply Hvac. }
  destruct (writer_id o random) as [wid|] eqn:Ei; [|done].
  pose proof (open_resumes now _ _ _ _ _ _ _ _ Hwf1 Hrr Hw Ha Ei Hval Hg1 Hsp Him Ho) as [Hres Hst].
  destruct Hres as (L'&H2&Hring&Hcs&Hds). apply Forall2_nil_inv_l in H2 as ->.
  change (fst (next_place v [])) with 0 in Hring, Hcs. change (snd (next_place v [])) with 1 in Hring, Hcs.
  destruct (open_spec now o random st1 s st2 Hwf1 Ha Ho) as (_&s0&Hst0&Hop).
  destruct Hst0 as (w&idw&st0&->&_&Hw0&_). assert (w = v) as -> by (destruct Hw0; congruence).
  specialize (Hop Hsp). exists v. split; [done|]. split; [done|].
  split; [|split; [rewrite (od_writable _ _ Hop); apply (oa_writable _ _ Ha)|
    split; [by rewrite (od_closed _ _ Hop)|by apply (od_health _ _ Hop)]]].
  split; try done.
  - by rewrite (od_volume _ _ Hop).
  - by rewrite (od_options _ _ Hop).
  - rewrite Hcs. by apply begun_blank.
  - apply pends_nil. apply (pr_builder _ (od_pristine _ _ Hop)).
  - by intros _ _.
Qed.
End Blank.

(** ** The reader *)

Section Reader.
Context {T : Type} `{!Storage T, !StorageModel T}.
Context {T' : Type} `{!Storage T', !StorageModel T', !ReliableReads T'}.
Variable now : nat -> Z.

(** A visitor that never stops and does not look at the block. *)
Definition plain_visitor {V} (visitor : RecordEvent -> V -> bool * V) : Prop :=
  forall r u, exists u', forall md, visitor (mkRecordEvent ev_data md r Status_Ok) u = (true, u').

Lemma plain_events {V} (visitor : RecordEvent -> V -> bool * V) md md' rs : plain_visitor visitor -> forall u,
  FramedFacts.visit_events visitor md rs u = FramedFacts.visit_events visitor md' rs u /\
  fst (FramedFacts.visit_events visitor md rs u) = true.
Proof.
  intros Hp. unfold FramedFacts.visit_events. induction rs as [|r rs IH]; intros u; [done|].
  cbn [FramedFacts.visit_records]. destruct (Hp r u) as (u'&Hu). rewrite !Hu. apply IH.
Qed.
Lemma plain_events_app {V} (visitor : RecordEvent -> V -> bool * V) md rs rs' u : plain_visitor visitor ->
  snd (FramedFacts.visit_events visitor md (rs ++ rs') u) =
  snd (FramedFacts.visit_events visitor md rs' (snd (FramedFacts.visit_events visitor md rs u))).
Proof.
  intros Hp. unfold FramedFacts.visit_events. revert u. induction rs as [|r rs IH]; intros u; [done|].
  cbn [FramedFacts.visit_records app]. destruct (Hp r u) as (u'&Hu). rewrite !Hu. apply IH.
Qed.

(** Events that show the blocks [rss] of framed records to the query. *)
Definition framed_event (q : RecordQuery) (e : BlockEvent) (rs : list RecordView) : Prop :=
  be_kind e = ev_data /\ be_data e = FramedFacts.block_of rs /\
  md_record_format_id (be_metadata e) = kFramedRecordV1ProfileId /\
  md_record_format_version (be_metadata e) = 1 /\ md_record_count (be_metadata e) = len rs /\
  Forall FramedFacts.framed rs /\ len rs < 2 ^ 32.

Lemma visit_framed {V} (visitor : RecordEvent -> V -> bool * V) q md es rss : plain_visitor visitor ->
  Forall2 (framed_event q) es rss -> forall u,
  visit_all (block_visitor visitor q FramedRecordV1.profile) es (mkCaptured true Status_Ok u) =
    (true, mkCaptured true Status_Ok
       (snd (FramedFacts.visit_events visitor md (List.filter (record_selected q) (concat rss)) u))).
Proof.
  intros Hp. induction 1 as [|e rs es rss (Hk&Hd&Hi&Hv&Hc&Hf&Hn) Hs IH]; intros u; [done|].
  cbn [visit_all concat]. rewrite (FramedFacts.block_visitor_framed visitor q rs e) by done. cbn [user].
  destruct (plain_events visitor (be_metadata e) md (List.filter (record_selected q) rs) Hp u) as [E1 E2].
  rewrite E1 in *. rewrite E2. rewrite IH. rewrite List.filter_app, plain_events_app by done. done.
Qed.

Definition readable (q : RecordQuery) (rs : list RecordView) : Prop :=
  rs <> [] /\ Forall FramedFacts.framed rs /\ len rs < 2 ^ 32 /\
  Forall (fun r => tr_begin_ns (rq_time q) <= rv_index_time_ns r < tr_end_ns (rq_time q)) rs.

Lemma log_events_framed v p q rss : 
  po_record_format_id (ph_options (ps_header p)) = kFramedRecordV1ProfileId ->
  po_record_format_version (ph_options (ps_header p)) = 1 -> Forall (readable q) rss ->
  forall log off, Forall2 timed log (map (map rv_index_time_ns) rss) ->
  Forall2 (framed_event q)
    (List.filter (wanted false (rq_time q)) (log_events v p off log (map FramedFacts.block_of rss))) rss.
Proof.
  intros Hid Hver. induction 1 as [|rs rss (Hne&Hf&Hn&Hr) Hrss IH]; intros log off Ht.
  - apply Forall2_nil_inv_r in Ht as ->. constructor.
  - destruct log as [|f log]; [by apply Forall2_nil_inv_l in Ht|]. apply Forall2_cons_1 in Ht as [[(Hcov&_&_) Hcnt] Ht].
    cbn [map log_events List.filter]. set (e := block_event _ _ _ _ _).
    assert (Hw : wanted false (rq_time q) e = true).
    { destruct rs as [|r rs]; [done|]. apply Forall_cons in Hr as [Hr _]. apply Forall_cons in Hcov as [Hcov _].
      unfold wanted, ranges_intersect. cbn. lia. }
    rewrite Hw. constructor; [|by apply IH].
    unfold framed_event. cbn. rewrite Hcnt. unfold len. rewrite length_map. by split_and!.
Qed.

(** A record query over a volume of one partition of framed blocks, all in
    the time range. *)
Lemma read_session {V} (visitor : RecordEvent -> V -> bool * V) (s : Impl T) a o x random (st : T') q md rss u :
  plain_visitor visitor ->
  settled_media s a o [x] -> oo_writable o = false -> st_wf st -> rr_ok st ->
  contents st = durable (storage s) ->
  po_record_format_id (ph_options (ps_header (pt_state x))) = kFramedRecordV1ProfileId ->
  po_record_format_version (ph_options (ps_header (pt_state x))) = 1 ->
  po_time_domain_id (ph_options (ps_header (pt_state x))) = tr_time_domain_id (rq_time q) ->
  tr_time_domain_id (rq_time q) <> 0 -> tr_begin_ns (rq_time q) < tr_end_ns (rq_time q) ->
  Forall (readable q) rss ->
  pt_raws x = map FramedFacts.block_of rss -> pt_times x = map (map rv_index_time_ns) rss ->
  exists s2 s3, open now o random st = (Ok s2, storage s2) /\ moved s2 s3 /\
    query_records visitor q FramedRecordV1.profile s2 u =
      (Status_Ok, (s3, snd (FramedFacts.visit_events visitor md
        (List.filter (record_selected q) (concat rss)) u))).
Proof.
  intros Hpv [Him Htl Hg Hsp Ha _] Hro Hwf Hrr Hc Hid Hver Hdom Hd0 Hrange Hrss Hraws Htimes.
  rewrite <- Hc in Him, Hg. rewrite <- (st_size_contents _ Hwf) in Hg.
  destruct (open_readonly now (volume s) o random st [x] Hwf Hrr Hro Hg Hsp Him)
    as (s2&L'&Eo&Hcs&H2&Hv&Hr2&_).
  pose proof (reopened_timed _ _ _ _ _ Him H2) as Htm.
  apply Forall2_cons_inv_l in H2 as (x'&?&Hx&H2&->). apply Forall2_nil_inv_l in H2 as ->.
  apply Forall_cons in Htm as [Htm _]. destruct Hx as [[_ _ Hopt] _ _ Hra Hti Hst].
  destruct (query_records_catalogued visitor q s2 [x'] u Hcs Hr2 Hrange Hd0) as (s3&Hm&E).
  exists s2, s3. split; [exact Eo|]. split; [exact Hm|]. rewrite E. cbv zeta.
  rewrite (visit_framed visitor q md _ rss Hpv); [done|].
  unfold ring_events, part_events, in_domain. cbn [map concat orb]. rewrite app_nil_r.
  rewrite Hopt, Hdom, Z.eqb_refl, orb_true_r, Hra, Hraws.
  apply log_events_framed; [by rewrite Hopt|by rewrite Hopt|done|].
  unfold part_timed in Htm. by rewrite Hti, Htimes in Htm.
Qed.
End Reader.
