(* ===== verification/Tools.v ===== *)
(** * Command line tools

    tools/common.hpp, tfdb_format.cpp, tfdb_inspect.cpp, tfdb_verify.cpp and
    tfdb_dump.cpp. A tool runs in a [world]: the kernel behind the system
    calls and the two output streams. [argv] is the list of arguments behind
    the program name; its strings are never null. [main] answers the exit
    code. The file object is destroyed, which closes it, when [main]
    returns. *)

From stdpp Require Import pretty.
From Stdlib Require Import Ascii.
From S2P Require Import Prelude Status Crc32c Layout Format Codec Lz4 Storage FileStorage.
From S2P Require Import RingTypes RingWriter RingReader RingOpen RecordProfile.

(** ** Numbers: [strtoull] and [strtoll] with base 0 *)

Definition isspace (c : ascii) : bool :=
  let n := N_of_ascii c in ((n =? 32) || ((9 <=? n) && (n <=? 13)))%N.

(** The value of a digit in bases up to 36. *)
Definition digit_value (c : ascii) : Z :=
  let n := Z.of_N (N_of_ascii c) in
  if (48 <=? n) && (n <=? 57) then n - 48 else
  if (97 <=? n) && (n <=? 122) then n - 87 else
  if (65 <=? n) && (n <=? 90) then n - 55 else 36.
Definition is_digit (base : Z) (c : ascii) : bool := digit_value c <? base.

Fixpoint skip_spaces (text : string) : string :=
  match text with
  | String c rest => if isspace c then skip_spaces rest else text
  | EmptyString => text
  end.

Definition take_sign (text : string) : bool * string :=
  match text with
  | String "-" rest => (true, rest)
  | String "+" rest => (false, rest)
  | _ => (false, text)
  end.

(** The digits at the front, and where they end. *)
Fixpoint take_digits (base : Z) (text : string) (value : Z) : Z * string :=
  match text with
  | String c rest =>
      if is_digit base c then take_digits base rest (value * base + digit_value c)
      else (value, text)
  | EmptyString => (value, text)
  end.

Definition starts_with_digit (base : Z) (text : string) : bool :=
  match text with String c _ => is_digit base c | EmptyString => false end.

(** The unsigned subject sequence: [0x] hexadecimal, [0] octal, else
    decimal; [None] when it is empty. *)
Definition subject (text : string) : option (Z * string) :=
  match text with
  | String "0" (String c rest) =>
      if (bool_decide (c = "x"%char) || bool_decide (c = "X"%char)) && starts_with_digit 16 rest
      then Some (take_digits 16 rest 0) else Some (take_digits 8 text 0)
  | _ => if starts_with_digit 10 text then Some (take_digits 10 text 0) else None
  end.

(** The value, whether [errno] became [ERANGE], and the text at [*end]. Without
    a conversion the value is 0, [errno] is not touched and [end] is [text]. *)
Record strto_result := mkStrto { sv_value : Z; sv_range_error : bool; sv_end : string }.

Definition strtoull (text : string) : strto_result :=
  let '(negative, body) := take_sign (skip_spaces text) in
  match subject body with
  | None => mkStrto 0 false text
  | Some (m, rest) =>
      if UINT64_MAX <? m then mkStrto UINT64_MAX true rest
      else mkStrto (if (negative : bool) then u64 (- m) else m) false rest
  end.

Definition strtoll (text : string) : strto_result :=
  let '(negative, body) := take_sign (skip_spaces text) in
  match subject body with
  | None => mkStrto 0 false text
  | Some (m, rest) =>
      if (negative : bool) then
        if 2 ^ 63 <? m then mkStrto INT64_MIN true rest else mkStrto (- m) false rest
      else if INT64_MAX <? m then mkStrto INT64_MAX true rest else mkStrto m false rest
  end.

Definition starts_with_minus (text : string) : bool :=
  match text with String "-" _ => true | _ => false end.

Definition parse_u64 (text : string) : option Z :=
  if starts_with_minus text then None else
  let r := strtoull text in
  if sv_range_error r || negb (bool_decide (sv_end r = "")) then None else Some (sv_value r).

Definition parse_i64 (text : string) : option Z :=
  let r := strtoll text in
  if sv_range_error r || negb (bool_decide (sv_end r = "")) then None else Some (sv_value r).

(** ** Printing *)

Definition hex_char (d : Z) : ascii :=
  ascii_of_N (Z.to_N (if d <? 10 then 48 + d else 87 + d)).
(** [std::hex] on a 64-bit value: at most 16 digits. *)
Fixpoint hex_go (fuel : nat) (z : Z) (acc : string) : string :=
  match fuel with
  | O => acc
  | S fuel => if z =? 0 then acc else hex_go fuel (z / 16) (String (hex_char (z mod 16)) acc)
  end.
Definition hex_number (z : Z) : string := if z =? 0 then "0" else hex_go 16 z "".
(** [std::setw(width)] with [std::setfill('0')]. *)
Definition zero_filled (width : nat) (s : string) : string :=
  String.concat "" (replicate (width - String.length s) "0") +:+ s.

Definition hex_bytes (b : bytes) : string :=
  let limit := 64 in
  let count := if len b <? limit then len b else limit in
  String.concat "" (map (fun x => zero_filled 2 (hex_number x)) (takeZ count b)) +:+
  (if negb (count =? len b) then "..." else "").

Definition newline : string := String "010" EmptyString.

(** Bytes written to a stream as they are. *)
Definition raw_string (b : bytes) : string :=
  String.concat "" (map (fun x => String (ascii_of_N (Z.to_N x)) EmptyString) b).
Definition write_u32 (value : Z) : string :=
  raw_string [u8 value; u8 (Z.shiftr value 8); u8 (Z.shiftr value 16); u8 (Z.shiftr value 24)].

(** ** Default member initialisers of include/tfdb/ring_store.hpp *)

Definition VolumeOptions_default : VolumeOptions :=
  mkVolumeOptions (64 * 1024 * 1024) (1024 * 1024) (32 * 1024) 4096 0 0 false 0.
Definition OpenOptions_default : OpenOptions :=
  mkOpenOptions false false default_PartitionOptions [] 0 0 false.
Definition QueryOptions_default : QueryOptions := mkQueryOptions true true.

#[export] Instance PartitionOptions_eta : Eta PartitionOptions := fun o =>
  mkPartitionOptions (po_compression o) (po_compression_version o) (po_record_format_id o)
    (po_record_format_version o) (po_time_domain_id o) (po_allowed_backward_skew_ns o)
    (po_allowed_forward_step_ns o).
#[export] Instance OpenOptions_eta : Eta OpenOptions := fun o =>
  mkOpenOptions (oo_writable o) (oo_verify_payloads_on_open o) (oo_next_partition o)
    (oo_compression_codecs o) (oo_writer_id_high o) (oo_writer_id_low o)
    (oo_allow_explicit_writer_id_for_testing o).

(** ** A tool and the world it runs in *)

Record world (K : Type) := mkWorld { w_kernel : K; w_cout : string; w_cerr : string }.
Arguments mkWorld {K}. Arguments w_kernel {K}. Arguments w_cout {K}. Arguments w_cerr {K}.
#[export] Instance world_eta K : Eta (world K) := fun w => mkWorld (w_kernel w) (w_cout w) (w_cerr w).

(** [inl code] is a [return code;] of [main]. *)
Definition tool (W A : Type) : Type := W -> (Z + A) * W.
#[export] Instance tool_ret W : MRet (tool W) := fun A a w => (inr a, w).
#[export] Instance tool_bind W : MBind (tool W) := fun A B k m w =>
  match m w with
  | (inl code, w) => (inl code, w)
  | (inr a, w) => k a w
  end.

Section Tools.
Context {K : Type} `{!Posix K}.
(** The clock and the random identifier of the store. *)
Variable now : nat -> Z.
Variable random : result (Z * Z).

Abbreviation M := (tool (world K)).
Abbreviation file := (FileStorage.file K).

Definition exit {A} (exit_code : Z) : M A := fun w => (inl exit_code, w).
Definition to_cerr (text : string) : M unit := fun w => (inr tt, w <| w_cerr ::= fun s => s +:+ text |>).
Definition to_cout (text : string) : M unit := fun w => (inr tt, w <| w_cout ::= fun s => s +:+ text |>).

Definition print_status {A} (status : Status) : M A :=
  to_cerr (status_code_name (code status) +:+ ": " +:+ message status +:+ newline);; exit 2.
Definition usage {A} (text : string) : M A := to_cerr text;; exit 1.

(** A call on the kernel whose status is checked by [print_status]. *)
Definition kernel_call {A} (m : prog K A) : M A := fun w =>
  match m (w_kernel w) with
  | (Ok a, k) => (inr a, w <| w_kernel := k |>)
  | (Err status, k) => print_status status (w <| w_kernel := k |>)
  end.

(** The destructor of the file object runs on every way out. *)
Definition closing {A} (f : FileStorage.t) (m : M A) : M A := fun w =>
  let '(r, w) := m w in (r, w <| w_kernel ::= FileStorage.destroy f |>).

Definition finish (m : M unit) (w : world K) : Z * world K :=
  match m w with
  | (inl exit_code, w) => (exit_code, w)
  | (inr _, w) => (0, w)
  end.

(** [RingStore::open] on a file with the default options. *)
Definition open_store (f : FileStorage.t) : M (Impl file) := fun w =>
  match open now OpenOptions_default random (FileStorage.mkFile f (w_kernel w)) with
  | (Ok s, _) => (inr s, w <| w_kernel := FileStorage.kernel (storage s) |>)
  | (Err status, st) => print_status status (w <| w_kernel := FileStorage.kernel st |>)
  end.

(** ** tfdb_format *)

Definition format_usage : string :=
  "usage: tfdb_format PATH --size BYTES [--partition BYTES] " +:+
  "[--index BYTES] [--block BYTES] [--quantum BYTES] " +:+
  "[--overwrite | --device --yes]" +:+ newline.

(** [std::getline] on the text of the file: an unterminated last line counts,
    an empty one does not. *)
Fixpoint getlines (text line : string) : list string :=
  match text with
  | EmptyString => if bool_decide (line = "") then [] else [line]
  | String c rest =>
      if bool_decide (c = "010"%char) then line :: getlines rest ""
      else getlines rest (line +:+ String c "")
  end.
(** [fields >> word]: skip white space, then take up to the next one. *)
Fixpoint take_word (text : string) : string * string :=
  match text with
  | EmptyString => ("", "")
  | String c rest =>
      if isspace c then ("", text) else
      let '(word, rest) := take_word rest in (String c word, rest)
  end.
Definition extract_word (text : string) : option (string * string) :=
  let '(word, rest) := take_word (skip_spaces text) in
  if bool_decide (word = "") then None else Some (word, rest).

(** [mounts] is the text of /proc/self/mounts, [None] when it cannot be
    opened. *)
Definition looks_mounted (mounts : option string) (path : string) : bool :=
  match mounts with
  | None => false
  | Some text =>
      existsb (fun line =>
        match extract_word line with
        | None => false
        | Some (source, rest) =>
            match extract_word rest with
            | None => false
            | Some (target, _) => bool_decide (source = path) || bool_decide (target = path)
            end
        end) (getlines text "")
  end.

Record format_args := mkFormatArgs {
  fa_size : Z; fa_overwrite : bool; fa_device : bool; fa_confirmed : bool;
  fa_options : VolumeOptions }.
#[export] Instance format_args_eta : Eta format_args := fun a =>
  mkFormatArgs (fa_size a) (fa_overwrite a) (fa_device a) (fa_confirmed a) (fa_options a).
#[export] Instance VolumeOptions_eta : Eta VolumeOptions := fun o =>
  mkVolumeOptions (vo_partition_size o) (vo_index_region_size o) (vo_max_block_payload o)
    (vo_persistence_quantum o) (vo_volume_id_high o) (vo_volume_id_low o)
    (vo_allow_explicit_volume_id_for_testing o) (vo_created_time_ns o).

(** A valued argument; [None] is [usage(); return 1;]. *)
Definition format_value (argument : string) (value : Z) (a : format_args) : option format_args :=
  if (UINT32_MAX <? value) && negb (bool_decide (argument = "--size")) &&
     negb (bool_decide (argument = "--partition")) then None else
  if bool_decide (argument = "--size") then Some (a <| fa_size := value |>) else
  if bool_decide (argument = "--partition")
  then Some (a <| fa_options ::= set vo_partition_size (fun _ => value) |>) else
  if bool_decide (argument = "--index")
  then Some (a <| fa_options ::= set vo_index_region_size (fun _ => u32 value) |>) else
  if bool_decide (argument = "--block")
  then Some (a <| fa_options ::= set vo_max_block_payload (fun _ => u32 value) |>) else
  if bool_decide (argument = "--quantum")
  then Some (a <| fa_options ::= set vo_persistence_quantum (fun _ => u32 value) |>) else None.

Fixpoint parse_format (args : list string) (a : format_args) : option format_args :=
  match args with
  | [] => Some a
  | argument :: rest =>
      if bool_decide (argument = "--overwrite") then parse_format rest (a <| fa_overwrite := true |>) else
      if bool_decide (argument = "--device") then parse_format rest (a <| fa_device := true |>) else
      if bool_decide (argument = "--yes") then parse_format rest (a <| fa_confirmed := true |>) else
      match rest with
      | [] => None
      | text :: rest =>
          match parse_u64 text with
          | None => None
          | Some value =>
              match format_value argument value a with
              | None => None
              | Some a => parse_format rest a
              end
          end
      end
  end.

(** The checks between the arguments and the first system call. *)
Definition format_guards (mounts : option string) (path : string) (a : format_args) : M unit :=
  if fa_device a && fa_overwrite a then usage format_usage else
  if negb (fa_device a) && fa_confirmed a
  then to_cerr ("--yes applies to --device only" +:+ newline);; exit 1 else
  if fa_device a && negb (fa_confirmed a)
  then to_cerr ("refusing to format block device " +:+ path +:+ " without --yes" +:+ newline);; exit 1
  else if fa_device a && looks_mounted mounts path
  then to_cerr ("refusing to format " +:+ path +:+ ": it appears in /proc/self/mounts" +:+ newline);;
       exit 1
  else if negb (fa_device a) && (fa_size a =? 0) then usage format_usage else mret tt.

Definition format_storage (f : FileStorage.t) (o : VolumeOptions) : M unit := fun w =>
  let '(status, st) := format o random (FileStorage.mkFile f (w_kernel w)) in
  let w := w <| w_kernel := FileStorage.kernel st |> in
  if negb (status_ok status) then print_status status w else (inr tt, w).

Definition format_report (path : string) (f : FileStorage.t) (o : VolumeOptions) : string :=
  "formatted path=" +:+ path +:+ " bytes=" +:+ pretty (FileStorage.size_ f) +:+
  " partition_bytes=" +:+ pretty (vo_partition_size o) +:+
  " block_payload_bytes=" +:+ pretty (vo_max_block_payload o) +:+
  " persistence_quantum=" +:+ pretty (vo_persistence_quantum o) +:+ newline.

Definition format_main (mounts : option string) (argv : list string) : world K -> Z * world K :=
  finish (
    match argv with
    | path :: ((_ :: _) as args) =>
        match parse_format args (mkFormatArgs 0 false false false VolumeOptions_default) with
        | None => usage format_usage
        | Some a =>
            format_guards mounts path a;;
            f ← kernel_call (if fa_device a then FileStorage.open_existing path true
                             else FileStorage.create path (fa_size a) (fa_overwrite a));
            closing f (
              format_storage f (fa_options a);;
              to_cout (format_report path f (fa_options a)))
        end
    | _ => usage format_usage
    end).

(** ** tfdb_inspect *)

Definition inspect_volume_line (info : VolumeInfo) : string :=
  "volume id=" +:+ zero_filled 16 (hex_number (vi_volume_id_high info)) +:+
  zero_filled 16 (hex_number (vi_volume_id_low info)) +:+
  " bytes=" +:+ pretty (vi_volume_size info) +:+
  " partitions=" +:+ pretty (vi_partition_count info) +:+
  " partition_bytes=" +:+ pretty (vi_partition_size info) +:+
  " block_payload_bytes=" +:+ pretty (vi_max_block_payload info) +:+
  " quantum=" +:+ pretty (vi_persistence_quantum info) +:+
  " index_bytes=" +:+ pretty (vi_index_region_size info) +:+ newline.
Definition inspect_partition_line (partition : PartitionInfo) : string :=
  "partition slot=" +:+ pretty (pi_slot partition) +:+
  " generation=" +:+ pretty (pi_generation partition) +:+
  " state=" +:+ (if pi_sealed partition then "sealed" else "active") +:+
  " blocks=" +:+ pretty (pi_block_count partition) +:+
  " data_span_bytes=" +:+ pretty (pi_data_bytes partition) +:+
  " min_time=" +:+ pretty (pi_min_time_ns partition) +:+
  " max_time=" +:+ pretty (pi_max_time_ns partition) +:+
  " flags=0x" +:+ hex_number (pi_flags partition) +:+
  " compression=" +:+ pretty (po_compression (pi_options partition) : Z) +:+
  " record_profile=" +:+ pretty (po_record_format_id (pi_options partition)) +:+
  ":" +:+ pretty (po_record_format_version (pi_options partition)) +:+
  " time_domain=" +:+ pretty (po_time_domain_id (pi_options partition)) +:+ newline.

Definition inspect_main (argv : list string) : world K -> Z * world K :=
  finish (
    match argv with
    | [path] =>
        f ← kernel_call (FileStorage.open_existing path false);
        closing f (
          s ← open_store f;
          let info := inspect s in
          to_cout (inspect_volume_line info);;
          to_cout (String.concat "" (map inspect_partition_line (vi_partitions info))))
    | _ => usage ("usage: tfdb_inspect PATH" +:+ newline)
    end).

(** ** tfdb_verify *)

(** What the visitor captures, the error stream included. *)
Record verify_state := mkVerify {
  vs_blocks : Z; vs_raw_bytes : Z; vs_gaps : Z; vs_cerr : string }.

Definition verify_visitor (event : BlockEvent) (c : verify_state) : bool * verify_state :=
  (true,
   if bool_decide (be_kind event = ev_data)
   then mkVerify (u64 (vs_blocks c + 1)) (u64 (vs_raw_bytes c + len (be_data event)))
          (vs_gaps c) (vs_cerr c)
   else mkVerify (vs_blocks c) (vs_raw_bytes c) (u64 (vs_gaps c + 1))
          (vs_cerr c +:+ "gap generation=" +:+ pretty (md_partition_generation (be_metadata event)) +:+
           " block=" +:+ pretty (md_block_sequence (be_metadata event)) +:+
           " reason=" +:+ message (be_detail event) +:+ newline)).

Definition verify_report (c : verify_state) : string :=
  "verified blocks=" +:+ pretty (vs_blocks c) +:+ " raw_bytes=" +:+ pretty (vs_raw_bytes c) +:+
  " gaps=" +:+ pretty (vs_gaps c) +:+ newline.

(** The scan and the exit code. *)
Definition verify_store (s : Impl file) : M unit := fun w =>
  let options := mkQueryOptions true (verify_payload_crc QueryOptions_default) in
  let '(status, (s, c)) := scan_blocks verify_visitor options s (mkVerify 0 0 0 (w_cerr w)) in
  let w := w <| w_kernel := FileStorage.kernel (storage s) |> <| w_cerr := vs_cerr c |> in
  if negb (status_ok status) && (vs_gaps c =? 0) then print_status status w
  else (to_cout (verify_report c);; exit (if vs_gaps c =? 0 then 0 else 3)) w.

Definition verify_main (argv : list string) : world K -> Z * world K :=
  finish (
    match argv with
    | [path] =>
        f ← kernel_call (FileStorage.open_existing path false);
        closing f (s ← open_store f; verify_store s)
    | _ => usage ("usage: tfdb_verify PATH" +:+ newline)
    end).

(** ** tfdb_dump *)

Definition dump_usage : string :=
  "usage: tfdb_dump PATH [--from NS --to NS] [--selector ID] " +:+
  "[--time-domain ID] [--framed-v1 | --raw-blocks]" +:+ newline.

Record dump_args := mkDumpArgs {
  da_framed : bool; da_raw : bool; da_have_range : bool; da_from : Z; da_to : Z;
  da_selectors : list Z; da_time_domain_id : Z }.
#[export] Instance dump_args_eta : Eta dump_args := fun a =>
  mkDumpArgs (da_framed a) (da_raw a) (da_have_range a) (da_from a) (da_to a) (da_selectors a)
    (da_time_domain_id a).

Fixpoint parse_dump (args : list string) (a : dump_args) : option dump_args :=
  match args with
  | [] => Some a
  | argument :: rest =>
      if bool_decide (argument = "--framed-v1") then parse_dump rest (a <| da_framed := true |>) else
      if bool_decide (argument = "--raw-blocks") then parse_dump rest (a <| da_raw := true |>) else
      match rest with
      | [] => None
      | text :: rest =>
          if bool_decide (argument = "--from") then
            match parse_i64 text with
            | None => None
            | Some v => parse_dump rest (a <| da_from := v |> <| da_have_range := true |>)
            end
          else if bool_decide (argument = "--to") then
            match parse_i64 text with
            | None => None
            | Some v => parse_dump rest (a <| da_to := v |> <| da_have_range := true |>)
            end
          else if bool_decide (argument = "--selector") then
            match parse_u64 text with
            | None => None
            | Some v => parse_dump rest (a <| da_selectors ::= fun l => l ++ [v] |>)
            end
          else if bool_decide (argument = "--time-domain") then
            match parse_u64 text with
            | None => None
            | Some v => if v =? 0 then None else parse_dump rest (a <| da_time_domain_id := v |>)
            end
          else None
      end
  end.

(** What the visitors capture: [saw_gap] and the two streams. *)
Record dump_state := mkDump { ds_saw_gap : bool; ds_cout : string; ds_cerr : string }.

Definition dump_gap (detail : Status) (c : dump_state) : bool * dump_state :=
  (true, mkDump true (ds_cout c) (ds_cerr c +:+ "gap " +:+ message detail +:+ newline)).
Definition dump_line (text : string) (c : dump_state) : bool * dump_state :=
  (true, mkDump (ds_saw_gap c) (ds_cout c +:+ text) (ds_cerr c)).

Definition dump_record_visitor (event : RecordEvent) (c : dump_state) : bool * dump_state :=
  if negb (bool_decide (re_kind event = ev_data)) then dump_gap (re_detail event) c else
  dump_line ("generation=" +:+ pretty (md_partition_generation (re_block event)) +:+
    " block=" +:+ pretty (md_block_sequence (re_block event)) +:+
    " time=" +:+ pretty (rv_index_time_ns (re_record event)) +:+
    " selector=" +:+ pretty (rv_selector (re_record event)) +:+
    " flags=0x" +:+ hex_number (rv_flags (re_record event)) +:+
    " payload=" +:+ hex_bytes (rv_payload (re_record event)) +:+ newline) c.

Definition dump_block_text (raw : bool) (event : BlockEvent) : string :=
  if raw then write_u32 (u32 (len (be_data event))) +:+ raw_string (be_data event)
  else "generation=" +:+ pretty (md_partition_generation (be_metadata event)) +:+
    " block=" +:+ pretty (md_block_sequence (be_metadata event)) +:+
    " records=" +:+ pretty (md_record_count (be_metadata event)) +:+
    " min_time=" +:+ pretty (md_min_time_ns (be_metadata event)) +:+
    " max_time=" +:+ pretty (md_max_time_ns (be_metadata event)) +:+
    " raw_bytes=" +:+ pretty (len (be_data event)) +:+
    " data=" +:+ hex_bytes (be_data event) +:+ newline.
Definition dump_block_visitor (raw : bool) (event : BlockEvent) (c : dump_state) : bool * dump_state :=
  if negb (bool_decide (be_kind event = ev_data)) then dump_gap (be_detail event) c
  else dump_line (dump_block_text raw event) c.

(** The query of [a]. *)
Definition dump_query (a : dump_args) (s : Impl file) (c : dump_state)
    : Status * (Impl file * dump_state) :=
  if da_framed a then
    query_records dump_record_visitor
      (mkRecordQuery (mkTimeRange (da_from a) (da_to a) (da_time_domain_id a)) (da_selectors a)
         QueryOptions_default) FramedRecordV1.profile s c
  else if da_have_range a then
    query_blocks (dump_block_visitor (da_raw a))
      (mkTimeRange (da_from a) (da_to a) (da_time_domain_id a)) QueryOptions_default s c
  else scan_blocks (dump_block_visitor (da_raw a)) QueryOptions_default s c.

(** [cout_good] is [std::cout.good()] after the output. *)
Definition dump_store (cout_good : bool) (a : dump_args) (s : Impl file) : M unit := fun w =>
  if da_framed a && (da_to a <=? da_from a) then usage dump_usage w else
  let '(status, (s, c)) := dump_query a s (mkDump false (w_cout w) (w_cerr w)) in
  let w := mkWorld (FileStorage.kernel (storage s)) (ds_cout c) (ds_cerr c) in
  if negb (status_ok status) then print_status status w else
  if negb cout_good then exit 4 w else
  exit (if ds_saw_gap c then 3 else 0) w.

Definition dump_main (cout_good : bool) (argv : list string) : world K -> Z * world K :=
  finish (
    match argv with
    | path :: args =>
        match parse_dump args (mkDumpArgs false false false INT64_MIN INT64_MAX [] 1) with
        | None => usage dump_usage
        | Some a =>
            if da_framed a && da_raw a then usage dump_usage else
            f ← kernel_call (FileStorage.open_existing path false);
            closing f (s ← open_store f; dump_store cout_good a s)
        end
    | [] => usage dump_usage
    end).
End Tools.
