(* ===== verification/ToolsFacts.v ===== *)
(** * Facts about the command line tools

    Number parsing inverts number printing, and the visitors of tfdb_verify
    and tfdb_dump over the blocks of a store. *)

From stdpp Require Import pretty.
From Stdlib Require Import Ascii.
From S2P Require Import Prelude Status Format Codec Storage FileStorage RingTypes RingReader.
From S2P Require Import RingOpen RingQuery Tools.

(** ** Numbers *)

Lemma digit_nonneg c : 0 <= digit_value c.
Proof. unfold digit_value. repeat case_match; lia. Qed.

Lemma take_digits_nonneg base text : 0 <= base -> forall v, 0 <= v -> 0 <= fst (take_digits base text v).
Proof.
  intros Hb. induction text as [|c text IH]; intros v Hv; cbn; [done|].
  destruct (is_digit base c); [|done]. apply IH. pose proof (digit_nonneg c). nia.
Qed.

Lemma subject_nonneg text m rest : subject text = Some (m, rest) -> 0 <= m.
Proof.
  assert (H : forall base t, 0 <= base -> Some (take_digits base t 0) = Some (m, rest) -> 0 <= m).
  { intros base t Hb [= E]. pose proof (take_digits_nonneg base t Hb 0 ltac:(lia)). by rewrite E in *. }
  unfold subject. repeat case_match; try done; apply H; lia.
Qed.

Lemma strtoull_range text : is_u64 (sv_value (strtoull text)).
Proof.
  unfold strtoull. destruct (take_sign _) as [neg body].
  destruct (subject body) as [[m rest]|] eqn:E; [|cbn; zlia]. apply subject_nonneg in E.
  destruct (UINT64_MAX <? m) eqn:E2; cbn; [zlia|]. destruct neg; [apply u64_range|zlia].
Qed.
Lemma strtoll_range text : is_i64 (sv_value (strtoll text)).
Proof.
  unfold strtoll. destruct (take_sign _) as [neg body].
  destruct (subject body) as [[m rest]|] eqn:E; [|cbn; zlia]. apply subject_nonneg in E.
  destruct neg; [destruct (2 ^ 63 <? m) eqn:E2|destruct (INT64_MAX <? m) eqn:E2]; cbn; zlia.
Qed.

Lemma parse_u64_typed text v : parse_u64 text = Some v ->
  is_u64 v /\ sv_range_error (strtoull text) = false.
Proof.
  unfold parse_u64. destruct (starts_with_minus text); [done|]. cbv zeta.
  destruct (_ || _) eqn:E; [done|]. intros [= <-]. apply orb_false_iff in E as [E _].
  split; [apply strtoull_range|done].
Qed.
Lemma parse_i64_typed text v : parse_i64 text = Some v ->
  is_i64 v /\ sv_range_error (strtoll text) = false.
Proof.
  unfold parse_i64. cbv zeta. destruct (_ || _) eqn:E; [done|]. intros [= <-].
  apply orb_false_iff in E as [E _]. split; [apply strtoll_range|done].
Qed.

(** A decimal digit other than 0 opens a decimal number. *)
Lemma leading_digit c rest : 1 <= digit_value c <= 9 ->
  isspace c = false /\ starts_with_minus (String c rest) = false /\
  take_sign (String c rest) = (false, String c rest) /\
  subject (String c rest) = Some (take_digits 10 (String c rest) 0).
Proof.
  destruct c as [[] [] [] [] [] [] [] []]; vm_compute digit_value; intros H; try lia;
    split_and!; reflexivity.
Qed.

Lemma pretty_digit d : (d < 10)%N -> digit_value (pretty_N_char d) = Z.of_N d.
Proof.
  intros H. assert (d = 0 \/ d = 1 \/ d = 2 \/ d = 3 \/ d = 4 \/ d = 5 \/ d = 6 \/ d = 7 \/ d = 8 \/ d = 9)%N
    as Hd by lia. repeat destruct Hd as [-> | Hd]; try reflexivity. subst. reflexivity.
Qed.

Lemma take_digits_pretty x : forall s, take_digits 10 (pretty_N_go x s) 0 = take_digits 10 s (Z.of_N x).
Proof.
  induction (N.lt_wf_0 x) as [x _ IH]. intros s. destruct (decide (x = 0)%N) as [->|Hx]; [done|].
  rewrite pretty_N_go_step by lia. rewrite IH by (apply N.div_lt; lia). cbn [take_digits].
  unfold is_digit. pose proof (N.mod_lt x 10 ltac:(done)). rewrite pretty_digit by done.
  rewrite (proj2 (Z.ltb_lt _ _)) by lia. f_equal.
  rewrite (N.div_mod x 10) at 3 by done. lia.
Qed.

Lemma pretty_leading x : (0 < x)%N -> forall s, exists c rest,
  pretty_N_go x s = String c rest /\ 1 <= digit_value c <= 9.
Proof.
  induction (N.lt_wf_0 x) as [x _ IH]. intros Hx s. rewrite pretty_N_go_step by done.
  destruct (decide (x < 10)%N) as [Hlt|Hge].
  - rewrite N.div_small, pretty_N_go_0, N.mod_small by done. eexists _, _. split; [done|].
    rewrite pretty_digit by done. lia.
  - apply IH; [apply N.div_lt; lia|]. apply N.div_str_pos. lia.
Qed.

(** A printed positive number: its first digit and its value. *)
Lemma pretty_pos p : exists c rest, pretty (Z.pos p) = String c rest /\ 1 <= digit_value c <= 9 /\
  take_digits 10 (String c rest) 0 = (Z.pos p, "").
Proof.
  destruct (pretty_leading (N.pos p) ltac:(lia) "") as (c&rest&E&Hc). exists c, rest.
  change (pretty (Z.pos p)) with (pretty_N_go (N.pos p) ""). split; [done|]. split; [done|].
  rewrite <- E. rewrite take_digits_pretty. done.
Qed.

(** The decimal digits of a number behind the optional sign. *)
Lemma subject_pretty n : 0 <= n -> subject (pretty n) = Some (n, "").
Proof.
  destruct n as [|p|]; intros H; [reflexivity| |lia].
  destruct (pretty_pos p) as (c&rest&->&Hc&Ht). destruct (leading_digit c rest Hc) as (_&_&_&->).
  by rewrite Ht.
Qed.
Lemma skip_sign_pretty n : 0 <= n -> take_sign (skip_spaces (pretty n)) = (false, pretty n) /\
  starts_with_minus (pretty n) = false.
Proof.
  destruct n as [|p|]; intros H; [done| |lia].
  destruct (pretty_pos p) as (c&rest&->&Hc&_). destruct (leading_digit c rest Hc) as (Hs&Hm&Ht&_).
  cbn [skip_spaces]. by rewrite Hs.
Qed.

(** The digits [hex_number] prints are read back in base 16. *)
Lemma hex_digit d : 0 <= d < 16 -> digit_value (hex_char d) = d.
Proof.
  intros H. assert (Hd : d ∈ seqZ 0 16) by (apply elem_of_seqZ; lia).
  clear H. revert d Hd. apply Forall_forall. by repeat constructor.
Qed.
Lemma take_digits_hex fuel : forall z acc v, 0 <= z < 16 ^ Z.of_nat fuel -> exists k,
  take_digits 16 (hex_go fuel z acc) v = take_digits 16 acc (v * 16 ^ Z.of_nat k + z).
Proof.
  induction fuel as [|fuel IH]; intros z acc v Hz.
  { exists O. cbn in *. f_equal. lia. }
  cbn [hex_go]. destruct (Z.eqb_spec z 0) as [->|Hne]; [exists O; f_equal; lia|].
  rewrite Nat2Z.inj_succ, Z.pow_succ_r in Hz by lia.
  pose proof (Z.mod_pos_bound z 16 ltac:(lia)). pose proof (Z.div_mod z 16 ltac:(lia)).
  destruct (IH (z / 16) (String (hex_char (z mod 16)) acc) v) as (k&->).
  { split; [apply Z.div_pos; lia|]. apply Z.div_lt_upper_bound; lia. }
  exists (S k). cbn [take_digits]. unfold is_digit. rewrite hex_digit by done.
  rewrite (proj2 (Z.ltb_lt _ _)) by lia. f_equal. rewrite Nat2Z.inj_succ, Z.pow_succ_r by lia. lia.
Qed.
Lemma hex_starts fuel : forall z acc, 0 <= z < 16 ^ Z.of_nat fuel -> z <> 0 \/ starts_with_digit 16 acc = true ->
  starts_with_digit 16 (hex_go fuel z acc) = true.
Proof.
  induction fuel as [|fuel IH]; intros z acc Hz H; cbn [hex_go].
  { destruct H as [H|H]; [cbn in Hz; lia|done]. }
  destruct (Z.eqb_spec z 0) as [->|Hne]; [by destruct H|].
  rewrite Nat2Z.inj_succ, Z.pow_succ_r in Hz by lia. pose proof (Z.mod_pos_bound z 16 ltac:(lia)).
  apply IH.
  { split; [apply Z.div_pos; lia|]. apply Z.div_lt_upper_bound; lia. }
  right. cbn [starts_with_digit]. unfold is_digit. rewrite hex_digit by done. apply Z.ltb_lt. lia.
Qed.
Lemma subject_hex n : is_u64 n -> subject ("0x" +:+ hex_number n) = Some (n, "").
Proof.
  intros Hn. change (subject ("0x" +:+ hex_number n)) with
    (if starts_with_digit 16 (hex_number n) then Some (take_digits 16 (hex_number n) 0)
     else Some (take_digits 8 ("0x" +:+ hex_number n) 0)).
  unfold hex_number. destruct (Z.eqb_spec n 0) as [->|Hne]; [reflexivity|].
  assert (Hb : 0 <= n < 16 ^ Z.of_nat 16) by (change (16 ^ Z.of_nat 16) with (2 ^ 64); exact Hn).
  rewrite hex_starts by (try done; by left). destruct (take_digits_hex 16 n "" 0 Hb) as (k&->).
  reflexivity.
Qed.

(** ** The widths of parsed options *)

Record volume_typed (o : VolumeOptions) : Prop := {
  vt_partition : is_u64 (vo_partition_size o);
  vt_index : is_u32 (vo_index_region_size o);
  vt_block : is_u32 (vo_max_block_payload o);
  vt_quantum : is_u32 (vo_persistence_quantum o) }.

Lemma volume_typed_default : volume_typed VolumeOptions_default.
Proof. by split. Qed.
Create HintDb tools.
#[export] Hint Resolve volume_typed_default u32_range : tools.

Definition format_typed (a : format_args) : Prop := is_u64 (fa_size a) /\ volume_typed (fa_options a).

Lemma format_value_typed argument value a a' : format_value argument value a = Some a' ->
  is_u64 value -> format_typed a -> format_typed a'.
Proof.
  unfold format_value. intros H Hv [Hs []]. repeat case_match; try done; injection H as <-;
    (split; [|split]); cbn; auto with tools.
Qed.
Lemma parse_format_typed args : forall a a', parse_format args a = Some a' ->
  format_typed a -> format_typed a'.
Proof.
  revert args. fix IH 1. intros [|argument args] a a' H Ha; cbn in H; repeat case_match;
    try done; try (by injection H as <-); try (by apply IH in H).
  all: eapply IH; [exact H|]; [eapply format_value_typed; [done| |done]; by eapply parse_u64_typed].
Qed.

Record dump_typed (a : dump_args) : Prop := {
  dt_from : is_i64 (da_from a);
  dt_to : is_i64 (da_to a);
  dt_selectors : Forall is_u64 (da_selectors a);
  dt_domain : is_u64 (da_time_domain_id a) /\ da_time_domain_id a <> 0 }.

Lemma parse_dump_typed args : forall a a', parse_dump args a = Some a' ->
  dump_typed a -> dump_typed a'.
Proof.
  revert args. fix IH 1. intros [|argument args] a a' H Ha; cbn in H; repeat case_match;
    try done; (injection H as <- || (eapply IH; [exact H|])); try done; destruct Ha; split; cbn;
    repeat match goal with
    | E : parse_u64 _ = Some _ |- _ => apply parse_u64_typed in E as [? _]
    | E : parse_i64 _ = Some _ |- _ => apply parse_i64_typed in E as [? _]
    | E : (_ =? _) = false |- _ => apply Z.eqb_neq in E
    end; try done.
  all: apply Forall_app; split; [done|]; constructor; [done|constructor].
Qed.

(** ** Visitors over blocks *)

Definition total_size (blocks : list bytes) : Z := foldr (fun b n => len b + n) 0 blocks.

Lemma u64_add_u64 a b : u64 (u64 a + b) = u64 (a + b).
Proof. unfold u64. by rewrite Zplus_mod_idemp_l. Qed.

Lemma verify_visits es : Forall (fun e => be_kind e = ev_data /\ be_detail e = Status_Ok) es ->
  forall b r g e, visit_all verify_visitor es (mkVerify (u64 b) (u64 r) g e) =
    (true, mkVerify (u64 (b + len es)) (u64 (r + total_size (map be_data es))) g e).
Proof.
  induction 1 as [|ev es [Hk _] _ IH]; intros b r g e; cbn [visit_all map total_size foldr].
  - by rewrite len_nil, !Z.add_0_r.
  - unfold verify_visitor at 1. rewrite bool_decide_true by done. cbn [vs_blocks vs_raw_bytes vs_gaps vs_cerr].
    rewrite !u64_add_u64, IH, len_cons. fold (total_size (map be_data es)).
    by rewrite <- !Z.add_assoc.
Qed.

Lemma dump_visits raw es : Forall (fun e => be_kind e = ev_data /\ be_detail e = Status_Ok) es ->
  forall g o e, visit_all (dump_block_visitor raw) es (mkDump g o e) =
    (true, mkDump g (foldl String.append o (map (dump_block_text raw) es)) e).
Proof.
  induction 1 as [|ev es [Hk _] _ IH]; intros g o e; cbn [visit_all map foldl]; [done|].
  unfold dump_block_visitor at 1. rewrite bool_decide_true by done. cbn [negb dump_line ds_saw_gap ds_cout ds_cerr].
  apply IH.
Qed.
