(* ===== verification/Examples.v ===== *)
(** * The quickstart example

    examples/quickstart.cpp: a whole client program. It creates and formats a
    file, appends three records, checkpoints and closes, then reopens the file
    read-only and prints the records of one selector. A failed call throws
    and ends in the handler of [main]; leaving the scope of the shared pointer
    closes the file on every way out. *)

From stdpp Require Import pretty.
From Stdlib Require Import Ascii.
From S2P Require Import Prelude Status Crc32c Layout Format Codec Lz4 Storage FileStorage.
From S2P Require Import RingTypes RingWriter RingReader RingOpen RecordProfile Tools.

(** The bytes of a [std::string]. *)
Definition string_bytes (s : string) : bytes :=
  map (fun c => Z.of_N (N_of_ascii c)) (String.list_ascii_of_string s).

Module Quickstart.

Definition kMiB : Z := 1024 * 1024.
Definition kBaseTimeNs : Z := 1700000000000000000.
Definition kTemperatureSelector : Z := 0x010001.
Definition kPressureSelector : Z := 0x010002.

Definition volume_options : VolumeOptions :=
  VolumeOptions_default <| vo_partition_size := 1 * kMiB |>
    <| vo_index_region_size := 64 * 1024 |> <| vo_max_block_payload := 8 * 1024 |>
    <| vo_persistence_quantum := 4096 |>.

Definition partition_options : PartitionOptions :=
  default_PartitionOptions <| po_record_format_id := kFramedRecordV1ProfileId |>
    <| po_record_format_version := 1 |> <| po_time_domain_id := 1 |>.
Definition writer_options : OpenOptions :=
  OpenOptions_default <| oo_writable := true |> <| oo_next_partition := partition_options |>.

Definition temperature_1 : string := "temperature=21.5".
Definition pressure : string := "pressure=101.3".
Definition temperature_2 : string := "temperature=21.7".

Definition query : RecordQuery :=
  mkRecordQuery (mkTimeRange kBaseTimeNs (kBaseTimeNs + 3000) 1) [kTemperatureSelector]
    QueryOptions_default.

(** What the visitor of the query captures. *)
Record captured := mkCaptured {
  matches : Z; saw_gap : bool; cout : string; cerr : string }.

Definition visitor (event : RecordEvent) (c : captured) : bool * captured :=
  (true,
   if negb (bool_decide (re_kind event = ev_data))
   then mkCaptured (matches c) true (cout c)
          (cerr c +:+ "query gap: " +:+ message (re_detail event) +:+ newline)
   else mkCaptured (u64 (matches c + 1)) (saw_gap c)
          (cout c +:+ raw_string (rv_payload (re_record event)) +:+ newline) (cerr c)).

Section Main.
Context {K : Type} `{!Posix K}.
Variable now : nat -> Z.
(** The two random identifiers: of the volume and of the writer. *)
Variables volume_id writer_random : result (Z * Z).

Abbreviation M := (tool (world K)).
Abbreviation file := (FileStorage.file K).

(** [require]: a failed status is thrown; the handler of [main] prints it and
    returns 1. *)
Definition require {A} (operation : string) (r : result A) : M A :=
  match r with
  | Ok a => mret a
  | Err status =>
      to_cerr (operation +:+ ": " +:+ status_code_name (code status) +:+ ": " +:+
               message status +:+ newline);; exit 1
  end.
Definition require_kernel {A} (operation : string) (m : prog K A) : M A := fun w =>
  let '(r, k) := m (w_kernel w) in require operation r (w <| w_kernel := k |>).
Definition require_format (f : FileStorage.t) : M unit := fun w =>
  let '(status, st) := format volume_options volume_id (FileStorage.mkFile f (w_kernel w)) in
  require "format storage" (if status_ok status then Ok tt else Err status)
    (w <| w_kernel := FileStorage.kernel st |>).
Definition require_open (operation : string) (o : OpenOptions) (f : FileStorage.t)
    : M (Impl file) := fun w =>
  let '(r, st) := open now o writer_random (FileStorage.mkFile f (w_kernel w)) in
  require operation r (w <| w_kernel := FileStorage.kernel st |>).
(** A call on the store, which has the kernel in its storage. *)
Definition require_call (operation : string) (m : prog (Impl file) unit) (s : Impl file)
    : M (Impl file) := fun w =>
  let '(r, s) := m s in
  (require operation r;; mret s) (w <| w_kernel := FileStorage.kernel (storage s) |>).
Definition require_append (operation : string) (time selector : Z) (payload : string)
    : Impl file -> M (Impl file) :=
  require_call operation (append_framed_record now time selector 0 (View (string_bytes payload))).

(** The writer, up to [store.reset(); storage.reset();]. *)
Definition write_phase (path : string) : M unit :=
  f ← require_kernel "create storage" (FileStorage.create path (3 * kMiB) false);
  closing f (
    require_format f;;
    s ← require_open "open store" writer_options f;
    s ← require_append "append first temperature" kBaseTimeNs kTemperatureSelector temperature_1 s;
    s ← require_append "append pressure" (kBaseTimeNs + 1000) kPressureSelector pressure s;
    s ← require_append "append second temperature" (kBaseTimeNs + 2000) kTemperatureSelector
          temperature_2 s;
    s ← require_call "checkpoint" (checkpoint now) s;
    s ← require_call "close writable store" (close now) s;
    mret tt).

Definition report (c : captured) : string :=
  "unexpected query result: matches=" +:+ pretty (matches c) +:+
  " gap=" +:+ (if saw_gap c then "1" else "0") +:+ newline.

Definition run_query (s : Impl file) : M (Impl file) := fun w =>
  let '(status, (s, c)) := query_records visitor query FramedRecordV1.profile s
                             (mkCaptured 0 false (w_cout w) (w_cerr w)) in
  (require "query records" (if status_ok status then Ok tt else Err status);;
   (if saw_gap c || negb (matches c =? 2) then to_cerr (report c);; exit 3 else mret s))
  (mkWorld (FileStorage.kernel (storage s)) (cout c) (cerr c)).

Definition read_phase (path : string) : M unit :=
  f ← require_kernel "reopen storage read-only" (FileStorage.open_existing path false);
  closing f (
    s ← require_open "reopen store read-only" OpenOptions_default f;
    s ← run_query s;
    s ← require_call "close read-only store" (close now) s;
    mret tt).

Definition main (argv : list string) : world K -> Z * world K :=
  finish (
    match argv with
    | [path] => write_phase path;; read_phase path
    | _ => to_cerr ("usage: tfdb_quickstart NEW_STORE_PATH" +:+ newline);; exit 2
    end).
End Main.
End Quickstart.
