(* ===== verification/ExamplesFacts.v ===== *)
(** * The quickstart example reads back what it wrote

    [must m Q]: [m] ends in [Q], or throws, which ends the program with exit
    code 1. The two phases of the program are one writer session and one
    reader of its media. *)

From stdpp Require Import gmap pretty.
From S2P Require Import Prelude Status Hoare Crc32c Layout Format FormatFacts Codec Storage.
From S2P Require Import FileStorage FileStorageFacts FileNames.
From S2P Require Import RingTypes RingWriter RingReader RingOpen RingRules RingGeometry RingInv.
From S2P Require Import RingHealth RingWriterFacts RingCalls RingDisk RingScan RingLog RingRead.
From S2P Require Import RingCrash RingStored RingQuery RingWhole RingVolume RingOpenFacts.
From S2P Require Import RingFormatFacts RingReopen RingReadOnly RingLife RecordProfile.
From S2P Require Import RecordFacts.
From S2P Require Import RingSession Tools Examples.

(** ** The constants of the program *)

Module QuickstartFacts.
Import Quickstart.

Definition framed_view (time selector : Z) (payload : string) : RecordView :=
  let p := string_bytes payload in
  mkRecordView (FramedRecordV1.encoded_record time selector 0 p) p time selector 0.
Definition records : list RecordView :=
  [framed_view kBaseTimeNs kTemperatureSelector temperature_1;
   framed_view (kBaseTimeNs + 1000) kPressureSelector pressure;
   framed_view (kBaseTimeNs + 2000) kTemperatureSelector temperature_2].

Lemma string_bytes_ok s : bytes_ok (string_bytes s).
Proof.
  apply Forall_forall. intros b Hb. unfold string_bytes in Hb. apply list_elem_of_fmap in Hb as (c&->&_).
  pose proof (Ascii.N_ascii_bounded c). unfold is_u8. lia.
Qed.
Lemma framed_view_ok t s p : is_i64 t -> is_u64 s -> len (string_bytes p) <= 1000 ->
  FramedFacts.framed (framed_view t s p).
Proof.
  intros Ht Hs Hp. split; cbn; try done.
  split; [apply string_bytes_ok|]. unfold UINT32_MAX, FramedRecordV1.header_size. lia.
Qed.
Lemma records_framed : Forall FramedFacts.framed records.
Proof.
  unfold records. rewrite !Forall_cons, Forall_nil. split_and!; [..|exact I]; (apply framed_view_ok;
    [vm_compute; split; congruence|vm_compute; split; congruence|vm_compute; congruence]).
Qed.
Lemma records_selected : List.filter (record_selected query) records =
  [framed_view kBaseTimeNs kTemperatureSelector temperature_1;
   framed_view (kBaseTimeNs + 2000) kTemperatureSelector temperature_2].
Proof. reflexivity. Qed.

Lemma volume_options_wf : VolumeOptions_wf volume_options.
Proof. split; vm_compute; split; congruence. Qed.
Lemma writer_arguments_ok random : random_id_ok random -> open_arguments_ok writer_options random.
Proof.
  intros Hr. split; [done|constructor| |split; vm_compute; split; congruence|done].
  split; [split; vm_compute; split; congruence|discriminate].
Qed.
Lemma header_facts id v : format_header (3 * kMiB) volume_options id = Ok v ->
  worst_span v <= UINT32_MAX /\ vh_max_block_payload v = 8192 /\ (forall n, n <= 60 -> fits v n).
Proof.
  unfold format_header. intros H. apply result_bind_Ok in H as (count&Hc&H).
  apply result_bind_Ok in H as ([a b]&_&H). assert (count = 2) as -> by (vm_compute in Hc; by injection Hc).
  injection H as <-. split; [vm_compute; congruence|]. split; [reflexivity|]. intros n Hn. unfold fits.
  set (w := worst_span _). set (i := index_begin _). set (m := _ / _).
  vm_compute in w, i, m. subst w i m. unfold kPartitionHeaderRegionSize. lia.
Qed.

(** ** Programs that throw *)

Section Must.
Context {K : Type} `{!Posix K}.
Implicit Types w : world K.

Definition must {A} (m : tool (world K) A) (Q : A -> world K -> Prop) w : Prop :=
  match m w with
  | (inl exit_code, _) => exit_code = 1
  | (inr a, w') => Q a w'
  end.

Lemma must_finish m Q w exit_code w' : must m Q w -> finish m w = (exit_code, w') ->
  exit_code = 1 \/ exit_code = 0 /\ Q tt w'.
Proof. unfold must, finish. destruct (m w) as [[c|[]] w1]; intros H [= <- <-]; auto. Qed.
Lemma must_conseq {A} (m : tool (world K) A) (Q Q' : A -> world K -> Prop) w :
  must m Q w -> (forall a w', Q a w' -> Q' a w') -> must m Q' w.
Proof. unfold must. destruct (m w) as [[]]; auto. Qed.
Lemma must_ret {A} (a : A) Q w : Q a w -> must (mret a) Q w.
Proof. done. Qed.
Lemma must_bind {A B} (m : tool (world K) A) (k : A -> tool (world K) B) Q w :
  must m (fun a => must (k a) Q) w -> must (m ≫= k) Q w.
Proof. unfold must, mbind, tool_bind. by destruct (m w) as [[]]. Qed.
Lemma must_closing {A} f (m : tool (world K) A) Q w :
  must m (fun a w' => Q a (w' <| w_kernel ::= FileStorage.destroy f |>)) w -> must (closing f m) Q w.
Proof. unfold must, closing. by destruct (m w) as [[]]. Qed.
Lemma must_require {A} op (r : result A) Q w :
  (forall a, r = Ok a -> Q a w) -> must (require op r) Q w.
Proof. intros H. destruct r; [by apply H|reflexivity]. Qed.
Lemma must_kernel {A} op (m : prog K A) (Q : A -> world K -> Prop) w :
  (forall a k, m (w_kernel w) = (Ok a, k) -> Q a (w <| w_kernel := k |>)) ->
  must (require_kernel op m) Q w.
Proof.
  intros H. unfold must, require_kernel. destruct (m (w_kernel w)) as [r k].
  apply must_require. intros a ->. by apply H.
Qed.
Lemma must_format id f (Q : unit -> world K -> Prop) w :
  (forall status st, format volume_options id (FileStorage.mkFile f (w_kernel w)) = (status, st) ->
    status_ok status = true -> Q tt (w <| w_kernel := FileStorage.kernel st |>)) ->
  must (require_format id f) Q w.
Proof.
  intros H. unfold must, require_format. destruct (format _ _ _) as [status st].
  apply must_require. intros []. destruct (status_ok status) eqn:E; [|done]. intros _. by eapply H.
Qed.
Lemma must_open now random op o f (Q : Impl (FileStorage.file K) -> world K -> Prop) w :
  (forall s st, open now o random (FileStorage.mkFile f (w_kernel w)) = (Ok s, st) ->
    Q s (w <| w_kernel := FileStorage.kernel st |>)) ->
  must (require_open now random op o f) Q w.
Proof.
  intros H. unfold must, require_open. destruct (open _ _ _ _) as [r st].
  apply must_require. intros s ->. by apply H.
Qed.
Lemma must_call op m s (Q : Impl (FileStorage.file K) -> world K -> Prop) w :
  (forall s', m s = (Ok tt, s') -> Q s' (w <| w_kernel := FileStorage.kernel (storage s') |>)) ->
  must (require_call op m s) Q w.
Proof.
  intros H. unfold must, require_call. destruct (m s) as [r s'].
  apply must_bind, must_require. intros [] ->. by apply H.
Qed.
End Must.

(** ** The writer *)

Section Phases.
Context {K : Type} `{!Posix K, !PosixModel K, !PosixReliable K, !PosixFiles K}.
Variable now : nat -> Z.
Variables volume_id writer_random : result (Z * Z).
Hypothesis volume_id_ok : random_id_ok volume_id.
Hypothesis writer_random_ok : random_id_ok writer_random.
Hypothesis reads_reliable : forall k : K, pread_reliable k.

(** The file of [path] is closed and holds the blocks [rss] of records. *)
Definition written (path : string) (rss : list (list RecordView)) (k : K) : Prop :=
  exists self (s : Impl (FileStorage.file K)) a x,
    named_wf path self (storage s) /\ k = FileStorage.destroy self (FileStorage.kernel (storage s)) /\
    of_contents (FileStorageFacts.image (storage s)) = of_synced (FileStorageFacts.image (storage s)) /\
    settled_media (StorageModel0 := named_model path self) s a OpenOptions_default [x] /\
    ph_options (ps_header (pt_state x)) = partition_options /\
    pt_raws x = map FramedFacts.block_of rss /\ pt_times x = map (map rv_index_time_ns) rss.

Lemma writer_random_Ok (st st' : FileStorage.file K) s :
  open now writer_options writer_random st = (Ok s, st') -> open_ready writer_options writer_random.
Proof.
  intros H. split; [by apply writer_arguments_ok|]. split; [|reflexivity].
  unfold open in H. destruct (_ && _) in H; [done|]. destruct (read_exact _ _ _) as [? ?] in H.
  destruct (read_exact _ _ _) as [? ?] in H. destruct (choose_volume _ _) in H; [|done].
  destruct (validate_volume_geometry _ _) in H; [|done]. cbn [oo_writable writer_options set] in H.
  destruct (writer_id writer_options writer_random) eqn:E; [done|].
  discriminate H.
Qed.

(** The open store of a session on the file of [path]. *)
Definition open_on (path : string) (f : FileStorage.t) pub cur (s : Impl (FileStorage.file K)) : Prop :=
  (exists v x, session (StorageModel0 := named_model path f) v writer_options pub cur s x /\
    vh_max_block_payload v = 8192 /\ (forall n, n <= 60 -> fits v n)) /\
  writable s = true /\ closed s = false.

Lemma open_on_new path f k status st1 s0 st2 :
  named_wf path f (FileStorage.mkFile f k) ->
  of_contents (FileStorageFacts.image (FileStorage.mkFile f k)) = zeroed (3 * kMiB) ->
  FileStorage.writable_ f = true ->
  format volume_options volume_id (FileStorage.mkFile f k) = (status, st1) -> status_ok status = true ->
  open now writer_options writer_random (FileStorage.mkFile f (FileStorage.kernel st1)) = (Ok s0, st2) ->
  open_on path f [] (mkAblock [] []) s0 /\ health_ok s0.
Proof.
  intros Hwf Hz Hw Ef Hs Eo.
  set (SM := named_model path f). set (RR := named_reliable path f).
  destruct (format_spec (StorageModel0 := SM) _ _ _ _ _ Hwf volume_options_wf volume_id_ok Ef Hs)
    as (v&Hfh&Hg&Hwf1&_). assert (Hst1 : FileStorage.mkFile f (FileStorage.kernel st1) = st1).
  { destruct Hwf1 as (_&_&Ho). destruct st1. cbn in *. by subst. }
  rewrite Hst1 in Eo.
  assert (Hsize : st_size (FileStorage.mkFile f k) = 3 * kMiB).
  { rewrite (st_size_contents (StorageModel := SM) _ Hwf). cbn. rewrite Hz. by rewrite len_zeroed. }
  destruct (open_session (StorageModel0 := SM) (ReliableReads0 := RR) now volume_options volume_id
    writer_options writer_random (FileStorage.mkFile f k) st1 st2 status s0) as (v'&Hv'&_&Hse&Hwr&Hcl&Hh).
  all: try assumption.
  - intros off n H1 H2 H3. cbn in H3 |- *. rewrite Hz in *. rewrite (len_zeroed (3 * kMiB)) in H3 by (unfold kMiB; lia).
    by apply slice_zeroed.
  - exact volume_options_wf.
  - apply reads_reliable.
  - destruct Hwf1 as (_&_&Hob). cbn. by rewrite Hob.
  - by eapply writer_random_Ok.
  - intros u. rewrite Hsize. apply header_facts.
  - rewrite Hsize in Hv'. destruct (header_facts _ _ Hv') as (_&Hmax&Hfits).
    split; [|exact Hh]. split; [|done]. by eexists _, _.
Qed.

Lemma block_of_app rs rs' :
  FramedFacts.block_of (rs ++ rs') = FramedFacts.block_of rs ++ FramedFacts.block_of rs'.
Proof. unfold FramedFacts.block_of. by rewrite map_app, concat_app. Qed.

Lemma open_on_append path f pub rs s r s' :
  open_on path f pub (mkAblock (FramedFacts.block_of rs) (map rv_index_time_ns rs)) s ->
  FramedFacts.framed r -> len (FramedFacts.block_of rs) + len (rv_encoded r) <= 8192 -> len pub <= 60 ->
  append_framed_record now (rv_index_time_ns r) (rv_selector r) (rv_flags r) (View (rv_payload r)) s =
    (Ok tt, s') ->
  open_on path f pub (mkAblock (FramedFacts.block_of (rs ++ [r])) (map rv_index_time_ns (rs ++ [r]))) s'.
Proof.
  intros [(v&x&Hse&Hmax&Hfits) [Hw Hc]] Hr Hfit Hn E.
  destruct (framed_session (StorageModel0 := named_model path f) now _ _ _ _ _ _ _ _ Hse Hr
    ltac:(by rewrite Hmax) (Hfits _ Hn) E) as [Hse' [Hw' Hc']].
  split; [|by rewrite Hw', Hc']. exists v, x. split; [|done].
  rewrite block_of_app, map_app. unfold FramedFacts.block_of at 2. cbn [map concat]. by rewrite app_nil_r.
Qed.

Lemma open_on_checkpoint path f pub cur s s' : open_on path f pub cur s ->
  checkpoint now s = (Ok tt, s') -> open_on path f (publish_block pub cur) (mkAblock [] []) s'.
Proof.
  intros [(v&x&Hse&Hm) [Hw Hc]] E.
  destruct (checkpoint_session (StorageModel0 := named_model path f) now _ _ _ _ _ _ _ Hse E)
    as [(x1&Hse1) [Hw1 Hc1]].
  split; [|by rewrite Hw1, Hc1]. by exists v, x1.
Qed.

Lemma open_on_close path f pub cur rss s s' : open_on path f pub cur s -> close now s = (Ok tt, s') ->
  map ab_data (publish_block pub cur) = map FramedFacts.block_of rss ->
  map ab_times (publish_block pub cur) = map (map rv_index_time_ns) rss ->
  written path rss (FileStorage.destroy f (FileStorage.kernel (storage s'))).
Proof.
  intros [(v&x&Hse&_) [Hw Hc]] E Hd Ht.
  destruct (close_session (StorageModel0 := named_model path f) now _ _ OpenOptions_default _ _ _ _ _
    Hse Hw Hc eq_refl E) as (x1&Hm&Hwf&Hdc&Hopt&Hraws&Htimes).
  eexists f, s', _, x1. rewrite <- Hd, <- Ht. split_and!; [exact Hwf|reflexivity| |exact Hm|exact Hopt|exact Hraws|exact Htimes].
  cbn in Hdc. congruence.
Qed.

(** A reader of the closed file gets the records the query selects. *)
Lemma written_read {V} (visitor : RecordEvent -> V -> bool * V) path rss k f k' s st q md u :
  written path rss k -> FileStorage.open_existing path false k = (Ok f, k') ->
  open now OpenOptions_default writer_random (FileStorage.mkFile f k') = (Ok s, st) ->
  plain_visitor visitor -> tr_time_domain_id (rq_time q) = 1 ->
  tr_begin_ns (rq_time q) < tr_end_ns (rq_time q) -> Forall (readable q) rss ->
  exists s', query_records visitor q FramedRecordV1.profile s u =
    (Status_Ok, (s', snd (FramedFacts.visit_events visitor md
       (List.filter (record_selected q) (concat rss)) u))).
Proof.
  intros (self&s0&a&x&Hwf&->&Hc&Hm&Hopt&Hraws&Htimes) Ef Eo Hpv Hdom Hrange Hrss.
  destruct (reopen_named path self (storage s0) f k' Hwf Ef) as [Hfw Hfc].
  destruct (read_session (StorageModel0 := named_model path self) (StorageModel1 := FileStorageFacts.model)
    (ReliableReads0 := FileStorageFacts.reliable) now visitor s0 a OpenOptions_default x writer_random
    (FileStorage.mkFile f k') q md rss u Hpv Hm eq_refl Hfw (reads_reliable k'))
    as (s2&s3&Eo2&_&Eq); rewrite ?Hopt, ?Hdom; try done.
  - cbn. congruence.
  - rewrite Eo in Eo2. injection Eo2 as -> _. by exists s3.
Qed.

Lemma write_phase_writes path w :
  must (write_phase now volume_id writer_random path)
    (fun _ w' => written path [records] (w_kernel w') /\ w_cout w' = w_cout w /\ w_cerr w' = w_cerr w) w.
Proof.
  unfold write_phase. apply must_bind, must_kernel. intros f k Ec.
  destruct (create_named path (3 * kMiB) _ _ _ ltac:(done) Ec) as (Hwf&Hz&Hw).
  apply must_closing, must_bind, must_format. cbn [w_kernel set]. intros status st1 Ef Hs.
  apply must_bind, must_open. cbn [w_kernel set]. intros s0 st2 Eo.
  destruct (open_on_new _ _ _ _ _ _ _ Hwf Hz Hw Ef Hs Eo) as [H0 _].
  pose proof records_framed as Hfr. unfold records in Hfr. rewrite !Forall_cons in Hfr.
  destruct Hfr as (F1&F2&F3&_).
  apply must_bind, must_call. intros s1 E1.
  pose proof (open_on_append _ _ _ [] _ _ _ H0 F1 ltac:(done) ltac:(done) E1) as H1.
  apply must_bind, must_call. intros s2 E2.
  pose proof (open_on_append _ _ _ _ _ _ _ H1 F2 ltac:(done) ltac:(done) E2) as H2.
  apply must_bind, must_call. intros s3 E3.
  pose proof (open_on_append _ _ _ _ _ _ _ H2 F3 ltac:(done) ltac:(done) E3) as H3.
  apply must_bind, must_call. intros s4 E4. pose proof (open_on_checkpoint _ _ _ _ _ _ H3 E4) as H4.
  apply must_bind, must_call. intros s5 E5.
  apply must_ret. cbn [w_kernel w_cout w_cerr set]. split; [|done].
  by eapply open_on_close; [exact H4|exact E5|..].
Qed.

(** ** The reader *)

Definition printed : string := temperature_1 +:+ newline +:+ temperature_2 +:+ newline.

Lemma append_nil (a : string) : a +:+ "" = a.
Proof. induction a as [|x a IH]; [done|]. change (String x (a +:+ "") = String x a). by rewrite IH. Qed.
Lemma append_assoc (a b c : string) : (a +:+ b) +:+ c = a +:+ b +:+ c.
Proof. induction a as [|x a IH]; [done|]. change (String x ((a +:+ b) +:+ c) = String x (a +:+ b +:+ c)). by rewrite IH. Qed.

(** The payloads come back as the strings that were appended. *)
Lemma raw_string_bytes p : raw_string (string_bytes p) = p.
Proof.
  unfold raw_string. induction p as [|c p IH]; [done|].
  assert (Hc : forall a l, String.concat "" (a :: l) = a +:+ String.concat "" l).
  { intros a [|b l]; [|done]. symmetry. apply append_nil. }
  change (string_bytes (String c p)) with (Z.of_N (Ascii.N_of_ascii c) :: string_bytes p). cbn [map].
  rewrite Hc, IH, N2Z.id, Ascii.ascii_N_embedding. done.
Qed.

Lemma visitor_data md r out err n : visitor (mkRecordEvent ev_data md r Status_Ok) (mkCaptured n false out err) =
  (true, mkCaptured (u64 (n + 1)) false (out +:+ raw_string (rv_payload r) +:+ newline) err).
Proof. done. Qed.
Lemma visited md out err :
  snd (FramedFacts.visit_events visitor md (List.filter (record_selected query) records)
         (mkCaptured 0 false out err)) = mkCaptured 2 false (out +:+ printed) err.
Proof.
  rewrite records_selected. unfold FramedFacts.visit_events. cbn [FramedFacts.visit_records].
  rewrite !visitor_data. cbn [framed_view rv_payload snd]. rewrite !raw_string_bytes. unfold printed. rewrite !append_assoc. done.
Qed.

Lemma visitor_plain : plain_visitor visitor.
Proof.
  intros r [n g out err]. exists (mkCaptured (u64 (n + 1)) g (out +:+ raw_string (rv_payload r) +:+ newline) err).
  reflexivity.
Qed.
Lemma records_readable : readable query records.
Proof.
  split; [done|]. split; [exact records_framed|]. split; [done|].
  unfold records. rewrite !Forall_cons. cbn [framed_view rv_index_time_ns]. unfold query. cbn.
  unfold kBaseTimeNs. split_and!; lia || done.
Qed.

Lemma read_phase_prints path w : written path [records] (w_kernel w) ->
  must (read_phase now writer_random path)
    (fun _ w' => w_cout w' = w_cout w +:+ printed /\ w_cerr w' = w_cerr w) w.
Proof.
  intros Hw. unfold read_phase. apply must_bind, must_kernel. intros f k Ef.
  apply must_closing, must_bind, must_open. cbn [w_kernel set]. intros s1 st1 Eo.
  destruct (written_read visitor path [records] _ _ _ _ _ query BlockMetadata_default
    (mkCaptured 0 false (w_cout w) (w_cerr w)) Hw Ef Eo visitor_plain eq_refl ltac:(done)
    ltac:(constructor; [exact records_readable|constructor])) as (s2&Eq).
  cbn [concat] in Eq. rewrite app_nil_r, visited in Eq.
  apply must_bind. unfold must at 1, run_query. cbn [w_cout w_cerr set]. rewrite Eq.
  apply must_bind, must_call. intros s4 _. by apply must_ret.
Qed.
End Phases.
End QuickstartFacts.
