(* ===== verification/LoadGen.v ===== *)
(** * Load generator

    tools/tfdb_loadgen.cpp: the options, the generated workload, the latency
    samples, the two storage decorators and the checks of what a query
    returns. [PersistenceOracle] reconstructs from the writes that reach the
    backend which records must be retained. The engine is the
    [std::mt19937_64] of the C++ standard; a [double] is a [spec_float] of 53
    bits. *)

From stdpp Require Import sorting.
From Stdlib Require Import Ascii SpecFloat.
From S2P Require Import Prelude Status Crc32c Layout Format Codec Lz4 Storage MemoryStorage.
From S2P Require Import RingTypes.
From S2P Require Import RingWriter RingReader RingOpen RecordProfile Tools.

Module LoadGen.

(** ** Options *)

Record Options := mkOptions {
  path : string;
  size : Z;
  records : Z;
  seed : Z;
  checkpoint_records : Z;
  sync_ms : Z;
  backend_write_chunk : Z;
  profile : string;
  overwrite : bool;
  asynchronous : bool;
  volume_options : VolumeOptions;
  compression : CompressionId }.
#[export] Instance Options_eta : Eta Options := fun o =>
  mkOptions (path o) (size o) (records o) (seed o) (checkpoint_records o) (sync_ms o)
    (backend_write_chunk o) (profile o) (overwrite o) (asynchronous o) (volume_options o)
    (compression o).
Definition Options_default : Options :=
  mkOptions "" 0 100000 1 10000 1000 0 "mixed" false false VolumeOptions_default CompressionId_none.

Definition parse_compression (value : string) : option CompressionId :=
  if bool_decide (value = "none") then Some CompressionId_none else
  if bool_decide (value = "packbits") then Some CompressionId_packbits else
  if bool_decide (value = "lz4") then Some CompressionId_lz4_block else None.

Definition parse_value (argument : string) (value : Z) (o : Options) : option Options :=
  if bool_decide (argument = "--size") then Some (o <| size := value |>) else
  if bool_decide (argument = "--records") then Some (o <| records := value |>) else
  if bool_decide (argument = "--seed") then Some (o <| seed := value |>) else
  if bool_decide (argument = "--checkpoint-records")
  then Some (o <| checkpoint_records := value |>) else
  if bool_decide (argument = "--sync-ms") then Some (o <| sync_ms := value |>) else
  if bool_decide (argument = "--backend-write-chunk") && negb (value =? 0)
  then Some (o <| backend_write_chunk := value |>) else
  if bool_decide (argument = "--partition")
  then Some (o <| volume_options ::= set vo_partition_size (fun _ => value) |>) else
  if bool_decide (argument = "--index") && (value <=? UINT32_MAX)
  then Some (o <| volume_options ::= set vo_index_region_size (fun _ => u32 value) |>) else
  if bool_decide (argument = "--block") && (value <=? UINT32_MAX)
  then Some (o <| volume_options ::= set vo_max_block_payload (fun _ => u32 value) |>) else
  if bool_decide (argument = "--quantum") && (value <=? UINT32_MAX)
  then Some (o <| volume_options ::= set vo_persistence_quantum (fun _ => u32 value) |>) else None.

Fixpoint parse_args (args : list string) (o : Options) : option Options :=
  match args with
  | [] => Some o
  | argument :: rest =>
      if bool_decide (argument = "--overwrite") then parse_args rest (o <| overwrite := true |>) else
      if bool_decide (argument = "--async") then parse_args rest (o <| asynchronous := true |>) else
      match rest with
      | [] => None
      | text :: rest =>
          if bool_decide (argument = "--profile") then parse_args rest (o <| profile := text |>) else
          if bool_decide (argument = "--compression") then
            match parse_compression text with
            | None => None
            | Some c => parse_args rest (o <| compression := c |>)
            end
          else
            match parse_u64 text with
            | None => None
            | Some value =>
                match parse_value argument value o with
                | None => None
                | Some o => parse_args rest o
                end
            end
      end
  end.

Definition profiles : list string :=
  ["tiny"; "mixed"; "burst"; "compressible"; "incompressible"; "logs"; "bad-time"; "sparse";
   "hot-rotation"; "concurrent-read"].

(** [argv] without the program name; [None] is [return false;]. *)
Definition parse (argv : list string) : option Options :=
  match argv with
  | p :: ((_ :: _ :: _) as args) =>
      match parse_args args (Options_default <| path := p |>) with
      | None => None
      | Some o =>
          if negb (size o =? 0) && negb (records o =? 0) && bool_decide (profile o ∈ profiles)
          then Some o else None
      end
  | _ => None
  end.

(** ** The generated workload *)

(** [static_cast<std::int64_t>] of a 64-bit value. *)
Definition i64 (z : Z) : Z := if z <? 2 ^ 63 then z else z - 2 ^ 64.

Definition splitmix64 (value : Z) : Z :=
  let value := u64 (value + 0x9e3779b97f4a7c15) in
  let value := u64 (Z.lxor value (Z.shiftr value 30) * 0xbf58476d1ce4e5b9) in
  let value := u64 (Z.lxor value (Z.shiftr value 27) * 0x94d049bb133111eb) in
  Z.lxor value (Z.shiftr value 31).

(** [std::mt19937_64] as the sequence of its last 312 words. *)
Module mt19937_64.
Fixpoint seed_words (n : nat) (i previous : Z) : list Z :=
  match n with
  | O => []
  | S n =>
      let x := u64 (6364136223846793005 * Z.lxor previous (Z.shiftr previous 62) + i) in
      x :: seed_words n (i + 1) x
  end.
Definition make (value : Z) : list Z := value :: seed_words 311 1 value.
Definition twist (upper lower far : Z) : Z :=
  let y := Z.lor (Z.land upper 0xffffffff80000000) (Z.land lower 0x7fffffff) in
  Z.lxor (Z.lxor far (Z.shiftr y 1)) (if Z.testbit y 0 then 0xb5026f5aa96619e9 else 0).
Definition temper (x : Z) : Z :=
  let x := Z.lxor x (Z.land (Z.shiftr x 29) 0x5555555555555555) in
  let x := Z.lxor x (Z.land (u64 (Z.shiftl x 17)) 0x71d67fffeda60000) in
  let x := Z.lxor x (Z.land (u64 (Z.shiftl x 37)) 0xfff7eee000000000) in
  Z.lxor x (Z.shiftr x 43).
Definition next (state : list Z) : Z * list Z :=
  let x := twist (nth 0 state 0) (nth 1 state 0) (nth 156 state 0) in
  (temper x, tail state ++ [x]).
End mt19937_64.

Fixpoint random_bytes (n : nat) (random : list Z) : bytes :=
  match n with
  | O => []
  | S n => let '(x, random) := mt19937_64.next random in u8 x :: random_bytes n random
  end.

(** [low + random() % count]. *)
Definition drawn_size (low count : Z) (random : list Z) : Z * list Z :=
  let '(x, random) := mt19937_64.next random in (low + x mod count, random).

Definition payload_size (o : Options) (ordinal : Z) (random : list Z) : Z * list Z :=
  let named p := bool_decide (profile o = p) in
  if named "tiny" || named "sparse" then drawn_size 8 25 random else
  if named "mixed" || named "hot-rotation" || named "concurrent-read" then
    if ordinal mod 100 =? 0 then drawn_size 50 101 random else drawn_size 10 40 random else
  if named "burst" then drawn_size 16 112 random else
  if named "compressible" then (128, random) else
  if named "incompressible" then (128, random) else
  if named "logs" then drawn_size 50 300 random else
  if named "bad-time" then (32, random) else (24, random).

Definition log_prefix : bytes :=
  map (fun c => Z.of_N (N_of_ascii c))
    (String.list_ascii_of_string "service=control level=info repeated telemetry log line ").

Definition payload_body (o : Options) (ordinal : Z) (n : nat) (random : list Z) : bytes :=
  if bool_decide (profile o = "compressible")
  then replicate n (u8 (Z.land (ordinal / 100) 3)) else
  if bool_decide (profile o = "logs")
  then map (fun i => nth (i mod length log_prefix) log_prefix 0) (seq 0 n)
  else random_bytes n random.

Definition make_payload (o : Options) (ordinal : Z) : bytes :=
  let random := mt19937_64.make (splitmix64 (Z.lxor (seed o) ordinal)) in
  let '(n, random) := payload_size o ordinal random in
  let payload := payload_body o ordinal (Z.to_nat n) random in
  foldl (fun p byte => <[Z.to_nat byte := u8 (Z.shiftr ordinal (byte * 8))]> p) payload
    (seqZ 0 8).

Definition make_time (o : Options) (ordinal : Z) : Z :=
  if negb (bool_decide (profile o = "bad-time")) then i64 (u64 (ordinal * 1000000)) else
  if ordinal <? records o / 10 then i64 (u64 (ordinal * 1000000)) else
  if ordinal =? records o / 2 then 0 else
  let base := 1780000000000000000 in
  let mixed := if ordinal mod 7 =? 0 then -3000000 else 0 in
  i64 (u64 (base + u64 (ordinal * 1000000))) + mixed.

(** The bytes of record [ordinal], as every user of the workload encodes it. *)
Definition encode_ordinal (o : Options) (ordinal : Z) : Status * option bytes :=
  FramedRecordV1.encode (make_time o ordinal) (ordinal mod 64) 0 (View (make_payload o ordinal))
    (Some []).

(** ** Latency samples *)

Module BoundedLatencySamples.
Definition kCapacity : Z := 65536.
Record t := mk { values_ : list Z; observations_ : Z; maximum_ : Z }.
Definition empty : t := mk [] 0 0.

Definition add (value : Z) (x : t) : t :=
  let observations := u64 (observations_ x + 1) in
  let maximum := Z.max (maximum_ x) value in
  if len (values_ x) <? kCapacity then mk (values_ x ++ [value]) observations maximum else
  let candidate := splitmix64 observations mod observations in
  mk (if candidate <? kCapacity then <[Z.to_nat candidate := value]> (values_ x) else values_ x)
    observations maximum.

(** A count as a [double], the product, and [std::ceil] of it as a
    [std::size_t]; both factors are finite and not negative. *)
Definition double_of (n : Z) : spec_float := binary_normalize 53 1024 n 0 false.
Definition ceil_size (x : spec_float) : Z :=
  match x with
  | S754_finite false m e => - ((- Z.pos m * 2 ^ Z.max 0 e) / 2 ^ Z.max 0 (- e))
  | _ => 0
  end.
Definition rank (fraction : spec_float) (count : Z) : Z :=
  u64 (ceil_size (SFmul 53 1024 fraction (double_of count)) - 1).

Definition percentile (fraction : spec_float) (x : t) : Z :=
  if bool_decide (values_ x = []) then 0 else
  let sorted := merge_sort Z.le (values_ x) in
  nth (Z.to_nat (Z.min (rank fraction (len sorted)) (len sorted - 1))) sorted 0.

Definition samples (x : t) : Z := len (values_ x).
End BoundedLatencySamples.

(** The fractions [main] asks for: the doubles nearest 0.50, 0.95, 0.99. *)
Definition p50 : spec_float := S754_finite false 4503599627370496 (-53).
Definition p95 : spec_float := S754_finite false 8556839292003942 (-53).
Definition p99 : spec_float := S754_finite false 8917127262193582 (-53).

(** ** Stream summaries *)

Record RecordStreamSummary := mkSummary {
  count : Z;
  first_ordinal : Z;
  last_ordinal : Z;
  blocks : Z;
  raw_bytes : Z;
  gaps : Z;
  digest : Z }.
#[export] Instance RecordStreamSummary_eta : Eta RecordStreamSummary := fun s =>
  mkSummary (count s) (first_ordinal s) (last_ordinal s) (blocks s) (raw_bytes s) (gaps s) (digest s).
Definition RecordStreamSummary_default : RecordStreamSummary :=
  mkSummary 0 0 0 0 0 0 1469598103934665603.

Definition summary_eqb (a b : RecordStreamSummary) : bool :=
  (count a =? count b) && (first_ordinal a =? first_ordinal b) &&
  (last_ordinal a =? last_ordinal b) && (blocks a =? blocks b) &&
  (raw_bytes a =? raw_bytes b) && (gaps a =? gaps b) && (digest a =? digest b).

(** One FNV-1a step. *)
Definition hash_byte (digest byte : Z) : Z := u64 (Z.lxor digest byte * 1099511628211).
Definition hash_value (value digest : Z) : Z :=
  foldl (fun d byte => hash_byte d (u8 (Z.shiftr value (byte * 8)))) digest (seqZ 0 8).
Definition hash_bytes (b : bytes) (digest : Z) : Z := foldl hash_byte digest b.

(** The header of a block enters the summary. *)
Definition enter_block (generation sequence slot flags raw_size : Z) (s : RecordStreamSummary)
    : RecordStreamSummary :=
  s <| blocks ::= fun n => u64 (n + 1) |>
    <| raw_bytes ::= fun n => u64 (n + raw_size) |>
    <| digest ::= fun d => hash_value flags (hash_value slot (hash_value sequence
                             (hash_value generation d))) |>.

(** ** Decorators of the backend *)

Module ShortWriteStorage.
Record t (D : Type) := mk { delegate_ : D; maximum_write_ : Z }.
Arguments mk {D}. Arguments delegate_ {D}. Arguments maximum_write_ {D}.
#[global] Instance t_eta D : Eta (t D) := fun c => mk (delegate_ c) (maximum_write_ c).

Section Short.
Context {D : Type} `{!Storage D}.
Definition write_at (offset : Z) (input : bytes) (c : t D) : IoResult * t D :=
  let amount := Z.min (maximum_write_ c) (len input) in
  let '(r, d) := Storage.write_at offset (takeZ amount input) (delegate_ c) in
  (r, c <| delegate_ := d |>).
#[global] Instance storage : Storage (t D) := {|
  st_size := fun c => st_size (delegate_ c);
  st_writable := fun c => st_writable (delegate_ c);
  Storage.read_at := fun off n c =>
    let '(r, d) := Storage.read_at off n (delegate_ c) in (r, c <| delegate_ := d |>);
  Storage.write_at := write_at;
  Storage.flush := fun c =>
    let '(s, d) := Storage.flush (delegate_ c) in (s, c <| delegate_ := d |>);
  interrupts := fun c => interrupts (delegate_ c) |}.
End Short.
End ShortWriteStorage.

Module PersistenceOracle.
Record ObservedBlock := mkObserved {
  ob_slot : Z; ob_sequence : Z; ob_flags : Z; ob_raw_size : Z;
  ob_first_ordinal : Z; ob_last_ordinal : Z }.
Record SlotState := mkSlot {
  sl_active : bool; sl_generation : Z; sl_data_end : Z; sl_blocks : list ObservedBlock }.
Definition SlotState_default : SlotState := mkSlot false 0 kPartitionHeaderRegionSize [].
Record PendingWrite := mkPending {
  pw_active : bool; pw_offset : Z; pw_expected_size : Z; pw_bytes : bytes }.
Definition PendingWrite_default : PendingWrite := mkPending false 0 0 [].

(** The members behind the mutex, the delegate apart. *)
Record oracle := mkOracle {
  volume_ : VolumeOptions;
  slots_ : list SlotState;
  have_generation_ : bool;
  latest_generation_ : Z;
  latest_slot_ : Z;
  next_written_ordinal_ : Z;
  pending_ : PendingWrite;
  status_ : Status }.
#[global] Instance oracle_eta : Eta oracle := fun x =>
  mkOracle (volume_ x) (slots_ x) (have_generation_ x) (latest_generation_ x) (latest_slot_ x)
    (next_written_ordinal_ x) (pending_ x) (status_ x).

Definition make (volume : VolumeOptions) (backend_size : Z) : oracle :=
  mkOracle volume
    (replicate (Z.to_nat (u64 (backend_size - kVolumePrefixSize) / vo_partition_size volume))
       SlotState_default)
    false 0 0 0 PendingWrite_default Status_Ok.

Definition partition_base (x : oracle) (slot : Z) : Z :=
  u64 (kVolumePrefixSize + u64 (slot * vo_partition_size (volume_ x))).
Definition index_begin (x : oracle) : Z :=
  u64 (vo_partition_size (volume_ x) - kPartitionFooterRegionSize - vo_index_region_size (volume_ x)).

Definition fail (message : string) (x : oracle) : oracle :=
  if status_ok (status_ x) then x <| status_ := Status_Error StatusCode.corrupt message |> else x.

(** A partition header was written to [slot]. *)
Definition observe_header (slot : Z) (input : bytes) (x : oracle) : oracle :=
  match decode_partition_header input with
  | Err _ => fail "oracle saw an invalid partition header write" x
  | Ok header =>
      if negb (ph_slot header =? slot) || (ph_generation header =? 0)
      then fail "oracle saw an invalid partition header write" x else
      if (negb (have_generation_ x) && (negb (ph_generation header =? 1) || negb (slot =? 0))) ||
         (have_generation_ x &&
          (negb (ph_generation header =? u64 (latest_generation_ x + 1)) ||
           negb (slot =? (latest_slot_ x + 1) mod len (slots_ x))))
      then fail "oracle saw a nonsequential partition replacement" x else
      x <| slots_ ::= <[Z.to_nat slot := mkSlot true (ph_generation header)
                          kPartitionHeaderRegionSize []]> |>
        <| have_generation_ := true |> <| latest_generation_ := ph_generation header |>
        <| latest_slot_ := slot |>
  end.

(** A write at the data end of the active [slot]. *)
Definition observe_block (slot : Z) (state : SlotState) (input : bytes) (x : oracle) : oracle :=
  if len input <? kBlockHeaderEncodedSize
  then fail "oracle saw a truncated block frame write" x else
  match decode_block_header (takeZ kBlockHeaderEncodedSize input) with
  | Err _ => fail "oracle saw an invalid block header" x
  | Ok header =>
      if negb (bh_slot header =? slot) || negb (bh_generation header =? sl_generation state)
      then fail "oracle block identity differs from current partition" x else
      if negb (bh_sequence header =? len (sl_blocks state))
      then fail "oracle block sequence is not contiguous" x else
      if negb (bh_stored_size header + kBlockHeaderEncodedSize =? len input)
      then fail "oracle block write length differs from its header" x else
      if match align_up (len input) (vo_persistence_quantum (volume_ x)) with
         | None => true
         | Some expected_span => negb (bh_frame_span header =? expected_span)
         end
      then fail "oracle block frame span differs from aligned write length" x else
      if (index_begin x <? sl_data_end state) ||
         (u64 (index_begin x - sl_data_end state) <? bh_frame_span header)
      then fail "oracle block crosses the reserved index region" x else
      let next := next_written_ordinal_ x in
      if (bh_record_count header =? 0) || (UINT64_MAX - next <? bh_record_count header)
      then fail "oracle block record count overflows the generated sequence" x else
      let block := mkObserved slot (bh_sequence header) (bh_flags header) (bh_raw_size header) next
                     (u64 (next + bh_record_count header - 1)) in
      x <| next_written_ordinal_ := u64 (next + bh_record_count header) |>
        <| slots_ ::= <[Z.to_nat slot := mkSlot true (sl_generation state)
             (u64 (sl_data_end state + bh_frame_span header)) (sl_blocks state ++ [block])]> |>
  end.

(** The loop over the active slots. *)
Fixpoint observe_data (offset : Z) (input : bytes) (slot : Z) (slots : list SlotState) (x : oracle)
    : oracle :=
  match slots with
  | [] => x
  | state :: rest =>
      if negb (sl_active state) then observe_data offset input (slot + 1) rest x else
      let base := partition_base x slot in
      if (sl_data_end state <? index_begin x) && (offset =? u64 (base + sl_data_end state))
      then observe_block slot state input x else
      if (base <? offset) && (offset <? u64 (base + index_begin x))
      then fail "oracle saw a nonsequential data-region write" x
      else observe_data offset input (slot + 1) rest x
  end.

Definition observe_write (offset : Z) (input : bytes) (x : oracle) : oracle :=
  if negb (status_ok (status_ x)) then x else
  match List.find (fun slot => (offset =? partition_base x slot) &&
                               (len input =? kPartitionHeaderEncodedSize))
          (seqZ 0 (len (slots_ x))) with
  | Some slot => observe_header slot input x
  | None => observe_data offset input 0 (slots_ x) x
  end.

(** One successful transfer of the first [transferred] requested bytes. *)
Definition observe_fragment (offset : Z) (requested : bytes) (transferred : Z) (x : oracle) : oracle :=
  if negb (status_ok (status_ x)) then x else
  if len requested <? transferred
  then fail "oracle backend over-reported a write fragment" x else
  let p := pending_ x in
  if negb (pw_active p) && (transferred =? len requested)
  then observe_write offset (takeZ transferred requested) x else
  if negb (pw_active p)
  then x <| pending_ := mkPending true offset (len requested) (takeZ transferred requested) |> else
  if negb (offset =? u64 (pw_offset p + len (pw_bytes p))) ||
     negb (len requested =? u64 (pw_expected_size p - len (pw_bytes p))) ||
     (u64 (pw_expected_size p - len (pw_bytes p)) <? transferred)
  then fail "oracle saw noncontiguous fragments of one exact write" x else
  let all := pw_bytes p ++ takeZ transferred requested in
  if len all =? pw_expected_size p
  then observe_write (pw_offset p) all (x <| pending_ := PendingWrite_default |>)
  else x <| pending_ := mkPending true (pw_offset p) (pw_expected_size p) all |>.

Record t (D : Type) := mk { delegate_ : D; seen_ : oracle }.
Arguments mk {D}. Arguments delegate_ {D}. Arguments seen_ {D}.
#[global] Instance t_eta D : Eta (t D) := fun c => mk (delegate_ c) (seen_ c).

Section Oracle.
Context {D : Type} `{!Storage D}.
Definition write_at (offset : Z) (input : bytes) (c : t D) : IoResult * t D :=
  let '(r, d) := Storage.write_at offset input (delegate_ c) in
  let c := c <| delegate_ := d |> in
  if status_ok (io_status r) && negb (transferred r =? 0)
  then (r, c <| seen_ ::= observe_fragment offset input (transferred r) |>)
  else (r, c).
#[global] Instance storage : Storage (t D) := {|
  st_size := fun c => st_size (delegate_ c);
  st_writable := fun c => st_writable (delegate_ c);
  Storage.read_at := fun off n c =>
    let '(r, d) := Storage.read_at off n (delegate_ c) in (r, c <| delegate_ := d |>);
  Storage.write_at := write_at;
  Storage.flush := fun c =>
    let '(s, d) := Storage.flush (delegate_ c) in (s, c <| delegate_ := d |>);
  interrupts := fun c => interrupts (delegate_ c) |}.
End Oracle.

(** *** The summary the oracle expects *)

(** The records [first, last] of one block. *)
Fixpoint expect_records (o : Options) (ordinals : list Z) (s : RecordStreamSummary)
    : result RecordStreamSummary :=
  match ordinals with
  | [] => Ok s
  | ordinal :: rest =>
      match encode_ordinal o ordinal with
      | (status, encoded) =>
          if negb (status_ok status) then Err status else
          expect_records o rest
            (s <| digest ::= hash_bytes (default [] encoded) |>
               <| count ::= fun n => u64 (n + 1) |> <| last_ordinal := ordinal |>)
      end
  end.

Fixpoint expect_blocks (o : Options) (generation : Z) (bs : list ObservedBlock)
    (s : RecordStreamSummary) : result RecordStreamSummary :=
  match bs with
  | [] => Ok s
  | b :: rest =>
      let s := if count s =? 0 then s <| first_ordinal := ob_first_ordinal b |> else s in
      if negb (count s =? 0) && negb (ob_first_ordinal b =? u64 (last_ordinal s + 1))
      then error StatusCode.corrupt "oracle retained records are not contiguous" else
      let s := enter_block generation (ob_sequence b) (ob_slot b) (ob_flags b) (ob_raw_size b) s in
      s ← expect_records o
            (seqZ (ob_first_ordinal b) (ob_last_ordinal b - ob_first_ordinal b + 1)) s;
      expect_blocks o generation rest s
  end.

Fixpoint expect_slots (o : Options) (slots : list SlotState) (s : RecordStreamSummary)
    : result RecordStreamSummary :=
  match slots with
  | [] => Ok s
  | slot :: rest =>
      s ← expect_blocks o (sl_generation slot) (sl_blocks slot) s;
      expect_slots o rest s
  end.

Definition older (a b : SlotState) : Prop := sl_generation a <= sl_generation b.
#[global] Instance older_dec : RelDecision older.
Proof. intros a b. unfold older. apply _. Defined.

(** [for (i = 1; i != retained.size(); ++i)] compares neighbours; on an empty
    list it would run past the end, which is [None]. *)
Fixpoint contiguous (l : list SlotState) : bool :=
  match l with
  | a :: ((b :: _) as rest) => (sl_generation b =? u64 (sl_generation a + 1)) && contiguous rest
  | _ => true
  end.

Definition expected_summary (o : Options) (x : oracle) : option (result RecordStreamSummary) :=
  if negb (status_ok (status_ x)) then Some (Err (status_ x)) else
  if pw_active (pending_ x)
  then Some (error StatusCode.corrupt "oracle has an incomplete exact write") else
  let retained := merge_sort older (List.filter sl_active (slots_ x)) in
  if bool_decide (retained = []) then None else
  if negb (contiguous retained)
  then Some (error StatusCode.corrupt "oracle retained generations are not contiguous") else
  Some (
    s ← expect_slots o retained RecordStreamSummary_default;
    if (count s =? 0) || negb (last_ordinal s =? u64 (records o - 1))
    then error StatusCode.corrupt "oracle retained window is empty or stale"
    else Ok s).
End PersistenceOracle.

(** ** What a query returns *)

Definition read_ordinal (payload : bytes) : Z :=
  foldl (fun x byte => Z.lor x (Z.shiftl (byte_at payload byte) (byte * 8))) 0 (seqZ 0 8).

Definition whole_query : RecordQuery :=
  mkRecordQuery (mkTimeRange INT64_MIN INT64_MAX 1) [] QueryOptions_default.

(** What the visitor of [collect_records] captures. *)
Record Collected := mkCollected {
  cl_output : RecordStreamSummary;
  cl_validation : Status;
  cl_have_block : bool;
  cl_generation : Z;
  cl_sequence : Z }.
Definition collecting : Collected := mkCollected RecordStreamSummary_default Status_Ok false 0 0.

Definition reject (message : string) (c : Collected) : bool * Collected :=
  (false, mkCollected (cl_output c) (Status_Error StatusCode.corrupt message) (cl_have_block c)
            (cl_generation c) (cl_sequence c)).

(** Is the record one of the workload, and the next one? *)
Definition identity_differs (o : Options) (record : RecordView) (ordinal : Z)
    (output : RecordStreamSummary) : bool :=
  (records o <=? ordinal) ||
  (negb (count output =? 0) && negb (ordinal =? u64 (last_ordinal output + 1))) ||
  negb (rv_selector record =? ordinal mod 64) ||
  negb (rv_index_time_ns record =? make_time o ordinal) || negb (rv_flags record =? 0).

Definition same_block (c : Collected) (block : BlockMetadata) : bool :=
  cl_have_block c && (md_partition_generation block =? cl_generation c) &&
  (md_block_sequence block =? cl_sequence c).

(** A record of a block not seen before counts the block. *)
Definition count_block (block : BlockMetadata) (c : Collected) : Collected :=
  if same_block c block then c else
  mkCollected (enter_block (md_partition_generation block) (md_block_sequence block)
                 (md_partition_slot block) (md_flags block) (md_raw_size block) (cl_output c))
    (cl_validation c) true (md_partition_generation block) (md_block_sequence block).

Definition collect_visitor (o : Options) (event : RecordEvent) (c : Collected) : bool * Collected :=
  let block := re_block event in
  if negb (bool_decide (re_kind event = ev_data)) then
    reject "record stream contains a gap"
      (mkCollected ((cl_output c) <| gaps ::= fun n => u64 (n + 1) |>) (cl_validation c)
         (cl_have_block c) (cl_generation c) (cl_sequence c)) else
  if len (rv_payload (re_record event)) <? 8 then reject "record payload lacks ordinal" c else
  let ordinal := read_ordinal (rv_payload (re_record event)) in
  if identity_differs o (re_record event) ordinal (cl_output c)
  then reject "record identity/order differs from generated model" c else
  let '(validation, expected) := encode_ordinal o ordinal in
  if negb (status_ok validation) ||
     negb (bool_decide (default [] expected = rv_encoded (re_record event)))
  then reject "record bytes differ from generated model" c else
  let c := mkCollected (cl_output c) validation (cl_have_block c) (cl_generation c) (cl_sequence c) in
  if negb (same_block c block) && cl_have_block c &&
     ((md_partition_generation block <? cl_generation c) ||
      ((md_partition_generation block =? cl_generation c) &&
       (md_block_sequence block <=? cl_sequence c)))
  then reject "block identity is not in physical generation order" c else
  let c := count_block block c in
  let output := cl_output c in
  let output := if count output =? 0 then output <| first_ordinal := ordinal |> else output in
  let output := output <| last_ordinal := ordinal |> <| count ::= fun n => u64 (n + 1) |>
                  <| digest ::= hash_bytes (rv_encoded (re_record event)) |> in
  (true, mkCollected output (cl_validation c) (cl_have_block c) (cl_generation c) (cl_sequence c)).

Definition measure_visitor (event : RecordEvent) (c : Collected) : bool * Collected :=
  if negb (bool_decide (re_kind event = ev_data)) then
    reject "measured query contains a gap"
      (mkCollected ((cl_output c) <| gaps ::= fun n => u64 (n + 1) |>) (cl_validation c)
         (cl_have_block c) (cl_generation c) (cl_sequence c)) else
  let c := count_block (re_block event) c in
  (true, mkCollected ((cl_output c) <| count ::= fun n => u64 (n + 1) |>
                        <| digest ::= hash_bytes (rv_encoded (re_record event)) |>)
           (cl_validation c) (cl_have_block c) (cl_generation c) (cl_sequence c)).

Section Queries.
Context {T : Type} `{!Storage T}.

(** The status, the store, and what the output parameter holds. *)
Definition collect_records (o : Options) (s : Impl T) : Status * (Impl T * RecordStreamSummary) :=
  let '(status, (s, c)) := query_records (collect_visitor o) whole_query FramedRecordV1.profile s
                             collecting in
  let output := cl_output c in
  if negb (status_ok status) then (status, (s, output)) else
  if negb (status_ok (cl_validation c)) then (cl_validation c, (s, output)) else
  if (count output =? 0) || negb (last_ordinal output =? u64 (records o - 1))
  then (Status_Error StatusCode.corrupt "retained record suffix is empty or stale", (s, output))
  else (Status_Ok, (s, output)).

Definition measure_record_query (s : Impl T) : Status * (Impl T * RecordStreamSummary) :=
  let '(status, (s, c)) := query_records measure_visitor whole_query FramedRecordV1.profile s
                             collecting in
  if negb (status_ok status) then (status, (s, cl_output c)) else (cl_validation c, (s, cl_output c)).
End Queries.

(** The two summaries of [main] agree where both count. *)
Definition measured_differs (m q : RecordStreamSummary) : bool :=
  negb (count m =? count q) || negb (blocks m =? blocks q) || negb (raw_bytes m =? raw_bytes q) ||
  negb (gaps m =? gaps q) || negb (digest m =? digest q).

(** ** The concurrent reader

    What its two callbacks and the loop count; each iteration is one scan. *)

Record Reader := mkReader {
  reader_failed : bool; reader_iterations : Z; reader_gaps : Z; reader_data_events : Z;
  reader_records : Z }.
#[global] Instance Reader_eta : Eta Reader := fun r =>
  mkReader (reader_failed r) (reader_iterations r) (reader_gaps r) (reader_data_events r)
    (reader_records r).
Definition Reader_default : Reader := mkReader false 0 0 0 0.
Definition fail_if (bad : bool) (r : Reader) : Reader := if bad then r <| reader_failed := true |> else r.

Definition reader_record (o : Options) (record : RecordView) (st : Z * Reader)
    : bool * (Z * Reader) :=
  let '(decoded, r) := st in
  let decoded := u32 (decoded + 1) in
  if (rv_index_time_ns record <? 0) || negb (Z.rem (rv_index_time_ns record) 1000000 =? 0) ||
     (len (rv_payload record) <? 8)
  then (true, (decoded, fail_if true r)) else
  let ordinal := u64 (Z.quot (rv_index_time_ns record) 1000000) in
  let encoded_ordinal := read_ordinal (rv_payload record) in
  let r := fail_if ((records o <=? ordinal) || negb (rv_selector record =? ordinal mod 64) ||
                    negb (encoded_ordinal =? ordinal) ||
                    negb (rv_index_time_ns record =? make_time o ordinal) ||
                    negb (rv_flags record =? 0)) r in
  let expected := make_payload o ordinal in
  let r := fail_if (negb (bool_decide (expected = rv_payload record))) r in
  let '(encoded_status, expected_encoded) := encode_ordinal o ordinal in
  let r := fail_if (negb (status_ok encoded_status) ||
                    negb (bool_decide (default [] expected_encoded = rv_encoded record))) r in
  (true, (decoded, r <| reader_records ::= fun n => u64 (n + 1) |>)).

Definition reader_event (o : Options) (event : BlockEvent) (r : Reader) : bool * Reader :=
  (true,
   match be_kind event with
   | corrupt_gap => fail_if true r
   | overwritten_gap => r <| reader_gaps ::= fun n => u64 (n + 1) |>
   | ev_data =>
       let r := r <| reader_data_events ::= fun n => u64 (n + 1) |> in
       let '(decoded_status, (decoded, r)) :=
         FramedRecordV1.decode_block (reader_record o) (View (be_data event)) (0, r) in
       fail_if (negb (status_ok decoded_status) ||
                negb (decoded =? md_record_count (be_metadata event))) r
   end).

Definition reader_iteration {T} `{!Storage T} (o : Options) (s : Impl T) (r : Reader)
    : Impl T * Reader :=
  let '(read_status, (s, r)) := scan_blocks (reader_event o) QueryOptions_default s r in
  (s, (fail_if (negb (status_ok read_status)) r) <| reader_iterations ::= fun n => u64 (n + 1) |>).

(** The checks of [main] after the reader is joined: the exit code, if any. *)
Definition reader_verdict (o : Options) (r : Reader) : option Z :=
  if reader_failed r then Some 3 else
  if bool_decide (profile o = "concurrent-read") &&
     ((reader_iterations r =? 0) || (reader_data_events r =? 0) || (reader_records r =? 0))
  then Some 3 else None.

(** ** The synchronous run of [main]

    Neither [--async] nor the concurrent reader; the latencies, counters and
    the report are left out. *)

Definition writer_options (o : Options) : OpenOptions :=
  mkOpenOptions true false
    (mkPartitionOptions (compression o) 1 kFramedRecordV1ProfileId 1 1 10000000 1000000000)
    [] 0 0 false.

Section Run.
Context {D : Type} `{!Storage D}.
Variable now : nat -> Z.
Abbreviation backend := (CountingStorage.t (PersistenceOracle.t D)).

Fixpoint write_records (o : Options) (ordinals : list Z) : prog (Impl backend) unit :=
  match ordinals with
  | [] => mret tt
  | i :: rest =>
      let '(status, encoded) := encode_ordinal o i in
      if negb (status_ok status) then throw status else
      append now (View (default [] encoded)) (make_time o i) 0;;
      when (negb (checkpoint_records o =? 0) && (u64 (i + 1) mod checkpoint_records o =? 0))
        (checkpoint now);;
      write_records o rest
  end.
Definition write_workload (o : Options) : prog (Impl backend) unit :=
  write_records o (seqZ 0 (records o));; checkpoint now.

(** The exit code of the checks after the writes; [None] is undefined. *)
Definition check_workload (o : Options) (random : result (Z * Z)) (s : Impl backend) : option Z :=
  let '(status, (s, measured)) := measure_record_query s in
  if negb (status_ok status) then Some 2 else
  let '(status, (s, queried)) := collect_records o s in
  if negb (status_ok status) then Some 2 else
  if measured_differs measured queried then Some 3 else
  match PersistenceOracle.expected_summary o
          (PersistenceOracle.seen_ (CountingStorage.delegate_ (storage s))) with
  | None => None
  | Some (Err _) => Some 2
  | Some (Ok expected) =>
      if negb (summary_eqb queried expected) then Some 3 else
      match open now ((writer_options o) <| oo_writable := false |>) random
              (CountingStorage.reset_counters (storage s)) with
      | (Err _, _) => Some 2
      | (Ok s, _) =>
          let '(status, (_, reopened)) := collect_records o s in
          if negb (status_ok status) then Some 2 else
          if negb (summary_eqb reopened expected) || negb (summary_eqb reopened queried)
          then Some 3 else Some 0
      end
  end.

(** From the formatted file, or the short-write decorator over it, to the
    exit code. *)
Definition run_sync (o : Options) (random : result (Z * Z)) (st : D) : option Z :=
  let st := CountingStorage.mk
    (PersistenceOracle.mk st (PersistenceOracle.make (volume_options o) (st_size st)))
    StorageCounters_zero in
  match open now (writer_options o) random st with
  | (Err _, _) => Some 2
  | (Ok s, _) =>
      match write_workload o (s <| storage ::= CountingStorage.reset_counters |>) with
      | (Err _, _) => Some 2
      | (Ok _, s) => check_workload o random s
      end
  end.
End Run.
End LoadGen.
