(* ===== verification/LoadGenFacts.v ===== *)
(** * Facts about the load generator

    The two storage decorators meet the storage contract, the oracle sees
    exact writes whatever the fragments, the latency samples are a bounded
    sample of the observations, and every generated record carries its
    ordinal. *)

From stdpp Require Import sorting.
From Stdlib Require Import SpecFloat Sorted.
From S2P Require Import Prelude Status Crc32c Layout Format Codec Storage MemoryStorage.
From S2P Require Import RecordProfile RecordFacts Tools ToolsFacts LoadGen.
Import LoadGen.

(** ** The widths of parsed options *)

Record load_typed (o : Options) : Prop := {
  lt_size : is_u64 (size o);
  lt_records : is_u64 (records o);
  lt_seed : is_u64 (seed o);
  lt_checkpoint : is_u64 (checkpoint_records o);
  lt_sync : is_u64 (sync_ms o);
  lt_chunk : is_u64 (backend_write_chunk o);
  lt_volume : volume_typed (volume_options o);
  lt_compression : compression o ∈ [CompressionId_none; CompressionId_packbits; CompressionId_lz4_block] }.

Lemma load_typed_default p : load_typed (Options_default <| path := p |>).
Proof. split; try done. cbn. set_solver. Qed.

Lemma parse_value_typed argument value o o' : parse_value argument value o = Some o' ->
  is_u64 value -> load_typed o -> load_typed o'.
Proof.
  unfold parse_value. intros H Hv [????????]. repeat case_match; try done; injection H as <-;
    split; cbn; try done; destruct lt_volume0; split; cbn; auto with tools.
Qed.
Lemma parse_compression_typed text c : parse_compression text = Some c ->
  c ∈ [CompressionId_none; CompressionId_packbits; CompressionId_lz4_block].
Proof. unfold parse_compression. intros H. repeat case_match; simplify_eq; set_solver. Qed.

Lemma parse_args_typed args : forall o o', parse_args args o = Some o' -> load_typed o -> load_typed o'.
Proof.
  revert args. fix IH 1. intros [|argument args] o o' H Ho; cbn in H; repeat case_match;
    try done; (injection H as <- || (eapply IH; [exact H|])); try done;
    try (eapply parse_value_typed; [eassumption|by eapply parse_u64_typed|done]);
    destruct Ho; split; cbn; try done; by eapply parse_compression_typed.
Qed.

(** ** The decorators are backends *)

Module ShortWriteFacts.
Section Short.
Context {D : Type} `{!Storage D, !StorageModel D}.
Abbreviation t := (ShortWriteStorage.t D).

#[global] Program Instance model : StorageModel t := {|
  st_wf := fun c => st_wf (ShortWriteStorage.delegate_ c) /\ 0 < ShortWriteStorage.maximum_write_ c;
  contents := fun c => contents (ShortWriteStorage.delegate_ c);
  durable := fun c => durable (ShortWriteStorage.delegate_ c) |}.
Next Obligation. intros c [Hwf _]. apply (st_size_contents _ Hwf). Qed.
Next Obligation. intros c [Hwf _]. apply (st_size_bound _ Hwf). Qed.
Next Obligation. intros c [Hwf _]. apply (st_bytes_ok _ Hwf). Qed.
Next Obligation.
  intros c off n data r c' [Hwf Hm] Hoff Hn H. simpl in H.
  destruct (Storage.read_at off n (ShortWriteStorage.delegate_ c)) as [[data0 r0] d] eqn:E.
  injection H as <- <- <-. destruct (read_at_spec _ _ _ _ _ _ Hwf Hoff Hn E) as (?&?&?&?&?&?&?).
  by split_and!.
Qed.
Next Obligation.
  intros c off x r c' [Hwf Hm] Hoff Hx Hne H. simpl in H. unfold ShortWriteStorage.write_at in H.
  assert (Hpos : 0 < len x) by (destruct x; [done|len_lia]).
  set (amount := Z.min _ _) in H.
  assert (Hl : len (takeZ amount x) = amount) by (rewrite len_takeZ; lia).
  destruct (Storage.write_at off (takeZ amount x) (ShortWriteStorage.delegate_ c)) as [r0 d] eqn:E.
  injection H as <- <-.
  destruct (write_at_spec _ _ _ _ _ Hwf Hoff ltac:(by apply Forall_takeZ)
    ltac:(intros Hz; rewrite Hz, len_nil in Hl; lia) E) as (?&?&?&?&Htr&?&Hc&?).
  rewrite Hl in Htr. rewrite takeZ_takeZ in Hc by lia. rewrite Z.min_l in Hc by lia.
  split_and!; (done || lia).
Qed.
Next Obligation.
  intros c s c' [Hwf Hm] H. simpl in H.
  destruct (Storage.flush (ShortWriteStorage.delegate_ c)) as [s0 d] eqn:E.
  injection H as <- <-. destruct (flush_spec _ _ _ Hwf E) as (?&?&?&?&?). by split_and!.
Qed.
End Short.
End ShortWriteFacts.

Module OracleFacts.
Import PersistenceOracle.
Section Oracle.
Context {D : Type} `{!Storage D, !StorageModel D}.

Lemma write_at_delegate off x (c c' : t D) r : PersistenceOracle.write_at off x c = (r, c') ->
  Storage.write_at off x (delegate_ c) = (r, delegate_ c') /\
  seen_ c' = (if status_ok (io_status r) && negb (transferred r =? 0)
              then observe_fragment off x (transferred r) (seen_ c) else seen_ c).
Proof.
  unfold PersistenceOracle.write_at. destruct (Storage.write_at off x (delegate_ c)) as [r0 d].
  destruct (_ && _) eqn:E; intros [= <- <-]; by rewrite E.
Qed.

#[global] Program Instance model : StorageModel (t D) := {|
  st_wf := fun c => st_wf (delegate_ c);
  contents := fun c => contents (delegate_ c);
  durable := fun c => durable (delegate_ c) |}.
Next Obligation. intros c. apply (st_size_contents (delegate_ c)). Qed.
Next Obligation. intros c. apply (st_size_bound (delegate_ c)). Qed.
Next Obligation. intros c. apply (st_bytes_ok (delegate_ c)). Qed.
Next Obligation.
  intros c off n data r c' Hwf Hoff Hn H. simpl in H.
  destruct (Storage.read_at off n (delegate_ c)) as [[data0 r0] d] eqn:E.
  injection H as <- <- <-. apply (read_at_spec _ _ _ _ _ _ Hwf Hoff Hn E).
Qed.
Next Obligation.
  intros c off x r c' Hwf Hoff Hx Hne H. apply write_at_delegate in H as [H _].
  apply (write_at_spec _ _ _ _ _ Hwf Hoff Hx Hne H).
Qed.
Next Obligation.
  intros c s c' Hwf H. simpl in H. destruct (Storage.flush (delegate_ c)) as [s0 d] eqn:E.
  injection H as <- <-. apply (flush_spec _ _ _ Hwf E).
Qed.

#[global] Program Instance reliable `{!ReliableReads D} : ReliableReads (t D) :=
  {| rr_ok := fun c => rr_ok (delegate_ c) |}.
Next Obligation.
  intros ? c off n data r c' Hwf Hrr Ho Hn H. simpl in H.
  destruct (Storage.read_at off n (delegate_ c)) as [[data0 r0] d] eqn:E.
  injection H as <- <- <-. apply (rr_read_at (delegate_ c) _ _ _ _ _ Hwf Hrr Ho Hn E).
Qed.

(** The pending write after [done] bytes of [input] at [off]. *)
Definition midway (off : Z) (input : bytes) (done : Z) (x : oracle) : oracle :=
  if done =? 0 then x else x <| pending_ := mkPending true off (len input) (takeZ done input) |>.

Lemma fragment_step off input done n x : pending_ x = PendingWrite_default ->
  status_ok (status_ x) = true -> 0 <= off -> off + len input < 2 ^ 64 -> 0 <= done ->
  0 < n -> done + n <= len input ->
  observe_fragment (off + done) (dropZ done input) n (midway off input done x) =
    if done + n =? len input then observe_write off input x else midway off input (done + n) x.
Proof.
  intros Hp Hs Hoff Hov Hd Hn Hle. unfold observe_fragment, midway.
  assert (Hl : len (dropZ done input) = len input - done) by (rewrite len_dropZ; lia).
  rewrite Hl, (proj2 (Z.eqb_neq (done + n) 0)) by lia.
  destruct (Z.eqb_spec done 0) as [->|Hz].
  - rewrite Hs, Hp. cbn [negb pw_active PendingWrite_default andb]. rewrite (dropZ_nonpos 0), Z.sub_0_r, Z.add_0_r, Z.add_0_l by lia.
    rewrite (proj2 (Z.ltb_ge _ _)) by lia. destruct (Z.eqb_spec n (len input)) as [->|]; [|done].
    by rewrite takeZ_all.
  - cbn [status_ pending_ set negb]. rewrite Hs. cbn [negb pw_active pw_offset pw_expected_size pw_bytes andb].
    rewrite (proj2 (Z.ltb_ge (len input - done) n)) by lia.
    assert (Ht : len (takeZ done input) = done) by (rewrite len_takeZ; lia).
    rewrite Ht, !u64_small by zlia. rewrite !Z.eqb_refl, (proj2 (Z.ltb_ge (len input - done) n)) by lia. cbn [negb orb].
    assert (Happ : takeZ done input ++ takeZ n (dropZ done input) = takeZ (done + n) input).
    { rewrite <- !slice_0_takeZ, (slice_add 0 done n) by lia. by rewrite Z.add_0_l. }
    rewrite Happ, len_takeZ, Z.min_l, Z.max_r by lia.
    destruct (Z.eqb_spec (done + n) (len input)) as [E|]; [|done].
    rewrite takeZ_all by lia. f_equal. destruct x. cbn in *. by subst.
Qed.

(** The exact-write loop, seen from below: whatever the fragments, a write
    that succeeds is observed once and whole. *)
Lemma observed_loop off input x : bytes_ok input -> pending_ x = PendingWrite_default ->
  status_ok (status_ x) = true -> 0 <= off -> off + len input < 2 ^ 64 ->
  forall fuel done (c c' : t D) s, st_wf c -> 0 <= done < len input -> seen_ c = midway off input done x ->
  write_loop fuel off done input c = Some (s, c') ->
  if status_ok s then seen_ c' = observe_write off input x
  else exists k, 0 <= k < len input /\ seen_ c' = midway off input k x.
Proof.
  intros Hbo Hp Hs Hoff Hov. induction fuel as [|fuel IH]; intros dn c c' s Hwf Hd Hseen; [done|].
  cbn [write_loop]. rewrite (proj2 (Z.ltb_lt _ _)) by lia.
  destruct (Storage.write_at _ _ c) as [r c1] eqn:Er. rewrite u64_small in Er by zlia.
  assert (Hl : len (dropZ dn input) = len input - dn) by (rewrite len_dropZ; lia).
  assert (Hne : dropZ dn input <> []) by (intros E; rewrite E, len_nil in Hl; lia).
  destruct (write_at_spec c (off + dn) (dropZ dn input) _ _ Hwf ltac:(zlia)
    ltac:(by apply Forall_dropZ) Hne Er) as (Hwf1&_&_&_&Htr&_&_&Hr). rewrite Hl in Htr.
  apply write_at_delegate in Er as [_ Hs1]. rewrite Hseen in Hs1.
  assert (Hstay : forall e, status_ok e = false -> seen_ c1 = midway off input dn x ->
    Some (e, c1) = Some (s, c') -> if status_ok s then seen_ c' = observe_write off input x
    else exists k, 0 <= k < len input /\ seen_ c' = midway off input k x).
  { intros e He H1 [= <- <-]. rewrite He. exists dn. split; [lia|done]. }
  destruct (status_ok (io_status r)) eqn:Eok; cbn [negb andb] in *.
  - destruct (Z.eqb_spec (transferred r) 0) as [Hz|Hz]; [by apply Hstay|].
    cbn [negb] in Hs1. rewrite (proj2 (Z.ltb_ge _ _)) by lia.
    rewrite (fragment_step off input dn _ x Hp Hs) in Hs1 by lia.
    destruct (Z.eqb_spec (dn + transferred r) (len input)) as [E|E]; [|by apply IH; [done|lia|]].
    destruct fuel as [|fuel]; cbn [write_loop]; [done|].
    rewrite E, Z.ltb_irrefl. intros [= <- <-]. exact Hs1.
  - destruct (_ && _); [by apply IH|by apply Hstay].
Qed.
End Oracle.
End OracleFacts.

(** ** Latency samples *)

Module SampleFacts.
Import BoundedLatencySamples.

Definition add_all (vs : list Z) : t := foldl (fun x v => add v x) empty vs.

(** The sample after the observations [vs]. *)
Record sampled (vs : list Z) (x : t) : Prop := {
  sd_size : len (values_ x) = Z.min (len vs) kCapacity;
  sd_count : observations_ x = len vs;
  sd_maximum : maximum_ x = foldr Z.max 0 vs;
  sd_members : Forall (fun v => v ∈ vs) (values_ x);
  sd_prefix : len vs <= kCapacity -> values_ x = vs }.

Lemma foldr_max_snoc vs v : foldr Z.max 0 (vs ++ [v]) = Z.max (foldr Z.max 0 vs) (Z.max v 0).
Proof. induction vs as [|u vs IH]; simpl; [lia|]. rewrite IH. lia. Qed.

Lemma add_sampled vs v x : 0 <= v -> len vs + 1 < 2 ^ 64 -> sampled vs x -> sampled (vs ++ [v]) (add v x).
Proof.
  intros Hv Hn [Hs Hc Hm Hf Hp]. pose proof (len_nonneg vs).
  assert (Hl : len (vs ++ [v]) = len vs + 1) by (rewrite len_app; reflexivity).
  assert (Hf' : Forall (fun w => w ∈ vs ++ [v]) (values_ x)).
  { eapply Forall_impl; [exact Hf|]. intros w Hw. apply elem_of_app. by left. }
  assert (Hv' : v ∈ vs ++ [v]) by (apply elem_of_app; right; by apply list_elem_of_singleton).
  assert (Hmx : Z.max (maximum_ x) v = foldr Z.max 0 (vs ++ [v])) by (rewrite foldr_max_snoc, Hm; lia).
  unfold add. rewrite Hc, u64_small by zlia. destruct (Z.ltb_spec (len (values_ x)) kCapacity) as [Hlt|Hge].
  - split; cbn [values_ observations_ maximum_]; try done.
    + rewrite len_app, Hl. change (len [v]) with 1. lia.
    + apply Forall_app. split; [done|by constructor].
    + intros _. rewrite Hp by lia. done.
  - assert (Hlen : len (values_ x) = kCapacity) by lia.
    destruct (_ <? kCapacity); split; cbn [values_ observations_ maximum_]; try done; try lia.
    + unfold len in *. rewrite length_insert. lia.
    + by apply Forall_insert.
Qed.

Lemma add_all_sampled vs : Forall (fun v => 0 <= v) vs -> len vs < 2 ^ 64 -> sampled vs (add_all vs).
Proof.
  induction vs as [|v vs IH] using rev_ind; intros Hv Hn; [by split|].
  apply Forall_app in Hv as [Hvs Hv]. apply Forall_cons in Hv as [Hv _]. rewrite len_app in Hn.
  change (len [v]) with 1 in Hn. unfold add_all. rewrite foldl_app. cbn [foldl].
  apply add_sampled; [done|lia|]. apply IH; [done|lia].
Qed.

(** A percentile is one of the samples. *)
Lemma percentile_member fraction x : values_ x <> [] -> percentile fraction x ∈ values_ x.
Proof.
  intros Hne. unfold percentile. rewrite bool_decide_false by done.
  assert (Hp : merge_sort Z.le (values_ x) ≡ₚ values_ x) by apply merge_sort_Permutation.
  apply (elem_of_Permutation_proper _ _ _ Hp). apply list_elem_of_In, nth_In.
  assert (Hpos : (0 < length (merge_sort Z.le (values_ x)))%nat)
    by (rewrite (Permutation_length Hp); destruct (values_ x); simpl; [done|lia]).
  assert (Hr : is_u64 (rank fraction (len (merge_sort Z.le (values_ x))))) by apply u64_range.
  unfold len in *. zlia.
Qed.
Lemma foldr_max_ge vs v : v ∈ vs -> v <= foldr Z.max 0 vs.
Proof. induction 1 as [|u vs]; simpl; lia. Qed.
End SampleFacts.

(** ** The workload *)

Lemma i64_range z : is_u64 z -> is_i64 (i64 z).
Proof. intros H. unfold i64. case_match; zlia. Qed.

Lemma next_drawn low n random : 0 < n -> low <= fst (drawn_size low n random) < low + n.
Proof.
  intros Hn. unfold drawn_size. destruct (mt19937_64.next random) as [x r]. cbn.
  pose proof (Z.mod_pos_bound x n Hn). lia.
Qed.

Lemma payload_size_range o ordinal random : 8 <= fst (payload_size o ordinal random) < 350.
Proof.
  unfold payload_size. cbv zeta.
  repeat (case_match; try (cbn [fst]; lia));
    match goal with |- context [drawn_size ?l ?n ?r] => pose proof (next_drawn l n r ltac:(lia)); lia end.
Qed.

Lemma random_bytes_spec n : forall random, len (random_bytes n random) = Z.of_nat n /\
  bytes_ok (random_bytes n random).
Proof.
  induction n as [|n IH]; intros random; cbn [random_bytes]; [split; [done|constructor]|].
  destruct (mt19937_64.next random) as [x r]. destruct (IH r) as [Hl Hb].
  split; [rewrite len_cons; lia|]. constructor; [apply u8_range|done].
Qed.

Lemma log_prefix_ok : bytes_ok log_prefix.
Proof. repeat constructor; unfold is_u8; vm_compute; (done || split; congruence). Qed.

Lemma payload_body_spec o ordinal n random : len (payload_body o ordinal n random) = Z.of_nat n /\
  bytes_ok (payload_body o ordinal n random).
Proof.
  unfold payload_body. case_match; [|case_match; [|apply random_bytes_spec]].
  - rewrite len_replicate. split; [lia|]. apply Forall_replicate, u8_range.
  - split; [unfold len; by rewrite length_map, length_seq|]. apply Forall_forall.
    intros b Hb. apply list_elem_of_fmap in Hb as (i&->&_). pose proof log_prefix_ok as Hok.
    unfold bytes_ok in Hok. rewrite Forall_forall in Hok. apply Hok, list_elem_of_In, nth_In.
    apply Nat.mod_upper_bound. vm_compute. done.
Qed.

(** The ordinal replaces the first eight bytes. *)
Lemma stamp_payload p ordinal : 8 <= len p ->
  foldl (fun p byte => <[Z.to_nat byte := u8 (Z.shiftr ordinal (byte * 8))]> p) p (seqZ 0 8) =
  le_bytes 8 ordinal ++ dropZ 8 p.
Proof.
  intros Hl. do 8 (destruct p as [|? p]; [rewrite ?len_cons, len_nil in Hl; lia|]).
  unfold le_bytes. change (Z.of_nat 8) with 8. reflexivity.
Qed.

Lemma make_payload_spec o ordinal : exists rest, make_payload o ordinal = le_bytes 8 ordinal ++ rest /\
  bytes_ok rest /\ len rest < 342.
Proof.
  unfold make_payload. pose proof (payload_size_range o ordinal
    (mt19937_64.make (splitmix64 (Z.lxor (seed o) ordinal)))) as Hr.
  destruct (payload_size _ _ _) as [n random]. cbn [fst] in Hr.
  destruct (payload_body_spec o ordinal (Z.to_nat n) random) as [Hl Hb].
  rewrite stamp_payload by lia. eexists. split; [reflexivity|].
  split; [by apply Forall_dropZ|]. rewrite len_dropZ by lia. lia.
Qed.

Lemma read_ordinal_get64 p : read_ordinal p = get64 p 0.
Proof. reflexivity. Qed.

(** Every generated record carries its ordinal and can be encoded. *)
Lemma payload_ordinal o ordinal : is_u64 ordinal ->
  read_ordinal (make_payload o ordinal) = ordinal /\ 8 <= len (make_payload o ordinal) < 350 /\
  bytes_ok (make_payload o ordinal).
Proof.
  intros Ho. destruct (make_payload_spec o ordinal) as (rest&->&Hb&Hl). pose proof (len_nonneg rest).
  assert (Hlen : len (le_bytes 8 ordinal ++ rest) = 8 + len rest) by (rewrite len_app, len_le_bytes; lia).
  assert (Hok : bytes_ok (le_bytes 8 ordinal ++ rest)) by (apply Forall_app; split; [apply le_bytes_ok|done]).
  split; [|split; [lia|done]]. rewrite read_ordinal_get64. unfold get64.
  rewrite get_le_combine by (done || lia). rewrite slice_0_takeZ.
  rewrite takeZ_app, takeZ_all by (rewrite len_le_bytes; lia). rewrite len_le_bytes, takeZ_nonpos, app_nil_r by lia.
  rewrite le_combine_le_bytes. apply Z.mod_small. exact Ho.
Qed.

Lemma encode_ordinal_ok o ordinal : is_u64 ordinal ->
  encode_ordinal o ordinal = (Status_Ok,
    Some (FramedRecordV1.encoded_record (make_time o ordinal) (ordinal mod 64) 0 (make_payload o ordinal))).
Proof.
  intros Ho. destruct (payload_ordinal o ordinal Ho) as (_&Hl&Hb). unfold encode_ordinal.
  apply FramedFacts.encode_fits. split; [done|]. unfold UINT32_MAX, FramedRecordV1.header_size. lia.
Qed.
