(* ===== verification/LoadGenQuery.v ===== *)
(** * The checks of the load generator

    Two visitors run over the same query in step; the strict check of
    [collect_records] and the measured query; and both against the summary
    the oracle expects. *)

From stdpp Require Import sorting.
From S2P Require Import RingSession.
From S2P Require Import Prelude Status Crc32c Layout Format Codec Storage MemoryStorage.
From S2P Require Import RingTypes RingReader RingScan RingQuery RingReadOnly RecordProfile.
From S2P Require Import RecordFacts Tools LoadGen LoadGenFacts.
Import LoadGen.

(** ** Two visitors in step

    As long as [f] goes on so does [g], and their states stay related; when
    [f] stops its state is rejected. *)
Definition in_step {E A B} (R : A -> B -> Prop) (bad : A -> Prop) (f : E -> A -> bool * A)
    (g : E -> B -> bool * B) : Prop :=
  forall e a b, R a b ->
    if fst (f e a) then fst (g e b) = true /\ R (snd (f e a)) (snd (g e b)) else bad (snd (f e a)).

Section Step.
Context {A B : Type} (R : A -> B -> Prop) (bad : A -> Prop).
Context (f : RecordEvent -> A -> bool * A) (g : RecordEvent -> B -> bool * B).
Context (Hstep : in_step R bad f g).

Lemma decode_loop_step {A' B'} (R' : A' -> B' -> Prop) bad' (f' : RecordView -> A' -> bool * A') g' block :
  in_step R' bad' f' g' -> forall fuel off a b, R' a b ->
  match FramedRecordV1.decode_loop f' fuel block off a with
  | Some (st, a') =>
      (exists b', FramedRecordV1.decode_loop g' fuel block off b = Some (st, b') /\ R' a' b') \/ bad' a'
  | None => FramedRecordV1.decode_loop g' fuel block off b = None
  end.
Proof.
  intros H. induction fuel as [|fuel IH]; intros off a b Hr; cbn; [done|].
  destruct (off <? len block); [|left; by exists b].
  destruct (FramedRecordV1.decode_record _) as [[r n]|e]; [|left; by exists b].
  specialize (H r a b Hr). destruct (f' r a) as [[] a1], (g' r b) as [go b1]; cbn in *.
  - destruct H as [-> Hr1]. apply IH. exact Hr1.
  - by right.
Qed.

Lemma decode_block_step {A' B'} (R' : A' -> B' -> Prop) bad' (f' : RecordView -> A' -> bool * A') g' block :
  in_step R' bad' f' g' -> forall a b, R' a b ->
  (fst (FramedRecordV1.decode_block f' block a) = fst (FramedRecordV1.decode_block g' block b) /\
   R' (snd (FramedRecordV1.decode_block f' block a)) (snd (FramedRecordV1.decode_block g' block b))) \/
  bad' (snd (FramedRecordV1.decode_block f' block a)).
Proof.
  intros H a b Hr. unfold FramedRecordV1.decode_block. destruct (negb _); [by left|].
  pose proof (decode_loop_step R' bad' f' g' (view_data block) H (S (length (view_data block))) 0 a b Hr) as Hl.
  destruct (FramedRecordV1.decode_loop f' _ _ _ _) as [[st a']|]; [|rewrite Hl; by left].
  destruct Hl as [(b'&->&Hr')|Hb]; [by left|by right].
Qed.

Lemma record_visitor_step query block :
  in_step (fun (a : Z * (bool * A)) (b : Z * (bool * B)) => fst a = fst b /\ fst (snd a) = true /\
      fst (snd b) = true /\ R (snd (snd a)) (snd (snd b)))
    (fun a => bad (snd (snd a)) /\ fst (snd a) = false) (record_visitor f query block) (record_visitor g query block).
Proof.
  intros r [n [k a]] [m [l b]] (E&K1&K2&Hr). cbn in E, K1, K2, Hr. subst. cbn.
  destruct (negb _); cbn; [done|].
  pose proof (Hstep (mkRecordEvent ev_data block r Status_Ok) a b Hr) as H.
  destruct (f _ a) as [[] a1], (g _ b) as [go b1]; cbn in *; [|done]. by destruct H as [-> H].
Qed.

(** The captured state of a record query. *)
Definition captured_in (a : Captured) (b : Captured) : Prop :=
  keep_going a = true /\ keep_going b = true /\ decode_status a = decode_status b /\
  R (user a) (user b).
Definition captured_bad (a : Captured) : Prop :=
  bad (user a) \/ status_ok (decode_status a) = false.

Lemma block_visitor_step query : in_step captured_in captured_bad
  (block_visitor f query FramedRecordV1.profile) (block_visitor g query FramedRecordV1.profile).
Proof.
  intros e [k d a] [l d' b] (K1&K2&Ed&Hr). cbn in K1, K2, Ed, Hr. subst. unfold block_visitor.
  cbn [keep_going decode_status user]. destruct (negb (bool_decide _)).
  - pose proof (Hstep (mkRecordEvent (be_kind e) (be_metadata e) RecordView_default (be_detail e)) a b Hr) as H.
    destruct (f _ a) as [[] a1], (g _ b) as [go b1]; cbn in *; [|by left]. by destruct H as [-> H].
  - destruct (_ || _); [by right|]. cbn [rp_decode_block FramedRecordV1.profile].
    pose proof (decode_block_step _ _ _ _ (View (be_data e)) (record_visitor_step query (be_metadata e))
      (0, (true, a)) (0, (true, b)) ltac:(done)) as H.
    destruct (FramedRecordV1.decode_block (record_visitor f _ _) _ _) as [st [n [k a1]]],
      (FramedRecordV1.decode_block (record_visitor g _ _) _ _) as [st' [n' [k' b1]]]; cbn [fst snd] in H.
    destruct H as [(->&->&->&->&Hr1)|Hb].
    + cbn [andb]. destruct (_ && negb _); [by right|]. cbn [fst]. destruct (status_ok st') eqn:Es; [done|by right].
    + destruct Hb as [Hb ->]. cbn [andb fst]. rewrite andb_false_r. cbn [andb snd]. by left.
Qed.

End Step.

(** A whole scan. *)
Lemma visit_all_step {A B} (R : A -> B -> Prop) bad (f : BlockEvent -> A -> bool * A) g :
  in_step R bad f g -> forall es a b, R a b ->
  if fst (visit_all f es a) then fst (visit_all g es b) = true /\
    R (snd (visit_all f es a)) (snd (visit_all g es b)) else bad (snd (visit_all f es a)).
Proof.
  intros H. induction es as [|e es IH]; intros a b Hr; [done|]. cbn. specialize (H e a b Hr).
  destruct (f e a) as [[] a1], (g e b) as [go b1]; cbn in *; [|done]. destruct H as [-> Hr1].
  by apply IH.
Qed.

(** ** The strict and the measured query *)

(** The summaries agree in what both count. *)
Definition agree (a b : RecordStreamSummary) : Prop :=
  count a = count b /\ blocks a = blocks b /\ raw_bytes a = raw_bytes b /\ gaps a = gaps b /\
  digest a = digest b.
Definition same_progress (a b : Collected) : Prop :=
  agree (cl_output a) (cl_output b) /\ cl_validation b = Status_Ok /\
  cl_have_block a = cl_have_block b /\ cl_generation a = cl_generation b /\
  cl_sequence a = cl_sequence b.

Lemma agree_measured a b : agree a b -> measured_differs b a = false.
Proof.
  intros (E1&E2&E3&E4&E5). unfold measured_differs. rewrite E1, E2, E3, E4, E5. by rewrite !Z.eqb_refl.
Qed.

Lemma count_block_step block a b : same_progress a b ->
  same_progress (count_block block a) (count_block block b).
Proof.
  intros ((E1&E2&E3&E4&E5)&Hv&E6&E7&E8). unfold count_block, same_block. rewrite E6, E7, E8.
  destruct (_ && _); [by repeat split|]. repeat split; cbn; congruence.
Qed.

Lemma collect_measure_step o : in_step same_progress (fun a => status_ok (cl_validation a) = false)
  (collect_visitor o) measure_visitor.
Proof.
  intros e a b Hr. unfold collect_visitor, measure_visitor. destruct (negb (bool_decide _)); [done|].
  destruct (_ <? 8); [done|]. cbv zeta. destruct (identity_differs _ _ _ _); [done|].
  destruct (encode_ordinal _ _) as [v enc]. destruct (_ || _); [done|].
  set (a1 := mkCollected (cl_output a) v (cl_have_block a) (cl_generation a) (cl_sequence a)).
  assert (Hr1 : same_progress a1 b) by exact Hr.
  destruct (_ && _ && _); [done|]. apply (count_block_step (re_block e)) in Hr1.
  destruct Hr1 as ((E1&E2&E3&E4&E5)&Hv&E6&E7&E8). cbn [fst snd]. split; [done|].
  destruct (count (cl_output (count_block (re_block e) a1)) =? 0);
    repeat split; cbn; congruence.
Qed.

(** ** Generated records *)

Definition generated (o : Options) (ordinal : Z) : RecordView :=
  mkRecordView (FramedRecordV1.encoded_record (make_time o ordinal) (ordinal mod 64) 0
                  (make_payload o ordinal))
    (make_payload o ordinal) (make_time o ordinal) (ordinal mod 64) 0.

(** Ordinals whose times do not leave the range of a query. *)
Definition ordinal_ok (n : Z) : Prop := 0 <= n < 2 ^ 40.

Lemma make_time_range o n : ordinal_ok n -> - 2 ^ 62 < make_time o n < 2 ^ 62.
Proof.
  unfold ordinal_ok, make_time. intros Hn. rewrite (u64_small (n * 1000000)) by zlia.
  assert (H1 : i64 (n * 1000000) = n * 1000000).
  { unfold i64. by rewrite (proj2 (Z.ltb_lt _ _)) by lia. }
  destruct (negb _); [lia|]. destruct (_ <? _); [lia|]. destruct (_ =? _); [lia|]. cbv zeta.
  rewrite u64_small by zlia. unfold i64. rewrite (proj2 (Z.ltb_lt _ _)) by lia.
  destruct (_ =? _); lia.
Qed.

Lemma generated_framed o n : ordinal_ok n -> FramedFacts.framed (generated o n).
Proof.
  intros Hn. pose proof (make_time_range o n Hn). unfold ordinal_ok in Hn.
  destruct (payload_ordinal o n ltac:(zlia)) as (_&Hl&Hb). pose proof (Z.mod_pos_bound n 64).
  split; cbn; try done; try zlia. split; [done|]. unfold UINT32_MAX, FramedRecordV1.header_size. lia.
Qed.
Lemma generated_selected o n : ordinal_ok n -> record_selected whole_query (generated o n) = true.
Proof.
  intros Hn. pose proof (make_time_range o n Hn). unfold record_selected. cbn.
  rewrite (proj2 (Z.ltb_ge _ _)), (proj2 (Z.leb_gt _ _)) by (unfold INT64_MIN, INT64_MAX; lia). done.
Qed.

(** ** The reference summary *)

Definition ref_record (o : Options) (s : RecordStreamSummary) (n : Z) : RecordStreamSummary :=
  mkSummary (u64 (count s + 1)) (if count s =? 0 then n else first_ordinal s) n (blocks s)
    (raw_bytes s) (gaps s) (hash_bytes (rv_encoded (generated o n)) (digest s)).

Lemma ref_records_count o ns : forall s, 0 <= count s -> count s + len ns < 2 ^ 64 ->
  count (foldl (ref_record o) s ns) = count s + len ns /\
  last_ordinal (foldl (ref_record o) s ns) = default (last_ordinal s) (last ns).
Proof.
  induction ns as [|n ns IH]; intros s H0 Hs; [rewrite len_nil; split; [cbn; lia|done]|].
  rewrite len_cons in *. pose proof (len_nonneg ns).
  cbn [foldl]. destruct (IH (ref_record o s n)) as [E1 E2]; [cbn; rewrite u64_small; zlia..|].
  cbn [ref_record count last_ordinal] in E1, E2. rewrite u64_small in E1 by zlia. split; [lia|].
  rewrite E2. destruct ns as [|m ns]; [done|]. rewrite last_cons_cons.
  destruct (last (m :: ns)) eqn:E; [done|]. by apply last_None in E.
Qed.

(** The strict visitor on one generated record of a block it may enter. *)
Lemma collect_record o meta n c : ordinal_ok n -> n < records o ->
  (count (cl_output c) = 0 \/ n = u64 (last_ordinal (cl_output c) + 1)) ->
  (same_block c meta = true \/ cl_have_block c = false \/
   cl_generation c < md_partition_generation meta \/
   (cl_generation c = md_partition_generation meta /\ cl_sequence c < md_block_sequence meta)) ->
  collect_visitor o (mkRecordEvent ev_data meta (generated o n) Status_Ok) c =
    (true, let c1 := count_block meta c in
           mkCollected (ref_record o (cl_output c1) n) Status_Ok (cl_have_block c1) (cl_generation c1)
             (cl_sequence c1)).
Proof.
  intros Hn Hr Hnext Hblk. unfold ordinal_ok in Hn.
  destruct (payload_ordinal o n ltac:(zlia)) as (Hord&Hl&_).
  unfold collect_visitor. cbn [re_kind re_record re_block]. rewrite bool_decide_true by done. cbn [negb].
  cbn [generated rv_payload]. rewrite (proj2 (Z.ltb_ge _ 8)) by lia. cbv zeta. rewrite Hord.
  assert (Hid : identity_differs o (generated o n) n (cl_output c) = false).
  { unfold identity_differs. cbn. rewrite !Z.eqb_refl, (proj2 (Z.leb_gt _ _)) by done. cbn [negb orb].
    destruct Hnext as [-> | <-]; [done|]. rewrite Z.eqb_refl. by rewrite andb_false_r. }
  rewrite Hid, encode_ordinal_ok by zlia. cbn [status_ok negb]. change (status_ok Status_Ok) with true. cbn [negb orb default rv_encoded generated].
  rewrite bool_decide_true by done. cbn [negb].
  set (c0 := mkCollected (cl_output c) Status_Ok (cl_have_block c) (cl_generation c) (cl_sequence c)).
  assert (Hsb : same_block c0 meta = same_block c meta) by done.
  assert (Hpass : negb (same_block c0 meta) && cl_have_block c0 &&
    ((md_partition_generation meta <? cl_generation c0) ||
     ((md_partition_generation meta =? cl_generation c0) && (md_block_sequence meta <=? cl_sequence c0))) = false).
  { rewrite Hsb. destruct Hblk as [->|[Hh|Hlt]]; [done|cbn; rewrite Hh; by rewrite andb_false_r|].
    cbn. lia. }
  rewrite Hpass. unfold count_block. rewrite Hsb. destruct (same_block c meta); cbn.
  - unfold ref_record. cbn. by destruct (count (cl_output c) =? 0).
  - unfold ref_record. cbn. by destruct (count (cl_output c) =? 0).
Qed.

Lemma visit_events_cons {V} (visitor : RecordEvent -> V -> bool * V) meta r rs c :
  FramedFacts.visit_events visitor meta (r :: rs) c =
  let '(go, c) := visitor (mkRecordEvent ev_data meta r Status_Ok) c in
  if (go : bool) then FramedFacts.visit_events visitor meta rs c else (false, c).
Proof. reflexivity. Qed.

(** The records of a block already entered. *)
Lemma collect_rest o meta (k : nat) : forall start c, 0 <= start -> start + Z.of_nat k <= 2 ^ 40 ->
  start + Z.of_nat k <= records o -> same_block c meta = true -> cl_validation c = Status_Ok ->
  (count (cl_output c) = 0 \/ last_ordinal (cl_output c) + 1 = start) ->
  FramedFacts.visit_events (collect_visitor o) meta (map (generated o) (seqZ start (Z.of_nat k))) c =
    (true, mkCollected (foldl (ref_record o) (cl_output c) (seqZ start (Z.of_nat k))) Status_Ok
             (cl_have_block c) (cl_generation c) (cl_sequence c)).
Proof.
  induction k as [|k IH]; intros start c H0 H1 H2 Hsb Hv Hl; [by destruct c; cbn in *; subst|].
  rewrite seqZ_cons by lia. cbn [map]. rewrite visit_events_cons.
  rewrite collect_record; [|unfold ordinal_ok; lia|lia| |by left];
    [|destruct Hl as [?|<-]; [by left|right]; rewrite u64_small by zlia; done].
  unfold count_block. rewrite Hsb. cbv zeta. replace (Z.pred (Z.of_nat (S k))) with (Z.of_nat k) by lia.
  set (c1 := mkCollected (ref_record o (cl_output c) start) Status_Ok (cl_have_block c) (cl_generation c) (cl_sequence c)).
  rewrite (IH (Z.succ start) c1); [done|lia|lia|lia|done|done|]. right. cbn. lia.
Qed.

(** ** A stream of blocks *)

Definition block_size (b : PersistenceOracle.ObservedBlock) : Z :=
  PersistenceOracle.ob_last_ordinal b - PersistenceOracle.ob_first_ordinal b + 1.
Definition block_ordinals (b : PersistenceOracle.ObservedBlock) : list Z :=
  seqZ (PersistenceOracle.ob_first_ordinal b) (block_size b).
Definition enter_observed (gb : Z * PersistenceOracle.ObservedBlock) (s : RecordStreamSummary)
    : RecordStreamSummary :=
  enter_block (fst gb) (PersistenceOracle.ob_sequence (snd gb)) (PersistenceOracle.ob_slot (snd gb))
    (PersistenceOracle.ob_flags (snd gb)) (PersistenceOracle.ob_raw_size (snd gb)) s.
Definition ref_block (o : Options) (s : RecordStreamSummary) (gb : Z * PersistenceOracle.ObservedBlock)
    : RecordStreamSummary :=
  foldl (ref_record o) (enter_observed gb s) (block_ordinals (snd gb)).

(** The query shows the observed block of generation [fst gb] with the
    records the workload has for its ordinals. *)
Record shows (o : Options) (e : BlockEvent) (gb : Z * PersistenceOracle.ObservedBlock) : Prop := {
  sh_kind : be_kind e = ev_data;
  sh_generation : md_partition_generation (be_metadata e) = fst gb;
  sh_sequence : md_block_sequence (be_metadata e) = PersistenceOracle.ob_sequence (snd gb);
  sh_slot : md_partition_slot (be_metadata e) = PersistenceOracle.ob_slot (snd gb);
  sh_flags : md_flags (be_metadata e) = PersistenceOracle.ob_flags (snd gb);
  sh_raw_size : md_raw_size (be_metadata e) = PersistenceOracle.ob_raw_size (snd gb);
  sh_format : md_record_format_id (be_metadata e) = kFramedRecordV1ProfileId /\
              md_record_format_version (be_metadata e) = 1;
  sh_count : md_record_count (be_metadata e) = block_size (snd gb);
  sh_data : be_data e = concat (map rv_encoded (map (generated o) (block_ordinals (snd gb)))) }.

(** Blocks in rising order with the ordinals from [start] on. *)
Fixpoint ordered (o : Options) (prev : option (Z * Z)) (start : Z)
    (gbs : list (Z * PersistenceOracle.ObservedBlock)) : Prop :=
  match gbs with
  | [] => True
  | (g, b) :: rest =>
      PersistenceOracle.ob_first_ordinal b = start /\ 0 < block_size b < 2 ^ 32 /\
      PersistenceOracle.ob_last_ordinal b < records o /\
      match prev with
      | None => True
      | Some (g0, q0) => g0 < g \/ (g0 = g /\ q0 < PersistenceOracle.ob_sequence b)
      end /\
      ordered o (Some (g, PersistenceOracle.ob_sequence b))
        (PersistenceOracle.ob_last_ordinal b + 1) rest
  end.

(** The state of the strict visitor behind the blocks before [start]. *)
Record collected_to (prev : option (Z * Z)) (start : Z) (c : Collected) : Prop := {
  ct_validation : cl_validation c = Status_Ok;
  ct_count : 0 <= count (cl_output c) <= start;
  ct_last : count (cl_output c) = 0 \/ last_ordinal (cl_output c) + 1 = start;
  ct_block : match prev with
    | None => cl_have_block c = false
    | Some (g, q) => cl_have_block c = true /\ cl_generation c = g /\ cl_sequence c = q
    end }.

Lemma ref_block_progress o s gb start : 0 <= count s <= start ->
  PersistenceOracle.ob_first_ordinal (snd gb) = start -> 0 < block_size (snd gb) ->
  start + block_size (snd gb) <= 2 ^ 40 ->
  count (ref_block o s gb) = count s + block_size (snd gb) /\
  last_ordinal (ref_block o s gb) = PersistenceOracle.ob_last_ordinal (snd gb).
Proof.
  intros Hc Hf Hk Hb. unfold ref_block.
  assert (Hl : len (block_ordinals (snd gb)) = block_size (snd gb))
    by (unfold len, block_ordinals; rewrite length_seqZ; lia).
  destruct (ref_records_count o (block_ordinals (snd gb)) (enter_observed gb s)) as [E1 E2];
    [cbn; lia|cbn; lia|]. rewrite E1, E2, Hl. split; [done|].
  unfold block_ordinals. replace (block_size (snd gb)) with (Z.of_nat (S (Z.to_nat (block_size (snd gb) - 1)))) by lia.
  rewrite seqZ_S, last_snoc. cbn. unfold block_size in *. lia.
Qed.

Lemma collect_block o meta g b c prev start : ordinal_ok start -> collected_to prev start c ->
  ordered o prev start [(g, b)] -> records o <= 2 ^ 40 ->
  md_partition_generation meta = g -> md_block_sequence meta = PersistenceOracle.ob_sequence b ->
  md_partition_slot meta = PersistenceOracle.ob_slot b -> md_flags meta = PersistenceOracle.ob_flags b ->
  md_raw_size meta = PersistenceOracle.ob_raw_size b ->
  FramedFacts.visit_events (collect_visitor o) meta (map (generated o) (block_ordinals b)) c =
    (true, mkCollected (ref_block o (cl_output c) (g, b)) Status_Ok true g (PersistenceOracle.ob_sequence b)).
Proof.
  intros Hst [Hv Hc Hl Hb] (Hf&Hk&Hlast&Hp&_) Hr Eg Eq Es Efl Era. unfold ordinal_ok in Hst.
  unfold block_size in Hk. unfold ref_block, block_ordinals. cbn [snd]. rewrite Hf.
  assert (Hnew : cl_have_block c = false \/ cl_generation c < g \/
    (cl_generation c = g /\ cl_sequence c < PersistenceOracle.ob_sequence b)).
  { destruct prev as [[g0 q0]|]; [|by left]. destruct Hb as (_&->&->). by right. }
  assert (Hsb : same_block c meta = false).
  { unfold same_block. rewrite Eg, Eq. destruct Hnew as [->|Hx]; [done|]. lia. }
  replace (block_size b) with (Z.of_nat (S (Z.to_nat (block_size b - 1)))) by (unfold block_size; lia).
  rewrite seqZ_cons by lia. cbn [map foldl]. rewrite visit_events_cons.
  rewrite collect_record; [|unfold ordinal_ok; lia|lia|..].
  2:{ destruct Hl as [?|<-]; [by left|right]. rewrite u64_small by zlia. done. }
  2:{ right. rewrite Eg, Eq. destruct Hnew as [?|[?|?]]; auto. }
  unfold count_block. rewrite Hsb. cbv zeta. cbn [cl_output cl_have_block cl_generation cl_sequence].
  rewrite Eg, Eq, Es, Efl, Era. replace (Z.pred _) with (Z.of_nat (Z.to_nat (block_size b - 1))) by lia.
  set (c1 := mkCollected (ref_record o _ _) Status_Ok true g (PersistenceOracle.ob_sequence b)).
  rewrite (collect_rest o meta _ (Z.succ start) c1); [done|lia|unfold block_size; lia..| |done|].
  - unfold same_block. cbn. by rewrite Eg, Eq, !Z.eqb_refl.
  - right. cbn. lia.
Qed.

Lemma filter_generated o ns : Forall ordinal_ok ns ->
  List.filter (record_selected whole_query) (map (generated o) ns) = map (generated o) ns.
Proof.
  induction 1 as [|n ns Hn _ IH]; [done|]. cbn [map List.filter]. by rewrite generated_selected, IH.
Qed.

(** The strict check over a whole stream. *)
Lemma collect_stream o gbs : records o <= 2 ^ 40 -> forall es c prev start,
  0 <= start -> Forall2 (shows o) es gbs -> ordered o prev start gbs -> collected_to prev start c ->
  exists c', visit_all (block_visitor (collect_visitor o) whole_query FramedRecordV1.profile) es
      (mkCaptured true Status_Ok c) = (true, mkCaptured true Status_Ok c') /\
    cl_output c' = foldl (ref_block o) (cl_output c) gbs /\ cl_validation c' = Status_Ok.
Proof.
  intros Hr. induction gbs as [|[g b] gbs IH]; intros es c prev start H0 H2 Ho Hc.
  { apply Forall2_nil_inv_r in H2 as ->. exists c. split; [done|]. split; [done|apply Hc]. }
  apply Forall2_cons_inv_r in H2 as (e&es'&He&H2&->). cbn [ordered] in Ho.
  destruct Ho as (Hf&Hk&Hlast&Hp&Hrest). unfold block_size in Hk.
  assert (Hok : Forall ordinal_ok (block_ordinals b)).
  { apply Forall_forall. intros n Hn%elem_of_seqZ. unfold ordinal_ok, block_size in *. lia. }
  destruct He as [Ek Eg Eq Es Efl Era [Ei Ever] Ecnt Ed]. cbn [fst snd] in *.
  assert (Hev := FramedFacts.block_visitor_framed (collect_visitor o) whole_query
    (map (generated o) (block_ordinals b)) e (mkCaptured true Status_Ok c)).
  assert (Hlen : len (map (generated o) (block_ordinals b)) = block_size b).
  { unfold len, block_ordinals. rewrite length_map, length_seqZ. unfold block_size. lia. }
  cbv zeta in Hev. rewrite filter_generated in Hev by done. cbn [user] in Hev.
  assert (Ho1 : ordered o prev start [(g, b)]) by (cbn [ordered]; unfold block_size; split_and!; (done || lia)).
  rewrite (collect_block o (be_metadata e) g b c prev start ltac:(unfold ordinal_ok; lia) Hc Ho1 Hr Eg Eq Es
    Efl Era) in Hev.
  cbn [fst snd] in Hev. cbn [visit_all]. rewrite Hev; [| |rewrite Hlen; unfold block_size; lia|done|done|done|done|by rewrite Hlen|done].
  2:{ apply Forall_forall. intros r Hx. apply list_elem_of_fmap in Hx as (n&->&Hx).
      rewrite Forall_forall in Hok. by apply generated_framed, Hok. }
  pose proof (ct_count _ _ _ Hc) as Hcc.
  destruct (ref_block_progress o (cl_output c) (g, b) start) as [E1 E2]; cbn [snd]; [done|done|unfold block_size; lia..|].
  eapply IH; [|done|exact Hrest|]; [lia|]. split; cbn [cl_validation cl_output cl_have_block cl_generation cl_sequence]; [done| |by right; rewrite E2|done].
  rewrite E1. unfold block_size in *. cbn [snd]. lia.
Qed.

(** ** The queries over a store *)

Section Store.
Context {T : Type} `{!Storage T, !StorageModel T, !ReliableReads T}.
Implicit Types s : Impl T.

Lemma whole_query_catalogued {V} (visitor : RecordEvent -> V -> bool * V) s L u :
  catalogued_store s L -> rr_ok (storage s) ->
  exists s', moved s s' /\
    let r := snd (visit_all (block_visitor visitor whole_query FramedRecordV1.profile)
               (ring_events (volume s) false (rq_time whole_query) L) (mkCaptured true Status_Ok u)) in
    query_records visitor whole_query FramedRecordV1.profile s u = (decode_status r, (s', user r)).
Proof. intros Hc Hr. by apply query_records_catalogued. Qed.
End Store.

(** ** The oracle's side *)

Import PersistenceOracle.

(** The blocks of slots with the generation of their slot. *)
Definition flat (slots : list SlotState) : list (Z * ObservedBlock) :=
  concat (map (fun sl => map (pair (sl_generation sl)) (sl_blocks sl)) slots).

Lemma expect_records_ref o ns : forall s, Forall is_u64 ns -> 0 <= count s -> count s + len ns < 2 ^ 64 ->
  (count s = 0 -> match ns with n :: _ => first_ordinal s = n | [] => True end) ->
  expect_records o ns s = Ok (foldl (ref_record o) s ns).
Proof.
  induction ns as [|n ns IH]; intros s Hu H0 Hb Hf; [done|]. apply Forall_cons in Hu as [Hn Hu].
  rewrite len_cons in Hb. pose proof (len_nonneg ns). cbn [expect_records]. rewrite encode_ordinal_ok by done.
  change (status_ok Status_Ok) with true. cbn [negb default foldl].
  assert (E : s <| digest ::= hash_bytes (default [] (Some (FramedRecordV1.encoded_record (make_time o n)
      (n mod 64) 0 (make_payload o n)))) |> <| count ::= fun k => u64 (k + 1) |> <| last_ordinal := n |> =
    ref_record o s n).
  { unfold ref_record. cbn. destruct (Z.eqb_spec (count s) 0) as [Ez|]; [|done]. by rewrite (Hf Ez). }
  cbn in E |- *. rewrite E. apply IH; [done|cbn; rewrite u64_small by zlia; lia..|].
  cbn. rewrite u64_small by zlia. lia.
Qed.

Lemma expect_blocks_ref o g bs : records o <= 2 ^ 40 -> forall s prev start rest,
  0 <= start -> 0 <= count s <= start -> (count s = 0 \/ last_ordinal s + 1 = start) ->
  ordered o prev start (map (pair g) bs ++ rest) ->
  exists prev' start', expect_blocks o g bs s = Ok (foldl (ref_block o) s (map (pair g) bs)) /\
    0 <= start' /\ ordered o prev' start' rest /\
    0 <= count (foldl (ref_block o) s (map (pair g) bs)) <= start' /\
    (count (foldl (ref_block o) s (map (pair g) bs)) = 0 \/
     last_ordinal (foldl (ref_block o) s (map (pair g) bs)) + 1 = start').
Proof.
  intros Hr. induction bs as [|b bs IH]; intros s prev start rest H0 Hc Hl Ho; [by exists prev, start|].
  cbn [map app ordered] in Ho. destruct Ho as (Hf&Hk&Hlast&_&Hrest). unfold block_size in Hk.
  destruct (ref_block_progress o s (g, b) start) as [E1 E2]; cbn [snd]; [done|done|unfold block_size; lia..|].
  assert (Hx : expect_records o (seqZ (ob_first_ordinal b) (ob_last_ordinal b - ob_first_ordinal b + 1))
    (enter_observed (g, b) (if count s =? 0 then s <| first_ordinal := ob_first_ordinal b |> else s)) =
    Ok (ref_block o s (g, b))).
  { assert (Hlen : len (seqZ (ob_first_ordinal b) (ob_last_ordinal b - ob_first_ordinal b + 1)) =
      ob_last_ordinal b - ob_first_ordinal b + 1) by (unfold len; rewrite length_seqZ; lia).
    rewrite expect_records_ref.
    - f_equal. unfold ref_block, block_ordinals, block_size. cbn [snd].
      rewrite seqZ_cons by lia. cbn [foldl]. destruct (Z.eqb_spec (count s) 0) as [Ez|Ez]; [|done].
      assert (Er : ref_record o (enter_observed (g, b) (s <| first_ordinal := ob_first_ordinal b |>))
        (ob_first_ordinal b) = ref_record o (enter_observed (g, b) s) (ob_first_ordinal b)).
      { unfold ref_record. cbn. by rewrite Ez. }
      by rewrite Er.
    - apply Forall_forall. intros n Hn%elem_of_seqZ. zlia.
    - destruct (count s =? 0); cbn; lia.
    - rewrite Hlen. destruct (count s =? 0); cbn; lia.
    - rewrite seqZ_cons by lia. destruct (Z.eqb_spec (count s) 0); cbn; done. }
  destruct (IH (ref_block o s (g, b)) (Some (g, ob_sequence b)) (ob_last_ordinal b + 1) rest)
    as (prev'&start'&E&H1&H2&H3&H4); [lia|rewrite E1; cbn [snd]; unfold block_size; lia|right; by rewrite E2|done|].
  exists prev', start'. cbn [map foldl]. split; [|done]. cbn [expect_blocks].
  assert (Hg : negb (count (if count s =? 0 then s <| first_ordinal := ob_first_ordinal b |> else s) =? 0) &&
    negb (ob_first_ordinal b =? u64 (last_ordinal (if count s =? 0 then
       s <| first_ordinal := ob_first_ordinal b |> else s) + 1)) = false).
  { destruct (Z.eqb_spec (count s) 0) as [Ez|Ez]; cbn; [by rewrite Ez|]. destruct Hl as [?|El]; [done|].
    rewrite u64_small by zlia. rewrite El, Hf, Z.eqb_refl. by rewrite andb_false_r. }
  rewrite Hg. change (enter_block g (ob_sequence b) (ob_slot b) (ob_flags b) (ob_raw_size b)) with (enter_observed (g, b)).
  rewrite Hx. cbn [mbind result_bind]. exact E.
Qed.

Lemma expect_slots_ref o slots : records o <= 2 ^ 40 -> forall s prev start,
  0 <= start -> 0 <= count s <= start -> (count s = 0 \/ last_ordinal s + 1 = start) ->
  ordered o prev start (flat slots) -> expect_slots o slots s = Ok (foldl (ref_block o) s (flat slots)).
Proof.
  intros Hr. induction slots as [|sl slots IH]; intros s prev start H0 Hc Hl Ho; [done|].
  unfold flat in *. cbn [map concat expect_slots] in *.
  destruct (expect_blocks_ref o _ _ Hr s prev start _ H0 Hc Hl Ho) as (prev'&start'&E&H1&H2&H3&H4).
  rewrite E. cbn [mbind result_bind]. rewrite foldl_app. by apply (IH _ prev' start').
Qed.

(** Where a stream of blocks ends. *)
Lemma ref_blocks_end o gbs : records o <= 2 ^ 40 -> forall s prev start,
  0 <= start -> 0 <= count s <= start -> ordered o prev start gbs ->
  count s <= count (foldl (ref_block o) s gbs) /\
  match last gbs with
  | Some gb => 0 < count (foldl (ref_block o) s gbs) /\
      last_ordinal (foldl (ref_block o) s gbs) = ob_last_ordinal (snd gb)
  | None => True
  end.
Proof.
  intros Hr. induction gbs as [|[g b] gbs IH]; intros s prev start H0 Hc Ho; [cbn; split; [lia|done]|].
  cbn [ordered] in Ho. destruct Ho as (Hf&Hk&Hlast&_&Hrest). unfold block_size in Hk.
  destruct (ref_block_progress o s (g, b) start) as [E1 E2]; cbn [snd]; [done|done|unfold block_size; lia..|].
  cbn [snd] in E1, E2. unfold block_size in E1.
  destruct (IH (ref_block o s (g, b)) (Some (g, ob_sequence b)) (ob_last_ordinal b + 1)) as [H1 H2];
    [lia|lia|done|]. cbn [foldl]. split; [lia|].
  destruct gbs as [|gb gbs]; [cbn; split; [lia|done]|]. rewrite last_cons_cons. exact H2.
Qed.

(** What the oracle expects of blocks in order. *)
Lemma expected_ref o x start gb : records o <= 2 ^ 40 -> 0 <= start ->
  status_ok (status_ x) = true -> pw_active (pending_ x) = false ->
  let retained := merge_sort older (List.filter sl_active (slots_ x)) in
  contiguous retained = true -> ordered o None start (flat retained) ->
  last (flat retained) = Some gb -> ob_last_ordinal (snd gb) + 1 = records o ->
  let r := foldl (ref_block o) RecordStreamSummary_default (flat retained) in
  expected_summary o x = Some (Ok r) /\ (count r =? 0) = false /\
  (last_ordinal r =? u64 (records o - 1)) = true.
Proof.
  intros Hr H0 Hs Hp retained Hc Ho Hl He r.
  destruct (ref_blocks_end o (flat retained) Hr RecordStreamSummary_default None start H0
    ltac:(cbn; lia) Ho) as [_ Hend]. rewrite Hl in Hend. fold r in Hend. destruct Hend as [Hpos Hlast].
  assert (Hgb : gb ∈ flat retained) by (by apply last_Some_elem_of).
  assert (Hb : 0 < records o).
  { clear -Ho Hgb H0. revert Ho. generalize (@None (Z * Z)). revert start H0.
    induction Hgb as [gb l|gb h l Hgb IH]; intros start H0 prev Ho.
    - destruct gb as [g b]. cbn in Ho. unfold block_size in Ho. lia.
    - destruct h as [g b]. cbn in Ho. destruct Ho as (Hf&Hk&_&_&Ho). unfold block_size in Hk.
      apply (IH (ob_last_ordinal b + 1)) in Ho; [done|lia]. }
  assert (Hcnt : (count r =? 0) = false) by lia.
  assert (Hla : (last_ordinal r =? u64 (records o - 1)) = true) by (rewrite Hlast, u64_small by zlia; lia).
  split; [|done]. unfold expected_summary. rewrite Hs, Hp. cbn [negb]. fold retained.
  rewrite bool_decide_false; [|intros E; rewrite E in Hgb; by apply elem_of_nil in Hgb].
  rewrite Hc. cbn [negb]. rewrite (expect_slots_ref o retained Hr _ None start H0); [|cbn; lia|by left|done].
  fold r. cbn [mbind result_bind]. rewrite Hcnt, Hla. done.
Qed.
