(* ===== verification/LoadGenReader.v ===== *)
(** * The concurrent reader of the load generator raises no false alarm

    Over blocks of generated records [reader_event] only counts. *)

From S2P Require Import Prelude Status Hoare Crc32c Layout Format FormatFacts Codec Storage.
From S2P Require Import RingTypes RingWriter RingReader RingOpen RingRules RingGeometry RingInv.
From S2P Require Import RingRead RingQuery RingWhole RingReadOnly RecordProfile RecordFacts.
From S2P Require Import RingSession Tools LoadGen LoadGenFacts LoadGenQuery.
Import LoadGen.

(** The block of the records with the ordinals [ns]. *)
Definition block_shown (o : Options) (e : BlockEvent) (ns : list Z) : Prop :=
  be_kind e = ev_data /\ be_data e = FramedFacts.block_of (map (generated o) ns) /\
  md_record_count (be_metadata e) = len ns /\ len ns < 2 ^ 32 /\
  Forall (fun n => ordinal_ok n /\ n < records o) ns.

Section Facts.
Variable o : Options.
Hypothesis profile_concurrent : profile o = "concurrent-read".

Lemma concurrent_time n : ordinal_ok n -> make_time o n = n * 1000000.
Proof.
  intros Hn. unfold make_time. rewrite profile_concurrent. cbn. unfold ordinal_ok in Hn.
  rewrite u64_small by zlia. unfold i64. by rewrite (proj2 (Z.ltb_lt _ _)) by lia.
Qed.

Lemma reader_record_generated n decoded r : ordinal_ok n -> n < records o ->
  reader_record o (generated o n) (decoded, r) =
    (true, (u32 (decoded + 1), r <| reader_records ::= fun n => u64 (n + 1) |>)).
Proof.
  intros Hn Hr. pose proof (concurrent_time n Hn) as Ht. pose proof Hn as Hn'. unfold ordinal_ok in Hn'.
  destruct (payload_ordinal o n ltac:(zlia)) as (Ho&Hl&_). unfold reader_record. cbn [generated rv_index_time_ns rv_payload rv_selector rv_flags rv_encoded].
  rewrite Ht. rewrite Z.rem_mul, Z.quot_mul by lia.
  rewrite (proj2 (Z.ltb_ge (n * 1000000) 0)), Z.eqb_refl, (proj2 (Z.ltb_ge (len _) 8)) by lia. cbn [negb orb].
  rewrite u64_small by zlia. rewrite Ho, Ht, !Z.eqb_refl, (proj2 (Z.leb_gt _ _)) by lia. cbn [negb orb fail_if].
  rewrite bool_decide_eq_true_2 by done. cbn [negb fail_if].
  rewrite (encode_ordinal_ok o n) by zlia. cbn [default]. rewrite Ht, bool_decide_eq_true_2 by done. done.
Qed.

Lemma reader_records_generated ns : forall decoded r,
  Forall (fun n => ordinal_ok n /\ n < records o) ns -> 0 <= decoded -> decoded + len ns < 2 ^ 32 ->
  exists r', FramedFacts.visit_records (reader_record o) (map (generated o) ns) (decoded, r) =
    (true, (decoded + len ns, r')) /\ reader_failed r' = reader_failed r /\
    reader_iterations r' = reader_iterations r /\ reader_gaps r' = reader_gaps r /\
    reader_data_events r' = reader_data_events r /\
    u64 (reader_records r') = u64 (reader_records r + len ns).
Proof.
  induction ns as [|n ns IH]; intros decoded r Hf H0 Hl.
  - exists r. rewrite len_nil, !Z.add_0_r. done.
  - rewrite len_cons in Hl. pose proof (len_nonneg ns). apply Forall_cons in Hf as [[Hn Hr] Hf].
    cbn [map FramedFacts.visit_records]. rewrite reader_record_generated, u32_small by (done || zlia).
    destruct (IH (decoded + 1) (r <| reader_records ::= fun n => u64 (n + 1) |>) Hf ltac:(lia) ltac:(lia))
      as (r'&E&?&?&?&?&Hrec). exists r'. rewrite E, len_cons. replace (decoded + (1 + len ns)) with (decoded + 1 + len ns) by lia.
    cbn in *. split; [done|]. split_and!; try done. rewrite Hrec. unfold u64. rewrite Zplus_mod_idemp_l. f_equal. lia.
Qed.

(** One block of the workload is counted. *)
Lemma reader_event_shown e ns r : block_shown o e ns -> exists r', reader_event o e r = (true, r') /\
  reader_failed r' = reader_failed r /\ reader_iterations r' = reader_iterations r /\
  reader_gaps r' = reader_gaps r /\ reader_data_events r' = u64 (reader_data_events r + 1) /\
  u64 (reader_records r') = u64 (reader_records r + len ns).
Proof.
  intros (Hk&Hd&Hc&Hl&Hf). unfold reader_event. rewrite Hk, Hd.
  rewrite FramedFacts.decode_block_framed.
  - destruct (reader_records_generated ns 0 (r <| reader_data_events ::= fun n => u64 (n + 1) |>) Hf ltac:(lia)
      ltac:(lia)) as (r'&E&H). rewrite E. cbn [snd status_ok]. rewrite Z.add_0_l, Hc, Z.eqb_refl.
    exists r'. split; [done|exact H].
  - apply Forall_map. eapply Forall_impl; [exact Hf|]. intros n [Hn _]. by apply generated_framed.
Qed.

(** So is a sequence of them. *)
Lemma reader_events_shown es nss : forall r, Forall2 (block_shown o) es nss ->
  exists r', visit_all (reader_event o) es r = (true, r') /\
  reader_failed r' = reader_failed r /\ reader_iterations r' = reader_iterations r /\
  reader_gaps r' = reader_gaps r /\ u64 (reader_data_events r') = u64 (reader_data_events r + len es) /\
  u64 (reader_records r') = u64 (reader_records r + len (concat nss)).
Proof.
  intros r H. revert r. induction H as [|e ns es nss He Hs IH]; intros r.
  - exists r. cbn. rewrite !Z.add_0_r. done.
  - destruct (reader_event_shown e ns r He) as (r1&E1&?&?&?&Hd1&Hr1).
    destruct (IH r1) as (r2&E2&?&?&?&Hd2&Hr2). exists r2. cbn [visit_all]. rewrite E1, E2.
    cbn [concat]. rewrite len_cons, len_app. split; [done|]. split_and!; try congruence.
    + rewrite Hd2, Hd1. unfold u64. rewrite Zplus_mod_idemp_l. f_equal. lia.
    + rewrite Hr2. unfold u64 in *. rewrite <- Zplus_mod_idemp_l, Hr1, Zplus_mod_idemp_l. f_equal. lia.
Qed.
End Facts.
