(* ===== verification/LoadSample.v ===== *)
(** * A small run of the load generator

    Two records of the concurrent-read profile on the sample volume, written below the
    eyes of the oracle: an instance of the stores and oracles the properties
    of the load generator speak of. *)

From stdpp Require Import sorting.
From S2P Require Import Prelude Status Hoare Crc32c Layout Format FormatFacts Codec Storage.
From S2P Require Import MemoryStorage MemoryStorageFacts RingTypes RingWriter RingReader RingOpen.
From S2P Require Import RingGeometry RingInv RingHealth RingWriterFacts RingCalls RingLog.
From S2P Require Import RingRefine.
From S2P Require Import RingScan RingStored.
From S2P Require Import RingQuery RingWhole RingVolume RingOpenFacts RingFormatFacts RingReopen.
From S2P Require Import RingReadOnly RingLife RingSample RecordProfile RecordFacts Tools LoadGen.
From S2P Require Import LoadGenFacts LoadGenQuery.
Import LoadGen.

Definition load_options : Options :=
  mkOptions "ring.tfdb" 27648 2 1 0 1000 0 "concurrent-read" false false sample_volume_options CompressionId_none.
Abbreviation watched := (PersistenceOracle.t MemoryStorage.t).
Definition load_media : watched :=
  PersistenceOracle.mk sample_formatted (PersistenceOracle.make sample_volume_options 27648).
Definition load_opened : result (Impl watched) * watched :=
  open sample_clock (writer_options load_options) sample_random load_media.
Strategy expand [load_opened].
Definition ok_store (r : result (Impl watched)) : Impl watched :=
  match r with
  | Ok s => s
  | Err _ => initial_impl sample_header (writer_options load_options) (0, 0) load_media
  end.
Definition load_store : Impl watched := ok_store (fst load_opened).
Definition load_call (n : Z) : call :=
  call_append (View (default [] (snd (encode_ordinal load_options n)))) (make_time load_options n) 0.
Definition load_first : Impl watched := snd (run_call sample_clock (load_call 0) load_store).
Definition load_second : Impl watched := snd (run_call sample_clock (load_call 1) load_first).
Definition load_settled : Impl watched := snd (run_call sample_clock call_checkpoint load_second).

Lemma load_open_eq : load_opened = (Ok load_store, snd load_opened).
Proof.
  assert (H : forall r : result (Impl watched) * watched, is_Ok (fst r) = true ->
    r = (Ok (ok_store (fst r)), snd r)) by (by intros [[]]). apply H. vm_compute. reflexivity.
Qed.

Lemma load_ready : open_ready (writer_options load_options) sample_random.
Proof.
  split; [|split; vm_compute; reflexivity].
  split; [done|constructor| |split; vm_compute; split; congruence|apply sample_random_ok].
  split; [split; vm_compute; split; congruence|discriminate].
Qed.

Lemma load_geometry : geometry_ok sample_header 27648 /\
  header_copy 0 (contents sample_formatted) = Ok sample_header /\
  header_copy kVolumeHeaderCopySize (contents sample_formatted) = Ok sample_header.
Proof.
  destruct (format_spec sample_volume_options sample_random (MemoryStorage.make 27648 true)
    sample_formatted _ sample_blank_wf sample_options_wf sample_random_ok (surjective_pairing _)
    sample_format_ok) as (v&Hv&Hg&_).
  assert (E : format_header 27648 sample_volume_options sample_random = Ok sample_header)
    by (vm_compute; reflexivity).
  assert (Hsz : st_size (MemoryStorage.make 27648 true) = 27648) by (vm_compute; reflexivity).
  rewrite Hsz in Hv, Hg. rewrite E in Hv. injection Hv as <-.
  split; [exact Hg|split; vm_compute; reflexivity].
Qed.

Lemma load_volume : vrefines load_store (mkAvol [] (mkApart 0 1 []) (mkAblock [] [])).
Proof.
  destruct load_geometry as (Hg&C0&C1).
  apply (open_blank_volume sample_clock sample_header (writer_options load_options) sample_random
    load_media (snd load_opened) load_store).
  - exact (proj1 sample_formatted_wf).
  - vm_compute. reflexivity.
  - vm_compute. reflexivity.
  - exact load_ready.
  - assert (Hsz : st_size load_media = 27648) by (vm_compute; reflexivity). rewrite Hsz. exact Hg.
  - vm_compute. congruence.
  - exact C0.
  - exact C1.
  - intros slot Hs. change (vh_partition_count sample_header) with 2 in Hs.
    assert (slot = 0 \/ slot = 1) as [-> | ->] by lia; vm_compute; reflexivity.
  - exact load_open_eq.
Qed.

Definition byteb (b : Z) : bool := (0 <=? b) && (b <? 256).
Lemma byteb_ok l : forallb byteb l = true -> bytes_ok l.
Proof.
  intros H. rewrite forallb_forall in H. apply Forall_forall. intros b Hb%list_elem_of_In.
  specialize (H b Hb). unfold byteb in H. unfold is_u8. lia.
Qed.
Lemma append_ok d t f : forallb byteb d = true -> (INT64_MIN <=? t) && (t <=? INT64_MAX) = true ->
  call_ok (call_append (View d) t f).
Proof. intros H Ht. split; [exact (byteb_ok d H)|]. zlia. Qed.

Lemma load_ok_0 : is_Ok (fst (run_call sample_clock (load_call 0) load_store)) = true.
Proof. vm_compute. reflexivity. Qed.
Lemma load_run_0 : run_call sample_clock (load_call 0) load_store = (Ok tt, load_first).
Proof. exact (ok_result _ load_ok_0). Qed.
Lemma load_ok_1 : is_Ok (fst (run_call sample_clock (load_call 1) load_first)) = true.
Proof. vm_compute. reflexivity. Qed.
Lemma load_run_1 : run_call sample_clock (load_call 1) load_first = (Ok tt, load_second).
Proof. exact (ok_result _ load_ok_1). Qed.
Lemma load_ok_2 : is_Ok (fst (run_call sample_clock call_checkpoint load_second)) = true.
Proof. vm_compute. reflexivity. Qed.
Lemma load_run_2 : run_call sample_clock call_checkpoint load_second = (Ok tt, load_settled).
Proof. exact (ok_result _ load_ok_2). Qed.

Lemma load_settled_volume : exists a, vrefines load_settled a.
Proof.
  destruct (call_keeps_volume sample_clock (load_call 0) load_store load_first _ load_volume)
    as (a1&H1); [apply append_ok; vm_compute; reflexivity|vm_compute; reflexivity..|exact load_run_0|].
  destruct (call_keeps_volume sample_clock (load_call 1) load_first load_second a1 H1)
    as (a2&H2); [apply append_ok; vm_compute; reflexivity|vm_compute; reflexivity..|exact load_run_1|].
  exact (call_keeps_volume sample_clock call_checkpoint load_second load_settled a2 H2 I
    ltac:(vm_compute; reflexivity) ltac:(vm_compute; reflexivity) load_run_2).
Qed.

Lemma load_catalogued : exists L, catalogued_store load_settled L.
Proof.
  destruct load_settled_volume as (a&R&x&Hr&_). exists (R ++ [x]). by apply ring_catalogued.
Qed.
Lemma load_reliable : rr_ok (storage load_settled).
Proof. vm_compute. reflexivity. Qed.

(** What the oracle saw: one block with the two records. *)
Definition load_oracle : PersistenceOracle.oracle := PersistenceOracle.seen_ (storage load_settled).
Definition load_block : Z * PersistenceOracle.ObservedBlock :=
  (1, PersistenceOracle.mkObserved 0 0 0 (len (concat (map rv_encoded
    (map (generated load_options) [0; 1])))) 0 1).

Lemma visit_all_collects es l : visit_all (fun (e : BlockEvent) l => (true, l ++ [e])) es l = (true, l ++ es).
Proof.
  revert l. induction es as [|e es IH]; intros l; cbn; [by rewrite app_nil_r|].
  rewrite IH. by rewrite <- app_assoc.
Qed.
Lemma shown_events {T} `{!Storage T, !StorageModel T, !ReliableReads T} (s : Impl T) L all range :
  catalogued_store s L -> rr_ok (storage s) ->
  all = true \/ (tr_begin_ns range < tr_end_ns range /\ tr_time_domain_id range <> 0) ->
  ring_events (volume s) all range L =
  snd (snd (query (fun e l => (true, l ++ [e])) all range QueryOptions_default s [])).
Proof.
  intros Hc Hr Hq. destruct (query_catalogued (fun e l => (true, l ++ [e])) all range
    QueryOptions_default s [] L Hc Hr Hq) as (s'&_&E).
  rewrite E, visit_all_collects. done.
Qed.

(** [shows] as a check. *)
Definition showsb (o : Options) (e : BlockEvent) (gb : Z * PersistenceOracle.ObservedBlock) : bool :=
  let m := be_metadata e in let b := snd gb in
  bool_decide (be_kind e = ev_data) && (md_partition_generation m =? fst gb) &&
  (md_block_sequence m =? PersistenceOracle.ob_sequence b) &&
  (md_partition_slot m =? PersistenceOracle.ob_slot b) &&
  (md_flags m =? PersistenceOracle.ob_flags b) && (md_raw_size m =? PersistenceOracle.ob_raw_size b) &&
  (md_record_format_id m =? kFramedRecordV1ProfileId) && (md_record_format_version m =? 1) &&
  (md_record_count m =? block_size b) &&
  bool_decide (be_data e = concat (map rv_encoded (map (generated o) (block_ordinals b)))).
Lemma showsb_shows o e gb : showsb o e gb = true -> shows o e gb.
Proof.
  unfold showsb. cbv zeta. rewrite !andb_true_iff, !Z.eqb_eq, !bool_decide_eq_true.
  intros (((((((((?&?)&?)&?)&?)&?)&?)&?)&?)&?). by split.
Qed.
Lemma shows_single o es gb : match es with [e] => showsb o e gb | _ => false end = true ->
  Forall2 (shows o) es [gb].
Proof. destruct es as [|e [|? ?]]; try done. intros H. constructor; [by apply showsb_shows|constructor]. Qed.
