(* ===== verification/RingErrors.v ===== *)
(** * Errors are errors

    Every early return of the writer carries a code other than [ok], so a
    caller that tests [status.ok()] sees it. No assumption on the backend. *)

From S2P Require Import Prelude Status Hoare Crc32c Layout Format Codec Lz4 Storage RingTypes.
From S2P Require Import RingWriter RingReader RingRules RingHealth.

Create HintDb honest.

Section Honest.
Context {T : Type} `{!Storage T}.
Variable now : nat -> Z.

Definition honest {A} (m : prog (Impl T) A) : Prop :=
  forall s, wp m (fun _ _ => True) (fun e _ => status_ok e = false) s.

Lemma honest_bind {A B} (m : prog (Impl T) A) (k : A -> prog (Impl T) B) :
  honest m -> (forall a, honest (k a)) -> honest (m ≫= k).
Proof.
  intros Hm Hk s. apply wp_bind. eapply wp_conseq; [apply Hm|simpl|done]. intros. apply Hk.
Qed.
Lemma honest_ret {A} (a : A) : honest (mret a).
Proof. by intros s. Qed.
Lemma honest_throw_error {A} c m : c <> StatusCode.ok ->
  honest (throw_error c m : prog (Impl T) A).
Proof. intros Hc s. by apply bool_decide_eq_false_2. Qed.
Lemma honest_get : honest get.
Proof. by intros s. Qed.
Lemma honest_modify (f : Impl T -> Impl T) : honest (modify f).
Proof. by intros s. Qed.
Lemma honest_validate o p : honest (lift_result (validate_partition_options o p)).
Proof.
  intros s. unfold wp, lift_result, validate_partition_options.
  destruct (codec_for _ _ _); [|done]. destruct (_ =? 0); [done|]. by destruct (negb _).
Qed.
Lemma honest_when b m : honest m -> honest (when b m).
Proof. destruct b; [done|intros _; apply honest_ret]. Qed.
Lemma honest_if {A} (b : bool) (m n : prog (Impl T) A) :
  honest m -> honest n -> honest (if b then m else n).
Proof. by destruct b. Qed.
Lemma honest_read_clock : honest (read_clock now).
Proof. by intros s. Qed.
Lemma honest_storage_write off d : honest (storage_write off d).
Proof. intros s. unfold wp, storage_write. by destruct (write_exact _ _ _). Qed.
Lemma honest_storage_flush : honest storage_flush.
Proof. intros s. unfold wp, storage_flush. by destruct (flush _). Qed.
Lemma honest_fail st : honest (fail st).
Proof. intros s. by apply wp_fail. Qed.
Lemma honest_check_or_fail st : honest (check_or_fail st).
Proof. intros s. by apply wp_check_or_fail. Qed.
End Honest.

#[export] Hint Resolve honest_ret honest_get honest_modify honest_validate honest_read_clock
  honest_storage_write honest_storage_flush honest_fail honest_check_or_fail : honest.
#[export] Hint Extern 1 (honest (throw_error _ _)) => apply honest_throw_error; discriminate : honest.

Ltac honest_step :=
  lazymatch goal with
  | |- honest (mbind _ _) => apply honest_bind; [|intros ?]
  | |- honest (if _ then _ else _) => apply honest_if
  | |- honest (when _ _) => apply honest_when
  | |- honest (match ?x with _ => _ end) => destruct x
  | |- _ => solve [auto with honest]
  end; cbv beta zeta.
Ltac honest_auto := repeat honest_step.

Section HonestOps.
Context {T : Type} `{!Storage T}.
Variable now : nat -> Z.

Lemma honest_sync_media b : honest (sync_media (T:=T) now b).
Proof. unfold sync_media. honest_auto. Qed.
#[local] Hint Resolve honest_sync_media : honest.
Lemma honest_create_partition slot g o : honest (create_partition (T:=T) now slot g o).
Proof. unfold create_partition. honest_auto. Qed.
#[local] Hint Resolve honest_create_partition : honest.
Lemma honest_seal : honest (seal_active_only (T:=T) now).
Proof. unfold seal_active_only, fail_error. honest_auto. Qed.
#[local] Hint Resolve honest_seal : honest.
Lemma honest_rotate_internal o : honest (rotate_internal (T:=T) now o).
Proof. unfold rotate_internal, fail_error. honest_auto. Qed.
#[local] Hint Resolve honest_rotate_internal : honest.
Lemma honest_ensure : honest (ensure_empty_builder_capacity (T:=T) now).
Proof. unfold ensure_empty_builder_capacity, fail_error. honest_auto. Qed.
#[local] Hint Resolve honest_ensure : honest.
Lemma honest_emit : honest (emit_builder (T:=T)).
Proof. unfold emit_builder, fail_error. honest_auto. Qed.
#[local] Hint Resolve honest_emit : honest.

Lemma after_check_writer {A} (k : unit -> prog (Impl T) A) s : health_ok s ->
  (forall a, honest (k a)) ->
  wp (check_writer ≫= k) (fun _ _ => True) (fun e _ => status_ok e = false) s.
Proof.
  intros (_&_&Hf&_) Hk. apply wp_bind. unfold check_writer. wp_auto; try done; [|apply Hk].
  apply bool_decide_eq_false_2. by apply Hf.
Qed.

(** An error of any call has an error code. *)
Lemma run_call_errors c s s' e : health_ok s -> run_call now c s = (Err e, s') ->
  status_ok e = false.
Proof.
  intros Hs. assert (Happ : forall r t f x, wp (append_impl now r t f x) (fun _ _ => True)
    (fun e _ => status_ok e = false) s).
  { intros. unfold append_impl. apply after_check_writer; [done|]. intros []. honest_auto. }
  assert (H : wp (run_call now c) (fun _ _ => True) (fun e _ => status_ok e = false) s).
  { destruct c; simpl.
    - apply Happ.
    - unfold append_checked. apply wp_if; intros _; [done|apply Happ].
    - unfold publish. apply after_check_writer; [done|]. intros []. honest_auto.
    - unfold checkpoint. apply after_check_writer; [done|]. intros []. honest_auto.
    - unfold close. apply wp_bind, wp_get. apply wp_if; intros _; [done|].
      apply wp_if; intros _; [done|]. apply wp_if; intros Hf; [apply bool_decide_eq_false_2; by apply Hs|].
      apply (honest_bind emit_builder); [honest_auto|intros []; honest_auto].
    - unfold rotate. apply after_check_writer; [done|]. intros []. honest_auto.
    - unfold set_next_partition_options. apply after_check_writer; [done|]. intros []. honest_auto. }
  unfold wp in H. intros E. by rewrite E in H.
Qed.

Lemma run_call_health c s r s' : health_ok s -> run_call now c s = (r, s') -> health_ok s'.
Proof.
  intros Hs E. pose proof (keeps_run_call now c s Hs) as H. unfold wp in H. rewrite E in H.
  by destruct r.
Qed.
End HonestOps.
