(* ===== verification/AsyncWriter.v ===== *)
(** * The asynchronous writer

    src/async_writer.cpp and include/tfdb/async_writer.hpp. Each method is one
    critical section of [mutex_], or two where it waits in between; the
    background loop is three phases per turn: [decide] under the mutex, [work]
    on the store without it, [complete] under it again. Readings of the
    monotonic clock are arguments. The condition variables only decide who
    runs next: [wake] and [checkpoint_wait] are the predicates waited for. *)

From S2P Require Import Prelude Status Crc32c Layout Format Codec Lz4 Storage RingTypes.
From S2P Require Import RingWriter.

Record AsyncWriterOptions := mkAsyncWriterOptions {
  queue_capacity_records : Z;
  queue_capacity_bytes : Z;
  checkpoint_interval : Z;
  custom_clock : bool }.

Record AsyncWriterMetrics := mkAsyncWriterMetrics {
  submitted_records : Z;
  processed_records : Z;
  durable_sequence : Z;
  checkpoint_calls : Z;
  background_errors : Z;
  backpressure_events : Z;
  maximum_queued_records : Z;
  maximum_queued_bytes : Z;
  maximum_queue_residence_ns : Z;
  maximum_accepted_to_durable_ns : Z;
  aw_oldest_undurable_age_ns : Z }.
#[export] Instance AsyncWriterMetrics_eta : Eta AsyncWriterMetrics := fun m =>
  mkAsyncWriterMetrics (submitted_records m) (processed_records m) (durable_sequence m)
    (checkpoint_calls m) (background_errors m) (backpressure_events m) (maximum_queued_records m)
    (maximum_queued_bytes m) (maximum_queue_residence_ns m) (maximum_accepted_to_durable_ns m)
    (aw_oldest_undurable_age_ns m).
Definition AsyncWriterMetrics_zero : AsyncWriterMetrics :=
  mkAsyncWriterMetrics 0 0 0 0 0 0 0 0 0 0 0.

Record Item := mkItem {
  it_bytes : bytes;
  it_time_ns : Z;
  it_flags : Z;
  it_sequence : Z;
  it_checked : bool;
  it_contract : AppendContract;
  it_submitted_at_ns : Z }.

Module AsyncWriter.
Record t := mk {
  options_ : AsyncWriterOptions;
  queue_ : list Item;
  queued_bytes_ : Z;
  running_ : bool;
  stopping_ : bool;
  checkpoint_requested_ : bool;
  submitted_sequence_ : Z;
  processed_sequence_ : Z;
  requested_barrier_ : Z;
  completed_barrier_ : Z;
  have_oldest_undurable_ : bool;
  oldest_undurable_ns_ : Z;
  metrics_ : AsyncWriterMetrics;
  background_status_ : Status }.
#[global] Instance t_eta : Eta t := fun w =>
  mk (options_ w) (queue_ w) (queued_bytes_ w) (running_ w) (stopping_ w)
    (checkpoint_requested_ w) (submitted_sequence_ w) (processed_sequence_ w)
    (requested_barrier_ w) (completed_barrier_ w) (have_oldest_undurable_ w)
    (oldest_undurable_ns_ w) (metrics_ w) (background_status_ w).

(** The constructor. *)
Definition make (options : AsyncWriterOptions) : t :=
  mk options [] 0 false false false 0 0 0 0 false 0 AsyncWriterMetrics_zero Status_Ok.

Definition elapsed_ns (begin_ end_ : Z) : Z := if begin_ <=? end_ then end_ - begin_ else 0.
Definition interval_elapsed (started now interval : Z) : bool :=
  (started <=? now) && (interval <=? now - started).

Definition kNanosecondsPerMillisecond : Z := 1000000.

(** [start], its thread not running: a previous one was joined. *)
Definition start {T} (store : Impl T) (w : t) : Status * t :=
  if running_ w then (Status_Error StatusCode.busy "async writer already running", w) else
  if negb (status_ok (background_status_ w)) then (background_status_ w, w) else
  if negb (status_ok (writer_status store)) then (writer_status store, w) else
  let interval_ms := checkpoint_interval (options_ w) in
  if (queue_capacity_records (options_ w) =? 0) || (queue_capacity_bytes (options_ w) =? 0) ||
     (interval_ms <=? 0) || (UINT64_MAX / kNanosecondsPerMillisecond <? u64 interval_ms)
  then (Status_Error StatusCode.invalid_argument "invalid async writer options", w) else
  (Status_Ok,
   w <| stopping_ := false |> <| checkpoint_requested_ := false |> <| queue_ := [] |>
     <| queued_bytes_ := 0 |> <| submitted_sequence_ := 0 |> <| processed_sequence_ := 0 |>
     <| requested_barrier_ := 0 |> <| completed_barrier_ := 0 |>
     <| have_oldest_undurable_ := false |> <| metrics_ := AsyncWriterMetrics_zero |>
     <| background_status_ := Status_Ok |> <| running_ := true |>).

(** [now] is the clock at acceptance. *)
Definition submit_impl (record : ByteView) (time flags : Z) (expected : option AppendContract)
    (now : Z) (w : t) : Status * t :=
  if negb (status_ok (background_status_ w)) then (background_status_ w, w) else
  if negb (running_ w) || stopping_ w
  then (Status_Error StatusCode.closed "async writer is not accepting", w) else
  if view_empty record
  then (Status_Error StatusCode.invalid_argument "zero-length record", w) else
  if negb (view_valid record)
  then (Status_Error StatusCode.invalid_argument "null non-empty record", w) else
  if (queue_capacity_records (options_ w) <=? len (queue_ w)) ||
     (queue_capacity_bytes (options_ w) -
        Z.min (queued_bytes_ w) (queue_capacity_bytes (options_ w)) <? view_size record)
  then (Status_Error StatusCode.busy "async writer queue is full",
        w <| metrics_ ::= set backpressure_events inc |>) else
  let w := w <| submitted_sequence_ ::= inc |> in
  let item := mkItem (view_data record) time flags (submitted_sequence_ w)
    (match expected with Some _ => true | None => false end)
    (match expected with Some c => c | None => mkAppendContract 0 0 0 end) now in
  let w := w <| queued_bytes_ ::= fun n => u64 (n + len (it_bytes item)) |>
             <| queue_ ::= fun q => q ++ [item] |> in
  let w := if negb (have_oldest_undurable_ w)
           then w <| have_oldest_undurable_ := true |> <| oldest_undurable_ns_ := now |> else w in
  let w := w <| metrics_ ::= set submitted_records inc |> in
  (Status_Ok,
   w <| metrics_ ::= set maximum_queued_records (Z.max (len (queue_ w))) |>
     <| metrics_ ::= set maximum_queued_bytes (Z.max (queued_bytes_ w)) |>).

Definition submit (record : ByteView) (time flags now : Z) : t -> Status * t :=
  submit_impl record time flags None now.
Definition submit_checked (record : ByteView) (time : Z) (expected : AppendContract)
    (flags now : Z) : t -> Status * t := submit_impl record time flags (Some expected) now.

(** [checkpoint] up to its wait: an early return, or the target waited for. *)
Definition checkpoint_request (w : t) : result Z * t :=
  if negb (status_ok (background_status_ w)) then (Err (background_status_ w), w) else
  if negb (running_ w) then (error StatusCode.closed "async writer is not running", w) else
  let target := submitted_sequence_ w in
  (Ok target, w <| requested_barrier_ := Z.max (requested_barrier_ w) target |>
                <| checkpoint_requested_ := true |>).

(** The condition waited for, and what [checkpoint] returns then. *)
Definition checkpoint_wait (target : Z) (w : t) : bool :=
  (target <=? completed_barrier_ w) || negb (status_ok (background_status_ w)) ||
  negb (running_ w).
Definition checkpoint_return (target : Z) (w : t) : Status :=
  if negb (status_ok (background_status_ w)) then background_status_ w else
  if completed_barrier_ w <? target
  then Status_Error StatusCode.closed "async writer stopped before checkpoint" else Status_Ok.

(** [stop] before the join; after it, [background_status]. *)
Definition stop_request (w : t) : t :=
  if running_ w
  then w <| stopping_ := true |> <| requested_barrier_ := submitted_sequence_ w |>
         <| checkpoint_requested_ := true |>
  else w.

Definition queued_records (w : t) : Z := len (queue_ w).
Definition queued_bytes (w : t) : Z := queued_bytes_ w.
Definition background_status (w : t) : Status := background_status_ w.
Definition metrics (now : Z) (w : t) : AsyncWriterMetrics :=
  if have_oldest_undurable_ w
  then (metrics_ w) <| aw_oldest_undurable_age_ns := elapsed_ns (oldest_undurable_ns_ w) now |>
  else metrics_ w.

Definition fail_background (status : Status) (w : t) : t :=
  w <| metrics_ ::= set background_errors inc |> <| background_status_ := status |>
    <| running_ := false |> <| stopping_ := true |> <| queue_ := [] |> <| queued_bytes_ := 0 |>.

(** The handlers of [run]: what [run_loop] threw, [Some what] for a standard
    exception whose message could be built. *)
Definition run_catch (what : option string) (w : t) : t :=
  fail_background
    (match what with
     | Some what =>
         Status_Error StatusCode.internal_error ("async writer thread exception: " +:+ what)
     | None => Status_Error StatusCode.internal_error "async exception"
     end) w.

(** ** The background loop *)

Definition interval_ns (w : t) : Z :=
  u64 (u64 (checkpoint_interval (options_ w)) * kNanosecondsPerMillisecond).

Definition queue_empty (w : t) : bool := match queue_ w with [] => true | _ => false end.

(** Wake up: with the custom clock only when there is something to do; with
    the default clock the wait also times out. *)
Definition wake (started now : Z) (w : t) : bool :=
  negb (custom_clock (options_ w)) ||
  (stopping_ w || checkpoint_requested_ w || negb (queue_empty w) ||
   interval_elapsed started now (interval_ns w)).

Record Turn := mkTurn {
  tn_item : option Item;
  tn_do_checkpoint : bool;
  tn_exit_after_checkpoint : bool;
  tn_dequeued_at_ns : Z }.

(** The first critical section, after the wait. *)
Definition decide (started now dequeued_at : Z) (w : t) : Turn * t :=
  let do_checkpoint := interval_elapsed started now (interval_ns w) in
  let do_checkpoint := do_checkpoint ||
    (checkpoint_requested_ w && (requested_barrier_ w <=? processed_sequence_ w)) in
  let exit_after_checkpoint := stopping_ w && queue_empty w in
  let do_checkpoint := do_checkpoint || exit_after_checkpoint in
  match queue_ w with
  | item :: rest =>
      if negb do_checkpoint
      then (mkTurn (Some item) false exit_after_checkpoint dequeued_at,
            w <| queue_ := rest |>
              <| queued_bytes_ ::= fun n => u64 (n - len (it_bytes item)) |>)
      else (mkTurn None do_checkpoint exit_after_checkpoint 0, w)
  | [] => (mkTurn None do_checkpoint exit_after_checkpoint 0, w)
  end.

Section Work.
Context {T : Type} `{!Storage T}.
Variable store_clock : nat -> Z.

Definition append_item (item : Item) : prog (Impl T) unit :=
  if it_checked item
  then append_checked store_clock (View (it_bytes item)) (it_time_ns item) (it_contract item)
         (it_flags item)
  else append store_clock (View (it_bytes item)) (it_time_ns item) (it_flags item).

(** The store calls of a turn, outside the mutex. *)
Definition work (turn : Turn) (s : Impl T) : Status * Impl T :=
  let '(status, s) :=
    match tn_item turn with
    | Some item =>
        match append_item item s with
        | (Ok _, s) => (Status_Ok, s)
        | (Err e, s) => (e, s)
        end
    | None => (Status_Ok, s)
    end in
  if tn_do_checkpoint turn then
    match checkpoint store_clock s with
    | (Ok _, s) => (Status_Ok, s)
    | (Err e, s) => (e, s)
    end
  else (status, s).
End Work.

(** The accounting of a checkpoint that returned [Ok]. *)
Definition complete_checkpoint (durable_at : Z) (w : t) : t :=
  let w := w <| metrics_ ::= set checkpoint_calls inc |> in
  let advanced := durable_sequence (metrics_ w) <? processed_sequence_ w in
  let w := w <| completed_barrier_ := processed_sequence_ w |> in
  let w :=
    if advanced && have_oldest_undurable_ w then
      let age := elapsed_ns (oldest_undurable_ns_ w) durable_at in
      let w := w <| metrics_ ::= set maximum_accepted_to_durable_ns (Z.max age) |> in
      match queue_ w with
      | [] => w <| have_oldest_undurable_ := false |>
      | item :: _ => w <| oldest_undurable_ns_ := it_submitted_at_ns item |>
      end
    else w in
  let w := w <| metrics_ ::= set durable_sequence (fun _ => completed_barrier_ w) |> in
  if requested_barrier_ w <=? completed_barrier_ w
  then w <| checkpoint_requested_ := false |> else w.

(** The second critical section: the start of the next interval, or [None]
    when the loop returns. *)
Definition complete (turn : Turn) (status : Status) (started durable_at : Z) (w : t)
    : option Z * t :=
  if negb (status_ok status) then (None, fail_background status w) else
  let w :=
    match tn_item turn with
    | Some item =>
        let residence := elapsed_ns (it_submitted_at_ns item) (tn_dequeued_at_ns turn) in
        w <| processed_sequence_ := it_sequence item |>
          <| metrics_ ::= set processed_records inc |>
          <| metrics_ ::= set maximum_queue_residence_ns (Z.max residence) |>
    | None => w
    end in
  let '(started, w) :=
    if tn_do_checkpoint turn then (durable_at, complete_checkpoint durable_at w)
    else (started, w) in
  if tn_exit_after_checkpoint turn then (None, w <| running_ := false |>) else (Some started, w).
End AsyncWriter.
