(* ===== verification/AsyncSystem.v ===== *)
(** * Clients, the background thread and the store together

    The interleavings of src/async_writer.cpp: any number of client threads
    run the critical sections of [submit], [checkpoint] and [stop]; one
    background thread runs [run]; between its two critical sections a turn of
    the loop works on the store alone. [step] is one critical section or one
    turn's work. The writer thread is the only user of the store while it
    runs. Ghost fields record what was accepted, appended and made durable
    since the last [start]. *)

From S2P Require Import Prelude Status Hoare Crc32c Layout Format Codec Lz4 Storage RingTypes.
From S2P Require Import RingWriter RingInv RingWriterFacts RingRefine AsyncWriter.

(** Where the background thread is. *)
Inductive Pc :=
| pc_none
| pc_spawned
| pc_waiting (started : Z)
| pc_working (turn : AsyncWriter.Turn) (started : Z)
| pc_completing (turn : AsyncWriter.Turn) (status : Status) (started : Z).

Definition pc_of_interval (started : option Z) : Pc :=
  match started with Some started => pc_waiting started | None => pc_none end.

Definition turn_items (turn : AsyncWriter.Turn) : list Item :=
  match AsyncWriter.tn_item turn with Some item => [item] | None => [] end.

Section System.
Context {T : Type} `{!Storage T}.
Variable store_clock : nat -> Z.

Record System := mkSystem {
  sy_writer : AsyncWriter.t;
  sy_store : Impl T;
  sy_pc : Pc;
  sy_past : bytes;
  sy_accepted : list Item;
  sy_appended : list Item;
  sy_durable : list Item;
  sy_settled : option (Impl T) }.

Definition items_bytes (items : list Item) : bytes := concat (map it_bytes items).

Definition with_writer (w : AsyncWriter.t) (y : System) : System :=
  mkSystem w (sy_store y) (sy_pc y) (sy_past y) (sy_accepted y) (sy_appended y)
    (sy_durable y) (sy_settled y).
Definition with_pc (w : AsyncWriter.t) (pc : Pc) (y : System) : System :=
  mkSystem w (sy_store y) pc (sy_past y) (sy_accepted y) (sy_appended y)
    (sy_durable y) (sy_settled y).

(** The items [submit] put at the end of the queue. *)
Definition submitted (w' : AsyncWriter.t) (y : System) : System :=
  mkSystem w' (sy_store y) (sy_pc y) (sy_past y)
    (sy_accepted y ++
       drop (length (AsyncWriter.queue_ (sy_writer y))) (AsyncWriter.queue_ w'))
    (sy_appended y) (sy_durable y) (sy_settled y).

(** What the store calls of a turn achieved. *)
Definition worked (turn : AsyncWriter.Turn) (status : Status) (s' : Impl T) (started : Z)
    (y : System) : System :=
  let appended := if status_ok status then sy_appended y ++ turn_items turn else sy_appended y in
  let saved := status_ok status && AsyncWriter.tn_do_checkpoint turn in
  mkSystem (sy_writer y) s' (pc_completing turn status started) (sy_past y) (sy_accepted y)
    appended (if saved then appended else sy_durable y)
    (if saved then Some s' else sy_settled y).

Definition restarted (w' : AsyncWriter.t) (y : System) : System :=
  mkSystem w' (sy_store y) pc_spawned (sy_past y ++ items_bytes (sy_appended y)) [] [] [] None.

Inductive step (y : System) : System -> Prop :=
| step_start w' :
    sy_pc y = pc_none -> AsyncWriter.start (sy_store y) (sy_writer y) = (Status_Ok, w') ->
    step y (restarted w' y)
| step_submit record time flags expected now status w' :
    record_ok record time ->
    AsyncWriter.submit_impl record time flags expected now (sy_writer y) = (status, w') ->
    step y (submitted w' y)
| step_checkpoint r w' :
    AsyncWriter.checkpoint_request (sy_writer y) = (r, w') -> step y (with_writer w' y)
| step_stop : step y (with_writer (AsyncWriter.stop_request (sy_writer y)) y)
| step_run started : sy_pc y = pc_spawned -> step y (with_pc (sy_writer y) (pc_waiting started) y)
| step_decide started woken now dequeued_at turn w' :
    sy_pc y = pc_waiting started -> AsyncWriter.wake started woken (sy_writer y) = true ->
    AsyncWriter.decide started now dequeued_at (sy_writer y) = (turn, w') ->
    step y (with_pc w' (pc_working turn started) y)
| step_work turn started status s' :
    sy_pc y = pc_working turn started ->
    AsyncWriter.work store_clock turn (sy_store y) = (status, s') ->
    step y (worked turn status s' started y)
| step_complete turn status started durable_at next w' :
    sy_pc y = pc_completing turn status started ->
    AsyncWriter.complete turn status started durable_at (sy_writer y) = (next, w') ->
    step y (with_pc w' (pc_of_interval next) y)
| step_throw turn started what s' :
    sy_pc y = pc_working turn started ->
    step y (mkSystem (AsyncWriter.run_catch what (sy_writer y)) s' pc_none (sy_past y)
              (sy_accepted y) (sy_appended y) (sy_durable y) (sy_settled y)).

Definition initial (o : AsyncWriterOptions) (s : Impl T) (l : alog) : System :=
  mkSystem (AsyncWriter.make o) s pc_none (concat (a_blocks l) ++ a_pending l) [] [] [] None.
End System.
Arguments System : clear implicits.
