(* ===== verification/AsyncFacts.v ===== *)
(** * Facts about the asynchronous writer

    The invariant of every interleaving: accepted records flow in order, each
    exactly once, from the queue through the thread into the store; the
    barriers count them; the store holds their bytes. *)

From S2P Require Import Prelude Status Hoare Crc32c Layout Format FormatFacts Codec PackBitsFacts.
From S2P Require Import Lz4 Lz4Facts Storage RingTypes RingWriter RingReader RingOpen RingRules.
From S2P Require Import RingGeometry RingInv RingHealth RingWriterFacts RingCalls RingDisk.
From S2P Require Import RingScan RingLog RingRefine RingErrors AsyncWriter AsyncSystem.
Import AsyncWriter.

(** ** What the store has accepted *)

(** Blocks of former partitions, blocks of the current one, pending bytes. *)
Definition flat (past : list bytes) (l : alog) : bytes :=
  concat past ++ concat (a_blocks l) ++ a_pending l.
Definition call_bytes (c : call) : bytes :=
  match c with
  | call_append r _ _ | call_append_checked r _ _ _ => view_data r
  | _ => []
  end.

Lemma flat_apublish past l : flat past (apublish l) = flat past l.
Proof.
  unfold flat, apublish. destruct l as [b [|x p]]; simpl; [done|].
  by rewrite concat_app, app_nil_r; simpl; rewrite app_nil_r.
Qed.
Lemma flat_afresh past l : a_pending l = [] -> flat (past ++ a_blocks l) afresh = flat past l.
Proof. intros Hp. unfold flat. by rewrite Hp, concat_app, !app_nil_r. Qed.
Lemma flat_aaccept past r l : flat past (aaccept r l) = flat past l ++ r.
Proof. unfold flat, aaccept. simpl. by rewrite !app_assoc. Qed.
Lemma apublish_pending l : a_pending (apublish l) = [].
Proof. unfold apublish. by destruct (a_pending l) eqn:E. Qed.

Lemma aroom_flat max r l l' past : aroom max r l l' -> exists past', flat past' l' = flat past l.
Proof.
  unfold aroom. set (l1 := if _ : bool then _ else _).
  assert (H1 : flat past l1 = flat past l) by (unfold l1; case_match; [apply flat_apublish|done]).
  rewrite <- H1. intros [->|[Hp ->]]; [by exists past|]. eexists. by apply flat_afresh.
Qed.

(** No step of the abstract log loses, repeats or reorders a byte. *)
Lemma astep_flat max c l l' past : astep max c l l' ->
  exists past', flat past' l' = flat past l ++ call_bytes c.
Proof.
  intros H. destruct H; simpl; rewrite ?app_nil_r.
  1,2: destruct (aroom_flat _ _ _ _ past H) as [past' Hp]; exists past';
    by rewrite flat_aaccept, Hp.
  1,2,3: exists past; apply flat_apublish.
  - exists (past ++ a_blocks (apublish l)). rewrite flat_afresh by apply apublish_pending.
    apply flat_apublish.
  - by exists past.
Qed.

Section Store.
Context {T : Type} `{!Storage T, !StorageModel T}.
Variable store_clock : nat -> Z.
Implicit Types s : Impl T.

Definition holds s (data : bytes) : Prop :=
  health_ok s /\ clean s /\ exists past l, refines s l /\ flat past l = data.

(** A store as a checkpoint left it. *)
Definition saved s (data : bytes) : Prop :=
  durable (storage s) = contents (storage s) /\
  exists past l, refines s l /\ a_pending l = [] /\ flat past l = data.

Lemma check_writer_open s a s' : check_writer s = (Ok a, s') ->
  writable s = true /\ closed s = false.
Proof.
  unfold check_writer, mbind, prog_bind, get. by destruct (writable s), (closed s), (faulted s).
Qed.
Lemma bind_check_open (k : unit -> prog (Impl T) unit) s s' :
  (check_writer ≫= k) s = (Ok tt, s') -> writable s = true /\ closed s = false.
Proof.
  unfold mbind at 1, prog_bind. destruct (check_writer s) as [[a|] s1] eqn:E; [|done].
  intros _. by apply (check_writer_open s a s1).
Qed.

Definition item_call (it : Item) : call :=
  if it_checked it
  then call_append_checked (View (it_bytes it)) (it_time_ns it) (it_contract it) (it_flags it)
  else call_append (View (it_bytes it)) (it_time_ns it) (it_flags it).
Lemma append_item_call it : append_item store_clock it = run_call (T:=T) store_clock (item_call it).
Proof. unfold append_item, item_call. by destruct (it_checked it). Qed.
Lemma append_item_open it s s' : append_item store_clock it s = (Ok tt, s') ->
  writable s = true /\ closed s = false.
Proof.
  unfold append_item, append_checked, append. destruct (it_checked it).
  - case_match; [done|]. apply bind_check_open.
  - apply bind_check_open.
Qed.

Definition item_ok (it : Item) : Prop := record_ok (View (it_bytes it)) (it_time_ns it).

Lemma call_holds c s s' data : holds s data -> call_ok c -> writable s = true -> closed s = false ->
  run_call store_clock c s = (Ok tt, s') -> holds s' (data ++ call_bytes c).
Proof.
  intros (Hh&Hcl&past&l&Hr&<-) Hok Hw Hc H.
  pose proof (run_call_refines store_clock c s l Hr Hok Hw Hc) as Hx. unfold wp in Hx.
  pose proof (run_call_winv store_clock c s (proj1 Hr) Hok) as Hy. unfold wp in Hy.
  rewrite H in Hx, Hy. destruct Hx as (l'&Hs&Hr'), Hy as [_ Hcl'].
  destruct (astep_flat _ _ _ _ past Hs) as [past' Hf].
  split; [by eapply run_call_health|]. split; [auto|]. by exists past', l'.
Qed.

Lemma append_item_holds it s s' data : holds s data -> item_ok it ->
  append_item store_clock it s = (Ok tt, s') -> holds s' (data ++ it_bytes it).
Proof.
  intros Hh Hok H. destruct (append_item_open it s s' H) as [Hw Hc]. rewrite append_item_call in H.
  assert (E : call_bytes (item_call it) = it_bytes it)
    by (unfold item_call; by destruct (it_checked it)).
  rewrite <- E. apply (call_holds _ s); try done. unfold item_call. by destruct (it_checked it).
Qed.

Lemma checkpoint_holds s s' data : holds s data -> checkpoint store_clock s = (Ok tt, s') ->
  holds s' data /\ saved s' data.
Proof.
  intros Hh H. pose proof Hh as (_&Hcl&past&l&Hr&Hf).
  destruct (bind_check_open _ _ _ H) as [Hw Hc]. split.
  - rewrite <- (app_nil_r data). by apply (call_holds call_checkpoint s).
  - pose proof (checkpoint_spec store_clock s (proj1 Hr)) as Hx. unfold wp in Hx. rewrite H in Hx.
    split; [by apply (sd_durable _ _ Hx)|]. exists past, (apublish l).
    split; [by apply (refines_settled s)|]. split; [apply apublish_pending|].
    by rewrite flat_apublish.
Qed.

Definition turn_ok (turn : Turn) : Prop :=
  (tn_do_checkpoint turn = true -> tn_item turn = None) /\
  (tn_exit_after_checkpoint turn = true -> tn_do_checkpoint turn = true).

Lemma work_holds turn s s' status data : holds s data -> turn_ok turn ->
  Forall item_ok (turn_items turn) -> work store_clock turn s = (status, s') ->
  status_ok status = true ->
  holds s' (data ++ items_bytes (turn_items turn)) /\
  (tn_do_checkpoint turn = true -> saved s' (data ++ items_bytes (turn_items turn))).
Proof.
  unfold work, turn_items, items_bytes. intros Hh [Ht _] Hok H Hs.
  destruct (tn_do_checkpoint turn) eqn:Hd.
  - rewrite Ht in * by done. simpl. rewrite app_nil_r.
    destruct (checkpoint store_clock s) as [[[]|] s1] eqn:E; simplify_eq.
    + destruct (checkpoint_holds _ _ _ Hh E). done.
    + pose proof (run_call_errors store_clock call_checkpoint s _ _ (proj1 Hh) E). congruence.
  - destruct (tn_item turn) as [it|]; simpl; [|rewrite app_nil_r; by simplify_eq].
    rewrite app_nil_r. destruct (append_item store_clock it s) as [[[]|] s1] eqn:E; simplify_eq.
    + split; [|done]. apply (append_item_holds it s); [done| |done]. by inversion_clear Hok.
    + rewrite append_item_call in E.
      pose proof (run_call_errors store_clock _ s _ _ (proj1 Hh) E). congruence.
Qed.
End Store.
