(* ===== verification/AsyncFlow.v ===== *)
(** * The flow of records through the asynchronous writer

    [flow] relates the counters of the writer and the position of its thread
    to the lists of accepted, appended and durable items, and every critical
    section keeps it. *)

From S2P Require Import Prelude Status Hoare Crc32c Layout Format Codec Lz4 Storage RingTypes.
From S2P Require Import RingWriter RingInv RingWriterFacts AsyncWriter AsyncSystem AsyncFacts.
Import AsyncWriter.

(** The turn the thread has taken and not yet accounted for. *)
Definition pc_turn (pc : Pc) : option Turn :=
  match pc with
  | pc_working turn _ | pc_completing turn _ _ => Some turn
  | _ => None
  end.
(** Taken from the queue, not yet appended. *)
Definition in_flight (pc : Pc) : list Item :=
  match pc with
  | pc_working turn _ => turn_items turn
  | pc_completing turn status _ => if status_ok status then [] else turn_items turn
  | _ => []
  end.
(** Appended, not yet counted. *)
Definition uncounted (pc : Pc) : list Item :=
  match pc with
  | pc_completing turn status _ => if status_ok status then turn_items turn else []
  | _ => []
  end.
(** A checkpoint succeeded and is not yet counted. *)
Definition saving (pc : Pc) : bool :=
  match pc with
  | pc_completing turn status _ => status_ok status && tn_do_checkpoint turn
  | _ => false
  end.

Definition sum_bytes (items : list Item) : Z := len (items_bytes items).

Record flow (w : t) (pc : Pc) (accepted appended durable : list Item) : Prop := {
  fl_sequence k it : accepted !! k = Some it -> it_sequence it = Z.of_nat k + 1;
  fl_items : Forall item_ok accepted;
  fl_split : accepted = appended ++ in_flight pc ++ queue_ w;
  fl_submitted : submitted_sequence_ w = len accepted;
  fl_processed : processed_sequence_ w + len (uncounted pc) = len appended;
  fl_uncounted : uncounted pc `suffix_of` appended;
  fl_durable : durable `prefix_of` appended;
  fl_saving : if saving pc then durable = appended else len durable = completed_barrier_ w;
  fl_completed : 0 <= completed_barrier_ w <= processed_sequence_ w;
  fl_requested : 0 <= requested_barrier_ w <= len accepted;
  fl_stopping : stopping_ w = true -> requested_barrier_ w = len accepted;
  fl_signal : checkpoint_requested_ w = true \/ requested_barrier_ w <= completed_barrier_ w;
  fl_turn turn : pc_turn pc = Some turn -> turn_ok turn /\
    (tn_exit_after_checkpoint turn = true -> stopping_ w = true /\ queue_ w = []);
  fl_bytes : queued_bytes_ w = sum_bytes (queue_ w);
  fl_capacity : len (queue_ w) <= queue_capacity_records (options_ w) /\
    queued_bytes_ w <= queue_capacity_bytes (options_ w);
  fl_durable_sequence : durable_sequence (metrics_ w) = completed_barrier_ w;
  fl_oldest : have_oldest_undurable_ w = (completed_barrier_ w <? len accepted);
  fl_oldest_time : have_oldest_undurable_ w = true ->
    exists it, accepted !! Z.to_nat (completed_barrier_ w) = Some it /\
      oldest_undurable_ns_ w = it_submitted_at_ns it }.

Definition caps_ok (o : AsyncWriterOptions) : Prop :=
  is_u64 (queue_capacity_records o) /\ is_u64 (queue_capacity_bytes o).

Lemma sum_bytes_app a b : sum_bytes (a ++ b) = sum_bytes a + sum_bytes b.
Proof. unfold sum_bytes, items_bytes. by rewrite map_app, concat_app, len_app. Qed.
Lemma sum_bytes_cons it l : sum_bytes (it :: l) = len (it_bytes it) + sum_bytes l.
Proof. unfold sum_bytes, items_bytes. simpl. by rewrite len_app. Qed.
Lemma sum_bytes_nonneg l : 0 <= sum_bytes l.
Proof. apply len_nonneg. Qed.

Section Steps.
Implicit Types w : t.

Lemma inc_small x n : 0 <= x -> x + 1 <= n -> n < 2 ^ 64 -> inc x = x + 1.
Proof. intros. unfold inc, u64. apply Z.mod_small. lia. Qed.

Lemma flow_same w w' pc accepted appended durable :
  queue_ w' = queue_ w -> queued_bytes_ w' = queued_bytes_ w -> options_ w' = options_ w ->
  (stopping_ w = true -> stopping_ w' = true) -> submitted_sequence_ w' = submitted_sequence_ w ->
  processed_sequence_ w' = processed_sequence_ w ->
  completed_barrier_ w' = completed_barrier_ w ->
  have_oldest_undurable_ w' = have_oldest_undurable_ w ->
  oldest_undurable_ns_ w' = oldest_undurable_ns_ w ->
  durable_sequence (metrics_ w') = durable_sequence (metrics_ w) ->
  0 <= requested_barrier_ w' <= len accepted ->
  (stopping_ w' = true -> requested_barrier_ w' = len accepted) ->
  checkpoint_requested_ w' = true \/ requested_barrier_ w' <= completed_barrier_ w' ->
  flow w pc accepted appended durable -> flow w' pc accepted appended durable.
Proof.
  intros E1 E2 E3 Es E4 E5 E6 E7 E8 E9 Hr Hstop Hs []. split; rewrite ?E1, ?E2, ?E3, ?E4, ?E5, ?E6, ?E7, ?E8, ?E9;
    try done. by rewrite <- E6. intros turn Ht. specialize (fl_turn0 turn Ht). naive_solver.
Qed.

(** ** Clients *)

(** What an accepted submission does. *)
Record enqueued (it : Item) w w' : Prop := {
  en_running : running_ w = true /\ stopping_ w = false;
  en_sequence : it_sequence it = inc (submitted_sequence_ w);
  en_room : len (queue_ w) < queue_capacity_records (options_ w) /\
    len (it_bytes it) <= queue_capacity_bytes (options_ w) -
      Z.min (queued_bytes_ w) (queue_capacity_bytes (options_ w));
  en_queue : queue_ w' = queue_ w ++ [it];
  en_bytes : queued_bytes_ w' = u64 (queued_bytes_ w + len (it_bytes it));
  en_submitted : submitted_sequence_ w' = inc (submitted_sequence_ w);
  en_oldest : have_oldest_undurable_ w' = true /\
    oldest_undurable_ns_ w' = (if have_oldest_undurable_ w then oldest_undurable_ns_ w
                               else it_submitted_at_ns it);
  en_rest : options_ w' = options_ w /\ processed_sequence_ w' = processed_sequence_ w /\
    completed_barrier_ w' = completed_barrier_ w /\ requested_barrier_ w' = requested_barrier_ w /\
    checkpoint_requested_ w' = checkpoint_requested_ w /\ stopping_ w' = stopping_ w /\
    running_ w' = running_ w /\ background_status_ w' = background_status_ w /\
    durable_sequence (metrics_ w') = durable_sequence (metrics_ w) }.

Lemma submit_cases record time flags expected now w status w' :
  submit_impl record time flags expected now w = (status, w') ->
  status_ok status = false /\
    (w' = w \/ w' = w <| metrics_ ::= set backpressure_events inc |>) \/
  status = Status_Ok /\ view_data record <> [] /\ exists it, it_bytes it = view_data record /\ it_time_ns it = time /\
    it_flags it = flags /\ it_submitted_at_ns it = now /\ enqueued it w w'.
Proof.
  unfold submit_impl. intros H.
  destruct (status_ok (background_status_ w)) eqn:Eb; cbn [negb] in H;
    [|left; simplify_eq; auto].
  destruct (negb (running_ w) || stopping_ w) eqn:Est; [left; simplify_eq; auto|].
  destruct (view_empty record) eqn:Eem; [left; simplify_eq; auto|].
  destruct record as [data|n]; unfold view_valid, view_empty in *; rewrite Eem in H;
    cbn [orb negb view_size view_data] in *; [|left; simplify_eq; auto].
  destruct (_ || (_ <? _)) eqn:Eroom; [left; simplify_eq; auto|].
  right. apply orb_false_iff in Est as [Hr Hst], Eroom as [Hc1 Hc2].
  apply negb_false_iff in Hr. apply Z.leb_gt in Hc1. apply Z.ltb_ge in Hc2.
  cbv zeta in H. injection H as <- <-. split; [done|]. split; [by intros ->|].
  exists (mkItem data time flags (inc (submitted_sequence_ w))
    (match expected with Some _ => true | None => false end)
    (match expected with Some c => c | None => mkAppendContract 0 0 0 end) now).
  split_and!; try done. split; simpl; try done;
    destruct (have_oldest_undurable_ w); simpl; first [done|split_and!; done].
Qed.

Lemma flow_enqueued it w w' pc accepted appended durable :
  flow w pc accepted appended durable -> caps_ok (options_ w) -> item_ok it -> enqueued it w w' ->
  len (accepted ++ [it]) < 2 ^ 64 -> flow w' pc (accepted ++ [it]) appended durable.
Proof.
  intros [Hsq Hit Hsp Hsub Hp Hun Hdu Hsa Hco Hrq Hstp Hsg Htu Hby [Hca1 Hca2] Hds Hol Hot] [_ Hc] Hi
    [[Hrun Hst] Hes Hro Heq Heb Hesub [Hho Hot'] (Eo&Ep&Ec&Erq&Ecr&Est&_&_&Ed)] Hn.
  rewrite len_app, len_cons, len_nil in Hn. pose proof (len_nonneg accepted).
  assert (Hinc : inc (submitted_sequence_ w) = len accepted + 1)
    by (rewrite Hsub; eapply inc_small; [lia| |exact Hn]; lia).
  pose proof (len_nonneg (it_bytes it)). pose proof (sum_bytes_nonneg (queue_ w)).
  assert (Hb : u64 (queued_bytes_ w + len (it_bytes it)) = queued_bytes_ w + len (it_bytes it))
    by (apply Z.mod_small; unfold is_u64 in Hc; lia).
  split; rewrite ?Hesub, ?Hinc, ?Eo, ?Ep, ?Ec, ?Erq, ?Ecr, ?Est, ?Ed, ?len_app, ?len_cons, ?len_nil; try done.
  - intros k x Hk. apply lookup_app_Some in Hk as [?|[Hge Hk]]; [by apply Hsq|].
    apply list_lookup_singleton_Some in Hk as [Hk <-].
    rewrite Hes, Hinc. unfold len in *. lia.
  - apply Forall_app. split; [done|]. by constructor.
  - by rewrite Heq, Hsp, !app_assoc.
  - pose proof (len_nonneg (@nil Item)). lia.
  - congruence.
  - intros turn Ht. destruct (Htu turn Ht) as [? Hx]. split; [done|]. intros Hex.
    destruct (Hx Hex). congruence.
  - rewrite Heq, Heb, Hb, sum_bytes_app, sum_bytes_cons, Hby. change (sum_bytes []) with 0. lia.
  - rewrite Heq, Heb, Hb, len_app, len_cons, len_nil. lia.
  - rewrite Hho. symmetry. apply Z.ltb_lt.
    assert (processed_sequence_ w <= len accepted); [|lia]. rewrite Hsp, len_app.
    pose proof (len_nonneg (uncounted pc)). pose proof (len_nonneg (in_flight pc ++ queue_ w)). lia.
  - intros _. rewrite Hot'. destruct (have_oldest_undurable_ w) eqn:Eh.
    + destruct (Hot eq_refl) as (x&Hx&Hx'). exists x. split; [|done]. by apply lookup_app_l_Some.
    + exists it. split; [|done]. symmetry in Hol. apply Z.ltb_ge in Hol.
      assert (processed_sequence_ w <= len accepted).
      { rewrite Hsp, len_app. pose proof (len_nonneg (uncounted pc)).
        pose proof (len_nonneg (in_flight pc ++ queue_ w)). lia. }
      replace (completed_barrier_ w) with (len accepted) by lia.
      unfold len. rewrite Nat2Z.id. by apply list_lookup_middle.
Qed.

Lemma flow_submit record time flags expected now w status w' pc accepted appended durable :
  flow w pc accepted appended durable -> caps_ok (options_ w) -> record_ok record time ->
  submit_impl record time flags expected now w = (status, w') ->
  len (accepted ++ drop (length (queue_ w)) (queue_ w')) < 2 ^ 64 ->
  flow w' pc (accepted ++ drop (length (queue_ w)) (queue_ w')) appended durable.
Proof.
  intros Hf Hc Hr H. apply submit_cases in H as [[_ [->| ->]]|(_&_&it&Hb&Ht&_&_&Hen)].
  - intros _. by rewrite drop_all, app_nil_r.
  - intros _. simpl. rewrite drop_all, app_nil_r. apply (flow_same w); try done; apply Hf.
  - rewrite (en_queue _ _ _ Hen), drop_app_length. intros Hn.
    apply (flow_enqueued it w); try done.
    unfold item_ok, record_ok. simpl. by rewrite Hb, Ht.
Qed.

Lemma flow_checkpoint_request w r w' pc accepted appended durable :
  flow w pc accepted appended durable -> checkpoint_request w = (r, w') ->
  flow w' pc accepted appended durable.
Proof.
  intros Hf H. unfold checkpoint_request in H. destruct (status_ok _); [|by simplify_eq/=].
  destruct (running_ w); [|by simplify_eq/=]. cbn [negb] in H. injection H as <- <-.
  pose proof (fl_submitted _ _ _ _ _ Hf). pose proof (fl_requested _ _ _ _ _ Hf).
  apply (flow_same w); simpl; try done; [lia| |by left].
  intros Hs. rewrite (fl_stopping _ _ _ _ _ Hf Hs). lia.
Qed.

Lemma flow_stop_request w pc accepted appended durable :
  flow w pc accepted appended durable -> flow (stop_request w) pc accepted appended durable.
Proof.
  intros Hf. unfold stop_request. destruct (running_ w); [|done].
  pose proof (fl_submitted _ _ _ _ _ Hf). pose proof (len_nonneg accepted).
  apply (flow_same w); simpl; try done; [lia|by left].
Qed.

(** ** The thread *)

(** Positions that hold nothing. *)
Definition idle (pc : Pc) : Prop := pc_turn pc = None.
Lemma idle_empty pc : idle pc -> in_flight pc = [] /\ uncounted pc = [] /\ saving pc = false.
Proof. by destruct pc. Qed.

Lemma flow_idle w pc pc' accepted appended durable : idle pc -> idle pc' ->
  flow w pc accepted appended durable -> flow w pc' accepted appended durable.
Proof.
  intros H H' [].
  destruct (idle_empty pc H) as (E1&E2&E3), (idle_empty pc' H') as (E1'&E2'&E3').
  rewrite ?E1, ?E2, ?E3 in *. split; rewrite ?E1', ?E2', ?E3'; try done.
  intros turn Ht. unfold idle in H'. congruence.
Qed.

Lemma decide_cases started now at_ w turn w' : decide started now at_ w = (turn, w') ->
  turn_ok turn /\
  (tn_exit_after_checkpoint turn = true -> stopping_ w = true /\ queue_ w = []) /\
  (w' = w /\ tn_item turn = None \/
   exists it rest, queue_ w = it :: rest /\ tn_item turn = Some it /\
     w' = w <| queue_ := rest |> <| queued_bytes_ ::= fun n => u64 (n - len (it_bytes it)) |>).
Proof.
  unfold decide, queue_empty, turn_ok. intros H.
  destruct (queue_ w) as [|it rest] eqn:Eq; rewrite ?andb_true_r, ?andb_false_r, ?orb_false_r in H;
    cbv zeta in H.
  - injection H as <- <-. simpl. split; [|split].
    + split; [done|]. intros ->. apply orb_true_r.
    + done.
    + by left.
  - destruct (_ || _); cbn [negb] in H; injection H as <- <-; simpl; split_and!; try done;
      [by left|]. right. exists it, rest. done.
Qed.

Lemma flow_decide started now at_ w turn w' pc accepted appended durable :
  flow w pc accepted appended durable -> idle pc -> caps_ok (options_ w) ->
  decide started now at_ w = (turn, w') ->
  flow w' (pc_working turn started) accepted appended durable.
Proof.
  intros Hf Hi [_ Hc] H. apply decide_cases in H as (Ht&Hx&Hcase).
  destruct Hf as [Hsq Hit Hsp Hsub Hp Hun Hdu Hsa Hco Hrq Hstp Hsg _ Hby [Hca1 Hca2] Hds Hol Hot].
  destruct (idle_empty pc Hi) as (E1&E2&E3). rewrite E1, E2, E3 in *. simpl in Hsp.
  destruct Hcase as [[-> Hn]|(it&rest&Eq&Hn&->)].
  - split; simpl; try done; [by unfold turn_items; rewrite Hn|].
    intros ? [= <-]. done.
  - rewrite Eq, len_cons, sum_bytes_cons in *. pose proof (len_nonneg (it_bytes it)).
    pose proof (sum_bytes_nonneg rest).
    assert (Hb : u64 (queued_bytes_ w - len (it_bytes it)) = sum_bytes rest)
      by (unfold u64; rewrite Z.mod_small; unfold is_u64 in Hc; lia).
    split; simpl; rewrite ?Hb; try done.
    + unfold turn_items. by rewrite Hn.
    + intros ? [= <-]. split; [done|]. intros He. destruct (Hx He) as [_ Hq]. congruence.
    + lia.
Qed.

Lemma flow_work w turn started status accepted appended durable :
  flow w (pc_working turn started) accepted appended durable ->
  flow w (pc_completing turn status started) accepted
    (if status_ok status then appended ++ turn_items turn else appended)
    (if status_ok status && tn_do_checkpoint turn then
       if status_ok status then appended ++ turn_items turn else appended else durable).
Proof.
  intros [Hsq Hit Hsp Hsub Hp Hun Hdu Hsa Hco Hrq Hstp Hsg Htu Hby Hca Hds Hol Hot]. simpl in *.
  destruct (status_ok status) eqn:E; cbn [andb].
  - split; simpl; rewrite ?E; try done.
    + by rewrite Hsp, <- app_assoc.
    + rewrite len_app, len_nil in *. lia.
    + by apply suffix_app_r.
    + destruct (tn_do_checkpoint turn); [done|]. by apply prefix_app_r.
    + by destruct (tn_do_checkpoint turn).
  - split; simpl; rewrite ?E; done.
Qed.

(** Counting the appended item. *)
Definition counted (turn : Turn) (w : t) : t :=
  match tn_item turn with
  | Some item =>
      let residence := elapsed_ns (it_submitted_at_ns item) (tn_dequeued_at_ns turn) in
      w <| processed_sequence_ := it_sequence item |>
        <| metrics_ ::= set processed_records inc |>
        <| metrics_ ::= set maximum_queue_residence_ns (Z.max residence) |>
  | None => w
  end.

Lemma complete_unfold turn status started at_ w :
  complete turn status started at_ w =
  if negb (status_ok status) then (None, fail_background status w) else
  let w := counted turn w in
  let '(started, w) := if tn_do_checkpoint turn then (at_, complete_checkpoint at_ w)
                       else (started, w) in
  if tn_exit_after_checkpoint turn then (None, w <| running_ := false |>) else (Some started, w).
Proof. done. Qed.

Lemma flow_counted w turn status started pc' accepted appended durable :
  flow w (pc_completing turn status started) accepted appended durable ->
  status_ok status = true -> tn_do_checkpoint turn = false -> idle pc' ->
  flow (counted turn w) pc' accepted appended durable.
Proof.
  intros [Hsq Hit Hsp Hsub Hp Hun Hdu Hsa Hco Hrq Hstp Hsg Htu Hby Hca Hds Hol Hot] Hs Hd Hi.
  simpl in *. rewrite Hs, Hd in *. simpl in *. destruct (idle_empty pc' Hi) as (E1&E2&E3).
  unfold counted, turn_items in *. destruct (tn_item turn) as [it|]; cbn [app] in *.
  - destruct Hun as [front ->].
    assert (Hseq : it_sequence it = len (front ++ [it])).
    { rewrite (Hsq (length front) it).
      - rewrite len_app, len_cons, len_nil. unfold len. lia.
      - rewrite Hsp, <- app_assoc. by apply list_lookup_middle. }
    rewrite len_app, len_cons, len_nil in *.
    split; simpl; rewrite ?E1, ?E2, ?E3, ?len_app, ?len_cons, ?len_nil; try done; try lia.
    + apply suffix_nil.
    + intros turn' Ht. unfold idle in Hi. congruence.
  - split; rewrite ?E1, ?E2, ?E3; try done.
    intros turn' Ht. unfold idle in Hi. congruence.
Qed.

(** A checkpoint that covers everything appended. *)
Lemma flow_covered w w1 pc' accepted appended :
  (forall k it, accepted !! k = Some it -> it_sequence it = Z.of_nat k + 1) ->
  Forall item_ok accepted -> accepted = appended ++ queue_ w -> idle pc' ->
  submitted_sequence_ w = len accepted -> processed_sequence_ w = len appended ->
  0 <= requested_barrier_ w <= len accepted ->
  (stopping_ w = true -> requested_barrier_ w = len accepted) ->
  queued_bytes_ w = sum_bytes (queue_ w) ->
  len (queue_ w) <= queue_capacity_records (options_ w) /\
    queued_bytes_ w <= queue_capacity_bytes (options_ w) ->
  queue_ w1 = queue_ w -> queued_bytes_ w1 = queued_bytes_ w -> options_ w1 = options_ w ->
  stopping_ w1 = stopping_ w -> submitted_sequence_ w1 = submitted_sequence_ w ->
  processed_sequence_ w1 = processed_sequence_ w -> completed_barrier_ w1 = len appended ->
  durable_sequence (metrics_ w1) = len appended -> requested_barrier_ w1 = requested_barrier_ w ->
  checkpoint_requested_ w1 = true \/ requested_barrier_ w <= len appended ->
  have_oldest_undurable_ w1 = (len appended <? len accepted) ->
  (forall it rest, queue_ w = it :: rest -> oldest_undurable_ns_ w1 = it_submitted_at_ns it) ->
  flow w1 pc' accepted appended appended.
Proof.
  intros Hsq Hit Hsp Hi Hsub Hp Hrq Hstp Hby Hca F1 F2 F3 F0 F4 F5 F6 F7 F8 F9 F10 F11.
  destruct (idle_empty pc' Hi) as (E1&E2&E3). pose proof (len_nonneg appended).
  split; rewrite ?E1, ?E2, ?E3, ?F1, ?F2, ?F3, ?F0, ?F4, ?F5, ?F6, ?F7, ?F8; try done; try lia.
  - by rewrite len_nil, Z.add_0_r.
  - apply suffix_nil.
  - intros turn' Ht. unfold idle in Hi. congruence.
  - rewrite F10. intros Hlt. apply Z.ltb_lt in Hlt. rewrite Hsp, len_app in Hlt.
    destruct (queue_ w) as [|it rest] eqn:Eq; [rewrite len_nil in Hlt; lia|].
    exists it. split; [|by apply (F11 it rest)]. rewrite Hsp. unfold len. rewrite Nat2Z.id.
    by apply list_lookup_middle.
Qed.

Lemma flow_saved w turn status started at_ pc' accepted appended durable :
  flow w (pc_completing turn status started) accepted appended durable ->
  status_ok status = true -> tn_do_checkpoint turn = true -> idle pc' ->
  flow (complete_checkpoint at_ (counted turn w)) pc' accepted appended durable.
Proof.
  intros [Hsq Hit Hsp Hsub Hp Hun Hdu Hsa Hco Hrq Hstp Hsg Htu Hby Hca Hds Hol Hot] Hs Hd Hi.
  destruct (Htu turn eq_refl) as [[Hni _] _]. specialize (Hni Hd). simpl in *.
  rewrite Hs, Hd in *. simpl in *. unfold counted, turn_items in *. rewrite Hni in *.
  rewrite len_nil, Z.add_0_r in Hp. subst durable.
  assert (Hlen : len accepted = len appended + len (queue_ w)) by (rewrite Hsp, len_app; lia).
  unfold complete_checkpoint. cbv zeta. pose proof (len_nonneg (queue_ w)).
  destruct (Z.ltb_spec (durable_sequence (metrics_ w)) (processed_sequence_ w)) as [Hlt|Hge].
  - rewrite Hds in Hlt. rewrite (proj2 (Z.ltb_lt _ _)) in Hol by lia.
    simpl. rewrite (proj2 (Z.ltb_lt _ _)) by lia. rewrite Hol. cbn [andb].
    destruct (queue_ w) as [|it rest] eqn:Eq; simpl;
      destruct (Z.leb_spec (requested_barrier_ w) (processed_sequence_ w));
      apply (flow_covered w); simpl; rewrite ?Eq; try done; try congruence; try lia.
    all: rewrite ?len_nil, ?len_cons in Hlen; try pose proof (len_nonneg rest).
    all: first [destruct Hsg; [by left|right; lia]
               |symmetry; apply Z.ltb_ge; lia|symmetry; apply Z.ltb_lt; lia].
  - simpl. rewrite (proj2 (Z.ltb_ge _ _)) by lia. cbn [andb]. simpl.
    assert (Hc : completed_barrier_ w = len appended) by lia. rewrite Hc in Hol, Hot.
    assert (Hh : forall it rest, queue_ w = it :: rest ->
      oldest_undurable_ns_ w = it_submitted_at_ns it).
    { intros it rest Eq. rewrite Eq, len_cons in Hlen. pose proof (len_nonneg rest).
      destruct Hot as (x&Hx&->); [rewrite Hol; apply Z.ltb_lt; lia|].
      rewrite Hsp, Eq in Hx. unfold len in Hx. rewrite Nat2Z.id, list_lookup_middle in Hx by done.
      by simplify_eq. }
    destruct (Z.leb_spec (requested_barrier_ w) (processed_sequence_ w));
      apply (flow_covered w); simpl; try done; try congruence; lia.
Qed.

Lemma flow_running w b pc accepted appended durable :
  flow w pc accepted appended durable ->
  flow (w <| running_ := b |>) pc accepted appended durable.
Proof. intros Hf. apply (flow_same w); try done; apply Hf. Qed.

Lemma flow_complete w turn status started at_ next w' accepted appended durable :
  flow w (pc_completing turn status started) accepted appended durable ->
  status_ok status = true -> complete turn status started at_ w = (next, w') ->
  flow w' (pc_of_interval next) accepted appended durable.
Proof.
  intros Hf Hs H. rewrite complete_unfold, Hs in H. cbn [negb] in H. cbv zeta in H.
  destruct (tn_do_checkpoint turn) eqn:Hd, (tn_exit_after_checkpoint turn); injection H as <- <-;
    try apply flow_running; first [by eapply flow_saved|by eapply flow_counted].
Qed.

Lemma flow_start {T} (s : Impl T) w w' : start s w = (Status_Ok, w') ->
  caps_ok (options_ w) -> flow w' pc_spawned [] [] [] /\ options_ w' = options_ w /\
  running_ w' = true /\ status_ok (background_status_ w') = true /\
  status_ok (background_status_ w) = true /\ running_ w = false.
Proof.
  unfold start. intros H [Hc1 Hc2]. destruct (running_ w) eqn:Er; [done|].
  destruct (status_ok (background_status_ w)) eqn:Eb; cbn [negb] in H;
    [|injection H as H _; by rewrite H in Eb].
  destruct (status_ok (writer_status s)) eqn:Ew; cbn [negb] in H;
    [|injection H as H _; by rewrite H in Ew].
  cbv zeta in H. destruct (_ || _); [done|]. injection H as <-. split_and!; try done.
  unfold is_u64 in *. split; simpl; rewrite ?len_nil; try done; lia.
Qed.
End Steps.
