(* ===== verification/AsyncInv.v ===== *)
(** * The invariant of the whole asynchronous system *)

From S2P Require Import Prelude Status Hoare Crc32c Layout Format FormatFacts Codec PackBitsFacts.
From S2P Require Import Lz4 Lz4Facts Storage RingTypes RingWriter RingReader RingOpen RingRules.
From S2P Require Import RingGeometry RingInv RingHealth RingWriterFacts RingCalls RingDisk.
From S2P Require Import RingScan RingLog RingRefine RingErrors AsyncWriter AsyncSystem AsyncFacts.
From S2P Require Import AsyncFlow.
Import AsyncWriter.

Section Inv.
Context {T : Type} `{!Storage T, !StorageModel T}.
Variable store_clock : nat -> Z.
Implicit Types y : System T.

(** A step within one run of fewer than 2^64 accepted records: the sequence
    counters do not wrap. *)
Definition bounded_step y y' : Prop := step store_clock y y' /\ len (sy_accepted y') < 2 ^ 64.

(** The last store call failed. *)
Definition failing (pc : Pc) : bool :=
  match pc with pc_completing _ status _ => negb (status_ok status) | _ => false end.

Record sys_ok (o : AsyncWriterOptions) y : Prop := {
  si_options : options_ (sy_writer y) = o;
  si_running : running_ (sy_writer y) = true <-> sy_pc y <> pc_none;
  si_failed : status_ok (background_status_ (sy_writer y)) = false -> sy_pc y = pc_none;
  si_flow : status_ok (background_status_ (sy_writer y)) = true ->
    flow (sy_writer y) (sy_pc y) (sy_accepted y) (sy_appended y) (sy_durable y);
  si_store : status_ok (background_status_ (sy_writer y)) = true -> failing (sy_pc y) = false ->
    holds (sy_store y) (sy_past y ++ items_bytes (sy_appended y));
  si_settled : status_ok (background_status_ (sy_writer y)) = true ->
    match sy_settled y with
    | Some s => saved s (sy_past y ++ items_bytes (sy_durable y))
    | None => sy_durable y = []
    end }.

Lemma items_bytes_app a b : items_bytes (a ++ b) = items_bytes a ++ items_bytes b.
Proof. unfold items_bytes. by rewrite map_app, concat_app. Qed.

Lemma sys_ok_initial o s l : caps_ok o -> health_ok s -> clean s -> refines s l ->
  sys_ok o (initial o s l).
Proof.
  intros [H1 H2] Hh Hc Hr. unfold is_u64 in *. split; simpl; try done.
  - intros _. split; simpl; rewrite ?len_nil; try done; lia.
  - intros _ _. unfold items_bytes. simpl. rewrite app_nil_r.
    split; [done|]. split; [done|]. exists [], l. by split.
Qed.

(** A step that changes only the writer's fields. *)
Lemma sys_ok_writer o y y' : sys_ok o y -> sy_store y' = sy_store y -> sy_pc y' = sy_pc y ->
  sy_past y' = sy_past y -> sy_appended y' = sy_appended y -> sy_durable y' = sy_durable y ->
  sy_settled y' = sy_settled y -> options_ (sy_writer y') = options_ (sy_writer y) ->
  running_ (sy_writer y') = running_ (sy_writer y) ->
  background_status_ (sy_writer y') = background_status_ (sy_writer y) ->
  (flow (sy_writer y) (sy_pc y) (sy_accepted y) (sy_appended y) (sy_durable y) ->
   flow (sy_writer y') (sy_pc y) (sy_accepted y') (sy_appended y) (sy_durable y)) ->
  sys_ok o y'.
Proof.
  intros [] E1 E2 E3 E4 E5 E6 E7 E8 E9 Hf. split; rewrite ?E1, ?E2, ?E3, ?E4, ?E5, ?E6, ?E7, ?E8, ?E9;
    auto.
Qed.

Lemma submit_fixed record time flags expected now w status w' :
  submit_impl record time flags expected now w = (status, w') ->
  options_ w' = options_ w /\ running_ w' = running_ w /\
  background_status_ w' = background_status_ w.
Proof.
  intros H. apply submit_cases in H as [[_ [->| ->]]|(_&_&it&_&_&_&_&[])]; [done..|].
  destruct en_rest as (?&_&_&_&_&_&?&?&_). done.
Qed.

Lemma complete_next turn status started at_ w next w' : status_ok status = true ->
  complete turn status started at_ w = (next, w') ->
  options_ w' = options_ w /\ background_status_ w' = background_status_ w /\
  running_ w' = match next with Some _ => running_ w | None => false end.
Proof.
  intros Hs H. rewrite complete_unfold, Hs in H. cbn [negb] in H. cbv zeta in H.
  assert (Hc : forall w, options_ (counted turn w) = options_ w /\
    background_status_ (counted turn w) = background_status_ w /\
    running_ (counted turn w) = running_ w).
  { intros w0. unfold counted. by destruct (tn_item turn). }
  assert (Hk : forall w, options_ (complete_checkpoint at_ w) = options_ w /\
    background_status_ (complete_checkpoint at_ w) = background_status_ w /\
    running_ (complete_checkpoint at_ w) = running_ w).
  { intros w0. unfold complete_checkpoint. cbv zeta.
    simpl. repeat case_match; done. }
  destruct (Hc w) as (C1&C2&C3), (Hk (counted turn w)) as (K1&K2&K3).
  destruct (tn_do_checkpoint turn), (tn_exit_after_checkpoint turn); injection H as <- <-;
    simpl; split_and!; congruence.
Qed.

(** ** Every step keeps it *)

Lemma sys_ok_work o y turn started status s' : sys_ok o y -> sy_pc y = pc_working turn started ->
  work store_clock turn (sy_store y) = (status, s') ->
  sys_ok o (worked turn status s' started y).
Proof.
  intros [Ho Hrun Hfail Hfl Hst Hse] Hpc H.
  assert (Hw : status_ok (background_status_ (sy_writer y)) = true -> status_ok status = true ->
    holds s' (sy_past y ++ items_bytes (sy_appended y ++ turn_items turn)) /\
    (tn_do_checkpoint turn = true ->
     saved s' (sy_past y ++ items_bytes (sy_appended y ++ turn_items turn)))).
  { intros Hb Hs. specialize (Hfl Hb). rewrite Hpc in Hfl, Hst. specialize (Hst Hb eq_refl).
    destruct (fl_turn _ _ _ _ _ Hfl turn eq_refl) as [Ht _].
    rewrite items_bytes_app, app_assoc. eapply work_holds; try done.
    pose proof (fl_items _ _ _ _ _ Hfl) as Hi. rewrite (fl_split _ _ _ _ _ Hfl) in Hi.
    apply Forall_app in Hi as [_ Hi]. by apply Forall_app in Hi as [Hi _]. }
  unfold worked. split; simpl; try done.
  - rewrite Hrun, Hpc. by split.
  - intros Hb. specialize (Hfail Hb). congruence.
  - intros Hb. specialize (Hfl Hb). rewrite Hpc in Hfl. by apply flow_work.
  - intros Hb Hnf. apply negb_false_iff in Hnf. rewrite Hnf. by apply Hw.
  - intros Hb. destruct (status_ok status) eqn:Es; cbn [andb]; [|by apply Hse].
    destruct (tn_do_checkpoint turn) eqn:Ed; [|by apply Hse]. by apply Hw.
Qed.

Lemma sys_ok_complete o y turn status started at_ next w' : sys_ok o y ->
  sy_pc y = pc_completing turn status started ->
  complete turn status started at_ (sy_writer y) = (next, w') ->
  sys_ok o (with_pc w' (pc_of_interval next) y).
Proof.
  intros [Ho Hrun Hfail Hfl Hst Hse] Hpc H. destruct (status_ok status) eqn:Es.
  - destruct (complete_next _ _ _ _ _ _ _ Es H) as (E1&E2&E3).
    assert (Hr : running_ (sy_writer y) = true) by (apply Hrun; congruence).
    split; simpl; rewrite ?E1, ?E2, ?E3; try done.
    + rewrite Hr. by destruct next.
    + intros Hb. specialize (Hfail Hb). congruence.
    + intros Hb. specialize (Hfl Hb). rewrite Hpc in Hfl. by eapply flow_complete.
    + intros Hb _. apply Hst; [done|]. rewrite Hpc. simpl. by rewrite Es.
  - unfold complete in H. rewrite Es in H. cbn [negb] in H. injection H as <- <-.
    split; simpl; try done; rewrite Es; done.
Qed.

Lemma sys_ok_step o y y' : caps_ok o -> sys_ok o y -> bounded_step y y' -> sys_ok o y'.
Proof.
  intros Hc Hy [H Hb]. pose proof Hy as [Ho Hrun Hfail Hfl Hst Hse].
  destruct H; simpl in Hb.
  - rewrite <- Ho in Hc. destruct (flow_start _ _ _ H0 Hc) as (Hf&E1&E2&E3&E4&E5).
    split; simpl; rewrite ?E1, ?E2, ?E3; try done.
    intros _ _. rewrite app_nil_r. apply Hst; [done|by rewrite H].
  - destruct (submit_fixed _ _ _ _ _ _ _ _ H0) as (E1&E2&E3).
    apply (sys_ok_writer o y); try done. intros Hf. simpl. eapply flow_submit; try done.
    by rewrite Ho.
  - assert (E : options_ w' = options_ (sy_writer y) /\ running_ w' = running_ (sy_writer y) /\
      background_status_ w' = background_status_ (sy_writer y)).
    { unfold checkpoint_request in H. destruct (status_ok _), (running_ (sy_writer y)) eqn:Er;
        simplify_eq/=; by rewrite ?Er. }
    destruct E as (E1&E2&E3). apply (sys_ok_writer o y); try done. simpl. intros Hf.
    by eapply flow_checkpoint_request.
  - assert (E : options_ (stop_request (sy_writer y)) = options_ (sy_writer y) /\
      running_ (stop_request (sy_writer y)) = running_ (sy_writer y) /\
      background_status_ (stop_request (sy_writer y)) = background_status_ (sy_writer y)).
    { unfold stop_request. by destruct (running_ (sy_writer y)) eqn:Er. }
    destruct E as (E1&E2&E3). apply (sys_ok_writer o y); try done. simpl. intros Hf.
    by apply flow_stop_request.
  - split; simpl; try done.
    + rewrite Hrun, H. done.
    + intros Hx. specialize (Hfail Hx). congruence.
    + intros Hx. specialize (Hfl Hx). rewrite H in Hfl. by apply (flow_idle _ pc_spawned).
    + intros Hx _. apply Hst; [done|by rewrite H].
  - assert (E : options_ w' = options_ (sy_writer y) /\ running_ w' = running_ (sy_writer y) /\
      background_status_ w' = background_status_ (sy_writer y)).
    { by destruct (decide_cases _ _ _ _ _ _ H1) as (_&_&[[-> _]|(it&rest&_&_&->)]). }
    destruct E as (E1&E2&E3). split; simpl; rewrite ?E1, ?E2, ?E3; try done.
    + rewrite Hrun, H. done.
    + intros Hx. specialize (Hfail Hx). congruence.
    + intros Hx. specialize (Hfl Hx). rewrite H in Hfl.
      eapply flow_decide; try done. by rewrite Ho.
    + intros Hx _. apply Hst; [done|by rewrite H].
  - by apply sys_ok_work.
  - by eapply sys_ok_complete.
  - split; simpl; try done; by destruct what.
Qed.

Lemma sys_ok_reachable o y y' : caps_ok o -> sys_ok o y -> rtc bounded_step y y' -> sys_ok o y'.
Proof. intros Hc Hy H. induction H; eauto using sys_ok_step. Qed.

(** ** The thread alone *)

(** One turn of the loop at a standing clock. *)
Definition thread_turn (now : Z) y : System T :=
  match sy_pc y with
  | pc_waiting started =>
      let '(turn, w) := decide started now now (sy_writer y) in
      let '(status, s') := work store_clock turn (sy_store y) in
      let y := worked turn status s' started (with_pc w (pc_working turn started) y) in
      let '(next, w) := complete turn status started now (sy_writer y) in
      with_pc w (pc_of_interval next) y
  | _ => y
  end.

(** A turn is three steps. *)
Lemma thread_turn_steps now y started :
  sy_pc y = pc_waiting started -> stopping_ (sy_writer y) = true -> len (sy_accepted y) < 2 ^ 64 ->
  rtc bounded_step y (thread_turn now y) /\ sy_accepted (thread_turn now y) = sy_accepted y.
Proof.
  intros Hpc Hst Hn. unfold thread_turn. rewrite Hpc.
  destruct (decide started now now (sy_writer y)) as [turn w] eqn:Ed.
  destruct (work store_clock turn (sy_store y)) as [status s'] eqn:Ew. cbv zeta.
  destruct (complete turn status started now _) as [next w2] eqn:Ec. split; [|done].
  eapply rtc_l; [split; [eapply (step_decide _ y started now); [exact Hpc| |exact Ed]|done]|].
  { unfold wake. rewrite Hst. by rewrite orb_true_r. }
  eapply rtc_l; [split; [by eapply step_work|done]|].
  eapply rtc_l; [split; [by eapply step_complete|done]|]. apply rtc_refl.
Qed.

(** While stopping with records queued and no interval elapsed, a turn
    appends the first of them; with none left it is the last turn. *)
Lemma stopping_decide started now w : stopping_ w = true -> requested_barrier_ w = submitted_sequence_ w ->
  interval_elapsed started now (interval_ns w) = false ->
  (queue_ w <> [] -> processed_sequence_ w < submitted_sequence_ w) ->
  decide started now now w =
  match queue_ w with
  | it :: rest => (mkTurn (Some it) false false now,
      w <| queue_ := rest |> <| queued_bytes_ ::= fun n => u64 (n - len (it_bytes it)) |>)
  | [] => (mkTurn None true true 0, w)
  end.
Proof.
  intros Hs Hr Hi Hp. unfold decide, queue_empty. cbv zeta. rewrite Hi, Hs, Hr.
  destruct (queue_ w) as [|it rest]; [by rewrite orb_true_r|].
  rewrite (proj2 (Z.leb_gt _ _)) by (by apply Hp). by rewrite andb_false_r.
Qed.

(** How a drained run ends. *)
Definition drained y : Prop :=
  sy_pc y = pc_none /\ queue_ (sy_writer y) = [] /\
  (status_ok (background_status_ (sy_writer y)) = true ->
   sy_durable y = sy_accepted y /\ sy_appended y = sy_accepted y).

Lemma stopping_turn o now y started : sys_ok o y -> sy_pc y = pc_waiting started ->
  stopping_ (sy_writer y) = true -> status_ok (background_status_ (sy_writer y)) = true ->
  interval_elapsed started now (interval_ns (sy_writer y)) = false ->
  drained (thread_turn now y) \/
  (S (length (queue_ (sy_writer (thread_turn now y)))) = length (queue_ (sy_writer y)) /\
   sy_pc (thread_turn now y) = pc_waiting started /\
   stopping_ (sy_writer (thread_turn now y)) = true /\
   status_ok (background_status_ (sy_writer (thread_turn now y))) = true /\
   interval_ns (sy_writer (thread_turn now y)) = interval_ns (sy_writer y)).
Proof.
  intros Hy Hpc Hst Hb Hi. pose proof (si_flow _ _ Hy Hb) as Hf. rewrite Hpc in Hf.
  pose proof (fl_split _ _ _ _ _ Hf) as Hsp. pose proof (fl_processed _ _ _ _ _ Hf) as Hp.
  pose proof (fl_submitted _ _ _ _ _ Hf) as Hsub. pose proof (fl_stopping _ _ _ _ _ Hf Hst) as Hrq.
  simpl in Hsp, Hp. rewrite len_nil in Hp.
  unfold thread_turn. rewrite Hpc, stopping_decide; [|done|congruence|done|].
  2:{ intros Hq. rewrite Hsub, Hsp, len_app. destruct (queue_ (sy_writer y)) as [|a b]; [done|].
      rewrite len_cons. pose proof (len_nonneg b). lia. }
  destruct (queue_ (sy_writer y)) as [|it rest] eqn:Eq.
  - destruct (work store_clock _ _) as [status s'] eqn:Ew. cbv zeta.
    left. destruct (status_ok status) eqn:Es.
    + unfold complete, worked, drained, turn_items. rewrite Es. cbn -[complete_checkpoint].
      split; [done|]. rewrite app_nil_r in *. split; [|done].
      unfold complete_checkpoint. simpl. rewrite Eq. repeat case_match; done.
    + unfold complete, worked, drained. rewrite Es. simpl. rewrite Es. done.
  - destruct (work store_clock _ _) as [status s'] eqn:Ew. cbv zeta.
    destruct (status_ok status) eqn:Es.
    + right. unfold complete, worked. rewrite Es. done.
    + left. unfold complete, worked, drained. rewrite Es. simpl. rewrite Es. done.
Qed.

Lemma stop_drains o now n y started : caps_ok o -> sys_ok o y -> len (sy_accepted y) < 2 ^ 64 ->
  sy_pc y = pc_waiting started ->
  stopping_ (sy_writer y) = true -> status_ok (background_status_ (sy_writer y)) = true ->
  interval_elapsed started now (interval_ns (sy_writer y)) = false ->
  length (queue_ (sy_writer y)) = n ->
  exists k, (k <= S n)%nat /\ let y' := Nat.iter k (thread_turn now) y in
    rtc bounded_step y y' /\ sy_accepted y' = sy_accepted y /\ drained y'.
Proof.
  intros Hc. revert y. induction n as [|n IH]; intros y Hy Hn Hpc Hst Hb Hi Hl;
    destruct (thread_turn_steps now y started Hpc Hst Hn) as [Hr Ha];
    destruct (stopping_turn o now y started Hy Hpc Hst Hb Hi) as [Hd|(Hl'&Hpc'&Hst'&Hb'&Hi')].
  1,3: exists 1%nat; split; [lia|done].
  - lia.
  - destruct (IH (thread_turn now y)) as (k&Hk&Hr'&Ha'&Hd'); try done.
    + by eapply sys_ok_reachable.
    + by rewrite Ha.
    + by rewrite Hi'.
    + lia.
    + exists (S k). split; [lia|]. rewrite Nat.iter_succ_r. simpl in *.
      split; [by etrans|]. split; [congruence|done].
Qed.
End Inv.
