(* ===== verification/ExamplesAsync.v ===== *)
(** * The asynchronous writer example

    examples/async_writer.cpp: the program hands ten records to the background
    thread, waits for a checkpoint, stops the thread, checks the metrics and
    reads the records back. The two threads run as a schedule says: each
    critical section of the main thread comes after the actions of the
    background thread its slot lists. The program has no result ([None]) while
    the schedule ends before it does, so a theorem about every schedule is
    about every interleaving of the two threads. *)

From stdpp Require Import pretty.
From S2P Require Import Prelude Status Crc32c Layout Format Codec Lz4 Storage FileStorage.
From S2P Require Import RingTypes RingWriter RingReader RingOpen RingRefine RecordProfile Tools.
From S2P Require Import Examples AsyncWriter AsyncSystem.

(** ** Programs that may block *)

Definition run (W A : Type) : Type := W -> option ((Z + A) * W).
#[export] Instance run_ret W : MRet (run W) := fun A a w => Some (inr a, w).
#[export] Instance run_bind W : MBind (run W) := fun A B k m w =>
  match m w with
  | None => None
  | Some (inl code, w) => Some (inl code, w)
  | Some (inr a, w) => k a w
  end.
Definition lift {W A} (m : tool W A) : run W A := fun w => Some (m w).

Module AsyncExample.

Definition kMiB : Z := 1024 * 1024.
Definition kBaseTimeNs : Z := 1700000000000000000.
Definition kSelector : Z := 0x020001.

Definition volume : VolumeOptions :=
  VolumeOptions_default <| vo_partition_size := 1 * kMiB |>
    <| vo_index_region_size := 64 * 1024 |> <| vo_max_block_payload := 8 * 1024 |>
    <| vo_persistence_quantum := 4096 |>.
Definition open_options : OpenOptions :=
  OpenOptions_default <| oo_writable := true |>
    <| oo_next_partition := default_PartitionOptions
         <| po_record_format_id := kFramedRecordV1ProfileId |>
         <| po_record_format_version := 1 |> <| po_time_domain_id := 1 |> |>.
Definition writer_options : AsyncWriterOptions :=
  mkAsyncWriterOptions 16 (64 * 1024) 250 false.
Definition contract : AppendContract := mkAppendContract kFramedRecordV1ProfileId 1 1.
Definition payload (ordinal : Z) : string := "sample=" +:+ pretty ordinal.
Definition query : RecordQuery :=
  mkRecordQuery (mkTimeRange kBaseTimeNs (kBaseTimeNs + 10) 1) [kSelector] QueryOptions_default.

Section Threads.
Context {K : Type} `{!Posix K}.
Variable now : nat -> Z.
Abbreviation file := (FileStorage.file K).
Abbreviation system := (System file).

(** One action of the background thread, with the clock readings it takes; or
    an exception out of its store calls, which leaves the store as it may. *)
Inductive tick :=
| tick_go (first second third : Z)
| tick_throw (what : option string) (left_behind : Impl file).

Definition thread_step (t : tick) (y : system) : system :=
  match t, sy_pc y with
  | tick_go started _ _, pc_spawned => with_pc (sy_writer y) (pc_waiting started) y
  | tick_go woken now_ns dequeued_at, pc_waiting started =>
      if AsyncWriter.wake started woken (sy_writer y) then
        let '(turn, w) := AsyncWriter.decide started now_ns dequeued_at (sy_writer y) in
        with_pc w (pc_working turn started) y
      else y
  | tick_go _ _ _, pc_working turn started =>
      let '(status, s) := AsyncWriter.work now turn (sy_store y) in
      worked turn status s started y
  | tick_go durable_at _ _, pc_completing turn status started =>
      let '(next, w) := AsyncWriter.complete turn status started durable_at (sy_writer y) in
      with_pc w (pc_of_interval next) y
  | tick_throw what s, pc_working _ _ =>
      mkSystem (AsyncWriter.run_catch what (sy_writer y)) s pc_none (sy_past y) (sy_accepted y)
        (sy_appended y) (sy_durable y) (sy_settled y)
  | _, _ => y
  end.

(** What the background thread does before a critical section of the main
    thread, and the clock that section reads. *)
Record slot := mkSlot { sl_ticks : list tick; sl_now : Z }.

Definition background (ticks : list tick) (y : system) : system :=
  foldl (fun y t => thread_step t y) y ticks.

(** The program between the constructor and the destructor of [writer]. *)
Record phase := mkPhase {
  px_system : system;
  px_schedule : list slot;
  px_world : world K }.

Definition on_world {A} (m : tool (world K) A) : run phase A := fun x =>
  let '(r, w) := m (px_world x) in Some (r, mkPhase (px_system x) (px_schedule x) w).

(** One critical section. *)
Definition section {A} (f : Z -> system -> A * system) : run phase A := fun x =>
  match px_schedule x with
  | [] => None
  | sl :: rest =>
      let '(a, y) := f (sl_now sl) (background (sl_ticks sl) (px_system x)) in
      Some (inr a, mkPhase y rest (px_world x))
  end.

(** Blocked until [ready]. *)
Fixpoint wait_slots (ready : system -> bool) (schedule : list slot) (y : system)
    : option (system * list slot) :=
  match schedule with
  | [] => None
  | sl :: rest =>
      let y := background (sl_ticks sl) y in
      if ready y then Some (y, rest) else wait_slots ready rest y
  end.
Definition wait (ready : system -> bool) : run phase system := fun x =>
  match wait_slots ready (px_schedule x) (px_system x) with
  | None => None
  | Some (y, rest) => Some (inr y, mkPhase y rest (px_world x))
  end.

(** ** The calls of the writer *)

Definition start : run phase Status := section (fun _ y =>
  let '(status, w) := AsyncWriter.start (sy_store y) (sy_writer y) in
  (status, if status_ok status then restarted w y else with_writer w y)).

Definition submit_checked (record : ByteView) (time : Z) (expected : AppendContract)
    : run phase Status := section (fun now_ns y =>
  let '(status, w) := AsyncWriter.submit_checked record time expected 0 now_ns (sy_writer y) in
  (status, submitted w y)).

Definition checkpoint : run phase Status :=
  r ← section (fun _ y =>
        let '(r, w) := AsyncWriter.checkpoint_request (sy_writer y) in (r, with_writer w y));
  match r with
  | Err status => mret status
  | Ok target =>
      y ← wait (fun y => AsyncWriter.checkpoint_wait target (sy_writer y));
      mret (AsyncWriter.checkpoint_return target (sy_writer y))
  end.

Definition stop : run phase Status :=
  section (fun _ y => (tt, with_writer (AsyncWriter.stop_request (sy_writer y)) y));;
  y ← wait (fun y => match sy_pc y with pc_none => true | _ => false end);
  mret (AsyncWriter.background_status (sy_writer y)).

Definition metrics : run phase AsyncWriterMetrics := section (fun now_ns y =>
  (AsyncWriter.metrics now_ns (sy_writer y), y)).

(** The destructor of the writer stops it, on every way out. *)
Definition destroying {A} (m : run phase A) : run phase A := fun x =>
  match m x with
  | None => None
  | Some (r, x) =>
      match stop x with
      | None => None
      | Some (_, x) => Some (r, x)
      end
  end.

(** ** The program *)

Definition require (status : Status) (operation : string) : run phase unit :=
  on_world (Quickstart.require operation (if status_ok status then Ok tt else Err status)).

(** A full queue is drained once and the record submitted once more. *)
Definition retried (submitted : Status) (record : ByteView) (time : Z) : run phase Status :=
  if code_eqb (code submitted) StatusCode.busy then
    status ← checkpoint;
    require status "checkpoint after backpressure";;
    submit_checked record time contract
  else mret submitted.

Definition submit_sample (ordinal : Z) : run phase unit :=
  let time := kBaseTimeNs + ordinal in
  let '(status, encoded) :=
    FramedRecordV1.encode time kSelector 0 (View (string_bytes (payload ordinal))) (Some []) in
  require status "encode framed record";;
  let encoded := default [] encoded in
  submitted ← submit_checked (View encoded) time contract;
  submitted ← retried submitted (View encoded) time;
  require submitted "submit record".

Fixpoint submit_samples (ordinals : list Z) : run phase unit :=
  match ordinals with
  | [] => mret tt
  | ordinal :: rest => submit_sample ordinal;; submit_samples rest
  end.

Definition writer_body : run phase AsyncWriterMetrics :=
  status ← start;
  require status "start async writer";;
  submit_samples (seqZ 0 10);;
  status ← checkpoint;
  require status "async checkpoint";;
  status ← stop;
  require status "stop async writer";;
  m ← metrics;
  if negb (durable_sequence m =? 10) || negb (background_errors m =? 0)
  then on_world (to_cerr ("unexpected writer metrics" +:+ newline));; on_world (exit 3)
  else mret m.
Definition writer_scope : run phase AsyncWriterMetrics := destroying writer_body.

(** The scope on the store it writes to. *)
Definition write_async (schedule : list slot) (s : Impl file)
    : run (world K) (Impl file * AsyncWriterMetrics) := fun w =>
  match writer_scope (mkPhase (initial writer_options s afresh) schedule w) with
  | None => None
  | Some (r, x) =>
      let s := sy_store (px_system x) in
      Some (match r with inl exit_code => inl exit_code | inr m => inr (s, m) end,
            (px_world x) <| w_kernel := FileStorage.kernel (storage s) |>)
  end.

Definition closing_run {A} (f : FileStorage.t) (m : run (world K) A) : run (world K) A := fun w =>
  match m w with
  | None => None
  | Some (r, w) => Some (r, w <| w_kernel ::= FileStorage.destroy f |>)
  end.

Variables volume_id writer_random : result (Z * Z).

Definition require_format (f : FileStorage.t) : tool (world K) unit := fun w =>
  let '(status, st) := format volume volume_id (FileStorage.mkFile f (w_kernel w)) in
  Quickstart.require "format storage" (if status_ok status then Ok tt else Err status)
    (w <| w_kernel := FileStorage.kernel st |>).

Definition write_phase (schedule : list slot) (path : string) : run (world K) AsyncWriterMetrics :=
  f ← lift (Quickstart.require_kernel "create storage" (FileStorage.create path (3 * kMiB) false));
  closing_run f (
    lift (require_format f);;
    s ← lift (Quickstart.require_open now writer_random "open store" open_options f);
    r ← write_async schedule s;
    lift (Quickstart.require_call "close writable store" (close now) (fst r));;
    mret (snd r)).

(** What the visitor of the query captures. *)
Record captured := mkCaptured { matches : Z; saw_gap : bool; cerr : string }.

Definition visitor (event : RecordEvent) (c : captured) : bool * captured :=
  (true,
   if negb (bool_decide (re_kind event = ev_data))
   then mkCaptured (matches c) true
          (cerr c +:+ "query gap: " +:+ message (re_detail event) +:+ newline)
   else mkCaptured (u64 (matches c + 1)) (saw_gap c) (cerr c)).

Definition run_query (s : Impl file) : tool (world K) (Impl file) := fun w =>
  let '(status, (s, c)) := query_records visitor query FramedRecordV1.profile s
                             (mkCaptured 0 false (w_cerr w)) in
  (Quickstart.require "query records" (if status_ok status then Ok tt else Err status);;
   (if saw_gap c || negb (matches c =? 10)
    then to_cerr ("unexpected query result: matches=" +:+ pretty (matches c) +:+
                  " gap=" +:+ (if saw_gap c then "1" else "0") +:+ newline);; exit 4
    else mret s))
  (mkWorld (FileStorage.kernel (storage s)) (w_cout w) (cerr c)).

Definition report (m : AsyncWriterMetrics) : string :=
  "durable records=" +:+ pretty (durable_sequence m) +:+
  " checkpoints=" +:+ pretty (checkpoint_calls m) +:+ newline.

Definition read_phase (path : string) (m : AsyncWriterMetrics) : tool (world K) unit :=
  f ← Quickstart.require_kernel "reopen storage read-only" (FileStorage.open_existing path false);
  closing f (
    s ← Quickstart.require_open now writer_random "reopen store read-only" OpenOptions_default f;
    s ← run_query s;
    Quickstart.require_call "close read-only store" (close now) s;;
    to_cout (report m)).

Definition program (schedule : list slot) (argv : list string) : run (world K) unit :=
  match argv with
  | [path] => m ← write_phase schedule path; lift (read_phase path m)
  | _ => lift (to_cerr ("usage: tfdb_async_writer NEW_STORE_PATH" +:+ newline);; exit 2)
  end.

Definition main (schedule : list slot) (argv : list string) (w : world K) : option (Z * world K) :=
  match program schedule argv w with
  | None => None
  | Some (inl exit_code, w) => Some (exit_code, w)
  | Some (inr _, w) => Some (0, w)
  end.
End Threads.
End AsyncExample.
