(* ===== verification/ExamplesAsyncFacts.v ===== *)
(** * The asynchronous writer example reads back what it wrote

    [live n fl y]: the writer thread has accepted the first [n] records of the
    program, the first [fl] of them are durable, and the store holds the
    appended ones in framed blocks. Every action of the background thread
    keeps it, whatever the schedule. *)

From stdpp Require Import gmap pretty.
From S2P Require Import Prelude Status Hoare Crc32c Layout Format FormatFacts Codec Storage.
From S2P Require Import FileStorage FileStorageFacts FileNames.
From S2P Require Import RingTypes RingWriter RingReader RingOpen RingRules RingGeometry RingInv.
From S2P Require Import RingHealth RingWriterFacts RingCalls RingLog RingRefine RingVolume.
From S2P Require Import RingSession RecordProfile RecordFacts Tools Examples ExamplesFacts.
From S2P Require Import RingErrors AsyncWriter AsyncSystem AsyncFacts AsyncFlow AsyncInv.
From S2P Require Import ExamplesAsync.

Module AsyncExampleFacts.
Import AsyncExample QuickstartFacts.

(** ** The records of the program *)

Definition sample (ordinal : Z) : RecordView :=
  framed_view (kBaseTimeNs + ordinal) kSelector (payload ordinal).
Definition samples : list RecordView := map sample (seqZ 0 10).

Lemma samples_length : length samples = 10%nat.
Proof. reflexivity. Qed.
Lemma samples_lookup n : 0 <= n < 10 -> samples !! Z.to_nat n = Some (sample n).
Proof.
  intros H. unfold samples. rewrite list_lookup_fmap, lookup_seqZ_lt by lia. cbn. do 3 f_equal. lia.
Qed.
Lemma payload_size n : 0 <= n < 10 -> len (string_bytes (payload n)) <= 68.
Proof.
  intros H. assert (Hb : forallb (fun n => len (string_bytes (payload n)) <=? 68) (seqZ 0 10) = true)
    by (vm_compute; reflexivity).
  rewrite forallb_forall in Hb. specialize (Hb n). apply Z.leb_le, Hb, list_elem_of_In, elem_of_seqZ. lia.
Qed.
Lemma sample_framed n : 0 <= n < 10 -> FramedFacts.framed (sample n).
Proof.
  intros H. pose proof (payload_size n H). apply framed_view_ok; [|vm_compute; split; congruence|lia].
  unfold is_i64, kBaseTimeNs. lia.
Qed.
Lemma sample_encoded n : 0 <= n < 10 ->
  FramedRecordV1.encode (kBaseTimeNs + n) kSelector 0 (View (string_bytes (payload n))) (Some []) =
    (Status_Ok, Some (rv_encoded (sample n))) /\ len (rv_encoded (sample n)) <= 100.
Proof.
  intros H. pose proof (payload_size n H) as Hp. pose proof (sample_framed n H) as Hf. split.
  - apply FramedFacts.encode_fits, (FramedFacts.fm_payload _ Hf).
  - rewrite (FramedFacts.framed_len _ Hf). cbn [sample framed_view rv_payload]. lia.
Qed.
Lemma samples_all (P : RecordView -> Prop) : (forall n, 0 <= n < 10 -> P (sample n)) -> Forall P samples.
Proof.
  intros H. apply Forall_forall. intros r Hr. unfold samples in Hr. apply list_elem_of_fmap in Hr as (n&->&Hn).
  apply elem_of_seqZ in Hn. apply H. lia.
Qed.

(** The records in blocks. *)
Definition ablock_of (rs : list RecordView) : ablock :=
  mkAblock (FramedFacts.block_of rs) (map rv_index_time_ns rs).

Lemma block_size rs : Forall (fun r => len (rv_encoded r) <= 100) rs ->
  len (FramedFacts.block_of rs) <= 100 * len rs.
Proof.
  unfold FramedFacts.block_of. induction 1 as [|r rs Hr Hrs IH]; [done|]. cbn [map concat].
  rewrite len_app, len_cons. lia.
Qed.
Lemma blocks_count {A} (rss : list (list A)) : Forall (fun rs => rs <> []) rss -> len rss <= len (concat rss).
Proof.
  induction 1 as [|rs rss Hne _ IH]; [done|]. cbn [concat]. rewrite len_cons, len_app.
  destruct rs as [|r rs]; [done|]. rewrite len_cons. pose proof (len_nonneg rs). lia.
Qed.
Lemma take_samples_size k : len (take k samples) <= 10.
Proof. unfold len. rewrite length_take, samples_length. lia. Qed.

(** ** The background thread *)

Section Threads.
Context {K : Type} `{!Posix K, !PosixModel K, !PosixReliable K, !PosixFiles K}.
Variable now : nat -> Z.
Variable path : string.
Variable f : FileStorage.t.
Implicit Types y : System (FileStorage.file K).

(** The store holds the first [k] records, [rss] of them published. *)
Definition stored (k : nat) (s : Impl (FileStorage.file K)) : Prop :=
  exists rss rs, open_on path f (map ablock_of rss) (ablock_of rs) s /\
    Forall (fun rs => rs <> []) rss /\ concat rss ++ rs = take k samples.

Definition item_is (it : Item) (r : RecordView) : Prop :=
  it_bytes it = rv_encoded r /\ it_time_ns it = rv_index_time_ns r.

Abbreviation fine y := (status_ok (AsyncWriter.background_status_ (sy_writer y)) = true).

Record live (n floor : Z) y : Prop := {
  lv_sys : sys_ok (StorageModel0 := named_model path f) writer_options y;
  lv_items : Forall2 item_is (sy_accepted y) (take (Z.to_nat n) samples);
  lv_errors : fine y -> background_errors (AsyncWriter.metrics_ (sy_writer y)) = 0;
  lv_floor : fine y -> floor <= len (sy_durable y);
  lv_store : fine y -> failing (sy_pc y) = false -> stored (length (sy_appended y)) (sy_store y) }.

Lemma stored_append k s it r s' : stored k s -> samples !! k = Some r -> item_is it r ->
  AsyncWriter.append_item now it s = (Ok tt, s') -> stored (S k) s'.
Proof.
  intros (rss&rs&[(v&x&Hse&Hmax&Hfits) [Hw Hc]]&Hne&Heq) Hr [Hb Ht] E.
  pose proof (take_samples_size k) as Hk. rewrite <- Heq, len_app in Hk.
  pose proof (blocks_count _ Hne). pose proof (len_nonneg rs). pose proof (len_nonneg (concat rss)).
  assert (Hall : Forall (fun r => len (rv_encoded r) <= 100 /\ FramedFacts.framed r) samples)
    by (apply samples_all; intros; split; [by apply sample_encoded|by apply sample_framed]).
  pose proof (proj1 (Forall_lookup _ _) Hall _ _ Hr) as [Hsz Hfr].
  assert (Hrs : len (FramedFacts.block_of rs) <= 100 * len rs).
  { apply block_size. apply (Forall_take _ k) in Hall. rewrite <- Heq, Forall_app in Hall.
    eapply Forall_impl; [apply Hall|]. by intros ? [? _]. }
  assert (Hi : append_impl now (View (rv_encoded r)) (rv_index_time_ns r) (it_flags it)
    (if it_checked it then Some (it_contract it) else None) s = (Ok tt, s')).
  { unfold AsyncWriter.append_item in E. rewrite Hb, Ht in E. destruct (it_checked it); [by apply append_checked_impl|exact E]. }
  destruct (append_session (StorageModel0 := named_model path f) now v _ (map ablock_of rss) (ablock_of rs) s x
    (View (rv_encoded r)) (rv_index_time_ns r) (it_flags it)
    (if it_checked it then Some (it_contract it) else None) s' Hse) as [Hse' [Hw' Hc']]; [| | |exact Hi|].
  - split; [by apply FramedFacts.framed_ok|apply (FramedFacts.fm_time _ Hfr)].
  - rewrite Hmax. cbn [ablock_of ab_data view_size]. lia.
  - apply Hfits. unfold len in *. rewrite length_map. lia.
  - exists rss, (rs ++ [r]). split; [|split; [done|]].
    + split; [|by rewrite Hw', Hc']. exists v, x. split; [|done]. unfold ablock_of at 2.
      rewrite block_of_app, map_app. unfold FramedFacts.block_of at 2. cbn [map concat]. by rewrite app_nil_r.
    + by rewrite app_assoc, Heq, (take_S_r _ _ _ Hr).
Qed.

Lemma framed_nonempty r : FramedFacts.framed r -> rv_encoded r <> [].
Proof.
  intros Hf E. pose proof (FramedFacts.framed_len _ Hf) as H. rewrite E, len_nil in H.
  pose proof (len_nonneg (rv_payload r)). lia.
Qed.
Lemma publish_records rss rs : Forall FramedFacts.framed rs ->
  exists rss', publish_block (map ablock_of rss) (ablock_of rs) = map ablock_of rss' /\
    concat rss' = concat rss ++ rs /\
    (Forall (fun rs => rs <> []) rss -> Forall (fun rs => rs <> []) rss').
Proof.
  intros Hf. unfold publish_block. destruct rs as [|r rs].
  - exists rss. by rewrite app_nil_r.
  - exists (rss ++ [r :: rs]). rewrite map_app, concat_app. cbn [map concat]. rewrite app_nil_r. split; [|split; [done|]].
    + cbn [ablock_of ab_data FramedFacts.block_of map concat]. apply Forall_cons in Hf as [Hr _].
      unfold ablock_of at 1. unfold FramedFacts.block_of. cbn [ab_data map concat].
      destruct (rv_encoded r) as [|b bs] eqn:E; [by apply framed_nonempty in Hr|done].
    + intros Hne. apply Forall_app. split; [done|]. by constructor.
Qed.

Lemma stored_checkpoint k s s' : stored k s -> RingWriter.checkpoint now s = (Ok tt, s') -> stored k s'.
Proof.
  intros (rss&rs&Ho&Hne&Heq) E.
  assert (Hf : Forall FramedFacts.framed rs).
  { assert (H : Forall FramedFacts.framed (take k samples)) by (apply Forall_take, samples_all, sample_framed).
    rewrite <- Heq, Forall_app in H. apply H. }
  destruct (publish_records rss rs Hf) as (rss'&Hp&Hc&Hne').
  exists rss', []. rewrite app_nil_r, Hc. split; [|split; [by apply Hne'|done]].
  rewrite <- Hp. exact (open_on_checkpoint now path f _ _ s s' Ho E).
Qed.

(** A turn of the thread. *)
Lemma stored_work k turn s status s' : stored k s -> health_ok s -> turn_ok turn ->
  (forall it, AsyncWriter.tn_item turn = Some it -> exists r, samples !! k = Some r /\ item_is it r) ->
  AsyncWriter.work now turn s = (status, s') -> status_ok status = true ->
  stored (k + length (turn_items turn)) s'.
Proof.
  intros Hs Hh [Hto _] Hit E Hok. unfold AsyncWriter.work, turn_items in *.
  destruct (AsyncWriter.tn_item turn) as [it|].
  - destruct (AsyncWriter.tn_do_checkpoint turn); [by specialize (Hto eq_refl)|].
    destruct (Hit it eq_refl) as (r&Hr&Hir). cbn [length]. rewrite Nat.add_1_r.
    destruct (AsyncWriter.append_item now it s) as [[[]|e] s1] eqn:Ea; injection E as <- <-; [by eapply stored_append|].
    rewrite append_item_call in Ea. pose proof (run_call_errors now _ s _ _ Hh Ea). congruence.
  - cbn [length]. rewrite Nat.add_0_r. destruct (AsyncWriter.tn_do_checkpoint turn); [|by injection E as _ <-].
    destruct (RingWriter.checkpoint now s) as [[[]|e] s1] eqn:Ec; injection E as <- <-; [by eapply stored_checkpoint|].
    pose proof (run_call_errors now call_checkpoint s _ _ Hh Ec). congruence.
Qed.

Lemma thread_step_steps t y : thread_step now t y = y \/ step now y (thread_step now t y).
Proof.
  unfold thread_step. destruct t as [a b c|what s], (sy_pc y) eqn:Hpc; try (by left).
  - right. by apply step_run.
  - destruct (AsyncWriter.wake _ _ _) eqn:Ew; [right|by left].
    destruct (AsyncWriter.decide _ _ _ _) as [turn w] eqn:Ed. by eapply step_decide.
  - right. destruct (AsyncWriter.work _ _ _) as [status s] eqn:Ew. by eapply step_work.
  - right. destruct (AsyncWriter.complete _ _ _ _ _) as [next w] eqn:Ec. by eapply step_complete.
  - right. by eapply step_throw.
Qed.
Lemma thread_step_accepted t y : sy_accepted (thread_step now t y) = sy_accepted y.
Proof. unfold thread_step. destruct t, (sy_pc y); try done; repeat case_match; done. Qed.

Lemma writer_caps : caps_ok writer_options.
Proof. vm_compute. split_and!; congruence. Qed.
Lemma accepted_bound n y : Forall2 item_is (sy_accepted y) (take n samples) -> len (sy_accepted y) < 2 ^ 64.
Proof. intros H. apply Forall2_length in H. pose proof (take_samples_size n). unfold len in *. lia. Qed.

Lemma thread_step_sys t n floor y : live n floor y ->
  sys_ok (StorageModel0 := named_model path f) writer_options (thread_step now t y).
Proof.
  intros Hl. destruct (thread_step_steps t y) as [->|Hs]; [apply Hl|].
  eapply (sys_ok_step (StorageModel0 := named_model path f) now); [exact writer_caps|apply Hl|]. split; [exact Hs|].
  rewrite thread_step_accepted. eapply accepted_bound, Hl.
Qed.

(** The counters that only failures and checkpoints change. *)
Lemma complete_errors turn status started at_ w next w' : status_ok status = true ->
  AsyncWriter.complete turn status started at_ w = (next, w') ->
  background_errors (AsyncWriter.metrics_ w') = background_errors (AsyncWriter.metrics_ w).
Proof.
  intros Hs H. rewrite complete_unfold, Hs in H. cbn [negb] in H. cbv zeta in H.
  assert (Hc : forall w, background_errors (AsyncWriter.metrics_ (counted turn w)) =
    background_errors (AsyncWriter.metrics_ w)).
  { intros w0. unfold counted. by destruct (AsyncWriter.tn_item turn). }
  assert (Hk : forall w, background_errors (AsyncWriter.metrics_ (AsyncWriter.complete_checkpoint at_ w)) =
    background_errors (AsyncWriter.metrics_ w)).
  { intros w0. unfold AsyncWriter.complete_checkpoint. cbv zeta. simpl. repeat case_match; done. }
  destruct (AsyncWriter.tn_do_checkpoint turn), (AsyncWriter.tn_exit_after_checkpoint turn);
    injection H as <- <-; cbn [AsyncWriter.metrics_]; rewrite <- ?(Hc w), <- ?(Hk (counted turn w)); done.
Qed.

(** ** Every action keeps [live] *)

Lemma live_same n floor y y' : live n floor y ->
  sys_ok (StorageModel0 := named_model path f) writer_options y' ->
  sy_accepted y' = sy_accepted y -> sy_durable y' = sy_durable y -> sy_appended y' = sy_appended y ->
  (fine y' -> sy_store y' = sy_store y) ->
  (fine y' -> fine y /\ background_errors (AsyncWriter.metrics_ (sy_writer y')) =
                        background_errors (AsyncWriter.metrics_ (sy_writer y)) /\
     (failing (sy_pc y') = false -> failing (sy_pc y) = false)) -> live n floor y'.
Proof.
  intros [Hs Hi He Hf Hst] Hs' Ea Ed Ep Est Hfine. split; [done|by rewrite Ea|..].
  - intros H. destruct (Hfine H) as (H1&->&_). auto.
  - intros H. rewrite Ed. apply Hf, Hfine, H.
  - intros H Hnf. rewrite Ep, (Est H). destruct (Hfine H) as (H1&_&H2). auto.
Qed.

Lemma live_work n floor y turn started status s' : live n floor y -> sy_pc y = pc_working turn started ->
  AsyncWriter.work now turn (sy_store y) = (status, s') ->
  sys_ok (StorageModel0 := named_model path f) writer_options (worked turn status s' started y) ->
  live n floor (worked turn status s' started y).
Proof.
  intros [Hs Hi He Hf Hst] Hpc Ew Hs'. split; [done|done|done|..]; cbn; intros Hok.
  - pose proof (si_flow _ _ Hs Hok) as Hfl. destruct (fl_durable _ _ _ _ _ Hfl) as [rest Hr].
    specialize (Hf Hok). destruct (status_ok status); cbn [andb]; [|done].
    destruct (AsyncWriter.tn_do_checkpoint turn); [|done]. rewrite Hr, !len_app in *.
    pose proof (len_nonneg rest). pose proof (len_nonneg (turn_items turn)). lia.
  - intros Hnf. apply negb_false_iff in Hnf. rewrite Hnf, length_app.
    rewrite Hpc in Hst. pose proof (si_flow _ _ Hs Hok) as Hfl. rewrite Hpc in Hfl.
    pose proof (si_store _ _ Hs Hok) as Hho. rewrite Hpc in Hho. destruct (Hho eq_refl) as (Hh&_).
    destruct (fl_turn _ _ _ _ _ Hfl turn eq_refl) as [Hto _].
    eapply stored_work; [by apply Hst|exact Hh|exact Hto| |exact Ew|exact Hnf].
    intros it Hit. pose proof (fl_split _ _ _ _ _ Hfl) as Hsp. cbn [in_flight] in Hsp.
    unfold turn_items in Hsp. rewrite Hit in Hsp. cbn [app] in Hsp.
    assert (Hl : sy_accepted y !! length (sy_appended y) = Some it) by (rewrite Hsp; by apply list_lookup_middle).
    destruct (Forall2_lookup_l _ _ _ _ _ Hi Hl) as (r&Hr&Hir). exists r. split; [|done].
    by apply lookup_take_Some in Hr as [Hr _].
Qed.

Lemma thread_step_live t n floor y : live n floor y -> live n floor (thread_step now t y).
Proof.
  intros Hl. pose proof (thread_step_sys t n floor y Hl) as Hs. unfold thread_step in *.
  destruct t as [a b c|what s], (sy_pc y) as [| |started|turn started|turn status started] eqn:Hpc; try exact Hl.
  - apply (live_same n floor y); [done|done|done..|]. rewrite Hpc. done.
  - destruct (AsyncWriter.wake _ _ _); [|exact Hl]. destruct (AsyncWriter.decide _ _ _ _) as [turn w] eqn:Ed.
    apply (live_same n floor y); [done|done|done..|]. cbn.
    destruct (decide_cases _ _ _ _ _ _ Ed) as (_&_&[[-> _]|(it&rest&_&_&->)]); by rewrite Hpc.
  - destruct (AsyncWriter.work _ _ _) as [status s] eqn:Ew. by apply live_work.
  - destruct (AsyncWriter.complete _ _ _ _ _) as [next w] eqn:Ec.
    apply (live_same n floor y); [done|done|done..|]. cbn. rewrite Hpc. cbn [failing].
    destruct (status_ok status) eqn:Es.
    + destruct (complete_next _ _ _ _ _ _ _ Es Ec) as (_&->&_). rewrite (complete_errors _ _ _ _ _ _ _ Es Ec). done.
    + unfold AsyncWriter.complete in Ec. rewrite Es in Ec. injection Ec as <- <-. cbn. by rewrite Es.
  - apply (live_same n floor y); [done|done|done|done|done|..]; cbn; by destruct what.
Qed.

Lemma background_live ticks n floor y : live n floor y -> live n floor (background now ticks y).
Proof.
  unfold background. revert y. induction ticks as [|t ticks IH]; intros y H; [done|].
  cbn [foldl]. by apply IH, thread_step_live.
Qed.
(** The thread is gone. *)
Lemma background_none ticks y : sy_pc y = pc_none -> background now ticks y = y.
Proof.
  intros H. unfold background. induction ticks as [|t ticks IH]; [done|]. cbn [foldl].
  unfold thread_step. rewrite H. by destruct t.
Qed.

(** ** The calls of the main thread *)

(** [runs E m Q]: [m] ends in [Q], throws in a state of [E], or its schedule
    is not long enough. *)
Definition runs {W A} (E : W -> Prop) (m : run W A) (Q : A -> W -> Prop) (w : W) : Prop :=
  match m w with
  | None => True
  | Some (inl exit_code, w') => exit_code = 1 /\ E w'
  | Some (inr a, w') => Q a w'
  end.

Lemma runs_ret {W A} E (a : A) Q (w : W) : Q a w -> runs E (mret a) Q w.
Proof. done. Qed.
Lemma runs_bind {W A B} E (m : run W A) (k : A -> run W B) Q w :
  runs E m (fun a => runs E (k a) Q) w -> runs E (m ≫= k) Q w.
Proof. unfold runs, mbind, run_bind. by destruct (m w) as [[[] ]|]. Qed.
Lemma runs_conseq {W A} E (m : run W A) (Q Q' : A -> W -> Prop) w :
  runs E m Q w -> (forall a w', Q a w' -> Q' a w') -> runs E m Q' w.
Proof. unfold runs. destruct (m w) as [[[] ]|]; auto. Qed.
Lemma runs_lift {A} (m : tool (world K) A) (Q : A -> world K -> Prop) w :
  must m Q w -> runs (fun _ => True) (lift m) Q w.
Proof. unfold must, runs, lift. by destruct (m w) as [[] ]. Qed.

Abbreviation phase := (AsyncExample.phase (K := K)).
Implicit Types x : phase.

Definition at_ (n floor : Z) (w : world K) x : Prop := live n floor (px_system x) /\ px_world x = w.
Definition good x : Prop := exists n floor, live n floor (px_system x).

Lemma runs_require n floor w status op (Q : unit -> phase -> Prop) x : at_ n floor w x ->
  (status_ok status = true -> Q tt x) -> runs good (require status op) Q x.
Proof.
  intros [Hl _] H. unfold runs, require, on_world. destruct (status_ok status).
  - cbn. destruct x. by apply H.
  - split; [done|]. by exists n, floor.
Qed.

Lemma runs_section {A} n floor w (g : Z -> System (FileStorage.file K) -> A * System (FileStorage.file K)) Q x :
  at_ n floor w x ->
  (forall clock y rest, live n floor y -> (sy_pc (px_system x) = pc_none -> y = px_system x) ->
     Q (fst (g clock y)) (mkPhase (snd (g clock y)) rest w)) ->
  runs good (section now g) Q x.
Proof.
  intros [Hl <-] H. unfold runs, section. destruct (px_schedule x) as [|sl rest]; [done|].
  specialize (H (sl_now sl) (background now (sl_ticks sl) (px_system x)) rest (background_live _ _ _ _ Hl)).
  destruct (g _ _) as [a y]. apply H. by apply background_none.
Qed.

Lemma runs_wait n floor w ready Q x : at_ n floor w x ->
  (forall y rest, live n floor y -> ready y = true -> (sy_pc (px_system x) = pc_none -> y = px_system x) ->
     Q y (mkPhase y rest w)) ->
  runs good (wait now ready) Q x.
Proof.
  destruct x as [y sch w0]. intros [Hl Hw] H. cbn in Hl, Hw, H. subst w0. unfold runs, wait.
  cbn [px_schedule px_system px_world].
  assert (Hs : forall sch y1, live n floor y1 -> (sy_pc y = pc_none -> y1 = y) ->
    match wait_slots now ready sch y1 with
    | None => True
    | Some (y', _) => live n floor y' /\ ready y' = true /\ (sy_pc y = pc_none -> y' = y)
    end).
  { clear sch H. induction sch as [|sl rest IH]; intros y1 H1 Hn; [done|]. cbn [wait_slots].
    assert (Hb : sy_pc y = pc_none -> background now (sl_ticks sl) y1 = y)
      by (intros Hp; rewrite (Hn Hp); by apply background_none).
    destruct (ready _) eqn:Er; [by split; [apply background_live|]|].
    apply IH; [by apply background_live|done]. }
  specialize (Hs sch y Hl (fun _ => eq_refl)). destruct (wait_slots _ _ _ _) as [[y' rest]|]; [|done].
  destruct Hs as (?&?&?). by apply H.
Qed.

(** [submit_checked] of the next record. *)
Lemma take_next n : 0 <= n < 10 ->
  take (Z.to_nat (n + 1)) samples = take (Z.to_nat n) samples ++ [sample n].
Proof.
  intros H. replace (Z.to_nat (n + 1)) with (S (Z.to_nat n)) by lia. by apply take_S_r, samples_lookup.
Qed.

Lemma submit_errors record time flags expected clock w status w' :
  AsyncWriter.submit_impl record time flags expected clock w = (status, w') ->
  background_errors (AsyncWriter.metrics_ w') = background_errors (AsyncWriter.metrics_ w).
Proof.
  unfold AsyncWriter.submit_impl. cbv zeta. intros H.
  repeat case_match; injection H as <- <-; done.
Qed.

Lemma live_submit n floor y clock status w' : 0 <= n < 10 -> live n floor y ->
  AsyncWriter.submit_checked (View (rv_encoded (sample n))) (kBaseTimeNs + n) contract 0 clock (sy_writer y) =
    (status, w') ->
  live (if status_ok status then n + 1 else n) floor (submitted w' y).
Proof.
  intros Hn Hl E. pose proof (sample_framed n Hn) as Hf. unfold AsyncWriter.submit_checked in E.
  assert (Hro : record_ok (View (rv_encoded (sample n))) (kBaseTimeNs + n))
    by (split; [by apply FramedFacts.framed_ok|apply (FramedFacts.fm_time _ Hf)]).
  pose proof (step_submit now y _ _ _ _ _ _ _ Hro E) as Hst. pose proof (submit_errors _ _ _ _ _ _ _ _ E) as Her.
  assert (Hsys : forall k, Forall2 item_is (sy_accepted (submitted w' y)) (take k samples) ->
    sys_ok (StorageModel0 := named_model path f) writer_options (submitted w' y)).
  { intros k Hk. eapply (sys_ok_step (StorageModel0 := named_model path f) now); [exact writer_caps|apply Hl|].
    split; [exact Hst|]. by eapply accepted_bound. }
  pose proof (lv_items _ _ _ Hl) as Hit.
  apply submit_cases in E as [[-> Hw]|(->&_&it&Hb&Ht&_&_&Hen)].
  - assert (Ha : sy_accepted (submitted w' y) = sy_accepted y).
    { cbn. destruct Hw as [->| ->]; cbn; by rewrite drop_all, app_nil_r. }
    apply (live_same n floor y); [done| |exact Ha|done|done|done|].
    + apply (Hsys (Z.to_nat n)). by rewrite Ha.
    + cbn. destruct Hw as [->| ->]; done.
  - assert (Ha : sy_accepted (submitted w' y) = sy_accepted y ++ [it]).
    { cbn. by rewrite (en_queue _ _ _ Hen), drop_app_length. }
    assert (Hit' : Forall2 item_is (sy_accepted (submitted w' y)) (take (Z.to_nat (n + 1)) samples)).
    { rewrite Ha, take_next by done. apply Forall2_app; [done|]. constructor; [by split|constructor]. }
    destruct Hl as [Hs _ He Hfl Hsto]. destruct (en_rest _ _ _ Hen) as (_&_&_&_&_&_&_&Ebs&_).
    cbn [status_ok]. split; [by eapply Hsys|exact Hit'|..]; cbn; rewrite Ebs, ?Her; done.
Qed.

Lemma runs_submit n floor w x : 0 <= n < 10 -> at_ n floor w x ->
  runs good (submit_checked now (View (rv_encoded (sample n))) (kBaseTimeNs + n) contract)
    (fun status => at_ (if status_ok status then n + 1 else n) floor w) x.
Proof.
  intros Hn Hx. eapply runs_section; [exact Hx|]. intros clock y rest Hl _.
  destruct (AsyncWriter.submit_checked _ _ _ _ _ _) as [status w'] eqn:E. split; [|done].
  by eapply live_submit.
Qed.

(** A step of the main thread that leaves the store and its records alone. *)
Lemma live_request n floor y w' : live n floor y -> step now y (with_writer w' y) ->
  AsyncWriter.background_status_ w' = AsyncWriter.background_status_ (sy_writer y) ->
  AsyncWriter.metrics_ w' = AsyncWriter.metrics_ (sy_writer y) -> live n floor (with_writer w' y).
Proof.
  intros Hl Hs Hb Hm. apply (live_same n floor y); [done| |done|done|done|done|].
  - eapply (sys_ok_step (StorageModel0 := named_model path f) now); [exact writer_caps|apply Hl|]. split; [exact Hs|].
    eapply accepted_bound, Hl.
  - cbn. rewrite Hb, Hm. done.
Qed.

Lemma live_accepted n floor y : 0 <= n <= 10 -> live n floor y -> len (sy_accepted y) = n.
Proof.
  intros Hn Hl. pose proof (Forall2_length _ _ _ (lv_items _ _ _ Hl)) as H.
  rewrite length_take, samples_length in H. unfold len. lia.
Qed.

(** Everything accepted before a checkpoint that returned [Ok] is durable. *)
Lemma runs_checkpoint n floor w x : 0 <= n <= 10 -> at_ n floor w x ->
  runs good (checkpoint now) (fun status x' => exists floor', at_ n floor' w x' /\
    (status_ok status = true -> n <= floor')) x.
Proof.
  intros Hn Hx. unfold checkpoint. apply runs_bind. eapply runs_section; [exact Hx|]. intros clock y rest Hl _.
  destruct (AsyncWriter.checkpoint_request (sy_writer y)) as [r w'] eqn:E. cbn [fst snd].
  pose proof (step_checkpoint now y _ _ E) as Hs. unfold AsyncWriter.checkpoint_request in E.
  destruct (status_ok (AsyncWriter.background_status_ (sy_writer y))) eqn:Eb; cbn [negb] in E.
  2:{ injection E as <- <-. apply runs_ret. exists floor. split; [|congruence]. by split; [apply live_request|]. }
  destruct (AsyncWriter.running_ (sy_writer y)); cbn [negb] in E.
  2:{ injection E as <- <-. apply runs_ret. exists floor. split; [|done]. by split; [apply live_request|]. }
  injection E as <- <-. set (w1 := with_writer _ y) in *.
  assert (Hl1 : live n floor w1) by (by apply live_request).
  apply runs_bind. apply (runs_wait n floor w); [by split|]. intros y2 rest2 Hl2 _ _. apply runs_ret.
  pose proof (fl_submitted _ _ _ _ _ (si_flow _ _ (lv_sys _ _ _ Hl) Eb)) as Hsub.
  rewrite (live_accepted n floor y Hn Hl) in Hsub. rewrite Hsub.
  unfold AsyncWriter.checkpoint_return. destruct (status_ok (AsyncWriter.background_status_ (sy_writer y2))) eqn:Eb2;
    cbn [negb]; [|exists floor; split; [by split|congruence]].
  destruct (Z.ltb_spec (AsyncWriter.completed_barrier_ (sy_writer y2)) n); [exists floor; by split|].
  exists n. split; [|done]. split; [|done]. destruct Hl2 as [Hs2 Hi2 He2 Hf2 Hst2]. split; try done. intros _.
  pose proof (si_flow _ _ Hs2 Eb2) as Hfl. pose proof (fl_saving _ _ _ _ _ Hfl) as Hsv.
  pose proof (fl_completed _ _ _ _ _ Hfl). pose proof (fl_processed _ _ _ _ _ Hfl).
  pose proof (len_nonneg (uncounted (sy_pc y2))). cbn [px_system].
  destruct (saving (sy_pc y2)); [rewrite Hsv|]; lia.
Qed.

Definition stopped (n floor : Z) (w : world K) x : Prop := at_ n floor w x /\ sy_pc (px_system x) = pc_none.

Lemma runs_stop n floor w x : at_ n floor w x ->
  runs good (stop now) (fun status x' => stopped n floor w x' /\
    status = AsyncWriter.background_status_ (sy_writer (px_system x')) /\
    (sy_pc (px_system x) = pc_none ->
     AsyncWriter.background_status_ (sy_writer (px_system x')) =
     AsyncWriter.background_status_ (sy_writer (px_system x)))) x.
Proof.
  intros Hx. unfold stop. apply runs_bind. eapply runs_section; [exact Hx|]. intros clock y rest Hl Hsame.
  assert (Hb : AsyncWriter.background_status_ (AsyncWriter.stop_request (sy_writer y)) =
    AsyncWriter.background_status_ (sy_writer y)) by (unfold AsyncWriter.stop_request; by destruct (AsyncWriter.running_ _)).
  assert (Hl1 : live n floor (with_writer (AsyncWriter.stop_request (sy_writer y)) y)).
  { apply live_request; [done|apply step_stop|done|].
    unfold AsyncWriter.stop_request. by destruct (AsyncWriter.running_ _). }
  apply runs_bind. apply (runs_wait n floor w); [by split|]. cbn [px_system snd]. intros y2 rest2 Hl2 Hr Hsame2.
  apply runs_ret. destruct (sy_pc y2) eqn:Ep; try done. split; [by split|]. split; [done|]. cbn [px_system].
  intros Hp. rewrite (Hsame Hp) in *. rewrite Hsame2 by done. exact Hb.
Qed.

(** ** The scope of the writer *)

Lemma busy_fails status : code_eqb (code status) StatusCode.busy = true -> status_ok status = false.
Proof. unfold status_ok, code_eqb. intros Eb. apply bool_decide_eq_true in Eb. by rewrite Eb. Qed.

Lemma runs_retried n floor w x status : 0 <= n < 10 -> at_ (if status_ok status then n + 1 else n) floor w x ->
  runs good (retried now status (View (rv_encoded (sample n))) (kBaseTimeNs + n))
    (fun st x' => exists floor', at_ (if status_ok st then n + 1 else n) floor' w x') x.
Proof.
  intros Hn Hx. unfold retried. destruct (code_eqb (code status) StatusCode.busy) eqn:Eb; [|by exists floor].
  rewrite (busy_fails _ Eb) in Hx. apply runs_bind.
  eapply runs_conseq; [apply (runs_checkpoint n floor w); [lia|exact Hx]|]. cbv beta.
  intros st x2 (floor'&H2&_). apply runs_bind, (runs_require n floor' w); [done|]. intros _.
  eapply runs_conseq; [by apply runs_submit|]. cbv beta. intros st2 x3 H3. by exists floor'.
Qed.

Lemma runs_sample n floor w x : 0 <= n < 10 -> at_ n floor w x ->
  runs good (submit_sample now n) (fun _ x' => exists floor', at_ (n + 1) floor' w x') x.
Proof.
  intros Hn Hx. unfold submit_sample. rewrite (proj1 (sample_encoded n Hn)). cbv zeta.
  apply runs_bind, (runs_require n floor w); [done|]. intros _. cbn [default from_option id].
  apply runs_bind. eapply runs_conseq; [by apply runs_submit|]. cbv beta. intros status x1 H1.
  apply runs_bind. eapply runs_conseq; [by apply (runs_retried n floor w)|]. cbv beta. intros st x2 (fl2&H2).
  eapply runs_require; [exact H2|]. intros Hok. rewrite Hok in H2. by exists fl2.
Qed.

Lemma runs_samples k : forall n floor w x, 0 <= n -> n + Z.of_nat k = 10 -> at_ n floor w x ->
  runs good (submit_samples now (seqZ n (Z.of_nat k))) (fun _ x' => exists floor', at_ 10 floor' w x') x.
Proof.
  induction k as [|k IH]; intros n floor w x H0 Hk Hx.
  - exists floor. by replace 10 with n by lia.
  - rewrite seqZ_cons by lia. cbn [submit_samples]. apply runs_bind.
    eapply runs_conseq; [apply (runs_sample n floor w); [lia|exact Hx]|]. cbv beta. intros [] x1 (floor1&H1).
    replace (Z.pred (Z.of_nat (S k))) with (Z.of_nat k) by lia. apply (IH (Z.succ n) floor1 w x1); [lia|lia|exact H1].
Qed.

Lemma start_ok (s : Impl (FileStorage.file K)) w status w' : AsyncWriter.start s w = (status, w') ->
  status_ok status = true -> status = Status_Ok /\ AsyncWriter.metrics_ w' = AsyncWriterMetrics_zero.
Proof.
  unfold AsyncWriter.start. destruct (AsyncWriter.running_ w); [by intros [= <- _]|].
  destruct (status_ok (AsyncWriter.background_status_ w)) eqn:Eb; cbn [negb]; [|intros [= <- _]; congruence].
  destruct (status_ok (writer_status s)) eqn:Ew; cbn [negb]; [|intros [= <- _]; congruence].
  cbv zeta. destruct (_ || _); [by intros [= <- _]|]. by intros [= <- <-].
Qed.

Lemma start_failed (s : Impl (FileStorage.file K)) w status w' : AsyncWriter.start s w = (status, w') ->
  status_ok status = false -> w' = w.
Proof.
  unfold AsyncWriter.start. intros H Hf. repeat (case_match; [by injection H as _ <-|]).
  injection H as <- _. done.
Qed.

Lemma live_initial s : open_on path f [] (mkAblock [] []) s -> health_ok s ->
  live 0 0 (initial writer_options s afresh).
Proof.
  intros Ho Hh. pose proof Ho as [(v&x&Hse&_) _]. split; cbn; try done.
  - apply (sys_ok_initial (StorageModel0 := named_model path f)); [exact writer_caps|exact Hh|..].
    + apply (se_clean (StorageModel0 := named_model path f) _ _ _ _ _ _ Hse).
    + apply (session_refines (StorageModel0 := named_model path f) _ _ _ _ _ _ Hse).
  - intros _ _. by exists [], [].
Qed.

Lemma runs_start s w sch : open_on path f [] (mkAblock [] []) s -> health_ok s ->
  runs good (start now) (fun _ => at_ 0 0 w)
    (mkPhase (initial writer_options s afresh) sch w).
Proof.
  intros Ho Hh. pose proof (live_initial s Ho Hh) as Hl.
  eapply (runs_section 0 0 w); [by split|]. cbn [px_system]. intros clock y rest _ Hsame.
  rewrite (Hsame eq_refl). set (y0 := initial _ _ _) in *.
  destruct (AsyncWriter.start (sy_store y0) (sy_writer y0)) as [status w'] eqn:E. cbn [fst snd].
  split; [|done]. cbn [px_system]. destruct (status_ok status) eqn:Hok.
  2:{ apply start_failed in E as ->; [|done]. by destruct y0. }
  destruct (start_ok _ _ _ _ E Hok) as [-> Hm].
  split; cbn; try done; [|by rewrite Hm|].
  - eapply (sys_ok_step (StorageModel0 := named_model path f) now); [exact writer_caps|apply Hl|].
    split; [by apply step_start|done].
  - intros _ _. apply (lv_store _ _ _ Hl); done.
Qed.

(** [stop] has no exit of its own. *)
Lemma stop_returns x r x' : stop now x = Some (r, x') -> exists status, r = inr status.
Proof.
  unfold stop, mbind, run_bind, section, wait. destruct (px_schedule x); [done|]. cbn.
  destruct (wait_slots _ _ _ _) as [[]|]; [|done]. intros [= <- _]. by eexists.
Qed.
Lemma runs_destroying {A} (m : run phase A) n floor w Q x :
  runs good m (fun a x' => (stopped n floor w x' /\ fine (px_system x')) /\ Q a) x ->
  runs good (destroying now m) (fun a x' => (stopped n floor w x' /\ fine (px_system x')) /\ Q a) x.
Proof.
  intros H. unfold runs, destroying in *. destruct (m x) as [[r x1]|]; [|done].
  destruct (stop now x1) as [[r2 x2]|] eqn:E; [|by destruct r]. destruct (stop_returns _ _ _ E) as [st ->].
  destruct r as [c|a].
  - destruct H as [Hc (n1&fl1&Hl1)]. split; [done|]. pose proof (runs_stop n1 fl1 (px_world x1) x1) as Hs.
    unfold runs in Hs. rewrite E in Hs. destruct Hs as [[[Hl2 _] _] _]; [done|]. by exists n1, fl1.
  - destruct H as [[[Hat Hp] Hf] HQ]. pose proof (runs_stop n floor w x1 Hat) as Hs. unfold runs in Hs.
    rewrite E in Hs. destruct Hs as (H1&_&H3). split; [|done]. split; [done|]. by rewrite (H3 Hp).
Qed.

(** The scope ends with everything durable, so the check of the metrics
    succeeds. *)
Lemma stopped_metrics w x clock : stopped 10 10 w x -> fine (px_system x) ->
  durable_sequence (AsyncWriter.metrics clock (sy_writer (px_system x))) = 10 /\
  background_errors (AsyncWriter.metrics clock (sy_writer (px_system x))) = 0.
Proof.
  intros [[Hl _] Hp] Hf. set (w' := sy_writer (px_system x)) in *.
  assert (H : durable_sequence (AsyncWriter.metrics clock w') = durable_sequence (AsyncWriter.metrics_ w') /\
    background_errors (AsyncWriter.metrics clock w') = background_errors (AsyncWriter.metrics_ w')).
  { unfold AsyncWriter.metrics. by destruct (AsyncWriter.have_oldest_undurable_ _). }
  destruct H as [-> ->]. unfold w' in *. split; [|by apply (lv_errors _ _ _ Hl)].
  pose proof (si_flow _ _ (lv_sys _ _ _ Hl) Hf) as Hfl. rewrite Hp in Hfl.
  rewrite (fl_durable_sequence _ _ _ _ _ Hfl). pose proof (fl_saving _ _ _ _ _ Hfl) as Hs. cbn [saving] in Hs.
  pose proof (lv_floor _ _ _ Hl Hf). pose proof (live_accepted 10 10 _ ltac:(lia) Hl).
  pose proof (fl_completed _ _ _ _ _ Hfl). pose proof (fl_processed _ _ _ _ _ Hfl) as Hpr.
  pose proof (fl_split _ _ _ _ _ Hfl) as Hsp. apply (f_equal len) in Hsp. cbn [in_flight uncounted] in *.
  rewrite !len_app, len_nil in *. pose proof (len_nonneg (AsyncWriter.queue_ (sy_writer (px_system x)))). lia.
Qed.

(** After the checkpoint. *)
Lemma covered floor w x : at_ 10 floor w x -> 10 <= floor -> at_ 10 10 w x.
Proof. intros [[] Hw] H. split; [|done]. split; try done. intros Hf. specialize (lv_floor0 Hf). lia. Qed.

Lemma runs_body s w sch : open_on path f [] (mkAblock [] []) s -> health_ok s ->
  runs good (writer_body now) (fun m x' => (stopped 10 10 w x' /\ fine (px_system x')) /\ durable_sequence m = 10)
    (mkPhase (initial writer_options s afresh) sch w).
Proof.
  intros Ho Hh. apply runs_bind.
  eapply runs_conseq; [by apply (runs_start s w)|]. cbv beta. intros st0 x0 H0.
  apply runs_bind, (runs_require 0 0 w); [exact H0|]. intros _. apply runs_bind.
  eapply runs_conseq; [apply (runs_samples 10 0 0 w x0); [lia|lia|exact H0]|]. cbv beta. intros [] x1 (fl1&H1).
  apply runs_bind. eapply runs_conseq; [apply (runs_checkpoint 10 fl1 w); [lia|exact H1]|]. cbv beta.
  intros st2 x2 (fl2&H2&Hfl2). apply runs_bind, (runs_require 10 fl2 w); [done|]. intros Hok2.
  pose proof (covered _ _ _ H2 (Hfl2 Hok2)) as H2'.
  apply runs_bind. eapply runs_conseq; [by apply (runs_stop 10 10 w)|]. cbv beta. intros st3 x3 (H3&->&_).
  apply runs_bind, (runs_require 10 10 w); [apply H3|]. intros Hf. apply runs_bind.
  eapply (runs_section 10 10 w); [apply H3|]. intros clock y rest Hl Hsame. cbn [fst snd].
  rewrite (Hsame (proj2 H3)). destruct (stopped_metrics w x3 clock H3 Hf) as [-> ->]. cbn [Z.eqb Pos.eqb negb orb].
  apply runs_ret. split; [|by apply (stopped_metrics w x3 clock)]. split; [|done]. split; [|by apply H3]. by split; [apply H3|].
Qed.

Lemma runs_scope s w sch : open_on path f [] (mkAblock [] []) s -> health_ok s ->
  runs good (writer_scope now) (fun m x' => (stopped 10 10 w x' /\ fine (px_system x')) /\ durable_sequence m = 10)
    (mkPhase (initial writer_options s afresh) sch w).
Proof. intros Ho Hh. by apply runs_destroying, runs_body. Qed.

(** All ten records are in the store the scope leaves. *)
Lemma stopped_stored w x : stopped 10 10 w x -> fine (px_system x) ->
  stored 10 (sy_store (px_system x)).
Proof.
  intros [[Hl _] Hp] Hf. pose proof (si_flow _ _ (lv_sys _ _ _ Hl) Hf) as Hfl. rewrite Hp in Hfl.
  replace 10%nat with (length (sy_appended (px_system x))); [apply (lv_store _ _ _ Hl Hf); by rewrite Hp|].
  destruct (fl_durable _ _ _ _ _ Hfl) as [rest Hr]. pose proof (lv_floor _ _ _ Hl Hf) as Hd.
  pose proof (live_accepted 10 10 _ ltac:(lia) Hl) as Ha. pose proof (fl_split _ _ _ _ _ Hfl) as Hsp.
  apply (f_equal len) in Hsp, Hr. rewrite !len_app in *.
  pose proof (len_nonneg rest). pose proof (len_nonneg (in_flight pc_none)).
  pose proof (len_nonneg (AsyncWriter.queue_ (sy_writer (px_system x)))). unfold len in *. lia.
Qed.
End Threads.

(** ** The program *)

Section Program.
Context {K : Type} `{!Posix K, !PosixModel K, !PosixReliable K, !PosixFiles K}.
Variable now : nat -> Z.
Variables volume_id writer_random : result (Z * Z).
Hypothesis volume_id_ok : random_id_ok volume_id.
Hypothesis writer_random_ok : random_id_ok writer_random.
Hypothesis reads_reliable : forall k : K, pread_reliable k.
Implicit Types w : world K.

Lemma runs_closing {A} f (m : run (world K) A) Q w :
  runs (fun _ => True) m (fun a w' => Q a (w' <| w_kernel ::= FileStorage.destroy f |>)) w -> runs (fun _ => True) (closing_run f m) Q w.
Proof. unfold runs, closing_run. by destruct (m w) as [[[] ]|]. Qed.
Lemma must_format_async f (Q : unit -> world K -> Prop) w :
  (forall status st, format volume volume_id (FileStorage.mkFile f (w_kernel w)) = (status, st) ->
    status_ok status = true -> Q tt (w <| w_kernel := FileStorage.kernel st |>)) ->
  must (require_format volume_id f) Q w.
Proof.
  intros H. unfold must, require_format. destruct (format _ _ _) as [status st].
  apply must_require. intros []. destruct (status_ok status) eqn:E; [|done]. intros _. by eapply H.
Qed.

Lemma runs_write path f sch s w : open_on path f [] (mkAblock [] []) s -> health_ok s ->
  runs (fun _ => True) (write_async now sch s) (fun r w' => stored path f 10 (fst r) /\ durable_sequence (snd r) = 10 /\
    w_cout w' = w_cout w /\ w_cerr w' = w_cerr w) w.
Proof.
  intros Ho Hh. pose proof (runs_scope now path f s w sch Ho Hh) as H. unfold runs, write_async in *.
  destruct (writer_scope _ _) as [[[c|m] x]|]; [by destruct H| |done]. destruct H as [[Hst Hf] Hd].
  split; [by apply (stopped_stored path f w)|]. split; [done|]. destruct Hst as [[_ <-] _]. done.
Qed.

Definition saved_records (path : string) (k : K) : Prop :=
  exists rss, written path rss k /\ concat rss = samples /\ Forall (fun rs => rs <> []) rss.

Lemma stored_close path f s s' : stored path f 10 s -> close now s = (Ok tt, s') ->
  saved_records path (FileStorage.destroy f (FileStorage.kernel (storage s'))).
Proof.
  intros (rss&rs&Ho&Hne&Heq) E. change (take 10 samples) with samples in Heq.
  assert (Hf : Forall FramedFacts.framed (concat rss ++ rs)) by (rewrite Heq; apply samples_all, sample_framed).
  apply Forall_app in Hf as [_ Hf]. destruct (publish_records rss rs Hf) as (rss'&Hp&Hc&Hne').
  exists rss'. rewrite Hc. split; [|split; [done|by apply Hne']].
  eapply open_on_close; [exact Ho|exact E|..]; rewrite Hp, map_map; by apply map_ext.
Qed.

Lemma runs_write_phase sch path w :
  runs (fun _ => True) (write_phase now volume_id writer_random sch path) (fun m w' => saved_records path (w_kernel w') /\
    durable_sequence m = 10 /\ w_cout w' = w_cout w /\ w_cerr w' = w_cerr w) w.
Proof.
  unfold write_phase. apply runs_bind, runs_lift, must_kernel. intros f k Ec.
  destruct (create_named path (3 * kMiB) _ _ _ ltac:(done) Ec) as (Hwf&Hz&Hw).
  apply runs_closing, runs_bind, runs_lift, must_format_async. cbn [w_kernel set]. intros status st1 Ef Hs.
  apply runs_bind, runs_lift, must_open. cbn [w_kernel set]. intros s0 st2 Eo.
  destruct (open_on_new now volume_id writer_random volume_id_ok writer_random_ok reads_reliable
    path f k status st1 s0 st2 Hwf Hz Hw Ef Hs Eo) as [H0 Hh].
  apply runs_bind. eapply runs_conseq; [by apply (runs_write path f)|]. cbv beta.
  intros [s m] w1 (Hst&Hd&Hco&Hce). apply runs_bind, runs_lift, must_call. cbn [fst]. intros s' E.
  apply runs_ret. cbn [snd w_kernel w_cout w_cerr set]. split; [by eapply stored_close|]. by rewrite Hco, Hce.
Qed.

Lemma counting_plain : plain_visitor visitor.
Proof. intros r [n g err]. exists (mkCaptured (u64 (n + 1)) g err). reflexivity. Qed.
Lemma visitor_counts md r n g err : visitor (mkRecordEvent ev_data md r Status_Ok) (mkCaptured n g err) =
  (true, mkCaptured (u64 (n + 1)) g err).
Proof. reflexivity. Qed.
Lemma counted_records md rs : forall n g err, 0 <= n -> n + len rs < 2 ^ 64 ->
  snd (FramedFacts.visit_events visitor md rs (mkCaptured n g err)) = mkCaptured (n + len rs) g err.
Proof.
  unfold FramedFacts.visit_events. induction rs as [|r rs IH]; intros n g err H0 Hn.
  - cbn [FramedFacts.visit_records snd]. by rewrite len_nil, Z.add_0_r.
  - rewrite len_cons in *. pose proof (len_nonneg rs). cbn [FramedFacts.visit_records].
    rewrite visitor_counts. cbv iota beta. rewrite u64_small by zlia. rewrite IH by lia. f_equal. lia.
Qed.

Lemma samples_selected : List.filter (record_selected query) samples = samples.
Proof.
  assert (H : Forall (fun r => record_selected query r = true) samples).
  { apply samples_all. intros n Hn. unfold record_selected, sample, framed_view, query, kBaseTimeNs. cbn.
    rewrite andb_true_r. lia. }
  induction H as [|r rs Hr _ IH]; [done|]. cbn [List.filter]. by rewrite Hr, IH.
Qed.
Lemma samples_readable rss : concat rss = samples -> Forall (fun rs => rs <> []) rss ->
  Forall (readable query) rss.
Proof.
  intros Hc Hne. assert (H : Forall (fun r => FramedFacts.framed r /\
    tr_begin_ns (rq_time query) <= rv_index_time_ns r < tr_end_ns (rq_time query)) (concat rss)).
  { rewrite Hc. apply samples_all. intros n Hn. split; [by apply sample_framed|]. cbn. unfold kBaseTimeNs. lia. }
  assert (Hl : len (concat rss) <= 10) by (by rewrite Hc). clear Hc. induction Hne as [|rs rss Hrs Hne IH]; [constructor|].
  cbn [concat] in *. rewrite len_app in Hl. pose proof (len_nonneg rs). pose proof (len_nonneg (concat rss)).
  apply Forall_app in H as [Hh Ht]. constructor; [|apply IH; [done|lia]].
  split; [done|]. apply Forall_and in Hh as [? ?]. split_and!; [done|lia|done].
Qed.

Lemma read_phase_counts path m w : saved_records path (w_kernel w) ->
  must (read_phase now writer_random path m)
    (fun _ w' => w_cout w' = w_cout w +:+ report m /\ w_cerr w' = w_cerr w) w.
Proof.
  intros (rss&Hwr&Hc&Hne). unfold read_phase. apply must_bind, must_kernel. intros f k Ef.
  apply must_closing, must_bind, must_open. cbn [w_kernel set]. intros s1 st1 Eo.
  destruct (written_read now writer_random reads_reliable visitor path rss _ _ _ _ _ query
    BlockMetadata_default (mkCaptured 0 false (w_cerr w)) Hwr Ef Eo counting_plain eq_refl ltac:(done)
    (samples_readable rss Hc Hne)) as (s2&Eq).
  rewrite Hc, samples_selected, counted_records in Eq by (vm_compute; congruence).
  apply must_bind. unfold must at 1, run_query. cbn [w_cerr w_cout set]. rewrite Eq.
  apply must_bind, must_call. intros s4 _. done.
Qed.
End Program.
End AsyncExampleFacts.
