(* ===== verification/ExamplesAsyncEnds.v ===== *)
(** * The asynchronous writer example never gets stuck

    However far a schedule has taken the two threads, some continuation of it
    ends the program: a blocked main thread is always one that the background
    thread will release. *)

From stdpp Require Import gmap pretty.
From S2P Require Import Prelude Status Hoare Crc32c Layout Format FormatFacts Codec Storage.
From S2P Require Import FileStorage FileStorageFacts FileNames.
From S2P Require Import RingTypes RingWriter RingReader RingOpen RingGeometry RingRefine.
From S2P Require Import RingHealth.
From S2P Require Import RecordProfile RecordFacts Tools Examples ExamplesFacts RingVolume.
From S2P Require Import AsyncWriter AsyncSystem AsyncFacts AsyncFlow AsyncInv ExamplesAsync.
From S2P Require Import ExamplesAsyncFacts.

Module AsyncExampleEnds.
Import QuickstartFacts AsyncExample AsyncExampleFacts.

Section Thread.
Context {K : Type} `{!Posix K, !PosixModel K, !PosixReliable K, !PosixFiles K}.
Variable now : nat -> Z.
Variable path : string.
Variable f : FileStorage.t.
Implicit Types y : System (FileStorage.file K).
Abbreviation live := (live path f).
Abbreviation fine y := (status_ok (AsyncWriter.background_status_ (sy_writer y)) = true).

(** ** The thread does what it was asked for *)

(** Nothing is left to do for a blocked caller. *)
Definition released y : Prop := sy_pc y = pc_none \/
  AsyncWriter.requested_barrier_ (sy_writer y) <= AsyncWriter.completed_barrier_ (sy_writer y) /\
  AsyncWriter.stopping_ (sy_writer y) = false.

(** A turn that will release them. *)
Definition final (w : AsyncWriter.t) (turn : AsyncWriter.Turn) : bool :=
  AsyncWriter.tn_do_checkpoint turn &&
  (AsyncWriter.requested_barrier_ w <=? AsyncWriter.processed_sequence_ w) &&
  (negb (AsyncWriter.stopping_ w) || AsyncWriter.tn_exit_after_checkpoint turn).

Definition rank y : nat :=
  let q := (3 * length (AsyncWriter.queue_ (sy_writer y)))%nat in
  match sy_pc y with
  | pc_none => 0
  | pc_spawned => q + 4
  | pc_waiting _ => q + 3
  | pc_working turn _ => if final (sy_writer y) turn then 2 else q + 5
  | pc_completing turn _ _ => if final (sy_writer y) turn then 1 else q + 4
  end.

(** The clock shows no interval elapsed. *)
Definition next_tick y : tick (K := K) :=
  match sy_pc y with pc_waiting started => tick_go 0 (started - 1) 0 | _ => tick_go 0 0 0 end.

Lemma decide_rank n floor y started turn w' : live n floor y -> sy_pc y = pc_waiting started ->
  ~ released y -> AsyncWriter.decide started (started - 1) 0 (sy_writer y) = (turn, w') ->
  final w' turn = true \/
  S (length (AsyncWriter.queue_ w')) = length (AsyncWriter.queue_ (sy_writer y)).
Proof.
  intros Hl Hpc Hnr E. assert (Hf : fine y).
  { destruct (status_ok _) eqn:Eb; [done|]. pose proof (si_failed _ _ (lv_sys _ _ _ _ _ Hl) Eb). congruence. }
  pose proof (si_flow _ _ (lv_sys _ _ _ _ _ Hl) Hf) as Hfl. rewrite Hpc in Hfl.
  pose proof (fl_split _ _ _ _ _ Hfl) as Hsp. apply (f_equal len) in Hsp. cbn [in_flight] in Hsp.
  pose proof (fl_processed _ _ _ _ _ Hfl) as Hp. cbn [uncounted] in Hp.
  rewrite !len_app, len_nil in *. pose proof (fl_requested _ _ _ _ _ Hfl) as Hrq.
  pose proof (fl_signal _ _ _ _ _ Hfl) as Hsg. pose proof (fl_stopping _ _ _ _ _ Hfl) as Hst.
  unfold AsyncWriter.decide, AsyncWriter.queue_empty, AsyncWriter.interval_elapsed in E.
  rewrite (proj2 (Z.leb_gt started (started - 1))) in E by lia. cbn [andb orb] in E. cbv zeta in E.
  destruct (AsyncWriter.queue_ (sy_writer y)) as [|it rest] eqn:Eq.
  - change (len (@nil Item)) with 0 in Hsp. left. injection E as <- <-. unfold final. cbn.
    rewrite (proj2 (Z.leb_le _ _)) by lia. rewrite andb_true_r.
    destruct (AsyncWriter.stopping_ (sy_writer y)) eqn:Es; [by rewrite orb_true_r|]. cbn.
    destruct Hsg as [->|Hle]; [done|]. destruct Hnr. by right.
  - rewrite len_cons in Hsp. pose proof (len_nonneg rest). rewrite andb_false_r, orb_false_r in E.
    destruct (Z.leb_spec (AsyncWriter.requested_barrier_ (sy_writer y))
      (AsyncWriter.processed_sequence_ (sy_writer y))) as [Hle|Hgt].
    + assert (Es : AsyncWriter.stopping_ (sy_writer y) = false).
      { destruct (AsyncWriter.stopping_ (sy_writer y)); [|done]. specialize (Hst eq_refl). lia. }
      destruct Hsg as [Hsg|Hle2]; [|destruct Hnr; by right]. rewrite Hsg in E. cbn in E.
      injection E as <- <-. left. unfold final. cbn. rewrite (proj2 (Z.leb_le _ _)), Es by lia. done.
    + rewrite andb_false_r in E. cbn in E. injection E as <- <-. by right.
Qed.

Lemma checkpoint_fields at_ w : let w1 := AsyncWriter.complete_checkpoint at_ w in
  AsyncWriter.queue_ w1 = AsyncWriter.queue_ w /\ AsyncWriter.stopping_ w1 = AsyncWriter.stopping_ w /\
  AsyncWriter.requested_barrier_ w1 = AsyncWriter.requested_barrier_ w /\
  AsyncWriter.completed_barrier_ w1 = AsyncWriter.processed_sequence_ w.
Proof. cbv zeta. unfold AsyncWriter.complete_checkpoint. cbv zeta. simpl. repeat case_match; done. Qed.
Lemma complete_asked turn status started at_ w next w' : status_ok status = true ->
  AsyncWriter.complete turn status started at_ w = (next, w') ->
  AsyncWriter.queue_ w' = AsyncWriter.queue_ w /\ AsyncWriter.stopping_ w' = AsyncWriter.stopping_ w /\
  AsyncWriter.requested_barrier_ w' = AsyncWriter.requested_barrier_ w /\
  (next = None <-> AsyncWriter.tn_exit_after_checkpoint turn = true).
Proof.
  intros Hs H. rewrite complete_unfold, Hs in H. cbn [negb] in H. cbv zeta in H.
  destruct (checkpoint_fields at_ (counted turn w)) as (K1&K2&K3&_).
  assert (Hc : AsyncWriter.queue_ (counted turn w) = AsyncWriter.queue_ w /\
    AsyncWriter.stopping_ (counted turn w) = AsyncWriter.stopping_ w /\
    AsyncWriter.requested_barrier_ (counted turn w) = AsyncWriter.requested_barrier_ w)
    by (unfold counted; by destruct (AsyncWriter.tn_item turn)).
  destruct Hc as (C1&C2&C3), (AsyncWriter.tn_do_checkpoint turn), (AsyncWriter.tn_exit_after_checkpoint turn);
    injection H as <- <-; cbn; rewrite ?K1, ?K2, ?K3; done.
Qed.
Lemma complete_saves turn status started at_ w next w' : status_ok status = true -> turn_ok turn ->
  AsyncWriter.complete turn status started at_ w = (next, w') -> AsyncWriter.tn_do_checkpoint turn = true ->
  AsyncWriter.completed_barrier_ w' = AsyncWriter.processed_sequence_ w.
Proof.
  intros Hs [Hto _] H Hd. rewrite complete_unfold, Hs, Hd in H. cbn [negb] in H. cbv zeta in H.
  destruct (checkpoint_fields at_ (counted turn w)) as (_&_&_&K4).
  assert (Hc : counted turn w = w) by (unfold counted; by rewrite (Hto Hd)). rewrite Hc in *.
  destruct (AsyncWriter.tn_exit_after_checkpoint turn); injection H as <- <-; cbn; by rewrite K4.
Qed.

Lemma step_rank n floor y : live n floor y -> ~ released y ->
  released (thread_step now (next_tick y) y) \/ (rank (thread_step now (next_tick y) y) < rank y)%nat.
Proof.
  intros Hl Hnr. unfold next_tick, thread_step.
  destruct (sy_pc y) as [| |started|turn started|turn status started] eqn:Hpc.
  - destruct Hnr. by left.
  - right. unfold rank. rewrite Hpc. cbn. lia.
  - assert (Hw : AsyncWriter.wake started 0 (sy_writer y) = true).
    { unfold AsyncWriter.wake. rewrite (si_options _ _ (lv_sys _ _ _ _ _ Hl)). done. }
    rewrite Hw. destruct (AsyncWriter.decide _ _ _ _) as [turn w'] eqn:Ed. right.
    unfold rank. rewrite Hpc. cbn [sy_pc with_pc sy_writer].
    destruct (decide_rank n floor y started turn w' Hl Hpc Hnr Ed) as [->|Hq]; [lia|].
    destruct (final w' turn); lia.
  - destruct (AsyncWriter.work _ _ _) as [status s'] eqn:Ew. right.
    unfold rank. rewrite Hpc. cbn [sy_pc worked sy_writer]. destruct (final _ _); lia.
  - destruct (AsyncWriter.complete _ _ _ _ _) as [next w'] eqn:Ec.
    assert (Hf : fine y).
    { destruct (status_ok _) eqn:Eb; [done|]. pose proof (si_failed _ _ (lv_sys _ _ _ _ _ Hl) Eb). congruence. }
    pose proof (si_flow _ _ (lv_sys _ _ _ _ _ Hl) Hf) as Hfl. rewrite Hpc in Hfl.
    destruct (fl_turn _ _ _ _ _ Hfl turn eq_refl) as [Hto _].
    destruct (status_ok status) eqn:Es.
    2:{ left. left. unfold AsyncWriter.complete in Ec. rewrite Es in Ec. injection Ec as <- _. done. }
    destruct (complete_asked _ _ _ _ _ _ _ Es Ec) as (Hq&Hst&Hrq&Hnx).
    destruct next as [st|]; [|left; by left].
    destruct (final (sy_writer y) turn) eqn:Ef.
    + left. right. cbn. rewrite Hst, Hrq. unfold final in Ef. rewrite !andb_true_iff in Ef.
      destruct Ef as [[Hd Hle] Hor]. rewrite (complete_saves _ _ _ _ _ _ _ Es Hto Ec Hd). split; [lia|].
      destruct (AsyncWriter.tn_exit_after_checkpoint turn); [by destruct Hnx as [_ Hx]; specialize (Hx eq_refl)|].
      by destruct (AsyncWriter.stopping_ (sy_writer y)).
    + right. unfold rank. rewrite Hpc, Ef. cbn. rewrite Hq. lia.
Qed.

Lemma eventually_released n floor y : live n floor y -> exists ticks, released (background now ticks y).
Proof.
  remember (rank y) as r eqn:Hr. revert y Hr. induction (lt_wf r) as [r _ IH]. intros y -> Hl.
  assert (Hdec : released y \/ ~ released y).
  { unfold released. destruct (sy_pc y) eqn:E; [by left; left|..].
    all: destruct (Z_le_dec (AsyncWriter.requested_barrier_ (sy_writer y))
      (AsyncWriter.completed_barrier_ (sy_writer y))), (AsyncWriter.stopping_ (sy_writer y));
      first [by left; right|right; intros [?|[? ?]]; done]. }
  destruct Hdec as [H|Hnr]; [by exists []|]. pose proof (thread_step_live now path f (next_tick y) n floor y Hl) as Hl'.
  destruct (step_rank n floor y Hl Hnr) as [H|H]; [by exists [next_tick y]|].
  destruct (IH _ H _ eq_refl Hl') as (ticks&Ht). by exists (next_tick y :: ticks).
Qed.

(** What a blocked caller asked for stays asked for. *)
Lemma thread_step_asked t y : fine (thread_step now t y) ->
  AsyncWriter.requested_barrier_ (sy_writer (thread_step now t y)) =
    AsyncWriter.requested_barrier_ (sy_writer y) /\
  AsyncWriter.stopping_ (sy_writer (thread_step now t y)) = AsyncWriter.stopping_ (sy_writer y).
Proof.
  unfold thread_step. destruct t as [a b c|what s], (sy_pc y) as [| |started|turn started|turn status started];
    try done.
  - destruct (AsyncWriter.wake _ _ _); [|done]. destruct (AsyncWriter.decide _ _ _ _) as [turn w'] eqn:Ed.
    by destruct (decide_cases _ _ _ _ _ _ Ed) as (_&_&[[-> _]|(it&rest&_&_&->)]).
  - by destruct (AsyncWriter.work _ _ _).
  - destruct (AsyncWriter.complete _ _ _ _ _) as [next w'] eqn:Ec. destruct (status_ok status) eqn:Es.
    + intros _. destruct (complete_asked _ _ _ _ _ _ _ Es Ec) as (_&?&?&_). done.
    + unfold AsyncWriter.complete in Ec. rewrite Es in Ec. injection Ec as <- <-. cbn. by rewrite Es.
  - cbn. by destruct what.
Qed.

(** ** Schedules that go on *)

Abbreviation phase := (AsyncExample.phase (K := K)).
Abbreviation slots := (list (AsyncExample.slot (K := K))).
Implicit Types x : phase.

Definition extend x (more : slots) : phase := mkPhase (px_system x) (px_schedule x ++ more) (px_world x).
Definition framed {A} (m : run phase A) : Prop := forall x r x' more,
  m x = Some (r, x') -> m (extend x more) = Some (r, extend x' more).
Definition progress {A} (m : run phase A) x : Prop := exists more, m (extend x more) <> None.

Lemma extend_nil x : extend x [] = x.
Proof. destruct x. unfold extend. cbn. by rewrite app_nil_r. Qed.
Lemma extend_app x a b : extend x (a ++ b) = extend (extend x a) b.
Proof. unfold extend. cbn. by rewrite app_assoc. Qed.
Lemma progress_some {A} (m : run phase A) x : m x <> None -> progress m x.
Proof. intros H. exists []. by rewrite extend_nil. Qed.

Lemma framed_ret {A} (a : A) : framed (mret a).
Proof. intros x r x' more [= <- <-]. done. Qed.
Lemma framed_bind {A B} (m : run phase A) (k : A -> run phase B) :
  framed m -> (forall a, framed (k a)) -> framed (m ≫= k).
Proof.
  intros Hm Hk x r x' more. unfold mbind, run_bind. destruct (m x) as [[r1 x1]|] eqn:E; [|done].
  rewrite (Hm _ _ _ more E). destruct r1; [by intros [= <- <-]|]. apply Hk.
Qed.
Lemma framed_on_world {A} (m : tool (world K) A) : framed (on_world m).
Proof. intros x r x' more. unfold on_world. cbn. by destruct (m _) as [r1 w1]; intros [= <- <-]. Qed.
Lemma framed_section {A} (g : Z -> System (FileStorage.file K) -> A * System (FileStorage.file K)) :
  framed (section now g).
Proof.
  intros x r x' more. unfold section. cbn. destruct (px_schedule x) as [|sl rest]; [done|]. cbn.
  by destruct (g _ _) as [a y]; intros [= <- <-].
Qed.
Lemma wait_slots_app ready sch : forall y y' rest more, wait_slots now ready sch y = Some (y', rest) ->
  wait_slots now ready (sch ++ more) y = Some (y', rest ++ more).
Proof.
  induction sch as [|sl sch IH]; intros y y' rest more H; [done|]. cbn [wait_slots app] in *.
  destruct (ready _); [by simplify_eq|by apply IH].
Qed.
Lemma framed_wait ready : framed (wait now ready).
Proof.
  intros x r x' more. unfold wait. cbn. destruct (wait_slots now ready (px_schedule x) _) as [[y rest]|] eqn:E; [|done].
  rewrite (wait_slots_app _ _ _ _ _ more E). by intros [= <- <-].
Qed.
Create HintDb frames.
#[local] Hint Resolve framed_ret framed_on_world framed_section framed_wait : frames.
#[local] Ltac frame := repeat first [solve [auto with frames]|apply framed_bind; [|intros ?]|
  match goal with |- framed (match ?e with _ => _ end) => destruct e end].

Lemma framed_checkpoint : framed (checkpoint now).
Proof. unfold checkpoint. frame. Qed.
Lemma framed_stop : framed (stop now).
Proof. unfold stop. frame. Qed.
Lemma framed_require status op : framed (require status op).
Proof. apply framed_on_world. Qed.
#[local] Hint Resolve framed_checkpoint framed_stop framed_require : frames.
Lemma framed_retried status record time : framed (retried now status record time).
Proof. unfold retried, submit_checked. frame. Qed.
#[local] Hint Resolve framed_retried : frames.
Lemma framed_sample n : framed (submit_sample now n).
Proof. unfold submit_sample, submit_checked. frame. Qed.
#[local] Hint Resolve framed_sample : frames.
Lemma framed_samples ns : framed (submit_samples now ns).
Proof. induction ns; cbn [submit_samples]; frame. Qed.
#[local] Hint Resolve framed_samples : frames.
Lemma framed_destroying {A} (m : run phase A) : framed m -> framed (destroying now m).
Proof.
  intros Hm x r x' more. unfold destroying. destruct (m x) as [[r1 x1]|] eqn:E; [|done].
  rewrite (Hm _ _ _ more E). destruct (stop now x1) as [[st x2]|] eqn:Es; [|done].
  rewrite (framed_stop _ _ _ more Es). by intros [= <- <-].
Qed.

(** The continuation of a program that ends has room to end too. *)
Lemma progress_bind {A B} (m : run phase A) (k : A -> run phase B) (Q : A -> phase -> Prop) x :
  framed m -> progress m x -> (forall more, runs (good path f) m Q (extend x more)) ->
  (forall a x', Q a x' -> progress (k a) x') -> progress (m ≫= k) x.
Proof.
  intros Hf [more Hm] Hs Hk. specialize (Hs more). unfold runs in Hs.
  destruct (m (extend x more)) as [[[c|a] x1]|] eqn:E; [| |done].
  - exists more. unfold mbind, run_bind. by rewrite E.
  - destruct (Hk a x1 Hs) as [more2 H2]. exists (more ++ more2). unfold mbind, run_bind.
    by rewrite extend_app, (Hf _ _ _ more2 E).
Qed.

Lemma progress_section {A} (g : Z -> System (FileStorage.file K) -> A * System (FileStorage.file K)) x :
  progress (section now g) x.
Proof.
  exists [mkSlot [] 0]. unfold section. cbn. destruct (px_schedule x) as [|sl rest]; cbn; by destruct (g _ _).
Qed.
Lemma progress_require status op x : progress (require status op) x.
Proof. apply progress_some. unfold require, on_world. by destruct (Quickstart.require _ _ _). Qed.

Lemma background_keeps (J : System (FileStorage.file K) -> Prop) ticks y :
  (forall t y, J y -> J (thread_step now t y)) -> J y -> J (background now ticks y).
Proof.
  intros Hstep. unfold background. revert y. induction ticks as [|t l IHl]; intros y Hy; [done|].
  cbn [foldl]. by apply IHl, Hstep.
Qed.

Lemma progress_wait ready (J : System (FileStorage.file K) -> Prop) x : J (px_system x) ->
  (forall t y, J y -> J (thread_step now t y)) ->
  (forall y, J y -> exists ticks, ready (background now ticks y) = true) -> progress (wait now ready) x.
Proof.
  intros HJ Hstep Hev. assert (H : forall sch y, J y -> exists more, wait_slots now ready (sch ++ more) y <> None).
  { induction sch as [|sl sch IH]; intros y Hy.
    - destruct (Hev y Hy) as [ticks Ht]. exists [mkSlot ticks 0]. cbn [app wait_slots sl_ticks]. by rewrite Ht.
    - destruct (IH (background now (sl_ticks sl) y)) as [more Hm].
      { by apply background_keeps. }
      exists more. cbn [app wait_slots]. by destruct (ready _). }
  destruct (H (px_schedule x) (px_system x) HJ) as [more Hm]. exists more. unfold wait. cbn.
  by destruct (wait_slots _ _ _ _) as [[]|].
Qed.

Lemma wait_returns ready x : runs (good path f) (wait now ready) (fun _ _ => True) x.
Proof. unfold runs, wait. by destruct (wait_slots _ _ _ _) as [[]|]. Qed.

Lemma thread_none t y : sy_pc y = pc_none -> thread_step now t y = y.
Proof. intros H. unfold thread_step. rewrite H. by destruct t. Qed.
(** A checkpoint of [target] was asked for. *)
Definition asks (target : Z) y : Prop := (exists n floor, live n floor y) /\
  (fine y -> target <= AsyncWriter.requested_barrier_ (sy_writer y)).
Lemma asks_step target t y : asks target y -> asks target (thread_step now t y).
Proof.
  intros [(n&floor&Hl) Ha]. split; [exists n, floor; by apply thread_step_live|]. intros Hf.
  destruct (thread_step_asked t y Hf) as [-> _]. apply Ha.
  destruct (status_ok (AsyncWriter.background_status_ (sy_writer y))) eqn:E; [done|].
  rewrite (thread_none t y) in Hf by (apply (si_failed _ _ (lv_sys _ _ _ _ _ Hl) E)). congruence.
Qed.
Lemma asks_ready target y : asks target y ->
  exists ticks, AsyncWriter.checkpoint_wait target (sy_writer (background now ticks y)) = true.
Proof.
  intros Ha. pose proof Ha as [(n&floor&Hl) _]. destruct (eventually_released n floor y Hl) as [ticks Hr].
  exists ticks. destruct (background_keeps (asks target) ticks y (asks_step target) Ha) as [(n1&fl1&Hl1) Ha1].
  unfold AsyncWriter.checkpoint_wait. destruct (status_ok _) eqn:Ef; [|by rewrite orb_true_r]. specialize (Ha1 eq_refl).
  destruct Hr as [Hp|[Hle _]].
  - destruct (AsyncWriter.running_ _) eqn:Er; [|by rewrite !orb_true_r].
    by apply (si_running _ _ (lv_sys _ _ _ _ _ Hl1)) in Er.
  - rewrite (proj2 (Z.leb_le _ _)) by lia. done.
Qed.

(** The thread was asked to stop. *)
Definition halts y : Prop := (exists n floor, live n floor y) /\
  (sy_pc y = pc_none \/ AsyncWriter.stopping_ (sy_writer y) = true).
Lemma halts_step t y : halts y -> halts (thread_step now t y).
Proof.
  intros [(n&floor&Hl) Ha]. pose proof (thread_step_live now path f t n floor y Hl) as Hl'.
  split; [by exists n, floor|]. destruct Ha as [Hp|Hs]; [left; by rewrite thread_none|].
  destruct (status_ok (AsyncWriter.background_status_ (sy_writer (thread_step now t y)))) eqn:E.
  - right. by destruct (thread_step_asked t y E) as [_ ->].
  - left. apply (si_failed _ _ (lv_sys _ _ _ _ _ Hl') E).
Qed.
Lemma halts_ready y : halts y ->
  exists ticks, match sy_pc (background now ticks y) with pc_none => true | _ => false end = true.
Proof.
  intros Ha. pose proof Ha as [(n&floor&Hl) _]. destruct (eventually_released n floor y Hl) as [ticks Hr].
  exists ticks. destruct (background_keeps halts ticks y halts_step Ha) as [_ [->|Hs]]; [done|].
  destruct Hr as [->|[_ Hn]]; [done|congruence].
Qed.

Lemma progress_checkpoint n floor w x : at_ path f n floor w x -> progress (checkpoint now) x.
Proof.
  intros Hx. unfold checkpoint. eapply (progress_bind _ _
    (fun r x' => match r with Ok target => asks target (px_system x') | Err _ => True end)).
  - apply framed_section.
  - apply progress_section.
  - intros more. eapply (runs_section now path f n floor w); [exact Hx|]. intros clock y rest Hl _.
    destruct (AsyncWriter.checkpoint_request (sy_writer y)) as [r w'] eqn:E. cbn [fst snd px_system].
    pose proof (step_checkpoint now y _ _ E) as Hs. unfold AsyncWriter.checkpoint_request in E.
    destruct (negb _) in E; [by injection E as <- <-|]. destruct (negb _) in E; [by injection E as <- <-|].
    injection E as <- <-. split; [|intros _; cbn; lia]. exists n, floor. by apply (live_request now).
  - intros [target|e] x' Ha; [|by apply progress_some].
    eapply (progress_bind _ _ (fun _ _ => True)); [apply framed_wait| | |by intros; apply progress_some].
    + apply (progress_wait _ (asks target)); [done|apply asks_step|apply asks_ready].
    + intros more. apply wait_returns.
Qed.

Lemma progress_stop n floor w x : at_ path f n floor w x -> progress (stop now) x.
Proof.
  intros Hx. unfold stop. eapply (progress_bind _ _ (fun _ x' => halts (px_system x'))).
  - apply framed_section.
  - apply progress_section.
  - intros more. eapply (runs_section now path f n floor w); [exact Hx|]. intros clock y rest Hl _. cbn [snd px_system].
    pose proof (si_running _ _ (lv_sys _ _ _ _ _ Hl)) as Hrun. split.
    + exists n, floor. apply (live_request now); [done|apply step_stop|..];
        unfold AsyncWriter.stop_request; by destruct (AsyncWriter.running_ _).
    + unfold AsyncWriter.stop_request. cbn. destruct (AsyncWriter.running_ (sy_writer y)); [by right|left].
      destruct (sy_pc y); try done; by destruct Hrun as [_ Hx2]; specialize (Hx2 ltac:(done)).
  - intros [] x' Ha. eapply (progress_bind _ _ (fun _ _ => True)); [apply framed_wait| | |by intros; apply progress_some].
    + apply (progress_wait _ halts); [done|apply halts_step|apply halts_ready].
    + intros more. apply wait_returns.
Qed.

(** ** The program ends *)

Lemma progress_retried n floor w x status : 0 <= n < 10 ->
  at_ path f (if status_ok status then n + 1 else n) floor w x ->
  progress (retried now status (View (rv_encoded (sample n))) (kBaseTimeNs + n)) x.
Proof.
  intros Hn Hx. unfold retried. destruct (code_eqb (code status) StatusCode.busy) eqn:Eb; [|by apply progress_some].
  rewrite (busy_fails _ Eb) in Hx.
  eapply progress_bind; [apply framed_checkpoint|by eapply progress_checkpoint|
    intros more; apply (runs_checkpoint now path f n floor w); [lia|exact Hx]|].
  cbv beta. intros st x2 (fl2&H2&_).
  eapply (progress_bind _ _ (fun _ _ => True)); [apply framed_require|apply progress_require| |].
  - intros more. by eapply runs_require.
  - intros [] x3 _. apply progress_section.
Qed.

Lemma progress_sample n floor w x : 0 <= n < 10 -> at_ path f n floor w x -> progress (submit_sample now n) x.
Proof.
  intros Hn Hx. unfold submit_sample. rewrite (proj1 (sample_encoded n Hn)). cbv zeta. cbn [default from_option id].
  eapply (progress_bind _ _ (fun _ => at_ path f n floor w)); [apply framed_require|apply progress_require|..].
  { intros more. by eapply runs_require. }
  intros [] x0 H0.
  eapply progress_bind; [apply framed_section|apply progress_section|intros more; by apply (runs_submit now path f n floor w)|].
  cbv beta. intros status x1 H1.
  eapply progress_bind; [apply framed_retried|by eapply progress_retried|
    intros more; by apply (runs_retried now path f n floor w)|by intros; apply progress_require].
Qed.

Lemma progress_samples k : forall n floor w x, 0 <= n -> n + Z.of_nat k = 10 -> at_ path f n floor w x ->
  progress (submit_samples now (seqZ n (Z.of_nat k))) x.
Proof.
  induction k as [|k IH]; intros n floor w x H0 Hk Hx; [by apply progress_some|].
  rewrite seqZ_cons by lia. cbn [submit_samples].
  eapply progress_bind; [apply framed_sample|apply (progress_sample n floor w); [lia|exact Hx]|
    intros more; apply (runs_sample now path f n floor w); [lia|exact Hx]|].
  cbv beta. intros [] x1 (fl1&H1).
  replace (Z.pred (Z.of_nat (S k))) with (Z.of_nat k) by lia. apply (IH (Z.succ n) fl1 w x1); [lia|lia|exact H1].
Qed.

Lemma progress_destroying {A} (m : run phase A) Q x : framed m -> progress m x ->
  (forall more, runs (good path f) m Q (extend x more)) ->
  (forall a x', Q a x' -> good path f x') -> progress (destroying now m) x.
Proof.
  intros Hf [more Hm] Hs HQ. specialize (Hs more). unfold runs in Hs.
  destruct (m (extend x more)) as [[r x1]|] eqn:E; [|done].
  assert (Hg : good path f x1) by (destruct r; [apply Hs|by eapply HQ]). destruct Hg as (n&fl&Hl).
  destruct (progress_stop n fl (px_world x1) x1) as [more2 H2]; [done|].
  exists (more ++ more2). rewrite extend_app. unfold destroying. rewrite (Hf _ _ _ more2 E).
  by destruct (stop now (extend x1 more2)) as [[]|].
Qed.

Lemma progress_scope s w sch : open_on path f [] (mkAblock [] []) s -> health_ok s ->
  progress (writer_scope now) (mkPhase (initial writer_options s afresh) sch w).
Proof.
  intros Ho Hh. pose proof (fun more => runs_body now path f s w (sch ++ more) Ho Hh) as Hs.
  eapply progress_destroying; [unfold writer_body, start, metrics; frame|clear Hs|exact Hs|]; cbv beta.
  { eapply progress_bind; [apply framed_section|apply progress_section|intros more; by apply (runs_start now path f s w)|].
      cbv beta. intros st0 x0 H0.
      eapply (progress_bind _ _ (fun _ => at_ path f 0 0 w)); [apply framed_require|apply progress_require|intros more; by eapply runs_require|].
      intros [] x1 H1. eapply progress_bind; [apply framed_samples|by apply (progress_samples 10 0 0 w)|
        intros more; by apply (runs_samples now path f 10 0 0 w)|]. cbv beta. intros [] x2 (fl2&H2).
      eapply progress_bind; [apply framed_checkpoint|by eapply progress_checkpoint|
        intros more; by apply (runs_checkpoint now path f 10 fl2 w)|]. cbv beta. intros st3 x3 (fl3&H3&_).
      eapply (progress_bind _ _ (fun _ => at_ path f 10 fl3 w)); [apply framed_require|apply progress_require|intros more; by eapply runs_require|].
      intros [] x4 H4. eapply (progress_bind _ _ (fun _ => at_ path f 10 fl3 w)); [apply framed_stop|by eapply progress_stop|..].
      { intros more. eapply runs_conseq; [by apply (runs_stop now path f 10 fl3 w)|]. by intros st x' [[H _] _]. }
      intros st5 x5 H5.
      eapply (progress_bind _ _ (fun _ => at_ path f 10 fl3 w)); [apply framed_require|apply progress_require|intros more; by eapply runs_require|].
      intros [] x6 H6. eapply (progress_bind _ _ (fun _ _ => True)); [apply framed_section|apply progress_section|..].
      { intros more. by eapply (runs_section now path f 10 fl3 w). }
      intros m x7 _. apply progress_some. by destruct (_ || _). }
  intros m x' [[[[Hl _] _] _] _]. by exists 10, 10.
Qed.
End Thread.

Section Program.
Context {K : Type} `{!Posix K, !PosixModel K, !PosixReliable K, !PosixFiles K}.
Variable now : nat -> Z.
Variables volume_id writer_random : result (Z * Z).
Hypothesis volume_id_ok : random_id_ok volume_id.
Hypothesis writer_random_ok : random_id_ok writer_random.
Hypothesis reads_reliable : forall k : K, pread_reliable k.
Implicit Types w : world K.

(** Every schedule has a continuation with which the program ends. *)
Definition can_end {A} (m : list (AsyncExample.slot (K := K)) -> run (world K) A) w : Prop :=
  forall schedule, exists more, m (schedule ++ more) w <> None.

Lemma can_end_lift {A B} (m : tool (world K) A) (k : list (AsyncExample.slot (K := K)) -> A -> run (world K) B) Q w :
  must m Q w -> (forall a w', Q a w' -> can_end (fun sch => k sch a) w') ->
  can_end (fun sch => lift m ≫= k sch) w.
Proof.
  unfold must, can_end, lift, mbind, run_bind. destruct (m w) as [[c|a] w']; [by exists []|]. auto.
Qed.
Lemma can_end_closing {A} f (m : list (AsyncExample.slot (K := K)) -> run (world K) A) w :
  can_end m w -> can_end (fun sch => closing_run f (m sch)) w.
Proof.
  intros H sch. destruct (H sch) as [more Hm]. exists more. unfold closing_run. by destruct (m _ _) as [[]|].
Qed.
Lemma can_end_then {A B} (m : list (AsyncExample.slot (K := K)) -> run (world K) A) (k : A -> run (world K) B) w :
  can_end m w -> (forall a w, k a w <> None) -> can_end (fun sch => m sch ≫= k) w.
Proof.
  intros H Hk sch. destruct (H sch) as [more Hm]. exists more. unfold mbind, run_bind.
  destruct (m _ _) as [[[c|a] w']|]; [done|apply Hk|done].
Qed.
Lemma lift_returns {A} (m : tool (world K) A) w : lift m w <> None.
Proof. done. Qed.

Lemma program_ends path w :
  can_end (fun schedule => program now volume_id writer_random schedule [path]) w.
Proof.
  unfold program. apply can_end_then; [|intros; apply lift_returns]. unfold write_phase.
  apply (can_end_lift _ _ (fun f w1 => named_wf path f (FileStorage.mkFile f (w_kernel w1)) /\
    of_contents (FileStorageFacts.image (FileStorage.mkFile f (w_kernel w1))) = zeroed (3 * kMiB) /\
    FileStorage.writable_ f = true)).
  { apply must_kernel. intros f k Ec. exact (create_named path (3 * kMiB) _ _ _ ltac:(done) Ec). }
  intros f w1 (Hwf&Hz&Hw). apply can_end_closing.
  apply (can_end_lift _ _ (fun _ w2 => exists status st1,
    format volume volume_id (FileStorage.mkFile f (w_kernel w1)) = (status, st1) /\ status_ok status = true /\
    w_kernel w2 = FileStorage.kernel st1)).
  { apply must_format_async. intros status st1 Ef Hs. by exists status, st1. }
  intros [] w2 (status&st1&Ef&Hs&Hk).
  apply (can_end_lift _ _ (fun s _ => open_on path f [] (mkAblock [] []) s /\ health_ok s)).
  { apply must_open. rewrite Hk. intros s st2 Eo.
    exact (open_on_new now volume_id writer_random volume_id_ok writer_random_ok reads_reliable
      path f _ status st1 s st2 Hwf Hz Hw Ef Hs Eo). }
  intros s w3 [Ho Hh]. apply can_end_then.
  - intros sch. destruct (progress_scope now path f s w3 sch Ho Hh) as [more Hm]. exists more.
    unfold write_async. unfold extend in Hm. cbn in Hm. by destruct (writer_scope _ _) as [[]|].
  - intros [s1 m] w4. unfold mbind, run_bind, lift. by destruct (Quickstart.require_call _ _ _ _) as [[]].
Qed.
End Program.
End AsyncExampleEnds.
