(* ===== verification/AsyncSample.v ===== *)
(** * Executable runs of the asynchronous system

    A schedule is a list of actions; a schedule that performs is a sequence of
    steps. One concrete run over the sample volume: start, submit, append,
    checkpoint, stop. *)

From S2P Require Import Prelude Status Hoare Crc32c Layout Format FormatFacts Codec PackBitsFacts.
From S2P Require Import Lz4 Lz4Facts Storage MemoryStorage MemoryStorageFacts RingTypes.
From S2P Require Import RingWriter.
From S2P Require Import RingInv RingHealth RingWriterFacts RingCalls RingRefine RingSample.
From S2P Require Import AsyncWriter AsyncSystem AsyncFacts AsyncFlow AsyncInv.
Import AsyncWriter.

Inductive action :=
| act_start
| act_submit (data : bytes) (time flags now : Z)
| act_checkpoint
| act_stop
| act_run (started : Z)
| act_decide (woken now dequeued_at : Z)
| act_work
| act_complete (durable_at : Z).

Definition record_okb (data : bytes) (time : Z) : bool :=
  forallb (fun b => (0 <=? b) && (b <? 2 ^ 8)) data && (- 2 ^ 63 <=? time) && (time <? 2 ^ 63).

Section Schedules.
Context {T : Type} `{!Storage T}.
Variable store_clock : nat -> Z.

Definition perform (a : action) (y : System T) : option (System T) :=
  match a, sy_pc y with
  | act_start, pc_none =>
      let '(status, w') := start (sy_store y) (sy_writer y) in
      if bool_decide (status = Status_Ok) then Some (restarted w' y) else None
  | act_submit data time flags now, _ =>
      if record_okb data time
      then Some (submitted (snd (submit_impl (View data) time flags None now (sy_writer y))) y)
      else None
  | act_checkpoint, _ => Some (with_writer (snd (checkpoint_request (sy_writer y))) y)
  | act_stop, _ => Some (with_writer (stop_request (sy_writer y)) y)
  | act_run started, pc_spawned => Some (with_pc (sy_writer y) (pc_waiting started) y)
  | act_decide woken now dequeued_at, pc_waiting started =>
      if wake started woken (sy_writer y) then
        let '(turn, w') := decide started now dequeued_at (sy_writer y) in
        Some (with_pc w' (pc_working turn started) y)
      else None
  | act_work, pc_working turn started =>
      let '(status, s') := work store_clock turn (sy_store y) in
      Some (worked turn status s' started y)
  | act_complete durable_at, pc_completing turn status started =>
      let '(next, w') := complete turn status started durable_at (sy_writer y) in
      Some (with_pc w' (pc_of_interval next) y)
  | _, _ => None
  end.

Fixpoint perform_all (l : list action) (y : System T) : option (System T) :=
  match l with
  | [] => Some y
  | a :: l =>
      match perform a y with
      | Some y' => if len (sy_accepted y') <? 2 ^ 64 then perform_all l y' else None
      | None => None
      end
  end.

Lemma record_okb_ok data time : record_okb data time = true -> record_ok (View data) time.
Proof.
  unfold record_okb, record_ok, bytes_ok. rewrite !andb_true_iff, forallb_forall. intros [[H ?] ?].
  split; [|unfold is_i64; lia]. apply Forall_forall. intros b Hb. apply list_elem_of_In, H in Hb.
  unfold is_u8. lia.
Qed.

Lemma perform_step a y y' : perform a y = Some y' -> step store_clock y y'.
Proof.
  unfold perform. destruct a, (sy_pc y) eqn:Hpc; intros H; try done;
    try (destruct (record_okb data time) eqn:Hr; [|done]); try injection H as <-.
  all: try (eapply step_submit; [by apply record_okb_ok|apply surjective_pairing]).
  all: try (eapply step_checkpoint, surjective_pairing).
  all: try apply step_stop.
  - destruct (start _ _) as [status w'] eqn:E. case_bool_decide; [|done]. subst. injection H as <-.
    by apply step_start.
  - by apply step_run.
  - destruct (wake _ _ _) eqn:Ew; [|done]. destruct (decide _ _ _ _) as [turn w'] eqn:Ed.
    injection H as <-. by eapply step_decide.
  - destruct (work _ _ _) as [status s'] eqn:E. injection H as <-. by apply step_work.
  - destruct (complete _ _ _ _ _) as [next w'] eqn:E. injection H as <-. by eapply step_complete.
Qed.

Lemma perform_all_steps l y y' : perform_all l y = Some y' -> rtc (bounded_step store_clock) y y'.
Proof.
  revert y. induction l as [|a l IH]; simpl; intros y H; [by simplify_eq|].
  destruct (perform a y) as [y1|] eqn:E; [|done]. destruct (Z.ltb_spec (len (sy_accepted y1)) (2 ^ 64)); [|done].
  eapply rtc_l; [|by apply IH]. split; [by apply (perform_step a)|done].
Qed.
End Schedules.

Definition sample_async_options : AsyncWriterOptions := mkAsyncWriterOptions 4 1024 1000 false.
Definition sample_initial : System MemoryStorage.t :=
  initial sample_async_options sample_store afresh.
Lemma sample_caps : caps_ok sample_async_options.
Proof. vm_compute. split_and!; congruence. Qed.
Lemma sample_health : health_ok sample_store.
Proof. vm_compute. repeat split; congruence. Qed.

Definition performed (l : list action) : System MemoryStorage.t :=
  default sample_initial (perform_all sample_clock l sample_initial).
Definition performs (l : list action) : bool :=
  match perform_all sample_clock l sample_initial with Some _ => true | None => false end.
Lemma performed_steps l : performs l = true ->
  rtc (bounded_step sample_clock) sample_initial (performed l).
Proof.
  unfold performs, performed. destruct (perform_all _ _ _) as [y|] eqn:E; [|done]. intros _.
  by apply (perform_all_steps sample_clock l).
Qed.

(** One record appended, one queued. *)
Definition schedule_appended : list action :=
  [act_start; act_submit [1; 2; 3] 5 0 10; act_run 11; act_submit [4; 5] 6 0 12;
   act_decide 13 13 14; act_work].
Definition schedule_waiting : list action := schedule_appended ++ [act_complete 15; act_checkpoint].
Definition schedule_checkpointed : list action :=
  schedule_waiting ++ [act_decide 16 16 17; act_work; act_complete 18;
    act_decide 19 19 20; act_work; act_complete 21].
Definition schedule_stopping : list action := schedule_appended ++ [act_complete 15; act_stop].
(** The third submission is larger than a block of the volume. *)
Definition schedule_failed : list action :=
  [act_start; act_run 11; act_submit (replicate 400 7) 6 0 12; act_decide 13 13 14; act_work;
   act_complete 15].
Lemma schedules_perform : performs schedule_appended = true /\ performs schedule_waiting = true /\
  performs schedule_checkpointed = true /\ performs schedule_stopping = true /\
  performs schedule_failed = true.
Proof. split_and!; vm_compute; reflexivity. Qed.
