(* ===== verification/PropsFormat.v ===== *)
(** * Properties of the media format and the codecs *)

From S2P Require Import Prelude Status Crc32c Layout Format FormatFacts Codec PackBitsFacts Lz4.
From S2P Require Import Lz4Facts.

(** Sample values for the witnesses. *)
Definition sample_volume : VolumeHeader := mkVolumeHeader 7 9 1048576 262144 3 4096 8192 512 (-5).
Definition sample_block : BlockHeader :=
  mkBlockHeader 3 1 0 65536 2 5 5 512 (-10) 20 0 1 (crc32c [1; 2; 3; 4; 5]) 9 7 11 12 0 0.
Definition sample_options : PartitionOptions := mkPartitionOptions 2 1 77 3 5 (-1) 1000.
Definition sample_partition : PartitionHeader :=
  mkPartitionHeader 7 9 3 1 0 8192 512 sample_options [].
Definition sample_entry (i : Z) : IndexEntry :=
  mkIndexEntry (4096 + i * 512) 133 512 i 2 (-10) 20 65536 5 11 12.
Definition sample_footer : PartitionFooter :=
  mkPartitionFooter 7 9 3 1 65536 1 253952 48 4608 (-10) 20 12345.
Definition sample_bytes : bytes := [7; 7; 7; 7; 7; 1; 2; 3; 0; 0; 0; 0; 255].
(** A period of four, long enough for LZ4 to find matches. *)
Definition sample_periodic : bytes := concat (replicate 16 [1; 2; 3; 4]).

Ltac wf_by_compute := split; vm_compute; split; congruence.

(** ** Checksum *)

(** C34: the table-driven CRC32C of the code equals the bit-serial reference on
    every byte string. *)
Theorem crc32c_is_bit_serial data : bytes_ok data -> crc32c data = crc32c_ref data.
Proof. apply crc32c_equiv_bit_serial. Qed.
Lemma crc32c_is_bit_serial_witness : crc32c sample_bytes = crc32c_ref sample_bytes.
Proof. apply crc32c_is_bit_serial. repeat constructor; vm_compute; congruence. Defined.


(** ** Round trips and canonicity *)

(** The volume header decoder accepts exactly the canonical encodings: a
    256-byte image decodes to [h] iff [h] is in range, satisfies the checked
    constraints, and the image is the encoding of [h]. *)
Theorem volume_header_canonical data h :
  bytes_ok data -> len data = kVolumeHeaderEncodedSize ->
  decode_volume_header data = Ok h <->
  VolumeHeader_wf h /\ volume_header_valid h /\ data = encode_volume_header h.
Proof.
  intros Hok Hl. split.
  - intros H. by apply decode_volume_inv in H as (?&?&<-).
  - intros (?&?&->). by apply decode_encode_volume.
Qed.
Lemma volume_header_canonical_witness :
  decode_volume_header (encode_volume_header sample_volume) = Ok sample_volume.
Proof.
  apply volume_header_canonical; [apply encode_volume_ok|apply encode_volume_len|].
  split; [wf_by_compute|]. split; [vm_compute; split_and!; congruence|reflexivity].
Defined.

(** The block header decoder accepts exactly the canonical encodings. *)
Theorem block_header_canonical data b :
  bytes_ok data -> len data = kBlockHeaderEncodedSize ->
  decode_block_header data = Ok b <->
  BlockHeader_wf b /\ block_header_valid b /\ data = encode_block_header b.
Proof.
  intros Hok Hl. split.
  - intros H. by apply decode_block_inv in H as (?&?&<-).
  - intros (?&?&->). by apply decode_encode_block.
Qed.
Lemma block_header_canonical_witness :
  decode_block_header (encode_block_header sample_block) = Ok sample_block.
Proof.
  apply block_header_canonical; [apply encode_block_ok|apply encode_block_len|].
  split; [wf_by_compute|]. split; [|reflexivity].
  unfold block_header_valid. split_and!; try (vm_compute; congruence). by intros [? ?].
Defined.

(** The partition footer decoder accepts exactly the canonical encodings. *)
Theorem footer_canonical data f :
  bytes_ok data -> len data = kPartitionFooterEncodedSize ->
  decode_partition_footer data = Ok f <->
  PartitionFooter_wf f /\ footer_valid f /\ data = encode_partition_footer f.
Proof.
  intros Hok Hl. split.
  - intros H. by apply decode_footer_inv in H as (?&?&<-).
  - intros (?&?&->). by apply decode_encode_footer.
Qed.
Lemma footer_canonical_witness :
  decode_partition_footer (encode_partition_footer sample_footer) = Ok sample_footer.
Proof.
  apply footer_canonical; [apply encode_footer_ok|apply encode_footer_len|].
  split; [wf_by_compute|]. split; [split; [reflexivity|vm_compute; congruence]|reflexivity].
Defined.

(** A partition header written with valid options reads back with the
    same identity, geometry and options, and with the four feature
    descriptors the writer emits. *)
Theorem partition_header_roundtrip h partition_size index_region_size :
  PartitionHeader_wf h -> is_u32 index_region_size -> index_region_size <> 0 ->
  options_valid (ph_options h) ->
  decode_partition_header (encode_partition_header h partition_size index_region_size) =
  Ok (mkPartitionHeader (ph_volume_id_high h) (ph_volume_id_low h) (ph_generation h) (ph_slot h)
        (ph_created_time_ns h) (ph_max_block_payload h) (ph_persistence_quantum h) (ph_options h)
        (descriptors (ph_options h) partition_size index_region_size)).
Proof. intros. by apply decode_encode_partition. Qed.
Lemma partition_header_roundtrip_witness :
  is_ok (decode_partition_header (encode_partition_header sample_partition 262144 4096)) = true.
Proof.
  rewrite partition_header_roundtrip; [reflexivity|..].
  - split; try (vm_compute; split; congruence). wf_by_compute.
  - vm_compute. split; congruence.
  - vm_compute. congruence.
  - split; vm_compute; [congruence|split; congruence].
Defined.

(** A time index of valid entries decodes to the same entries in order;
    only the writer identity is not stored. *)
Theorem index_roundtrip es :
  Forall (fun e => IndexEntry_wf e /\ index_entry_valid e) es ->
  decode_index (encode_index es) = Ok (map strip_writer es).
Proof. apply decode_encode_index. Qed.
Lemma index_roundtrip_witness :
  decode_index (encode_index [sample_entry 0; sample_entry 1]) =
  Ok (map strip_writer [sample_entry 0; sample_entry 1]).
Proof.
  apply index_roundtrip. apply Forall_cons_2; [|apply Forall_singleton];
    (split; [wf_by_compute|vm_compute; split_and!; congruence]).
Defined.

(** ** Codecs *)

(** C29: PackBits decompression inverts compression on every byte string, and
    the compressed size stays within the declared bound. *)
Theorem packbits_roundtrip data old old' : bytes_ok data -> len data < 2 ^ 32 ->
  exists enc, compress PackBits.codec (View data) (Some old) = (Status_Ok, Some enc) /\
    len enc <= PackBits.max_compressed_size (len data) /\
    decompress PackBits.codec (View enc) (len data) (Some old') = (Status_Ok, Some data).
Proof.
  intros Hok Hl. destruct (codec_roundtrip (c:=PackBits.codec) data old old' Hok Hl) as (enc&?&_&?&_&?). by exists enc.
Qed.
Lemma packbits_roundtrip_witness : exists enc,
  compress PackBits.codec (View sample_bytes) (Some []) = (Status_Ok, Some enc) /\
    len enc <= PackBits.max_compressed_size (len sample_bytes) /\
    decompress PackBits.codec (View enc) (len sample_bytes) (Some []) = (Status_Ok, Some sample_bytes).
Proof.
  apply (packbits_roundtrip sample_bytes [] []); [repeat constructor; vm_compute; congruence|].
  vm_compute. reflexivity.
Defined.

(** C28: LZ4 block decompression inverts compression on every byte string, and
    the compressed size stays within the declared bound. *)
Theorem lz4_roundtrip data old old' : bytes_ok data -> len data < 2 ^ 32 ->
  exists enc, compress Lz4.codec (View data) (Some old) = (Status_Ok, Some enc) /\
    len enc <= Lz4.max_compressed_size (len data) /\
    decompress Lz4.codec (View enc) (len data) (Some old') = (Status_Ok, Some data).
Proof.
  intros Hok Hl. destruct (codec_roundtrip (c:=Lz4.codec) data old old' Hok Hl) as (enc&?&_&?&_&?). by exists enc.
Qed.
Lemma lz4_roundtrip_witness : exists enc,
  compress Lz4.codec (View sample_periodic) (Some []) = (Status_Ok, Some enc) /\
    len enc <= Lz4.max_compressed_size (len sample_periodic) /\
    decompress Lz4.codec (View enc) (len sample_periodic) (Some []) =
      (Status_Ok, Some sample_periodic).
Proof.
  apply (lz4_roundtrip sample_periodic [] []); [repeat constructor; vm_compute; congruence|].
  vm_compute. reflexivity.
Defined.

(** C30: the LZ4 decoder is safe on arbitrary bytes: it never reads outside
    the input or copies from outside its output, always terminates, and
    either returns exactly the announced number of bytes or reports
    corruption. *)
Theorem lz4_decoder_safe stored expected :
  bytes_ok stored -> len stored < 2 ^ 64 -> is_u64 expected ->
  exists r, Lz4.run_decompress stored expected = Done r /\
    match r with
    | Ok out => len out = expected
    | Err s => code s = StatusCode.corrupt
    end.
Proof.
  intros Hok Hl He.
  destruct (lz4_decompress_sound stored expected Hok Hl ltac:(zlia) (S (length stored)) 0 [] None)
    as (r&Hr&Hall); [len_lia|rewrite len_nil; zlia|done|unfold len; lia|].
  exists r. split; [exact Hr|]. destruct r; [apply Hall|done].
Qed.
Lemma lz4_decoder_safe_witness : exists r, Lz4.run_decompress [0x14; 1; 9; 0] 64 = Done r /\
  match r with Ok out => len out = 64 | Err s => code s = StatusCode.corrupt end.
Proof.
  apply (lz4_decoder_safe [0x14; 1; 9; 0] 64);
    [repeat constructor; vm_compute; congruence|vm_compute; reflexivity|vm_compute; split; congruence].
Defined.

(** The PackBits decoder is safe on arbitrary bytes in the same sense. *)
Theorem packbits_decoder_safe stored expected :
  bytes_ok stored -> len stored < 2 ^ 64 -> is_u64 expected ->
  exists r, PackBits.run_decompress stored expected = Done r /\
    match r with
    | Ok out => len out = expected
    | Err s => code s = StatusCode.corrupt
    end.
Proof.
  intros Hok Hl He.
  destruct (PackBitsFacts.decompress_sound stored expected Hok Hl (S (length stored)) 0 [])
    as (r&Hr&Hall); [len_lia|rewrite len_nil; zlia|unfold len; lia|].
  exists r. split; [exact Hr|]. destruct r; [by destruct Hall as (?&_&?&_)|done].
Qed.
Lemma packbits_decoder_safe_witness : exists r, PackBits.run_decompress [0x82; 1; 9] 64 = Done r /\
  match r with Ok out => len out = 64 | Err s => code s = StatusCode.corrupt end.
Proof.
  apply (packbits_decoder_safe [0x82; 1; 9] 64);
    [repeat constructor; vm_compute; congruence|vm_compute; reflexivity|vm_compute; split; congruence].
Defined.
