(* ===== verification/PropsStorage.v ===== *)
(** * Properties of the storage layer *)

From S2P Require Import Prelude Status Codec Storage MemoryStorage MemoryStorageFacts.
Import MemoryStorage.

(** A small image with a short write and an interrupted read scripted. *)
Definition sample_memory : t :=
  add_fault (mkFaultRule op_read 1 0 StatusCode.interrupted)
    (add_fault (mkFaultRule op_write 1 2 StatusCode.ok) (make 16 true)).

Lemma sample_memory_wf : MemoryFacts.mem_wf sample_memory.
Proof.
  split; try reflexivity; try (repeat constructor; vm_compute; congruence).
Qed.

(** [read_exact] on any backend that meets the storage contract: the
    retry loop ends, the media is untouched, the buffer keeps its size, and
    [Ok] means that every byte of the range was transferred, in place,
    whatever short reads and interruptions happened on the way. *)
Theorem read_exact_exact {T} `{!Storage T, !StorageModel T} off buf (t : T) :
  st_wf t -> 0 <= off -> off + len buf < 2 ^ 64 ->
  exists s buf' t',
    read_loop (S (length buf + interrupts t)) off 0 buf t = Some ((s, buf'), t') /\
    read_exact off (View buf) t = ((s, buf'), t') /\ same_media t t' /\ len buf' = len buf /\
    (status_ok s = true -> buf' = slice off (len buf) (contents t)).
Proof.
  intros Hwf Ho Hl.
  destruct (read_loop_spec off (len buf) (S (length buf + interrupts t)) 0 t buf)
    as (s&buf'&t'&Hr&Hm&Hlb&Hs); try done; try (unfold len; lia).
  exists s, buf', t'. split_and!; [done| |done|done|by apply Hs].
  unfold read_exact, view_valid. rewrite orb_true_r. cbn [negb view_data]. by rewrite Hr.
Qed.
Lemma read_exact_exact_witness : exists s buf' t',
  read_loop (S (length [9; 9; 9] + interrupts sample_memory)) 4 0 [9; 9; 9] sample_memory =
    Some ((s, buf'), t') /\
  read_exact 4 (View [9; 9; 9]) sample_memory = ((s, buf'), t') /\ same_media sample_memory t' /\
  len buf' = len [9; 9; 9] /\
  (status_ok s = true -> buf' = slice 4 (len [9; 9; 9]) (contents sample_memory)).
Proof.
  apply (read_exact_exact 4 [9; 9; 9] sample_memory); [apply sample_memory_wf|lia|reflexivity].
Defined.

(** [write_exact] ends; the media then holds a prefix of the input at the
    offset and is otherwise unchanged, and [Ok] means the whole input; what is
    durable does not change before a flush. *)
Theorem write_exact_prefix {T} `{!Storage T, !StorageModel T} off input (t : T) :
  st_wf t -> bytes_ok input -> 0 <= off -> off + len input < 2 ^ 64 ->
  exists s t' k, write_exact off (View input) t = (s, t') /\ 0 <= k <= len input /\ st_wf t' /\
    contents t' = splice off (takeZ k input) (contents t) /\ durable t' = durable t /\
    (status_ok s = true -> k = len input).
Proof.
  intros Hwf Hok Ho Hl. destruct (write_exact_spec off input t Hwf Hok Ho Hl) as (s&t'&k&?&?&Hw&?).
  exists s, t', k. destruct Hw as (?&?&_&_&_&?). split_and!; (done || lia).
Qed.
Lemma write_exact_prefix_witness : exists s t' k,
  write_exact 4 (View [1; 2; 3]) sample_memory = (s, t') /\ 0 <= k <= len [1; 2; 3] /\ st_wf t' /\
  contents t' = splice 4 (takeZ k [1; 2; 3]) (contents sample_memory) /\
  durable t' = durable sample_memory /\ (status_ok s = true -> k = len [1; 2; 3]).
Proof.
  apply (write_exact_prefix 4 [1; 2; 3] sample_memory);
    [apply sample_memory_wf|repeat constructor; vm_compute; congruence|lia|reflexivity].
Defined.

(** In every state the crash model can reach, through any reads, writes,
    flushes, scripted faults and earlier crashes, replaying the dirty writes
    in order over the durable image gives the volatile image. *)
Theorem memory_replay_reachable size writable m :
  0 <= size < 2 ^ 63 -> rtc MemoryFacts.mem_step (make size writable) m ->
  replay (durable_ m) (dirty_writes_ m) = volatile_ m.
Proof. intros Hs Hr. apply (MemoryFacts.ci_replay m), (MemoryFacts.mem_steps_inv size writable); done. Qed.
Definition sample_written : t := snd (write_at 4 (View [1; 2; 3]) (make 16 true)).
Lemma sample_written_reachable : rtc MemoryFacts.mem_step (make 16 true) sample_written.
Proof.
  eapply rtc_l; [|apply rtc_refl].
  eapply (MemoryFacts.step_write (make 16 true) 4 [1; 2; 3]); [vm_compute; split; congruence| | |].
  - repeat constructor; vm_compute; congruence.
  - discriminate.
  - vm_compute. reflexivity.
Qed.
Lemma memory_replay_reachable_witness :
  replay (durable_ sample_written) (dirty_writes_ sample_written) = volatile_ sample_written.
Proof.
  apply (memory_replay_reachable 16 true); [lia|apply sample_written_reachable].
Defined.

(** After a flush that returned [Ok], no crash loses or tears anything:
    discarding the volatile image, persisting the dirty writes and
    materialising any fragments all give back what was written. *)
Theorem flush_survives_crash m s m' :
  MemoryFacts.crash_inv m -> flush m = (s, m') -> status_ok s = true ->
  volatile_ (crash_discard_volatile m') = volatile_ m /\
  volatile_ (crash_persist_all_dirty m') = volatile_ m /\
  forall fragments, volatile_ (snd (crash_materialize fragments m')) = volatile_ m.
Proof.
  intros Hi Hf Hs. destruct (MemoryFacts.memory_flush_spec m s m' (MemoryFacts.ci_wf m Hi) Hf)
    as (_&Hv&_&_&Hd&Hdw&_). rewrite Hs in Hd, Hdw. split_and!.
  - simpl. done.
  - unfold crash_persist_all_dirty. rewrite Hdw. simpl. done.
  - intros fs. unfold crash_materialize. rewrite Hdw. destruct fs as [|f fs]; simpl; [done|].
    by rewrite Hv.
Qed.
Lemma flush_survives_crash_witness :
  volatile_ (crash_discard_volatile (snd (flush sample_written))) = volatile_ sample_written /\
  volatile_ (crash_persist_all_dirty (snd (flush sample_written))) = volatile_ sample_written /\
  forall fragments,
    volatile_ (snd (crash_materialize fragments (snd (flush sample_written)))) =
    volatile_ sample_written.
Proof.
  apply (flush_survives_crash sample_written (fst (flush sample_written)));
    [|vm_compute; reflexivity|vm_compute; reflexivity].
  apply (MemoryFacts.mem_steps_inv 16 true); [lia|apply sample_written_reachable].
Defined.

(** Materialising every dirty write whole and in order is the same crash
    as persisting everything. *)
Theorem materialize_all_is_persist m :
  MemoryFacts.crash_inv m ->
  crash_materialize (map MemoryFacts.whole (dirty_writes_ m)) m =
    (Status_Ok, crash_persist_all_dirty m).
Proof. apply MemoryFacts.materialize_whole. Qed.
Lemma materialize_all_is_persist_witness :
  crash_materialize (map MemoryFacts.whole (dirty_writes_ sample_written)) sample_written =
    (Status_Ok, crash_persist_all_dirty sample_written).
Proof.
  apply materialize_all_is_persist.
  apply (MemoryFacts.mem_steps_inv 16 true); [lia|apply sample_written_reachable].
Defined.

(** An observation hook sees every call and disturbs none. Under a hook
    that records its arguments, any sequence of reads, writes and flushes is
    the same sequence on the backend without a hook, and the record holds, for
    every event the calls logged and in that order, the hook's call before and
    its call after the operation, with the operation, the call number, the
    offset and the size of the event. *)
Theorem hooks_observe_every_call h h' :
  Hooked.hook_ h = Some HookedFacts.recorder -> rtc HookedFacts.hooked_step h h' ->
  rtc HookedFacts.plain_step (Hooked.memory h) (Hooked.memory h') /\
  exists new, events (Hooked.memory h') = events (Hooked.memory h) ++ new /\
    Hooked.user h' = Hooked.user h ++ concat (map HookedFacts.observed new).
Proof.
  intros Hh Hs. destruct (HookedFacts.hooked_run_recorded h h' Hh Hs) as [[_ H] Hp]. by split.
Qed.
Definition sample_hooked : Hooked.t (list HookedFacts.hook_call) :=
  Hooked.set_hook (Some HookedFacts.recorder) (Hooked.mk sample_memory None []).
Definition sample_hooked_write := Hooked.write_at 4 (View [1; 2; 3]) sample_hooked.
Definition sample_hooked_flush := Hooked.flush (snd sample_hooked_write).
Lemma hooks_observe_every_call_witness : exists new,
  events (Hooked.memory (snd sample_hooked_flush)) = events sample_memory ++ new /\
  Hooked.user (snd sample_hooked_flush) = concat (map HookedFacts.observed new).
Proof.
  apply (hooks_observe_every_call sample_hooked (snd sample_hooked_flush)).
  - reflexivity.
  - eapply rtc_l; [exact (HookedFacts.hooked_write _ 4 (View [1; 2; 3]) _ _ (surjective_pairing _))|].
    eapply rtc_l; [exact (HookedFacts.hooked_flush _ _ _ (surjective_pairing _))|]. apply rtc_refl.
Defined.
