(* ===== verification/PropsFile.v ===== *)
(** * Properties of the POSIX backend *)

From stdpp Require Import gmap.
From S2P Require Import Prelude Status Hoare Codec Storage FileStorage FileStorageFacts.
From S2P Require Import FileSample.
Import FileStorage.

(** [open_existing] hands out a backend that meets the storage contract:
    its size is the length of the file, a writable one holds the exclusive
    lock, and exactly its one descriptor was opened; on every error path the
    status is an error and no descriptor is left open. *)
Theorem file_open_ready {K} `{!Posix K, !PosixModel K} path w (k k' : K) r :
  open_existing path w k = (r, k') ->
  match r with
  | Ok f => st_wf (mkFile f k') /\ st_size (mkFile f k') = len (contents (mkFile f k')) /\
      writable_ f = w /\ (w = true -> of_locked (image (mkFile f k')) = true) /\
      dom (fds k') = {[fd_ f]} ∪ dom (fds k)
  | Err e => status_ok e = false /\ dom (fds k') = dom (fds k)
  end.
Proof.
  intros H. pose proof (wp_elim _ _ _ _ _ _ (open_existing_spec path w k) H) as Hx.
  destruct r; [|done]. destruct Hx. split_and!; try done. by apply st_size_contents.
Qed.
Definition sample_opened : skernel := snd (open_existing "vol/ring.tfdb" true sample_kernel).
Lemma sample_opened_eq :
  open_existing "vol/ring.tfdb" true sample_kernel = (Ok (mk 3 32 true), sample_opened).
Proof. vm_compute. reflexivity. Qed.
Lemma file_open_ready_witness :
  open_existing "vol/ring.tfdb" true sample_kernel = (Ok (mk 3 32 true), sample_opened) /\
  st_wf (mkFile (mk 3 32 true) sample_opened) /\
  of_locked (image (mkFile (mk 3 32 true) sample_opened)) = true.
Proof.
  split; [exact sample_opened_eq|].
  destruct (file_open_ready "vol/ring.tfdb" true sample_kernel sample_opened (Ok (mk 3 32 true))
    sample_opened_eq) as (Hw&_&_&Hl&_).
  split; [exact Hw|exact (Hl eq_refl)].
Defined.

(** [create] hands out a locked, writable backend of exactly the requested
    size whose image is durable; on every error path, the directory sync
    included, the status is an error and no descriptor is left open. *)
Theorem file_create_durable {K} `{!Posix K, !PosixModel K} path n overwrite (k k' : K) r :
  0 <= n -> create path n overwrite k = (r, k') ->
  match r with
  | Ok f => st_wf (mkFile f k') /\ st_size (mkFile f k') = n /\ writable_ f = true /\
      of_locked (image (mkFile f k')) = true /\
      durable (mkFile f k') = contents (mkFile f k') /\
      dom (fds k') = {[fd_ f]} ∪ dom (fds k)
  | Err e => status_ok e = false /\ dom (fds k') = dom (fds k)
  end.
Proof.
  intros Hn H. pose proof (wp_elim _ _ _ _ _ _ (create_spec path n overwrite k Hn) H) as Hx.
  destruct r; [|done]. destruct Hx as ([]&?&?). split_and!; try done. auto.
Qed.
Definition sample_created : skernel := snd (create "ring.tfdb" 48 false sample_kernel).
Lemma sample_created_eq :
  create "ring.tfdb" 48 false sample_kernel = (Ok (mk 3 48 true), sample_created).
Proof. vm_compute. reflexivity. Qed.
Lemma file_create_durable_witness :
  create "ring.tfdb" 48 false sample_kernel = (Ok (mk 3 48 true), sample_created) /\
  st_wf (mkFile (mk 3 48 true) sample_created) /\
  durable (mkFile (mk 3 48 true) sample_created) = contents (mkFile (mk 3 48 true) sample_created).
Proof.
  split; [exact sample_created_eq|].
  destruct (file_create_durable "ring.tfdb" 48 false sample_kernel sample_created
    (Ok (mk 3 48 true)) ltac:(lia) sample_created_eq) as (Hw&_&_&_&Hd&_).
  split; [exact Hw|exact Hd].
Defined.

(** C36: bytes written with [write_exact] and flushed through the POSIX backend
    are durable in place, the rest of the image is unchanged, and a
    [read_exact] that returns [Ok] gives them back, whatever short transfers
    and interruptions the kernel answered with. *)
Theorem file_write_flush_read {K} `{!Posix K, !PosixModel K} off d buf (x x1 x2 x3 : file K)
    s1 s2 s3 buf' :
  st_wf x -> bytes_ok d -> 0 <= off -> off + len d < 2 ^ 64 -> len buf = len d ->
  write_exact off (View d) x = (s1, x1) -> status_ok s1 = true ->
  Storage.flush x1 = (s2, x2) -> status_ok s2 = true ->
  read_exact off (View buf) x2 = ((s3, buf'), x3) ->
  durable x2 = splice off d (contents x) /\ contents x3 = contents x2 /\ durable x3 = durable x2 /\
  (status_ok s3 = true -> buf' = d).
Proof.
  intros Hwf Hb Ho Hl Hbuf Hw Hs1 Hf Hs2 Hr.
  destruct (write_exact_spec off d x Hwf Hb Ho Hl) as (s&x'&n&E&Hn&Hwr&Hfull).
  rewrite Hw in E. injection E as <- <-. rewrite (Hfull Hs1), takeZ_all in Hwr by lia.
  destruct Hwr as (Hwf1&_&_&_&Hin&Hc1).
  destruct (flush_spec _ _ _ Hwf1 Hf) as (Hwf2&Hc2&_&_&Hd2). rewrite Hs2 in Hd2.
  destruct (read_exact_spec off buf x2 Hwf2 Ho ltac:(lia)) as (s&b&x'&E&(_&Hc3&Hd3&_)&_&Hok).
  rewrite Hr in E. injection E as <- <- <-. split_and!; [congruence|done|done|].
  intros H3. destruct (Hok H3) as [_ ->]. rewrite Hc2, Hc1, Hbuf.
  destruct Hin as [->|Hin]; [unfold slice; by rewrite len_nil, takeZ_nonpos by lia|].
  by apply slice_splice_same.
Qed.
Definition sample_file : file skernel :=
  match open_existing "vol/ring.tfdb" true sample_kernel with
  | (Ok f, k) => mkFile f (k <| sk_eintrs := 2%nat |>)
  | (Err _, k) => mkFile (mk 0 0 false) k
  end.
Definition sample_written := snd (write_exact 5 (View [1; 2; 3; 4; 5; 6; 7]) sample_file).
Definition sample_flushed := snd (Storage.flush sample_written).
Definition sample_reread := read_exact 5 (View (replicate 7 0)) sample_flushed.

Lemma file_write_flush_read_witness :
  durable sample_flushed = splice 5 [1; 2; 3; 4; 5; 6; 7] (contents sample_file) /\
  snd (fst sample_reread) = [1; 2; 3; 4; 5; 6; 7].
Proof.
  assert (Hwf : st_wf sample_file).
  { apply (file_wf_intro sample_file (mkOfile sample_image sample_image true));
      [vm_compute; reflexivity| |vm_compute; reflexivity].
    split; [|vm_compute; reflexivity]. apply Forall_replicate. unfold is_u8. lia. }
  assert (Hb : bytes_ok [1; 2; 3; 4; 5; 6; 7]) by (repeat constructor; unfold is_u8; lia).
  destruct (file_write_flush_read 5 [1; 2; 3; 4; 5; 6; 7] (replicate 7 0) sample_file sample_written
    sample_flushed (snd sample_reread) (fst (write_exact 5 (View [1; 2; 3; 4; 5; 6; 7]) sample_file))
    (fst (Storage.flush sample_written)) (fst (fst sample_reread)) (snd (fst sample_reread))
    Hwf Hb ltac:(lia) ltac:(reflexivity) ltac:(reflexivity)
    ltac:(vm_compute; reflexivity) ltac:(vm_compute; reflexivity) ltac:(vm_compute; reflexivity)
    ltac:(vm_compute; reflexivity) ltac:(vm_compute; reflexivity)) as (Hd&_&_&Hr).
  split; [exact Hd|]. apply Hr. vm_compute. reflexivity.
Defined.
