(* ===== verification/PropsRing.v ===== *)
(** * Properties of the ring store *)

From S2P Require Import Prelude Status Hoare Crc32c Layout Format FormatFacts Codec PackBitsFacts.
From S2P Require Import Lz4 Lz4Facts Storage MemoryStorage MemoryStorageFacts RingTypes.
From S2P Require Import RingWriter RingReader RingOpen RingRules RingGeometry RingInv RingHealth.
From S2P Require Import RingWriterFacts RingCalls RingDisk RingScan RingLog RingRefine RingRead.
From S2P Require Import RingCrash RingStored RingOpenFacts RingFormatFacts RingSample.

(** ** Format and open *)

(** A header passes [validate_volume_geometry] exactly when the layout it
    describes is sound: every partition lies inside the backend, the regions
    of a partition are aligned and disjoint, and the largest block fits. *)
Theorem geometry_check_exact v backend :
  VolumeHeader_wf v -> validate_volume_geometry v backend = Ok tt <-> geometry_ok v backend.
Proof. apply validate_geometry_spec. Qed.
Lemma geometry_check_exact_witness : geometry_ok sample_header 27648.
Proof.
  apply (geometry_check_exact sample_header 27648);
    [split; vm_compute; split; congruence|vm_compute; reflexivity].
Defined.

(** [format] that returns [Ok] leaves two durable copies of one header
    that both decode to it and that [open]'s geometry check accepts; nothing
    behind the volume prefix changes. *)
Theorem format_makes_openable {T} `{!Storage T, !StorageModel T} o random (st st' : T) status :
  st_wf st -> VolumeOptions_wf o -> random_id_ok random ->
  format o random st = (status, st') -> status_ok status = true ->
  exists v, st_wf st' /\ durable st' = contents st' /\ st_size st' = st_size st /\
    header_copy 0 (contents st') = Ok v /\
    header_copy kVolumeHeaderCopySize (contents st') = Ok v /\
    validate_volume_geometry v (st_size st') = Ok tt /\
    forall off n, kVolumePrefixSize <= off -> 0 <= n -> off + n <= len (contents st) ->
      slice off n (contents st') = slice off n (contents st).
Proof.
  intros Hwf Ho Hr H Hok. destruct (format_spec _ _ _ _ _ Hwf Ho Hr H Hok) as (v&_&Hg&Hwf'&Hc&Hd).
  pose proof (st_size_contents _ Hwf) as Hsz.
  assert (Hp : kVolumePrefixSize <= len (contents st)).
  { pose proof (g_fits _ _ Hg). pose proof (g_backend _ _ Hg). pose proof (g_count _ _ Hg).
    pose proof (vh_wf_partition_size _ (g_wf _ _ Hg)). zlia. }
  destruct (formatted_copies v (contents st) (g_wf _ _ Hg) (geometry_header_valid _ _ Hg) Hp)
    as (H0&H1&Hl&Hrest). rewrite <- Hc in H0, H1, Hl, Hrest.
  assert (Hss : st_size st' = st_size st) by (rewrite (st_size_contents _ Hwf'); congruence).
  exists v. split_and!; try done. rewrite Hss. apply validate_geometry_spec; [apply Hg|done].
Qed.
Lemma format_makes_openable_witness : exists v,
  st_wf sample_formatted /\ durable sample_formatted = contents sample_formatted /\
  st_size sample_formatted = st_size (MemoryStorage.make 27648 true) /\
  header_copy 0 (contents sample_formatted) = Ok v /\
  header_copy kVolumeHeaderCopySize (contents sample_formatted) = Ok v /\
  validate_volume_geometry v (st_size sample_formatted) = Ok tt /\
  forall off n, kVolumePrefixSize <= off -> 0 <= n ->
    off + n <= len (contents (MemoryStorage.make 27648 true)) ->
    slice off n (contents sample_formatted) =
    slice off n (contents (MemoryStorage.make 27648 true)).
Proof.
  exact (format_makes_openable sample_volume_options sample_random (MemoryStorage.make 27648 true)
    sample_formatted _ sample_blank_wf sample_options_wf sample_random_ok (surjective_pairing _)
    sample_format_ok).
Defined.

(** One valid header copy is enough: [open] uses it when the other copy
    cannot be read or does not decode, refuses two valid copies that
    disagree, and never uses a header that no copy holds. *)
Theorem one_header_copy_suffices v first second :
  VolumeHeader_wf v -> volume_header_valid v ->
  let good := (Status_Ok, encode_volume_header v) in
  (forall e, copy_status first = Err e -> choose_volume first good = Ok v) /\
  (forall e, copy_status second = Err e -> choose_volume good second = Ok v) /\
  choose_volume good good = Ok v /\
  (forall w, copy_status second = Ok w -> same_volume_header v w = false ->
     exists e, choose_volume good second = Err e /\ code e = StatusCode.corrupt) /\
  (forall w, choose_volume first second = Ok w ->
     copy_status first = Ok w \/ copy_status second = Ok w).
Proof.
  intros Hwf Hv good. assert (Hg : copy_status good = Ok v).
  { unfold copy_status, good. simpl. by apply decode_encode_volume. }
  assert (Hs : status_ok (fst good) = true) by reflexivity. clearbody good.
  split_and!; [intros e He|intros e He| |intros w Hw Hd|apply choose_volume_inv];
    unfold choose_volume; rewrite Hs, ?andb_false_r; cbn [negb andb]; rewrite Hg, ?He, ?Hw, ?Hd; try done.
  - unfold same_volume_header. by rewrite !Z.eqb_refl.
  - eexists. split; [reflexivity|done].
Qed.
Lemma one_header_copy_suffices_witness :
  choose_volume (Status_Ok, zeroed 256) (Status_Ok, encode_volume_header sample_header) =
    Ok sample_header.
Proof.
  refine (proj1 (one_header_copy_suffices sample_header (Status_Ok, zeroed 256)
    (Status_Ok, zeroed 256) _ _) (Status_Error StatusCode.corrupt "structure magic mismatch") _).
  - split; vm_compute; split; congruence.
  - vm_compute. split_and!; congruence.
  - vm_compute. reflexivity.
Defined.


(** ** The writer *)

(** C3: every call with well-typed arguments, whether it succeeds or fails,
    keeps the writer invariant: the catalog of the active partition is
    contiguous, aligned, inside the data region and summarised exactly; a
    non-empty builder has a worst-case block reserved; the store knows
    exactly whether anything is not durable, and an unfaulted store with no
    dirty data has a durable image equal to its contents. *)
Theorem writer_invariant {T} `{!Storage T, !StorageModel T} now (s s' : Impl T) :
  winv s -> clean s -> rtc (ok_step now) s s' -> winv s' /\ clean s'.
Proof. intros Hw Hc Hr. destruct (winv_reachable now s s' Hw Hr) as [? ?]. auto. Qed.
Lemma writer_invariant_witness : winv sample_appended /\ clean sample_appended.
Proof.
  apply (writer_invariant sample_clock sample_store sample_appended sample_winv sample_clean).
  eapply rtc_l; [|apply rtc_refl]. exists sample_call. split; [exact sample_call_ok|].
  rewrite sample_append_eq. reflexivity.
Defined.

Lemma append_impl_size {T} `{!Storage T} now record time flags expected (s s' : Impl T) :
  append_impl now record time flags expected s = (Ok tt, s') ->
  0 < view_size record <= vh_max_block_payload (volume s).
Proof.
  unfold append_impl, mbind, prog_bind, get. destruct (check_writer s) as [[[]|] s1] eqn:E; [|done].
  assert (s1 = s) as ->.
  { unfold check_writer, mbind, prog_bind, get, throw_error, throw in E.
    destruct (writable s), (closed s), (faulted s); inversion E; reflexivity. }
  unfold view_empty, view_valid. destruct (Z.eqb_spec (view_size record) 0); [done|].
  destruct record as [d|n']; cbn [orb negb]; [|done]. destruct (Z.ltb_spec (vh_max_block_payload (volume s))
    (view_size (View d))); [done|]. intros _. cbn [view_size] in *. pose proof (len_nonneg d). lia.
Qed.

(** C9: [append] either accepts the whole record, behind what was pending or
    at the start of a new block, and counts it once, or returns an error and
    accepts nothing; it never returns [Ok] for an empty, null or oversized
    record. *)
Theorem append_all_or_nothing {T} `{!Storage T, !StorageModel T} now record time flags expected
    (s s' : Impl T) r :
  winv s -> record_ok record time -> append_impl now record time flags expected s = (r, s') ->
  match r with
  | Ok _ => builder s' = pending s record ++ view_data record /\ winv s' /\
      accepted_records (metrics s') = inc (accepted_records (metrics s)) /\
      have_undurable_records s' = true /\
      0 < view_size record <= vh_max_block_payload (volume s)
  | Err _ => winv s' /\ accepted_records (metrics s') = accepted_records (metrics s)
  end.
Proof.
  intros Hw Hr H. pose proof (append_impl_spec now record time flags expected s Hw Hr) as Hx.
  unfold wp in Hx. rewrite H in Hx. destruct r as [[]|e].
  - destruct Hx as (_&?&_&?&?&?&_). split_and!; [done..| |].
    all: by apply (append_impl_size now record time flags expected s s').
  - by destruct Hx as (?&?&_).
Qed.
Lemma append_all_or_nothing_witness :
  builder sample_appended = pending sample_store sample_record ++ view_data sample_record /\
  winv sample_appended /\
  accepted_records (metrics sample_appended) = inc (accepted_records (metrics sample_store)) /\
  have_undurable_records sample_appended = true /\
  0 < view_size sample_record <= vh_max_block_payload (volume sample_store).
Proof.
  exact (append_all_or_nothing sample_clock sample_record 5 0 None sample_store sample_appended
    (Ok tt) sample_winv sample_call_ok sample_append_impl_eq).
Defined.

(** C10: publishing never fails for want of space: when the invariant holds,
    the only error [emit_builder] can return is the one of a failed media
    write, and that error is latched. *)
Theorem publish_fails_only_on_write {T} `{!Storage T, !StorageModel T} (s s' : Impl T) e :
  winv s -> faulted s = false -> emit_builder s = (Err e, s') ->
  write_error s e /\ faulted s' = true /\ fault_status s' = e /\ winv s'.
Proof.
  intros Hw Hf H. pose proof (emit_spec s Hw Hf) as Hx. unfold wp in Hx. rewrite H in Hx.
  destruct Hx as [(?&?&?&_) ?]. done.
Qed.

Lemma publish_fails_only_on_write_witness :
  write_error sample_broken sample_fault /\ faulted sample_faulted = true /\
  fault_status sample_faulted = sample_fault /\ winv sample_faulted.
Proof.
  exact (publish_fails_only_on_write sample_broken sample_faulted sample_fault
    (proj1 sample_broken_winv) (proj2 sample_broken_winv) sample_emit_eq).
Defined.

(** C2: after [checkpoint] returns [Ok] nothing is pending or volatile: the
    durable image equals the contents, all accepted records are counted
    durable, and from the durable image alone a reader finds every published
    block of the active partition with the scan and reads it back. *)
Theorem checkpoint_makes_durable {T} `{!Storage T, !StorageModel T, !ReliableReads T} now
    (s s' : Impl T) l :
  refines s l -> clean s -> checkpoint now s = (Ok tt, s') ->
  durable (storage s') = contents (storage s') /\ builder s' = [] /\ dirty s' = false /\
  durable_records (metrics s') = accepted_records (metrics s) /\
  exists p, active s' = Some p /\
    recoverable (volume s') (open_options s') (durable (storage s')) p (a_blocks (apublish l)).
Proof.
  intros Hr Hcl H. pose proof Hr as (Hw&_). pose proof (checkpoint_spec now s Hw) as Hx.
  unfold wp in Hx. rewrite H in Hx. pose proof (refines_settled _ _ _ Hx Hr) as (Hw'&_&p&log&Hl).
  destruct Hx as [_ _ ? ? _ ? ? _ Hd _]. specialize (Hd Hcl). split_and!; [done..|congruence|].
  exists p. split; [apply Hl|]. rewrite Hd. by eapply logged_recoverable.
Qed.
Lemma checkpoint_makes_durable_witness :
  durable (storage sample_settled) = contents (storage sample_settled) /\
  builder sample_settled = [] /\ dirty sample_settled = false /\
  durable_records (metrics sample_settled) = accepted_records (metrics sample_appended) /\
  exists p, active sample_settled = Some p /\
    recoverable (volume sample_settled) (open_options sample_settled)
      (durable (storage sample_settled)) p
      (a_blocks (apublish (mkAlog [] (view_data sample_record)))).
Proof.
  exact (checkpoint_makes_durable sample_clock sample_appended sample_settled
    (mkAlog [] (view_data sample_record)) sample_appended_refines sample_appended_clean
    sample_checkpoint_eq).
Defined.



(** ** Faults and the watchdog view *)

(** Whatever the backend answers and whatever calls are made, the
    lock-free mirrors a watchdog reads equal the fields under the mutex, and a
    recorded fault has an error code. *)
Theorem health_mirrors_state {T} `{!Storage T} now (s s' : Impl T) :
  health_ok s -> rtc (call_step now) s s' -> health_ok s'.
Proof. apply health_reachable. Qed.
Lemma health_mirrors_state_witness : health_ok sample_appended.
Proof.
  apply (health_mirrors_state sample_clock sample_store sample_appended).
  - vm_compute. split_and!; try reflexivity. intros H. discriminate H.
  - eapply rtc_l; [|apply rtc_refl]. exists sample_call. rewrite sample_append_eq. reflexivity.
Defined.


(** ** Readers *)

(** C5: the sequential scan ends within its bound and lists exactly the
    longest valid chain of frames that starts at the data region: every frame
    listed is on the media with valid checksums, sequence, writer chain and
    span, and every valid chain is a prefix of what is listed. It fails only
    when a read fails or the limit is outside the data region. *)
Theorem scan_finds_longest_chain {T} `{!Storage T, !StorageModel T, !ReliableReads T} h limit
    (s s' : Impl T) r :
  st_wf (storage s) -> geometry_ok (volume s) (st_size (storage s)) ->
  0 <= ph_slot h < vh_partition_count (volume s) -> scan_partition h limit s = (r, s') ->
  match r with
  | Ok r => moved s s' /\ exists log,
      scanned (volume s) h (contents (storage s)) (scan_bound (volume s) limit) 0
        kPartitionHeaderRegionSize 0 0 [] log r
  | Err _ => ~ rr_ok (storage s) \/
      ~ (kPartitionHeaderRegionSize <= scan_bound (volume s) limit <= index_begin (volume s))
  end.
Proof.
  intros Hwf Hg Hs H. pose proof (scan_partition_spec h limit s Hwf Hg Hs) as Hx. unfold wp in Hx.
  rewrite H in Hx. destruct r as [r|e].
  - destruct Hx as (Hm&log&_&Hl). split; [done|]. by exists log.
  - destruct Hx as [[_ ?]|[_ ?]]; auto.
Qed.
Lemma scan_finds_longest_chain_witness :
  moved sample_settled sample_scan_state /\ exists log,
    scanned (volume sample_settled) (ps_header sample_partition_state)
      (contents (storage sample_settled)) (scan_bound (volume sample_settled) 0) 0
      kPartitionHeaderRegionSize 0 0 [] log sample_scan.
Proof.
  exact (scan_finds_longest_chain (ps_header sample_partition_state) 0 sample_settled
    sample_scan_state (Ok sample_scan) (w_st _ (w_base _ (proj1 sample_settled_refines)))
    (w_geo _ (w_base _ (proj1 sample_settled_refines))) sample_slot_range sample_scan_eq).
Defined.

(** C6: on media that answer their reads, [read_block] with the catalogued
    entry of any published block returns exactly the bytes the client
    appended, in order, through the codec and both checksums, and leaves the
    media alone. *)
Theorem published_blocks_read_back {T} `{!Storage T, !StorageModel T, !ReliableReads T}
    (s : Impl T) l :
  refines s l -> rr_ok (storage s) ->
  exists p, active s = Some p /\ length (ps_active_index p) = length (a_blocks l) /\
    forall k e raw, ps_active_index p !! k = Some e -> a_blocks l !! k = Some raw ->
      exists md s', read_block p e s = (Ok (md, raw), s') /\ moved s s'.
Proof.
  intros (Hw&_&p&log&Hl) Hrr. exists p. split; [apply Hl|].
  assert (Hst : stable s (volume s) (open_options s) (contents (storage s)))
    by (split; try done; apply (w_st _ (w_base _ Hw))).
  destruct (logged_recoverable s p log _ Hw Hl) as (Hlen&Hrec).
  destruct (Hrec s Hst Hrr) as [_ Hrd]. split; [done|]. intros k e raw He Hra.
  specialize (Hrd k e raw He Hra). unfold wp in Hrd.
  destruct (read_block p e s) as [[[md r]|] s'] eqn:E; [|done]. destruct Hrd as [? <-].
  by exists md, s'.
Qed.
Lemma published_blocks_read_back_witness :
  exists p, active sample_settled = Some p /\
    length (ps_active_index p) = length (a_blocks (mkAlog [view_data sample_record] [])) /\
    forall k e raw, ps_active_index p !! k = Some e ->
      a_blocks (mkAlog [view_data sample_record] []) !! k = Some raw ->
      exists md s', read_block p e sample_settled = (Ok (md, raw), s') /\ moved sample_settled s'.
Proof.
  exact (published_blocks_read_back sample_settled (mkAlog [view_data sample_record] [])
    sample_settled_refines sample_settled_reliable).
Defined.

(** ** Limits of the code *)

(** C37: the frame bound of [load_index] is computed in 32 bits: for a maximal
    payload of at least 2^32 - 128 bytes it wraps, and every index entry of a
    sealed partition is rejected, although such a volume passes the geometry
    check. *)
Theorem huge_payload_rejects_index v i off e :
  is_u32 (vh_max_block_payload v) -> 2 ^ 32 - kBlockHeaderEncodedSize <= vh_max_block_payload v ->
  index_entry_bad v i off e = true.
Proof.
  intros Hu Hm. pose proof (eq_refl : kBlockHeaderEncodedSize = 128) as Hk.
  assert (u32 (kBlockHeaderEncodedSize + vh_max_block_payload v) < kBlockHeaderEncodedSize).
  { rewrite Hk in *. replace (128 + vh_max_block_payload v)
      with (vh_max_block_payload v + 128 - 2 ^ 32 + 1 * 2 ^ 32) by lia.
    unfold u32. rewrite Z_mod_plus_full, Z.mod_small; zlia. }
  unfold index_entry_bad. destruct (Z.ltb_spec (ie_frame_size e) kBlockHeaderEncodedSize).
  - by rewrite !orb_true_r.
  - rewrite (proj2 (Z.ltb_lt (u32 _) _)) by lia. by rewrite !orb_true_r.
Qed.
Definition huge_volume : VolumeHeader :=
  mkVolumeHeader 1 1 20000000000 5000000512 2 5120 4294967295 512 0.
Lemma huge_payload_rejects_index_witness :
  validate_volume_geometry huge_volume 20000000000 = Ok tt /\
  index_entry_bad huge_volume 0 4096 (mkIndexEntry 4096 133 512 0 1 0 0 0 5 1 1) = true.
Proof.
  split; [vm_compute; reflexivity|].
  apply (huge_payload_rejects_index huge_volume); vm_compute; [split; congruence|congruence].
Defined.


