(* ===== verification/PropsQuery.v ===== *)
(** * Properties of the ring as a whole *)

From S2P Require Import Prelude Status Hoare Crc32c Layout Format FormatFacts Codec PackBitsFacts.
From S2P Require Import Lz4 Lz4Facts Storage MemoryStorage MemoryStorageFacts RingTypes.
From S2P Require Import RingWriter RingReader RingOpen RingRules RingGeometry RingInv RingHealth.
From S2P Require Import RingWriterFacts RingCalls RingDisk RingScan RingLog RingRefine RingRead.
From S2P Require Import RingCrash RingStored RingQuery RingWhole RingVolume RingReadOnly.
From S2P Require Import RingSample.
From Stdlib Require Import Sorted.

(** C1: refinement. The store is an abstract volume: sealed partitions in
    generation order, the current partition, and a pending block, each block
    with its bytes and its record times. From related states every call that
    returns [Ok] is a step of the abstract volume: publishing adds the pending
    block to the current partition; rotation seals it, drops only the
    partition whose slot is reused, and starts the next generation; and every
    block of every partition stays on the media and decodable. A failed call
    keeps the writer invariant. *)
Theorem store_refines_volume {T} `{!Storage T, !StorageModel T} now c (s s' : Impl T) r a :
  vrefines s a -> call_ok c -> writable s = true -> closed s = false ->
  run_call now c s = (r, s') ->
  match r with
  | Ok _ => exists a', vstep (vh_max_block_payload (volume s)) (vh_partition_count (volume s)) c a a' /\
      vrefines s' a'
  | Err _ => winv s'
  end.
Proof.
  intros Hr Hc Hw Hcl H. pose proof (run_call_vrefines now c s a Hr Hc Hw Hcl) as Hx.
  unfold wp in Hx. rewrite H in Hx. by destruct r.
Qed.
Lemma store_refines_volume_witness : exists a',
  vstep (vh_max_block_payload (volume sample_store)) (vh_partition_count (volume sample_store))
    sample_call sample_volume a' /\ vrefines sample_appended a'.
Proof.
  exact (store_refines_volume sample_clock sample_call sample_store sample_appended (Ok tt)
    sample_volume (proj2 sample_ring) sample_call_ok (proj1 sample_writable)
    (proj1 (proj2 sample_writable)) sample_append_eq).
Defined.

(** ** Queries *)

(** C7: on media that answer their reads a query returns [Ok], moves nothing,
    and shows its visitor exactly the blocks of the wanted time range and time
    domain, each with its metadata and bytes, oldest partition first and in
    sequence order, until the visitor declines; [scan_blocks] shows the bytes
    of every block of the ring. *)
Theorem query_shows_every_block {T V} `{!Storage T, !StorageModel T, !ReliableReads T}
    (visitor : BlockEvent -> V -> bool * V) all_blocks range options (s : Impl T) u R x :
  ring s R x -> rr_ok (storage s) ->
  all_blocks = true \/ (tr_begin_ns range < tr_end_ns range /\ tr_time_domain_id range <> 0) ->
  (exists s', moved s s' /\ query visitor all_blocks range options s u =
     (Status_Ok,
      (s', snd (visit_all visitor (ring_events (volume s) all_blocks range (R ++ [x])) u)))) /\
  map be_data (ring_events (volume s) true range (R ++ [x])) = concat (map pt_raws (R ++ [x])).
Proof.
  intros Hr Hrr Hq. split; [|by apply (scan_blocks_data _ _ s), Hr].
  by apply query_catalogued; [apply ring_catalogued|..].
Qed.

Lemma query_shows_every_block_witness : exists R x s',
  ring sample_settled R x /\ moved sample_settled s' /\
  query (fun e l => (true, be_data e :: l)) true TimeRange_default (mkQueryOptions false true)
    sample_settled [] =
    (Status_Ok, (s', snd (visit_all (fun e l => (true, be_data e :: l))
       (ring_events (volume sample_settled) true TimeRange_default (R ++ [x])) []))).
Proof.
  destruct sample_settled_ring as (R&x&Hr&_).
  destruct (query_shows_every_block (fun e l => (true, be_data e :: l)) true TimeRange_default
    (mkQueryOptions false true) sample_settled [] R x Hr sample_settled_reliable (or_introl eq_refl))
    as ((s'&Hm&E)&_).
  exists R, x, s'. split; [exact Hr|]. split; [exact Hm|exact E].
Defined.

(** The event of the [k]-th block of a partition. *)
Lemma log_events_lookup v p : forall log raws off k f raw,
  log !! k = Some f -> raws !! k = Some raw ->
  exists off', log_events v p off log raws !! k = Some (block_event v p off' f raw).
Proof.
  induction log as [|g log IH]; intros raws off k f raw Hf Hr; [done|].
  destruct raws as [|r raws]; [done|]. destruct k as [|k]; cbn in *; simplify_eq.
  - by eexists.
  - by apply IH.
Qed.

(** C8: the time index loses no record: when a record of a block lies in the
    queried range, the block is among those shown, with its bytes and its
    record count. *)
Theorem query_misses_no_record {T} `{!Storage T, !StorageModel T} all_blocks range (s : Impl T) R x
    y b t :
  ring s R x -> y ∈ R ++ [x] -> in_domain all_blocks range (pt_state y) = true ->
  b ∈ ap_blocks (abstract_part y) -> t ∈ ab_times b ->
  tr_begin_ns range <= t < tr_end_ns range ->
  exists e, e ∈ ring_events (volume s) all_blocks range (R ++ [x]) /\ be_data e = ab_data b /\
    md_record_count (be_metadata e) = len (ab_times b) /\
    md_partition_generation (be_metadata e) = ap_generation (abstract_part y).
Proof.
  intros Hr Hy Hd Hb Ht Hrange. pose proof (rg_times _ _ _ Hr) as Htm. rewrite Forall_forall in Htm.
  specialize (Htm y Hy). cbn [abstract_part ap_blocks] in Hb.
  apply list_elem_of_lookup_1 in Hb as [k Hk]. apply lookup_zip_with_Some in Hk as (raw&ts&->&Hraw&Hts).
  cbn [ab_times ab_data] in *. destruct (Forall2_lookup_r _ _ _ _ _ Htm Hts) as (f&Hf&[[Hcv _] Hcnt]).
  destruct (log_events_lookup (volume s) (pt_state y) _ _ kPartitionHeaderRegionSize _ _ _ Hf Hraw)
    as (off&He).
  exists (block_event (volume s) (pt_state y) off f raw). split; [|done].
  unfold ring_events. apply list_elem_of_In, in_concat. eexists. split.
  - apply in_map, list_elem_of_In. exact Hy.
  - unfold part_events. rewrite Hd. apply filter_In. split.
    + apply list_elem_of_In, list_elem_of_lookup_2 with k. exact He.
    + unfold wanted. apply orb_true_iff. right. rewrite Forall_forall in Hcv. specialize (Hcv t Ht).
      unfold ranges_intersect. cbn. lia.
Qed.
Lemma query_misses_no_record_witness : exists R x e,
  ring sample_settled R x /\
  e ∈ ring_events (volume sample_settled) true (mkTimeRange 0 10 1) (R ++ [x]) /\
  be_data e = view_data sample_record.
Proof.
  destruct sample_settled_ring as (R&x&Hr&Hb).
  destruct (query_misses_no_record true (mkTimeRange 0 10 1) sample_settled R x x
    (mkAblock (view_data sample_record) [5]) 5 Hr) as (e&He&Hd&_).
  - apply elem_of_app. right. by left.
  - reflexivity.
  - rewrite Hb. by left.
  - by left.
  - simpl. lia.
  - exists R, x, e. split; [exact Hr|]. split; [exact He|exact Hd].
Defined.
