(* ===== verification/PropsReopen.v ===== *)
(** * Properties of the life of a volume: format, open, crash, reopen *)

From S2P Require Import Prelude Status Hoare Crc32c Layout Format FormatFacts Codec PackBitsFacts.
From S2P Require Import Lz4 Lz4Facts Storage MemoryStorage MemoryStorageFacts RingTypes.
From S2P Require Import RingWriter RingReader RingOpen RingRules RingGeometry RingInv RingHealth.
From S2P Require Import RingWriterFacts RingCalls RingDisk RingScan RingLog RingRefine RingRead.
From S2P Require Import RingCrash RingStored RingQuery RingWhole RingVolume RingOpenFacts.
From S2P Require Import RingFormatFacts RingReopen RingReadOnly RingLife RingSample FileStorage.
From S2P Require Import RandomId.


Lemma sample_open_ready : open_ready sample_open_options sample_random.
Proof. split; [exact sample_open_ok|split; vm_compute; reflexivity]. Qed.

(** C19: a formatted volume whose slots hold nothing of this volume opens as
    the empty abstract volume: when [format] and a writable [open] return
    [Ok], generation 1 starts in slot 0 with no block and nothing pending. *)
Theorem format_open_empty {T} `{!Storage T, !StorageModel T, !ReliableReads T} now vo id o random
    (st st1 st2 : T) status (s : Impl T) :
  st_wf st -> VolumeOptions_wf vo -> random_id_ok id ->
  format vo id st = (status, st1) -> status_ok status = true ->
  rr_ok st1 -> st_writable st1 = true -> open_ready o random ->
  (forall v, header_copy 0 (contents st1) = Ok v -> worst_span v <= UINT32_MAX /\
     forall slot, 0 <= slot < vh_partition_count v -> unclaimed v o slot (contents st1) = true) ->
  open now o random st1 = (Ok s, st2) ->
  vrefines s (mkAvol [] (mkApart 0 1 []) (mkAblock [] [])).
Proof.
  intros Hwf Hvo Hid Hf Hs Hrr Hw Hor Hun Ho.
  destruct (format_spec _ _ _ _ _ Hwf Hvo Hid Hf Hs) as (v&_&Hg&Hwf1&Hc&_).
  pose proof (copies_fit _ _ Hg) as Hfit. rewrite (st_size_contents _ Hwf) in Hfit.
  destruct (formatted_copies v (contents st) (g_wf _ _ Hg) (geometry_header_valid _ _ Hg))
    as (C0&C1&Hl&_); [unfold kVolumePrefixSize; lia|]. rewrite <- Hc in C0, C1, Hl.
  destruct (Hun v C0) as [Hsp Hvac].
  assert (Hg1 : geometry_ok v (st_size st1))
    by (rewrite (st_size_contents _ Hwf1), Hl, <- (st_size_contents _ Hwf); exact Hg).
  exact (open_blank_volume now v o random st1 st2 s Hwf1 Hrr Hw Hor Hg1 Hsp C0 C1 Hvac Ho).
Qed.
Lemma sample_slots_unclaimed v : header_copy 0 (contents sample_formatted) = Ok v ->
  worst_span v <= UINT32_MAX /\ forall slot, 0 <= slot < vh_partition_count v ->
    unclaimed v sample_open_options slot (contents sample_formatted) = true.
Proof.
  assert (Hb : match header_copy 0 (contents sample_formatted) with
    | Ok v => (worst_span v <=? UINT32_MAX) && (vh_partition_count v =? 2) &&
        unclaimed v sample_open_options 0 (contents sample_formatted) &&
        unclaimed v sample_open_options 1 (contents sample_formatted)
    | Err _ => true end = true) by (vm_compute; reflexivity).
  intros H. rewrite H in Hb. rewrite !andb_true_iff in Hb. destruct Hb as [[[Hw Hn] U0] U1].
  split; [apply Z.leb_le; exact Hw|]. apply Z.eqb_eq in Hn. intros slot. rewrite Hn. intros Hs.
  assert (slot = 0 \/ slot = 1) as [->| ->] by lia; assumption.
Qed.
Lemma format_open_empty_witness :
  vrefines sample_store (mkAvol [] (mkApart 0 1 []) (mkAblock [] [])).
Proof.
  apply (format_open_empty sample_clock sample_volume_options sample_random sample_open_options
    sample_random (MemoryStorage.make 27648 true) sample_formatted (snd sample_opened)
    (fst (format sample_volume_options sample_random (MemoryStorage.make 27648 true))) sample_store).
  - exact sample_blank_wf.
  - exact sample_options_wf.
  - exact sample_random_ok.
  - exact (surjective_pairing _).
  - exact sample_format_ok.
  - vm_compute. reflexivity.
  - vm_compute. reflexivity.
  - exact sample_open_ready.
  - exact sample_slots_unclaimed.
  - exact sample_open_eq.
Defined.


(** Answers to come: an interruption, or a number of zero bytes; then one
    byte at a time. *)
#[local] Instance sample_entropy : Entropy (list (option Z)) := {|
  sys_getrandom n w :=
    match w with
    | None :: w => (([], mkSysret (-1) EINTR), w)
    | Some k :: w => let m := Z.max 1 (Z.min k n) in ((zeroed m, mkSysret m EINTR), w)
    | [] => (([7], mkSysret 1 EINTR), [])
    end;
  getrandom_strerror _ := "error";
  dry := @length _ |}.
#[local] Instance sample_entropy_model : EntropyModel (list (option Z)).
Proof.
  split. intros n [|[k|] w] data r w' Hn; cbn [sys_getrandom sample_entropy dry]; intros [= <- <- <-]; cbn [ret].
  - split; [done|]. cbn. split; [lia|]. split; [done|]. split; [repeat constructor; lia|]. intros _ E. discriminate E.
  - split; [cbn; lia|]. rewrite (proj2 (Z.ltb_ge _ _)), len_zeroed by lia. split; [lia|]. split; [done|].
    split; [apply zeroed_ok|]. cbn. lia.
  - split; [cbn; lia|]. cbn. lia.
Qed.
