(* ===== verification/PropsTools.v ===== *)
(** * Properties of the command line tools *)

From stdpp Require Import gmap pretty.
From S2P Require Import Prelude Status Hoare Format Codec Storage MemoryStorage.
From S2P Require Import MemoryStorageFacts.
From S2P Require Import FileStorage FileStorageFacts FileSample RingTypes RingWriter RingReader.
From S2P Require Import RingOpen RingGeometry RingInv RingHealth RingWriterFacts RingCalls.
From S2P Require Import RingRead RingCrash RingStored.
From S2P Require Import RingQuery RingWhole.
From S2P Require Import RingVolume RingReopen RingReadOnly RingSample Tools ToolsFacts.

(** The number parsers of the tools give back every number their reports
    print: [parse_u64] the 64-bit ones in decimal and in hexadecimal behind
    [0x], [parse_i64] the signed ones. *)
Theorem parse_numbers_roundtrip :
  (forall n, is_u64 n -> parse_u64 (pretty n) = Some n /\ parse_u64 ("0x" +:+ hex_number n) = Some n) /\
  (forall n, is_i64 n -> parse_i64 (pretty n) = Some n).
Proof.
  split; intros n Hn.
  - destruct (skip_sign_pretty n ltac:(zlia)) as [Hs Hm]. unfold parse_u64, strtoull.
    rewrite Hm, Hs, subject_pretty by zlia. cbv zeta.
    change (starts_with_minus ("0x" +:+ hex_number n)) with false.
    change (take_sign (skip_spaces ("0x" +:+ hex_number n))) with (false, "0x" +:+ hex_number n).
    cbv beta iota. rewrite subject_hex by done. by rewrite (proj2 (Z.ltb_ge _ _)) by zlia.
  - unfold parse_i64, strtoll. destruct (Z.le_gt_cases 0 n) as [Hp|Hneg].
    + destruct (skip_sign_pretty n Hp) as [Hs _]. rewrite Hs, subject_pretty by done. cbv zeta.
      by rewrite (proj2 (Z.ltb_ge _ _)) by zlia.
    + destruct n as [|p|p]; try lia.
      change (take_sign (skip_spaces (pretty (Z.neg p)))) with (true, pretty (Z.pos p)).
      cbv beta iota. rewrite subject_pretty by lia. cbv zeta. by rewrite (proj2 (Z.ltb_ge _ _)) by zlia.
Qed.

(** C40: [parse_u64] refuses a leading minus sign but not one behind white
    space: such text is accepted as the two's complement of the number, and
    the empty text is accepted as 0. *)
Theorem parse_u64_hidden_minus n : 0 < n < 2 ^ 64 ->
  parse_u64 (" -" +:+ pretty n) = Some (2 ^ 64 - n) /\ parse_u64 ("-" +:+ pretty n) = None /\
  parse_u64 "" = Some 0.
Proof.
  intros Hn. split; [|done]. unfold parse_u64, strtoull.
  change (take_sign (skip_spaces (" -" +:+ pretty n))) with (true, pretty n).
  change (starts_with_minus (" -" +:+ pretty n)) with false. cbv beta iota.
  rewrite subject_pretty by lia. cbv zeta. rewrite (proj2 (Z.ltb_ge _ _)) by zlia. cbn [sv_range_error sv_end sv_value orb].
  rewrite bool_decide_true by done. cbn [negb]. f_equal. unfold u64.
  rewrite <- (Z_mod_plus_full (- n) 1), Z.mod_small by lia. lia.
Qed.
Lemma parse_u64_hidden_minus_witness : parse_u64 " -1" = Some (2 ^ 64 - 1).
Proof. exact (proj1 (parse_u64_hidden_minus 1 ltac:(lia))). Defined.

(** C25: tfdb_format touches nothing it was not clearly told to format. Without
    arguments, when the arguments do not parse, for a block device that is to be
    overwritten, was not confirmed with --yes or appears in the mount table, and
    for a file with --yes or of size 0, it exits with 1, makes no system call
    and reports no success. *)
Theorem format_refuses {K} `{!Posix K} random mounts path args (w : world K) :
  (args = [] \/
   match parse_format args (mkFormatArgs 0 false false false VolumeOptions_default) with
   | None => True
   | Some a =>
       if fa_device a
       then fa_overwrite a = true \/ fa_confirmed a = false \/ looks_mounted mounts path = true
       else fa_confirmed a = true \/ fa_size a = 0
   end) ->
  exists w', format_main random mounts (path :: args) w = (1, w') /\
    w_kernel w' = w_kernel w /\ w_cout w' = w_cout w.
Proof.
  intros H. unfold format_main, finish. destruct args as [|x args]; [by eexists|].
  destruct H as [H|H]; [done|]. cbv beta iota zeta. destruct (parse_format _ _) as [a|]; [|by eexists].
  unfold mbind, tool_bind, format_guards. destruct (fa_device a), (fa_overwrite a), (fa_confirmed a);
    cbn [andb negb]; try by eexists.
  - destruct H as [?|[?| ->]]; try done. by eexists.
  - destruct H as [?| ->]; [done|]. by eexists.
  - destruct H as [?| ->]; [done|]. by eexists.
Qed.
Lemma format_refuses_witness : exists w',
  format_main (Ok (11, 12)) (Some "/dev/sda1 / ext4 rw 0 0") ["/dev/sda1"; "--device"; "--yes"]
    (mkWorld sample_kernel "" "") = (1, w') /\ w_kernel w' = sample_kernel /\ w_cout w' = "".
Proof.
  apply (format_refuses (Ok (11, 12)) (Some "/dev/sda1 / ext4 rw 0 0") "/dev/sda1" ["--device"; "--yes"]
    (mkWorld sample_kernel "" "")).
  right. vm_compute. right. right. reflexivity.
Defined.

(** ** Reading back a checkpointed volume *)

Section ReadBack.
Context {T K : Type} `{!Storage T, !StorageModel T, !Posix K, !PosixModel K, !PosixReliable K}.
Variables (now now' : nat -> Z) (random : result (Z * Z)).



End ReadBack.


