(* ===== verification/PropsExamples.v ===== *)
(** * Properties of the example programs *)

From stdpp Require Import gmap pretty.
From S2P Require Import Prelude Status Codec Storage FileStorage FileStorageFacts FileNames.
From S2P Require Import DiskSample RingTypes RingGeometry Tools Examples ExamplesFacts.
From S2P Require Import AsyncWriter.
From S2P Require Import AsyncSystem ExamplesAsync ExamplesAsyncFacts ExamplesAsyncEnds.

(** C15: the quickstart example reads back what it wrote. On every kernel that
    keeps the contract of the system calls and whose reads succeed, the program
    started with one path ends with exit code 1, after a message on [cerr], or
    with exit code 0: then the file was created, formatted, written, closed and
    opened again by its name, and [cout] got exactly the two temperature
    records, in the order of their appends, without the pressure record
    between them. It never ends with 3, the code of an unexpected result. *)
Theorem quickstart_reads_back {K} `{!Posix K, !PosixModel K, !PosixReliable K, !PosixFiles K}
    now volume_id writer_random path (w : world K) exit_code w' :
  random_id_ok volume_id -> random_id_ok writer_random -> (forall k : K, pread_reliable k) ->
  Quickstart.main now volume_id writer_random [path] w = (exit_code, w') ->
  exit_code = 1 \/
  exit_code = 0 /\ w_cerr w' = w_cerr w /\
    w_cout w' = w_cout w +:+ "temperature=21.5" +:+ newline +:+ "temperature=21.7" +:+ newline.
Proof.
  intros Hv Hw Hr E. refine (QuickstartFacts.must_finish _ (fun _ w' => w_cerr w' = w_cerr w /\
    w_cout w' = w_cout w +:+ QuickstartFacts.printed) w _ _ _ E).
  apply QuickstartFacts.must_bind.
  eapply QuickstartFacts.must_conseq; [by apply QuickstartFacts.write_phase_writes|].
  intros [] w1 (Hwr&<-&<-).
  eapply QuickstartFacts.must_conseq; [by apply QuickstartFacts.read_phase_prints|].
  intros [] w2 [? ?]. by split.
Qed.

Definition sample_run : Z * world dkernel :=
  Quickstart.main (fun _ => 0) (Ok (1, 2)) (Ok (3, 4)) ["store"] (mkWorld sample_disk "" "").
Lemma sample_run_succeeds : fst sample_run = 0.
Proof. vm_compute. reflexivity. Qed.

Lemma quickstart_reads_back_witness :
  fst sample_run = 0 /\ w_cerr (snd sample_run) = "" /\
  w_cout (snd sample_run) = "temperature=21.5" +:+ newline +:+ "temperature=21.7" +:+ newline.
Proof.
  destruct (quickstart_reads_back (fun _ => 0) (Ok (1, 2)) (Ok (3, 4)) "store" (mkWorld sample_disk "" "")
    (fst sample_run) (snd sample_run)) as [H|H].
  - split; [split; lia|]. split; [split; lia|lia].
  - split; [split; lia|]. split; [split; lia|lia].
  - intros k. exact I.
  - exact (surjective_pairing _).
  - rewrite sample_run_succeeds in H. discriminate H.
  - exact H.
Defined.





