(* ===== verification/PropsLoad.v ===== *)
(** * Properties of the load generator *)

From stdpp Require Import sorting.
From Stdlib Require Import SpecFloat.
From S2P Require Import Prelude Status Hoare Crc32c Layout Format Codec Storage MemoryStorage.
From S2P Require Import MemoryStorageFacts RingTypes RingReader RingOpen RingScan RingQuery.
From S2P Require Import RingReadOnly RingSample RecordProfile Tools ToolsFacts LoadGen.
From S2P Require Import LoadGenFacts.
From S2P Require Import RecordFacts RingSession LoadGenQuery LoadGenReader LoadSample.
Import LoadGen.

(** C21: the oracle reconstructs exact writes. Whatever short transfers and
    interruptions the backend answers with, an exact write that returns [Ok]
    is observed once and whole; one that fails leaves what was seen before or
    an incomplete write, for which the oracle expects no summary. *)
Theorem oracle_sees_exact_writes {D} `{!Storage D, !StorageModel D} o off d
    (c c' : PersistenceOracle.t D) s :
  st_wf c -> bytes_ok d -> d <> [] -> 0 <= off -> off + len d < 2 ^ 64 ->
  PersistenceOracle.pending_ (PersistenceOracle.seen_ c) = PersistenceOracle.PendingWrite_default ->
  status_ok (PersistenceOracle.status_ (PersistenceOracle.seen_ c)) = true ->
  write_exact off (View d) c = (s, c') ->
  if status_ok s then
    PersistenceOracle.seen_ c' = PersistenceOracle.observe_write off d (PersistenceOracle.seen_ c) /\
    contents c' = splice off d (contents c)
  else
    PersistenceOracle.seen_ c' = PersistenceOracle.seen_ c \/
    PersistenceOracle.expected_summary o (PersistenceOracle.seen_ c') =
      Some (error StatusCode.corrupt "oracle has an incomplete exact write").
Proof.
  intros Hwf Hb Hne Hoff Hov Hp Hs H. assert (Hpos : 0 < len d) by (destruct d; [done|len_lia]).
  destruct (write_exact_spec off d c Hwf Hb Hoff Hov) as (s1&c1&k&E&Hk&Hw&Hfull).
  rewrite H in E. injection E as <- <-.
  assert (Hloop : write_loop (S (length d + interrupts c)) off 0 d c = Some (s, c')).
  { unfold write_exact, view_valid in H. rewrite orb_true_r in H. cbn [negb view_data] in H.
    destruct (write_loop_spec off d Hb Hoff Hov (S (length d + interrupts c)) 0 c Hwf ltac:(lia)
      ltac:(unfold len; lia)) as (?&?&?&E&_). rewrite E in H |- *. cbn in H. by f_equal. }
  pose proof (OracleFacts.observed_loop off d _ Hb Hp Hs Hoff Hov _ 0 c c' s Hwf ltac:(lia) eq_refl Hloop) as Ho.
  destruct (status_ok s) eqn:Es.
  - split; [done|]. destruct Hw as (_&_&_&_&_&Hc). by rewrite Hfull, takeZ_all in Hc by (done || lia).
  - destruct Ho as (j&Hj&Ho). unfold OracleFacts.midway in Ho. destruct (j =? 0); [by left|right].
    rewrite Ho. unfold PersistenceOracle.expected_summary. cbn. by rewrite Hs.
Qed.

Definition short_media : PersistenceOracle.t (ShortWriteStorage.t MemoryStorage.t) :=
  PersistenceOracle.mk (ShortWriteStorage.mk sample_formatted 2)
    (PersistenceOracle.make sample_volume_options 27648).
Definition short_written := write_exact 8192 (View [1; 2; 3; 4; 5]) short_media.
Lemma oracle_sees_exact_writes_witness :
  PersistenceOracle.seen_ (snd short_written) =
    PersistenceOracle.observe_write 8192 [1; 2; 3; 4; 5] (PersistenceOracle.seen_ short_media) /\
  contents (snd short_written) = splice 8192 [1; 2; 3; 4; 5] (contents short_media).
Proof.
  pose proof (oracle_sees_exact_writes load_options 8192 [1; 2; 3; 4; 5] short_media (snd short_written)
    (fst short_written)) as H.
  assert (Hs : status_ok (fst short_written) = true) by (vm_compute; reflexivity). rewrite Hs in H.
  apply H.
  - split; [exact (proj1 sample_formatted_wf)|vm_compute; reflexivity].
  - repeat constructor; unfold is_u8; lia.
  - discriminate.
  - lia.
  - vm_compute. reflexivity.
  - reflexivity.
  - reflexivity.
  - exact (surjective_pairing (write_exact 8192 (View [1; 2; 3; 4; 5]) short_media)).
Defined.


(** After any number of observations the latency samples are bounded:
    at most 65536 values are kept, all of them are observed values, nothing is
    lost before the bound, the maximum and the number of observations are
    exact, and every percentile is an observed value of at most the maximum. *)
Theorem latency_samples_bounded vs fraction :
  Forall (fun v => 0 <= v) vs -> len vs < 2 ^ 64 ->
  let x := foldl (fun x v => BoundedLatencySamples.add v x) BoundedLatencySamples.empty vs in
  BoundedLatencySamples.samples x = Z.min (len vs) 65536 /\
  BoundedLatencySamples.observations_ x = len vs /\
  BoundedLatencySamples.maximum_ x = foldr Z.max 0 vs /\
  (len vs <= 65536 -> BoundedLatencySamples.values_ x = vs) /\
  (vs <> [] -> BoundedLatencySamples.percentile fraction x ∈ vs /\
     BoundedLatencySamples.percentile fraction x <= BoundedLatencySamples.maximum_ x).
Proof.
  intros Hv Hn x. destruct (SampleFacts.add_all_sampled vs Hv Hn) as [H1 H2 H3 H4 H5].
  fold (SampleFacts.add_all vs) in x. fold x in H1, H2, H3, H4, H5. split_and!; try done.
  intros Hne. assert (Hx : BoundedLatencySamples.percentile fraction x ∈ vs).
  { rewrite Forall_forall in H4. apply H4, SampleFacts.percentile_member. intros E. rewrite E, len_nil in H1.
    unfold BoundedLatencySamples.kCapacity in H1. destruct vs; [done|]. rewrite len_cons in H1.
    pose proof (len_nonneg vs). lia. }
  split; [done|]. rewrite H3. by apply SampleFacts.foldr_max_ge.
Qed.
Lemma latency_samples_bounded_witness :
  BoundedLatencySamples.samples (foldl (fun x v => BoundedLatencySamples.add v x)
    BoundedLatencySamples.empty [30; 10; 20]) = 3.
Proof.
  exact (proj1 (latency_samples_bounded [30; 10; 20] p50 ltac:(repeat constructor; lia)
    ltac:(vm_compute; reflexivity))).
Defined.

(** Every generated record carries its ordinal: whatever profile and seed,
    the payload has 8 to 349 bytes, the reader's decoding of its front gives
    the ordinal back, and it can always be encoded as a framed record. *)
Theorem workload_carries_ordinal o ordinal : is_u64 ordinal ->
  read_ordinal (make_payload o ordinal) = ordinal /\ 8 <= len (make_payload o ordinal) < 350 /\
  bytes_ok (make_payload o ordinal) /\ encode_ordinal o ordinal = (Status_Ok,
    Some (FramedRecordV1.encoded_record (make_time o ordinal) (ordinal mod 64) 0 (make_payload o ordinal))).
Proof.
  intros Ho. destruct (payload_ordinal o ordinal Ho) as (?&?&?).
  split_and!; try done; try lia. by apply encode_ordinal_ok.
Qed.
Lemma workload_carries_ordinal_witness : read_ordinal (make_payload Options_default 77) = 77.
Proof. exact (proj1 (workload_carries_ordinal Options_default 77 ltac:(vm_compute; split; congruence))). Defined.

Lemma triple_eq {A B C} (x : A * (B * C)) : x = (fst x, (fst (snd x), snd (snd x))).
Proof. by destruct x as [? []]. Qed.

(** The measured query and the strict verification pass agree. On a store
    whose catalog is on the media and whose reads are answered, a strict pass
    that returns [Ok] means that the measured query returned [Ok] with the same
    counts, gaps and digest: the comparison of [main] never fails. *)
Theorem measured_query_agrees {T} `{!Storage T, !StorageModel T, !ReliableReads T} o (s s1 s2 : Impl T)
    L st1 st2 m q :
  catalogued_store s L -> rr_ok (storage s) ->
  measure_record_query s = (st1, (s1, m)) -> collect_records o s1 = (st2, (s2, q)) ->
  status_ok st2 = true -> status_ok st1 = true /\ measured_differs m q = false.
Proof.
  intros Hc Hr Hm Hq Hok.
  destruct (whole_query_catalogued measure_visitor s L collecting Hc Hr) as (s1'&Hm1&E1).
  unfold measure_record_query in Hm. cbv zeta in E1. rewrite E1 in Hm. clear E1.
  set (es := ring_events (volume s) false (rq_time whole_query) L) in *.
  set (g := visit_all (block_visitor measure_visitor whole_query FramedRecordV1.profile) es
    (mkCaptured true Status_Ok collecting)) in Hm.
  assert (Es : s1' = s1) by (destruct (negb _) in Hm; by injection Hm). subst s1'.
  assert (Hc1 : catalogued_store s1 L) by (by eapply catalogued_moved).
  assert (Hv : volume s1 = volume s) by (by destruct Hm1 as (?&->&_)).
  destruct (whole_query_catalogued (collect_visitor o) s1 L collecting Hc1 (moved_rr _ _ Hm1 Hr)) as (s2'&_&E2).
  unfold collect_records in Hq. cbv zeta in E2. rewrite E2, Hv in Hq. clear E2. fold es in Hq.
  set (f := visit_all (block_visitor (collect_visitor o) whole_query FramedRecordV1.profile) es
    (mkCaptured true Status_Ok collecting)) in Hq.
  pose proof (visit_all_step _ _ _ _ (block_visitor_step same_progress _ _ _ (collect_measure_step o) whole_query)
    es (mkCaptured true Status_Ok collecting) (mkCaptured true Status_Ok collecting)) as Hstep.
  fold f g in Hstep. specialize (Hstep ltac:(by repeat split)).
  destruct (status_ok (decode_status (snd f))) eqn:Ed; cbn [negb] in Hq; [|injection Hq as <- _ _; congruence].
  destruct (status_ok (cl_validation (user (snd f)))) eqn:Ev; cbn [negb] in Hq; [|injection Hq as <- _ _; congruence].
  destruct (_ || _) in Hq; [injection Hq as <- _ _; done|]. injection Hq as _ _ <-.
  destruct (fst f); [|destruct Hstep; congruence]. destruct Hstep as (_&_&_&Eds&Hag&Hval&_).
  rewrite <- Eds, Ed in Hm. cbn [negb] in Hm. injection Hm as <- <-. rewrite Hval.
  split; [done|]. by apply agree_measured.
Qed.

Definition load_measured := measure_record_query load_settled.
Definition load_collected := collect_records load_options (fst (snd load_measured)).
Lemma measured_query_agrees_witness :
  status_ok (fst load_measured) = true /\
  measured_differs (snd (snd load_measured)) (snd (snd load_collected)) = false.
Proof.
  destruct load_catalogued as (L&HL).
  apply (measured_query_agrees load_options load_settled (fst (snd load_measured))
    (fst (snd load_collected)) L (fst load_measured) (fst load_collected) (snd (snd load_measured))
    (snd (snd load_collected)) HL load_reliable).
  - exact (triple_eq (measure_record_query load_settled)).
  - exact (triple_eq (collect_records load_options (fst (snd load_measured)))).
  - vm_compute. reflexivity.
Defined.

(** C22: the oracle and the strict pass expect the same stream. When the
    oracle saw blocks of consecutive ordinals up to the last record and a query
    shows the same blocks with the generated records, [collect_records] returns
    [Ok] and its summary, the digest included, is the one [expected_summary]
    computes. *)
Theorem oracle_expects_collected {T} `{!Storage T, !StorageModel T, !ReliableReads T} o
    (x : PersistenceOracle.oracle) (s : Impl T) L start gb :
  catalogued_store s L -> rr_ok (storage s) -> records o <= 2 ^ 40 -> 0 <= start ->
  status_ok (PersistenceOracle.status_ x) = true ->
  PersistenceOracle.pw_active (PersistenceOracle.pending_ x) = false ->
  let retained := merge_sort PersistenceOracle.older
                    (List.filter PersistenceOracle.sl_active (PersistenceOracle.slots_ x)) in
  PersistenceOracle.contiguous retained = true -> ordered o None start (flat retained) ->
  last (flat retained) = Some gb -> PersistenceOracle.ob_last_ordinal (snd gb) + 1 = records o ->
  Forall2 (shows o) (ring_events (volume s) false (rq_time whole_query) L) (flat retained) ->
  exists s' q, collect_records o s = (Status_Ok, (s', q)) /\
    PersistenceOracle.expected_summary o x = Some (Ok q).
Proof.
  intros Hc Hr Hrec H0 Hs Hp retained Hct Ho Hl He H2.
  destruct (expected_ref o x start gb Hrec H0 Hs Hp Hct Ho Hl He) as (Hex&Hcnt&Hla). fold retained in Hex, Hcnt, Hla.
  destruct (collect_stream o (flat retained) Hrec _ collecting None start H0 H2 Ho) as (c'&E&Eout&Ev);
    [split; cbn; (done || lia || by left)|].
  destruct (whole_query_catalogued (collect_visitor o) s L collecting Hc Hr) as (s'&_&Eq).
  cbv zeta in Eq. rewrite E in Eq. cbn [snd decode_status user] in Eq. exists s', (cl_output c').
  split; [|by rewrite Eout]. unfold collect_records. rewrite Eq, Ev. change (status_ok Status_Ok) with true.
  cbn [negb]. rewrite Eout. cbn [cl_output collecting]. rewrite Hcnt, Hla. done.
Qed.
Lemma load_flat : flat (merge_sort PersistenceOracle.older
  (List.filter PersistenceOracle.sl_active (PersistenceOracle.slots_ load_oracle))) = [load_block].
Proof. vm_compute. reflexivity. Qed.
Lemma load_ordered : ordered load_options None 0 [load_block].
Proof. vm_compute. split_and!; try congruence; exact I. Qed.
Lemma load_shows L : catalogued_store load_settled L ->
  Forall2 (shows load_options) (ring_events (volume load_settled) false (rq_time whole_query) L) [load_block].
Proof.
  intros HL. rewrite (shown_events load_settled L false (rq_time whole_query) HL load_reliable)
    by (right; split; [vm_compute; reflexivity|done]).
  apply shows_single. vm_compute. reflexivity.
Qed.
Lemma oracle_expects_collected_witness : exists s' q,
  collect_records load_options load_settled = (Status_Ok, (s', q)) /\
  PersistenceOracle.expected_summary load_options load_oracle = Some (Ok q).
Proof.
  destruct load_catalogued as (L&HL).
  apply (oracle_expects_collected load_options load_oracle load_settled L 0 load_block HL load_reliable).
  - vm_compute. congruence.
  - lia.
  - vm_compute. reflexivity.
  - vm_compute. reflexivity.
  - vm_compute. reflexivity.
  - rewrite load_flat. exact load_ordered.
  - rewrite load_flat. reflexivity.
  - vm_compute. reflexivity.
  - rewrite load_flat. exact (load_shows L HL).
Defined.

(** C23: the concurrent reader of the load generator raises no false alarm.
    Between two calls of the writer, when every published block holds records
    of the workload, one iteration of the reader scans the whole store, sets
    no failure, sees no gap and counts every block and every record once; the
    verdict after a first such iteration over at least one record is to go
    on. *)
Theorem concurrent_reader_accepts {T} `{!Storage T, !StorageModel T, !ReliableReads T} o (s : Impl T) L nss r :
  profile o = "concurrent-read" -> catalogued_store s L -> rr_ok (storage s) ->
  Forall2 (block_shown o) (ring_events (volume s) true TimeRange_default L) nss ->
  exists s' r', reader_iteration o s r = (s', r') /\ moved s s' /\
    reader_failed r' = reader_failed r /\ reader_gaps r' = reader_gaps r /\
    reader_iterations r' = u64 (reader_iterations r + 1) /\
    u64 (reader_data_events r') = u64 (reader_data_events r + len nss) /\
    u64 (reader_records r') = u64 (reader_records r + len (concat nss)) /\
    (r = Reader_default -> len nss < 2 ^ 64 -> 0 < len (concat nss) < 2 ^ 64 -> reader_verdict o r' = None).
Proof.
  intros Hp Hc Hr H2.
  destruct (reader_events_shown o Hp _ nss r H2) as (r'&E&Hf&Hi&Hg&Hd&Hrec).
  destruct (query_catalogued (reader_event o) true TimeRange_default QueryOptions_default s r L Hc Hr
    ltac:(by left)) as (s'&Hm&Eq). rewrite E in Eq.
  exists s', (r' <| reader_iterations ::= fun n => u64 (n + 1) |>). unfold reader_iteration, scan_blocks.
  rewrite Eq. split; [done|]. split; [done|]. cbn. rewrite Hi.
  assert (Hlen : len (ring_events (volume s) true TimeRange_default L) = len nss)
    by (unfold len; f_equal; by eapply Forall2_length).
  assert (Hne : 0 < len (concat nss) -> 0 < len nss).
  { destruct nss as [|a l]; [done|]. intros _. rewrite len_cons. pose proof (len_nonneg l). lia. }
  rewrite Hlen in Hd. split_and!; try done. intros -> Hn Hcn. specialize (Hne (proj1 Hcn)).
  change (reader_data_events Reader_default) with 0 in Hd. change (reader_records Reader_default) with 0 in Hrec.
  rewrite Z.add_0_l in Hd, Hrec.
  unfold reader_verdict. cbn. rewrite Hf. cbn.
  rewrite (u64_small (len nss)) in Hd by zlia. rewrite (u64_small (len (concat nss))) in Hrec by zlia.
  rewrite (proj2 (Z.eqb_neq (reader_data_events r') 0)), (proj2 (Z.eqb_neq (reader_records r') 0));
    [by rewrite andb_false_r|intros Hz; rewrite Hz in Hrec; change (u64 0) with 0 in Hrec; lia
    |intros Hz; rewrite Hz in Hd; change (u64 0) with 0 in Hd; lia].
Qed.
Definition shownb (o : Options) (e : BlockEvent) (ns : list Z) : bool :=
  bool_decide (be_kind e = ev_data) &&
  bool_decide (be_data e = FramedFacts.block_of (map (generated o) ns)) &&
  (md_record_count (be_metadata e) =? len ns) && (len ns <? 2 ^ 32) &&
  forallb (fun n => (0 <=? n) && (n <? 2 ^ 40) && (n <? records o)) ns.
Lemma shownb_shown o e ns : shownb o e ns = true -> block_shown o e ns.
Proof.
  unfold shownb, block_shown. rewrite !andb_true_iff, !bool_decide_eq_true, Z.eqb_eq, Z.ltb_lt.
  intros ((((?&?)&?)&?)&Hf). split_and!; try done. rewrite forallb_forall in Hf.
  apply Forall_forall. intros n Hn%list_elem_of_In. specialize (Hf n Hn). unfold ordinal_ok. lia.
Qed.
Lemma load_blocks_shown L : catalogued_store load_settled L ->
  Forall2 (block_shown load_options) (ring_events (volume load_settled) true TimeRange_default L) [[0; 1]].
Proof.
  intros HL. rewrite (shown_events load_settled L true TimeRange_default HL load_reliable) by (by left).
  assert (H : forall es, match es with [e] => shownb load_options e [0; 1] | _ => false end = true ->
    Forall2 (block_shown load_options) es [[0; 1]]).
  { intros [|e [|? ?]] H; try done. constructor; [by apply shownb_shown|constructor]. }
  apply H. vm_compute. reflexivity.
Qed.
Lemma concurrent_reader_accepts_witness : exists s' r',
  reader_iteration load_options load_settled Reader_default = (s', r') /\
  reader_failed r' = false /\ reader_verdict load_options r' = None.
Proof.
  destruct load_catalogued as (L&HL).
  destruct (concurrent_reader_accepts load_options load_settled L [[0; 1]] Reader_default eq_refl HL load_reliable
    (load_blocks_shown L HL)) as (s'&r'&E&_&Hf&_&_&_&_&Hv).
  exists s', r'. split; [exact E|]. split; [exact Hf|]. apply Hv; [reflexivity|vm_compute; reflexivity|].
  split; vm_compute; reflexivity.
Defined.
