(* ===== verification/PropsRecord.v ===== *)
(** * Properties of record profiles *)

From S2P Require Import Prelude Status Crc32c Layout Format FormatFacts Codec Lz4 Storage.
From S2P Require Import RingTypes RingWriter RingReader RecordProfile RecordFacts.
Import FramedRecordV1 FramedFacts.

(** On any bytes [decode_block] terminates and splits them exactly: the
    visitor sees, in order, the records whose encodings make up a prefix of
    the block; [Ok] means the block is used up or the visitor declined, and
    the only error is [corrupt], at the first place where no record starts. *)
Theorem framed_decode_exact {V} (visitor : RecordView -> V -> bool * V) block v :
  bytes_ok block -> exists st v' rs tail,
    decode_block visitor (View block) v = (st, v') /\
    block = concat (map rv_encoded rs) ++ tail /\ Forall framed rs /\
    v' = snd (visit_records visitor rs v) /\
    (status_ok st = true -> tail = [] \/ fst (visit_records visitor rs v) = false) /\
    (status_ok st = false -> code st = StatusCode.corrupt /\ tail <> [] /\
       forall r n, decode_record tail <> Ok (r, n)).
Proof.
  intros Hok. destruct (decode_block_spec visitor block v Hok) as (st&v'&rs&tail&H&[? ? ? ? Hc]).
  exists st, v', rs, tail. split_and!; try done. intros Hs. by destruct (Hc Hs) as (?&_&?&?).
Qed.
Definition sample_records : list RecordView :=
  map (fun p => mkRecordView (encoded_record (fst p) 7 0 (snd p)) (snd p) (fst p) 7 0)
    [(-5, [1; 2; 3]); (9, []); (12, [4])].
Lemma framed_decode_exact_witness : exists st v' rs tail,
    decode_block (fun r (n : Z) => (true, n + 1)) (View (block_of sample_records ++ [1; 2])) 0 =
      (st, v') /\
    block_of sample_records ++ [1; 2] = concat (map rv_encoded rs) ++ tail /\ Forall framed rs /\
    v' = snd (visit_records (fun r n => (true, n + 1)) rs 0) /\
    (status_ok st = true ->
       tail = [] \/ fst (visit_records (fun r n => (true, n + 1)) rs 0) = false) /\
    (status_ok st = false -> code st = StatusCode.corrupt /\ tail <> [] /\
       forall r n, decode_record tail <> Ok (r, n)).
Proof.
  apply (framed_decode_exact (fun r n => (true, n + 1)) (block_of sample_records ++ [1; 2]) 0).
  apply Forall_forall. intros b Hb. apply list_elem_of_In in Hb.
  vm_compute in Hb. unfold is_u8.
  repeat (destruct Hb as [<-|Hb]; [split; [discriminate|reflexivity]|]). destruct Hb.
Defined.

Section Query.
Context {V : Type}.
Variable visitor : RecordEvent -> V -> bool * V.

(** C33: for a block written as framed records, a record query shows its
    visitor exactly the records inside the time range with a wanted selector,
    in order, with the fields they were encoded from, until the visitor
    declines; the block's record count agrees and nothing is reported
    corrupt. *)
Theorem record_query_delivers_selected query rs event (c : Captured) :
  Forall framed rs -> len rs < 2 ^ 32 -> be_kind event = ev_data ->
  be_data event = concat (map rv_encoded rs) ->
  md_record_format_id (be_metadata event) = kFramedRecordV1ProfileId ->
  md_record_format_version (be_metadata event) = 1 ->
  md_record_count (be_metadata event) = len rs -> keep_going c = true ->
  let r := visit_events visitor (be_metadata event) (List.filter (record_selected query) rs) (user c) in
  block_visitor visitor query FramedRecordV1.profile event c =
    (fst r, mkCaptured (fst r) Status_Ok (snd r)).
Proof. apply block_visitor_framed. Qed.
End Query.

Definition sample_event : BlockEvent :=
  mkBlockEvent ev_data
    (mkBlockMetadata 0 1 0 3 (-5) 12 0 CompressionId_none 100 100 4096 kFramedRecordV1ProfileId 1 1)
    (block_of sample_records) Status_Ok.
Definition sample_query : RecordQuery :=
  mkRecordQuery (mkTimeRange 0 12 1) [7] (mkQueryOptions false true).
Definition sample_visitor (e : RecordEvent) (l : list Z) : bool * list Z :=
  (true, rv_index_time_ns (re_record e) :: l).
Lemma sample_records_framed : Forall framed sample_records.
Proof.
  repeat constructor; try done; cbn; try (unfold is_i64, is_u64, is_u16; lia).
  all: unfold is_u8, UINT32_MAX, header_size, len; simpl; lia.
Qed.
Lemma record_query_delivers_selected_witness :
  block_visitor sample_visitor sample_query FramedRecordV1.profile sample_event
    (mkCaptured true Status_Ok []) = (true, mkCaptured true Status_Ok [9]).
Proof.
  refine (record_query_delivers_selected sample_visitor sample_query sample_records sample_event
    (mkCaptured true Status_Ok []) sample_records_framed _ _ _ _ _ _ _); reflexivity.
Defined.
