(* ===== verification/PropsAsync.v ===== *)
(** * Properties of the asynchronous writer *)

From S2P Require Import Prelude Status Hoare Crc32c Layout Format FormatFacts Codec PackBitsFacts.
From S2P Require Import Lz4 Lz4Facts Storage MemoryStorage MemoryStorageFacts RingTypes.
From S2P Require Import RingWriter RingReader RingOpen RingRules RingGeometry RingInv RingHealth.
From S2P Require Import RingWriterFacts RingCalls RingDisk RingScan RingLog RingRefine RingRead.
From S2P Require Import RingCrash RingErrors RingSample.
From S2P Require Import AsyncWriter AsyncSystem AsyncFacts AsyncFlow AsyncInv AsyncSample.
Import AsyncWriter.



(** No wakeup is lost: while a [checkpoint] caller is blocked, the thread
    exists, and when it waits for work its condition already holds, whatever
    the clock says; its next turn appends the oldest queued record or
    checkpoints. *)
Theorem async_no_lost_wakeup {T} `{!Storage T, !StorageModel T} store_clock o (s : Impl T) l
    (y : System T) target started now :
  caps_ok o -> health_ok s -> clean s -> refines s l ->
  rtc (bounded_step store_clock) (initial o s l) y ->
  target <= requested_barrier_ (sy_writer y) -> checkpoint_wait target (sy_writer y) = false ->
  sy_pc y <> pc_none /\
  wake started now (sy_writer y) = true /\
  (idle (sy_pc y) -> let turn := fst (decide started now now (sy_writer y)) in
     tn_do_checkpoint turn = true \/
     exists it rest, queue_ (sy_writer y) = it :: rest /\ tn_item turn = Some it).
Proof.
  intros Hc Hh Hcl Hr Hs Ht Hw.
  pose proof (sys_ok_reachable store_clock o _ y Hc (sys_ok_initial o s l Hc Hh Hcl Hr) Hs)
    as [Ho Hrun _ Hf _ _].
  unfold checkpoint_wait in Hw. rewrite !orb_false_iff, !negb_false_iff, Z.leb_gt in Hw.
  destruct Hw as [[Hlt Hb] Hr']. specialize (Hf Hb).
  destruct (fl_signal _ _ _ _ _ Hf) as [Hsg|]; [|lia].
  split; [by apply Hrun|]. split; [unfold wake; by rewrite Hsg, !orb_true_r|].
  intros Hi. unfold decide. rewrite Hsg. cbv zeta. cbn [andb].
  pose proof (fl_requested _ _ _ _ _ Hf). pose proof (fl_processed _ _ _ _ _ Hf) as Hp.
  pose proof (fl_split _ _ _ _ _ Hf) as Hsp. destruct (idle_empty _ Hi) as (E1&E2&_).
  rewrite E1, E2, ?len_nil in *. simpl in Hsp. destruct (queue_ (sy_writer y)) as [|it rest].
  - left. rewrite (proj2 (Z.leb_le _ _)); [by rewrite orb_true_r|].
    rewrite Hsp, app_nil_r in *. lia.
  - destruct (_ || _) eqn:Ed; cbn [negb fst tn_do_checkpoint tn_item]; [by left|right].
    by exists it, rest.
Qed.
Definition async_waiting : System MemoryStorage.t := performed schedule_waiting.
Lemma async_no_lost_wakeup_witness :
  sy_pc async_waiting <> pc_none /\ wake 11 16 (sy_writer async_waiting) = true /\
  (idle (sy_pc async_waiting) -> let turn := fst (decide 11 16 16 (sy_writer async_waiting)) in
     tn_do_checkpoint turn = true \/
     exists it rest, queue_ (sy_writer async_waiting) = it :: rest /\ tn_item turn = Some it).
Proof.
  refine (async_no_lost_wakeup sample_clock sample_async_options sample_store afresh
    async_waiting 2 11 16 sample_caps sample_health sample_clean sample_refines
    (performed_steps schedule_waiting (proj1 (proj2 schedules_perform))) _ _).
  - vm_compute. congruence.
  - vm_compute. reflexivity.
Defined.


Lemma failed_step {T} `{!Storage T, !StorageModel T} store_clock o (y y' : System T) :
  sys_ok o y -> step store_clock y y' -> status_ok (background_status_ (sy_writer y)) = false ->
  background_status_ (sy_writer y') = background_status_ (sy_writer y) /\
  queue_ (sy_writer y') = queue_ (sy_writer y) /\ sy_store y' = sy_store y /\
  sy_accepted y' = sy_accepted y.
Proof.
  intros Hy H Hb. pose proof (si_failed _ _ Hy Hb) as Hpc.
  assert (Hr : running_ (sy_writer y) = false)
    by (apply not_true_iff_false; rewrite (si_running _ _ Hy); auto).
  destruct H; try congruence; simpl.
  - unfold start in H0. rewrite Hr, Hb in H0. simpl in H0. injection H0 as H0 _. by rewrite H0 in Hb.
  - unfold submit_impl in H0. rewrite Hb in H0. simpl in H0. injection H0 as _ <-.
    by rewrite drop_all, app_nil_r.
  - unfold checkpoint_request in H. rewrite Hb in H. simpl in H. by injection H as _ <-.
  - unfold stop_request. by rewrite Hr.
Qed.

(** C32: a background failure is final: from then on no record is accepted or
    appended, the thread has returned, and [start], [submit], [checkpoint] and
    [stop] all report the status that was recorded first. *)
Theorem async_failure_latched {T} `{!Storage T, !StorageModel T} store_clock o (s : Impl T) l
    (y y' : System T) :
  caps_ok o -> health_ok s -> clean s -> refines s l ->
  rtc (bounded_step store_clock) (initial o s l) y ->
  status_ok (background_status (sy_writer y)) = false ->
  rtc (bounded_step store_clock) y y' ->
  let e := background_status (sy_writer y) in let w := sy_writer y' in
  sy_pc y' = pc_none /\ sy_store y' = sy_store y /\ sy_accepted y' = sy_accepted y /\
  background_status w = e /\ start (sy_store y') w = (e, w) /\
  (forall r t f x now, submit_impl r t f x now w = (e, w)) /\
  checkpoint_request w = (Err e, w) /\
  (forall target, checkpoint_wait target w = true /\ checkpoint_return target w = e).
Proof.
  unfold background_status. intros Hc Hh Hcl Hr Hs Hb Hs'.
  pose proof (sys_ok_reachable store_clock o _ y Hc (sys_ok_initial o s l Hc Hh Hcl Hr) Hs) as Hy.
  assert (H : sys_ok o y' /\ background_status_ (sy_writer y') = background_status_ (sy_writer y) /\
    sy_store y' = sy_store y /\ sy_accepted y' = sy_accepted y).
  { clear Hs. induction Hs' as [|a b c Hst _ IH]; [done|].
    destruct (failed_step store_clock o a b Hy (proj1 Hst) Hb) as (E1&_&E2&E3).
    destruct IH as (H1&H2&H3&H4); [by rewrite E1|by eapply sys_ok_step|].
    split; [done|]. split_and!; congruence. }
  destruct H as (Hy'&E1&E2&E3). cbv zeta. rewrite <- E1 in Hb |- *.
  pose proof (si_failed _ _ Hy' Hb) as Hpc.
  assert (Hrun : running_ (sy_writer y') = false)
    by (apply not_true_iff_false; rewrite (si_running _ _ Hy'); auto).
  unfold start, submit_impl, checkpoint_request, checkpoint_wait, checkpoint_return.
  rewrite Hb, Hrun. simpl. split_and!; try done. intros target. split; [|done]. by rewrite orb_true_r.
Qed.
Definition async_failed : System MemoryStorage.t := performed schedule_failed.
Lemma async_failure_latched_witness :
  let e := background_status (sy_writer async_failed) in let w := sy_writer async_failed in
  sy_pc async_failed = pc_none /\ sy_store async_failed = sy_store async_failed /\
  sy_accepted async_failed = sy_accepted async_failed /\
  background_status w = e /\ start (sy_store async_failed) w = (e, w) /\
  (forall r t f x now, submit_impl r t f x now w = (e, w)) /\
  checkpoint_request w = (Err e, w) /\
  (forall target, checkpoint_wait target w = true /\ checkpoint_return target w = e).
Proof.
  refine (async_failure_latched sample_clock sample_async_options sample_store afresh
    async_failed async_failed sample_caps sample_health sample_clean sample_refines
    (performed_steps schedule_failed (proj2 (proj2 (proj2 (proj2 schedules_perform))))) _ _).
  - vm_compute. reflexivity.
  - apply rtc_refl.
Defined.
